(* ===== verification/_CoqProject ===== *)
-Q . S2P
Prelude.v
Errors.v
Crdt.v
Replica.v
Broadcast.v
Store.v
StoreConc.v
Linearizable.v
StoreExamples.v
UnitTests.v
Config.v
DashMap.v
Peer.v
Protocol.v
Snapshot.v
Bincode.v
Manager.v
ProtocolExamples.v
Cluster.v
ClusterLemmas.v
PeerRecords.v
ClusterSafety.v
ClusterSpec.v
ClusterTypes.v
ClusterSync.v
Topology.v
Convergence.v
OneClock.v
Starved.v
Restart.v
RestartRuns.v
ConvergenceTests.v
Polling.v
Demo.v
SharedIdentifier.v
StarDivergence.v
Divergence.v
ClusterExamples.v
ConvergenceExamples.v
RpcTypes.v
RpcHandler.v
RpcServer.v
Process.v
ProcessLemmas.v
Shutdown.v
Subscribers.v
Transcript.v
Programs.v
LockRules.v
Interleaving.v
Network.v
Delivery.v
ClientReplica.v
NetworkRefines.v
NetworkConvergence.v
RpcExamples.v
ProcessExamples.v
NetworkExamples.v
InterleavingExamples.v
