(* ===== verification/Prelude.v ===== *)
(** * State-sync engine: a verification development

    The engine (Rust, src/src/) keeps a replicated key-value store on every
    node.  A node has a store of last-writer-wins registers, a gossip manager
    that pushes to random peers what they have not acknowledged, and a
    JSON-RPC server through which clients read, write and subscribe.

    ** How the parts interact

    A client's [state.set] reaches [StateStore::set], which merges the new
    register into the map under the write lock and then announces it on a
    broadcast channel.  Every interval the scheduler picks peers, sends each
    the entries newer than its cursor ([PeerInfo::last_sync_ts]) in one
    framed message, and moves the cursor when the acknowledgement comes.  The
    receiver merges the entries ([StateStore::merge_delta], which announces
    the keys that changed), registers the sender and acknowledges.  A client
    that subscribed is sent the announced values.  The peer table is shared
    by the manager and the RPC server.

    ** Files, in dependency order

    - Prelude.v: results, panics, machine integers, iterators, traversals of
      hash maps, automation.
    - Errors.v (error.rs): the error type.
    - Crdt.v (state/crdt.rs): the register, [merge], [now_micros].  The class
      [MergeRegister] is what the layers above use of it: a decidable total
      preorder of which [rmerge] computes an upper bound, preferring its
      first argument.
    - Replica.v: the specification.  A replica is a map of registers, a
      history is a list of entries, and [repr h m] says that [m] holds for
      every key a greatest entry of [h].  [coherent h]: no two values of a
      key are tied.  Proved against [MergeRegister].
    - Broadcast.v: the interface of tokio's broadcast channel, with an instance.
    - Store.v (state/store.rs): every operation of [StateStore].  [set_locked]
      and [merge_locked] are the critical sections.
    - StoreConc.v: calls of [set] and [merge_delta] as tasks that take their
      atomic actions one at a time, interleaved ([cstep], [run_schedule]).
      Linearizable.v: all operations called concurrently, and the sequential
      store ([apply_call]) that their callers see.
    - StoreExamples.v: the properties of these files at inputs.
      UnitTests.v: the unit tests of crdt.rs and store.rs, for every clock.
    - Config.v (config.rs), DashMap.v (interface of the peer table's
      container), Peer.v (gossip/peer.rs).
    - Protocol.v (gossip/protocol.rs): framing over byte streams, for any
      codec ([Codec], the interface of bincode); Snapshot.v
      (state/snapshot.rs); Bincode.v, a codec that satisfies the laws.
    - Manager.v (gossip/manager.rs): [GossipManager_new], the pieces of
      [gossip_round] ([select_targets], [round_target], [finish_task]), the
      round as a whole, [handle_inbound], [send_and_ack].
    - ProtocolExamples.v: the properties of these files at inputs.
    - Cluster.v: any number of nodes.  [action] is one atomic step of one
      task, [exec] performs it, [run] a sequence.  A push in progress is a
      [flight]; it can be delayed, lost, given up by its sender after it was
      received, and overtaken.
    - ClusterLemmas.v: what every step changes ([exec_effect]), monotonicity,
      the structural and history invariants.  PeerRecords.v: what a record of
      a peer says of the exchanges with it.  ClusterSafety.v,
      ClusterTypes.v, ClusterSync.v: the properties.  ClusterSpec.v: the
      replicated set that a cluster implements.  Demo.v, ClusterExamples.v:
      executions of two nodes.  Divergence.v: one that never converges.
    - Topology.v: who can push to whom ([linked]).  Convergence.v: when all
      nodes end with the last writes ([served], [converged]).  OneClock.v:
      what one clock gives.  Starved.v: the invariant of a node that a value
      never comes to.  Restart.v: a node that is stopped and started again
      between two executions.  RestartRuns.v: executions in which nodes stop,
      start and join at any time ([live_run]).
    - ConvergenceTests.v (tests/convergence.rs): the nodes of the integration
      tests and what each waits for; Polling.v: how it waits
      ([converge_within]).  StarDivergence.v: an execution on which one of
      them never ends.  SharedIdentifier.v: two processes, one after the
      other, under one identifier.  ConvergenceExamples.v: the properties of
      these files at executions.
    - RpcTypes.v, RpcHandler.v, RpcServer.v (rpc/types.rs, rpc/handler.rs,
      rpc/server.rs): the JSON-RPC objects, the dispatch of one request, the
      loop of one connection.  RpcExamples.v: inputs, with a JSON printer.
    - Process.v: the process of main.rs.  A [Proc] has the states of all its
      tasks: [main], the two accept loops and the scheduler ([run],
      [run_listener], [run_scheduler] of gossip/manager.rs, [run] of
      rpc/server.rs), a task per connection, inbound message and push, around
      the handles they share and the cancellation token.  A [paction] is one
      step of one task, [pexec] performs it.
    - ProcessLemmas.v: these steps as a relation ([pstep]) and the invariants
      of the loops and of the store.  Shutdown.v: winding down.
      Subscribers.v: a connection among the other tasks; Transcript.v: all that
      it reads and is written; Delivery.v: from a push to the lines of a
      subscriber; ClientReplica.v: the replica a client can keep.
    - Programs.v: the steps of a process instruction by instruction
      ([step_prog]): the guard of the store is taken and released, the map
      read and written under it, events are sent and received, the peer table
      is called and its references are dropped.  LockRules.v: run alone, these
      programs are the steps of [pexec], and they keep to the documented lock
      rules ([obeys]).  Interleaving.v: the instructions of any tasks
      interleaved ([istep]), and the same with every section under the lock
      as one step ([astep]).
    - Network.v: processes whose push tasks and inbound tasks are joined by
      connections.  NetworkRefines.v: such a network implements a cluster.
      NetworkConvergence.v: the convergence theorems for running processes.
      ProcessExamples.v, NetworkExamples.v, InterleavingExamples.v: executions.

    The layers are connected by simulations: a network of processes is a
    cluster (NetworkRefines.v), a cluster is a replicated set
    (ClusterSpec.v), a connection of a process is the loop of RpcServer.v
    ([prun_serves]), a step of a process is its program run alone
    (LockRules.v), the instructions of the programs of many tasks come to what
    their sections do one after the other (Interleaving.v), and every store,
    alone or under concurrent calls, implements the history specification of
    Replica.v ([repr]).

    ** What the theorems show

    - The register (C1): [merge] is a least upper bound of a total preorder;
      it commutes exactly on values that are not tied ([merge_comm_iff]).
    - The store (C22): it refines the history specification.  Each operation
      on each branch; merging a delta does not depend on order or repetition,
      reports exactly the keys it changed, and nothing goes backwards; a
      second write within the same microsecond is discarded (unnumbered
      theorems of Store.v).
    - Concurrent calls (C6, C34): the store is linearizable, so that a call
      may be taken as one step; once a set of coherent concurrent calls has
      finished, the events announced to a fresh subscriber bring its replica
      to the map of the store, and it receives all of them if they fit the
      channel.  What is read under two locks, as in sync.status, need not be
      of one moment ([status_torn]).
    - Locks (C12 to C14): every step is a program that keeps to the rules that
      the sources document; the instructions of any number of tasks never
      deadlock and run out; no two tasks race for the map, and their sections
      under the lock may be taken as one step each.
    - The wire and the manager (C31, C35 to C37): messages survive the
      stream, what each handler does on every branch, a whole push.
    - The cluster (C2, C7, C24, C25, C29, C30, C33): it refines the
      replicated set; strong eventual consistency; values are not invented
      and not tied; a merged push stays received, and so does an
      acknowledged one; the records of the peers are an exact account of the
      exchanges; a delta push does what a full one would.  The cursor protocol
      is complete as long as every entry reaches a node before the node's
      cursors pass its timestamp, or the peers concerned have it
      ([fresh_run]).
    - Convergence (C4, C5, C10, C18, C19, C27): after the last write, all
      nodes hold the last value of every key, and keep it, once the writers
      have served the others, if the execution is fresh (C5).  Two running
      processes under one clock always converge (C4), and so does a star in
      which the hub's clients alone write (C19); the steps by which a process
      serves another are possible from any state in which both run (C18).
      Beyond that there are counterexamples: three nodes under one clock
      (C10) and two nodes with skewed clocks (C27) which no further gossip
      makes equal.
    - Restarts (C8, C11, C21, C26): as long as every process has an identifier
      of its own, agreement survives any restarts; values of processes that
      share one can be tied for ever.  Under a configured identifier, what was
      pushed to the node before never comes back; under a new one everything
      does.
    - RPC (C16, C38 to C40): what each request is answered and what it
      changes; all that a connection is written, in order; what an abandoned
      read makes of a request line.
    - The process (C15, C17, C20, C23, C28, C32): a subscriber is sent, or
      told it missed, every event of its subscription, whatever the other
      tasks do; a pushed value reaches the subscribers of the receiver; the
      store holds exactly the merge of what clients wrote and peers sent;
      [main] returns only after all loops have ended, and does return
      whatever clients and peers do.  Zeros in the configuration
      ([zero_configuration]).
    - The network (C3, C9): it refines the cluster, so that processes that
      received the same writes hold the same state.
    - The tests: the unit tests of the sources pass at exactly the clock
      readings that [unit_tests_pass] names (UnitTests.v); what each
      integration test waits for holds on every execution once the nodes that
      wrote have served the others (ConvergenceTests.v), and a test returns
      if that happens in time (Polling.v), with the exception of C10.

    ** Conventions and limits

    - Unsigned integers are [N] with the wrap-around of the release profile
      written out; the wall clock is [Z] nanoseconds from the epoch, so that
      the panic of [now_micros] before it is modelled ([outcome]).  [usize]
      is 64 bits wide.
    - Strings are their UTF-8 bytes.
    - Each traversal of a [HashMap] takes its order ([hash_iter]) as an
      argument; the shuffle, clock readings and the identifiers drawn at
      random are arguments as well.
    - Libraries are classes: operations, and laws that state documented
      behaviour (Broadcast.v, DashMap.v, [CodecLaws]); each has an instance
      on which the examples run.  JSON is only its operations ([ToJson],
      [RequestParser]).
    - Definitions are structurally recursive, and executions are lists of
      actions.  The only fuel is that of [wind_down] in Shutdown.v, where
      [left], the number of tasks still to end, is enough
      ([shutdown_terminates]).
    - Atomicity: an action of Cluster.v contains at most one critical section
      of the store or one access to the peer table ([AMerge] is the merge
      with the events it sends, which no step of the cluster observes).  A
      turn of a task in Process.v is one step, the dispatch of a request
      included; that a call of the store may be one step is linearizability
      (C6), and the interleaving of the events is that of StoreConc.v.
    - An execution of Process.v or Network.v has each process run once;
      restarts are steps of the executions of RestartRuns.v.
    - In Interleaving.v the lock of the store admits many readers or one
      writer, with or without preference for the writers that wait, as
      [parking_lot::RwLock] is free to choose.  The shard locks inside
      [DashMap] are not modelled: a call of the table is one instruction.  Its
      documentation says that a call may deadlock while the caller holds a
      reference into the map: with a reference held, no call of the table and
      no lock is to be had, and a call may be kept waiting as long as any
      other task holds one ([unhindered]).
    - A connection of Network.v can break on either side: the receiver may
      read any prefix of what was sent, and the sender may give up.
    - Network.v delivers no message of 4 GiB or more (whose length field
      wraps; Protocol.v has what becomes of them).
    - A failing [set_nodelay] ends a connection as a failing read does.
    - Not modelled: logging; the parsing of the command line by clap (the
      configuration is its result); the sockets below reading, writing,
      connecting and accepting; the passage of time, so that timeouts and
      intervals are choices of the environment, and so is how long a test
      sleeps in Polling.v; the benchmarks, which measure it; the re-exporting modules; the memory
      ordering of the generation counter, which one task increments. *)
From stdpp Require Export base gmap strings list fin_maps pretty.
From Stdlib Require Export ZArith NArith Lia.

Declare Scope sse_scope.
Delimit Scope sse_scope with sse.

(** * Results and panics *)

(** Rust's [Result<A, E>]. *)
Inductive result (E A : Type) : Type :=
| Ok (a : A)
| Err (e : E).
Arguments Ok {E A} a.
Arguments Err {E A} e.

#[export] Instance result_ret E : MRet (result E) := fun A a => Ok a.
#[export] Instance result_bind E : MBind (result E) :=
  fun A B f m => match m with Ok a => f a | Err e => Err e end.
#[export] Instance result_fmap E : FMap (result E) :=
  fun A B f m => match m with Ok a => Ok (f a) | Err e => Err e end.

(** [Result::map_err]. *)
Definition map_err {E F A} (f : E -> F) (r : result E A) : result F A :=
  match r with Ok a => Ok a | Err e => Err (f e) end.

(** A computation that may panic ([expect], [assert!]): the message is the
    one handed to the panic handler. *)
Inductive outcome (A : Type) : Type :=
| Done (a : A)
| Panic (msg : string).
Arguments Done {A} a.
Arguments Panic {A} msg.

#[export] Instance outcome_ret : MRet outcome := fun A a => Done a.
#[export] Instance outcome_bind : MBind outcome :=
  fun A B f m => match m with Done a => f a | Panic s => Panic s end.

(** * Machine integers *)

(** Unsigned integers are [N]; arithmetic that can leave the type is wrapped
    explicitly.  [U64], [U32] and [U16] are the numbers of values. *)
Definition U64 : N := 18446744073709551616.
Definition U32 : N := 4294967296.
Definition U16 : N := 65536.

Definition wrap64 (n : N) : N := (n mod U64)%N.
Definition wrap32 (n : N) : N := (n mod U32)%N.

Lemma wrap64_small n : (n < U64)%N -> wrap64 n = n.
Proof. apply N.mod_small. Qed.

Lemma wrap64_lt n : (wrap64 n < U64)%N.
Proof. apply N.mod_upper_bound. discriminate. Qed.

Lemma wrap32_small n : (n < U32)%N -> wrap32 n = n.
Proof. apply N.mod_small. Qed.

Lemma wrap32_lt n : (wrap32 n < U32)%N.
Proof. apply N.mod_upper_bound. discriminate. Qed.

(** * Iterators *)

(** [Iterator::max] on unsigned integers. *)
Fixpoint iter_max (l : list N) : option N :=
  match l with
  | [] => None
  | x :: l' =>
      match iter_max l' with
      | None => Some x
      | Some y => Some (N.max x y)
      end
  end.

Lemma iter_max_None l : iter_max l = None <-> l = [].
Proof. destruct l as [|x l]; simpl; [done|]. destruct (iter_max l); naive_solver. Qed.

Lemma iter_max_ub l x : x ∈ l -> exists m, iter_max l = Some m /\ (x <= m)%N.
Proof.
  induction l as [|y l IH]; [by intros ?%not_elem_of_nil|].
  intros [->|Hx]%elem_of_cons; simpl.
  - destruct (iter_max l); eexists; split; try done; lia.
  - destruct (IH Hx) as (m & -> & ?). eexists; split; [done|lia].
Qed.

Lemma iter_max_elem l m : iter_max l = Some m -> m ∈ l.
Proof.
  revert m. induction l as [|y l IH]; simpl; [done|]. intros m.
  destruct (iter_max l) as [z|] eqn:E; intros [= <-]; [|by left].
  destruct (N.max_spec y z) as [[_ ->]|[_ ->]]; [right; by apply IH|by left].
Qed.

(** [.max().unwrap_or(0)] bounds every element, and is an element unless it
    is the default. *)
Lemma max_or_0_ub l x : x ∈ l -> (x <= default 0 (iter_max l))%N.
Proof. intros (m & -> & ?)%iter_max_ub. done. Qed.

Lemma max_or_0_elem l : l <> [] -> default 0%N (iter_max l) ∈ l.
Proof.
  destruct (iter_max l) as [m|] eqn:E; [intros _; by apply iter_max_elem|].
  by apply iter_max_None in E.
Qed.

Lemma max_or_0_lub l b : (forall x, x ∈ l -> (x <= b)%N) -> (default 0 (iter_max l) <= b)%N.
Proof.
  intros H. destruct (iter_max l) as [m|] eqn:E; simpl; [|lia].
  by apply H, iter_max_elem.
Qed.

Lemma iter_max_perm l l' : l ≡ₚ l' -> iter_max l = iter_max l'.
Proof.
  induction 1 as [|x l l' _ IH|x y l|]; simpl; [done|by rewrite IH| |congruence].
  destruct (iter_max l); f_equal; lia.
Qed.

(** * Byte strings *)

(** A Rust [String] is its UTF-8 bytes; [String.le] of the library is the
    bytewise lexicographic order of [Ord for str]. *)
Definition str_ge (a b : string) : bool := bool_decide (String.le b a).

(** * Hash maps *)

(** A [HashMap<String, V>] is a [gmap]; what a [gmap] does not have is the
    iteration order, which Rust leaves unspecified and which may differ from
    one traversal to the next.  Every operation that iterates takes the order
    of that traversal as an argument. *)
Record hash_iter (V : Type) := mk_hash_iter {
  hash_run :> gmap string V -> list (string * V);
  hash_run_perm (m : gmap string V) : hash_run m ≡ₚ map_to_list m;
}.
Arguments hash_run {V} _ _.
Arguments hash_run_perm {V} _ _.

Definition canonical_iter {V} : hash_iter V := mk_hash_iter V map_to_list (fun m => reflexivity _).

(** The reverse traversal, to exhibit that the order is not determined. *)
Program Definition reversed_iter {V} : hash_iter V :=
  mk_hash_iter V (fun m => reverse (map_to_list m)) _.
Next Obligation. intros V m. apply reverse_Permutation. Qed.

Lemma elem_of_hash_run {V} (it : hash_iter V) m k v : (k, v) ∈ it m <-> m !! k = Some v.
Proof. by rewrite (hash_run_perm it), elem_of_map_to_list. Qed.

Lemma hash_run_NoDup_fst {V} (it : hash_iter V) m : NoDup (it m).*1.
Proof. rewrite (hash_run_perm it). apply NoDup_fst_map_to_list. Qed.

Lemma hash_run_length {V} (it : hash_iter V) m : length (it m) = size m.
Proof. rewrite (hash_run_perm it). apply length_map_to_list. Qed.

(** * Automation *)

Create HintDb sse discriminated.
Create Rewrite HintDb sse_rw.

(** Case analysis on every [decide], boolean decision and option match in
    sight. *)
Ltac cases :=
  repeat match goal with
  | H : context [decide ?P] |- _ => destruct (decide P)
  | |- context [decide ?P] => destruct (decide P)
  | H : context [bool_decide ?P] |- _ => case_bool_decide
  | |- context [bool_decide ?P] => case_bool_decide
  end.

(** Split a chain of conjunctions and existentials in the hypotheses. *)
Ltac split_hyps :=
  repeat match goal with
  | H : _ /\ _ |- _ => destruct H
  | H : exists _, _ |- _ => destruct H
  end.
