(* ===== verification/Errors.v ===== *)
(** The error type of src/error.rs: the variants, the messages that the
    [#[error]] attributes give them, and the conversions that [?] applies.
    The errors of [std::io], [serde_json] and [bincode] are dependencies:
    types of their own, of which only the text is used. *)
From S2P Require Import Prelude.

Class Display (T : Type) := display : T -> string.

Section errors.
Context (io_error json_error bincode_error : Type).
Context `{Display io_error, Display json_error, Display bincode_error}.

Inductive EngineError :=
| Io (e : io_error)
| Serialization (s : string)
| Json (e : json_error)
| Peer (s : string)
| MethodNotFound (s : string)
| InvalidParams (s : string)
| Internal (s : string).

(** [impl Display], from the attributes of the variants. *)
#[export] Instance display_engine_error : Display EngineError := fun e =>
  match e with
  | Io e => "I/O error: " +:+ display e
  | Serialization s => "Serialization error: " +:+ s
  | Json e => "JSON parse error: " +:+ display e
  | Peer s => "Gossip peer error: " +:+ s
  | MethodNotFound s => "RPC method not found: " +:+ s
  | InvalidParams s => "Invalid RPC params: " +:+ s
  | Internal s => "Internal engine error: " +:+ s
  end.

Definition from_io (e : io_error) : EngineError := Io e.
Definition from_json (e : json_error) : EngineError := Json e.
Definition from_bincode (e : bincode_error) : EngineError := Serialization (display e).

(** [?] in a function that returns this crate's [Result]. *)
Definition try_with {E A} (from : E -> EngineError) (r : result E A) : result EngineError A :=
  map_err from r.

(** Which variant an error is, by the position of its declaration. *)
Definition variant (e : EngineError) : N :=
  match e with
  | Io _ => 0 | Serialization _ => 1 | Json _ => 2 | Peer _ => 3
  | MethodNotFound _ => 4 | InvalidParams _ => 5 | Internal _ => 6
  end%N.

(** The message of an error determines its variant and, in the variants that
    carry a text, the whole error; a [bincode] error becomes a serialisation
    error with its text. *)
Theorem error_message_determines_variant :
  (forall e e' : EngineError, display e = display e' -> variant e = variant e')
  /\ (forall e e' : EngineError, display e = display e' -> variant e ∉ [0; 2]%N -> e = e')
  /\ (forall (A : Type) (r : result bincode_error A) e,
        try_with from_bincode r = Err e <->
        exists b, r = Err b /\ e = Serialization (display b)).
Proof.
  split; [|split].
  - by intros [] [].
  - intros [] [] E Hv; cbn in E; try discriminate E;
      first [by apply (inj (String.append _)) in E as -> | exfalso; apply Hv; simpl; set_unfold; tauto].
  - intros A [a|b] e; simpl.
    { split; [done|by intros (b & ? & _)]. }
    split; [intros [= <-]; eauto|].
    by intros (b' & [= <-] & ->).
Qed.
End errors.
