(* ===== verification/Crdt.v ===== *)
(** The last-writer-wins register of src/state/crdt.rs: [LwwValue], its
    [merge], [is_dominated_by] and the clock reading [now_micros].  The order
    on stamps gives the register the interface [MergeRegister] that the store
    is proved against. *)
From S2P Require Import Prelude.

(** ** The interface: a register with a deterministic merge *)

(** What a replicated map needs of its values: a total preorder and a merge
    that keeps the greater of two values, the first one on a tie. *)
Class MergeRegister (V : Type) := {
  rle : relation V;
  rle_dec :: RelDecision rle;
  rle_preorder :: PreOrder rle;
  rle_total :: Total rle;
  rmerge : V -> V -> V;
  rmerge_spec (a b : V) : rmerge a b = if decide (rle b a) then a else b;
}.
#[global] Arguments rmerge {V _} _ _ : simpl never.
#[global] Arguments rle {V _} _ _ : simpl never.
#[export] Hint Mode MergeRegister ! : typeclass_instances.

Definition rlt `{MergeRegister V} (a b : V) : Prop := ~ rle b a.

Section register_laws.
Context `{MergeRegister V}.
Implicit Types a b c v : V.

Lemma rmerge_l a b : rle b a -> rmerge a b = a.
Proof. intros. rewrite rmerge_spec. by rewrite decide_True. Qed.

Lemma rmerge_r a b : rlt a b -> rmerge a b = b.
Proof. intros. rewrite rmerge_spec. by rewrite decide_False. Qed.

Lemma rlt_rle a b : rlt a b -> rle a b.
Proof. intros. destruct (total rle a b); [done|by destruct H0]. Qed.

Lemma rle_or_rlt a b : rle a b \/ rlt b a.
Proof. unfold rlt. destruct (decide (rle a b)); auto. Qed.

Lemma rlt_irrefl a : ~ rlt a a.
Proof. intros Hn. apply Hn. reflexivity. Qed.

Lemma rlt_rle_trans a b c : rlt a b -> rle b c -> rlt a c.
Proof. intros Hab Hbc Hca. apply Hab. by transitivity c. Qed.

Lemma rle_rlt_trans a b c : rle a b -> rlt b c -> rlt a c.
Proof. intros Hab Hbc Hca. apply Hbc. by transitivity a. Qed.

Lemma rmerge_idem a : rmerge a a = a.
Proof. apply rmerge_l. reflexivity. Qed.

Lemma rmerge_choice a b : rmerge a b = a \/ rmerge a b = b.
Proof. rewrite rmerge_spec. case_decide; auto. Qed.

Lemma rmerge_ub_l a b : rle a (rmerge a b).
Proof. rewrite rmerge_spec. case_decide; [done|]. by apply rlt_rle. Qed.

Lemma rmerge_ub_r a b : rle b (rmerge a b).
Proof. rewrite rmerge_spec. by case_decide. Qed.

Lemma rmerge_lub a b c : rle a c -> rle b c -> rle (rmerge a b) c.
Proof. destruct (rmerge_choice a b) as [-> | ->]; auto. Qed.

Lemma rmerge_assoc a b c : rmerge a (rmerge b c) = rmerge (rmerge a b) c.
Proof.
  destruct (rle_or_rlt c b) as [Hcb|Hcb].
  - rewrite (rmerge_l b c) by done. symmetry. apply rmerge_l.
    transitivity b; [done|apply rmerge_ub_r].
  - rewrite (rmerge_r b c) by done.
    destruct (rle_or_rlt b a) as [Hba|Hba].
    + by rewrite (rmerge_l a b).
    + rewrite (rmerge_r a b) by done. rewrite (rmerge_r b c) by done.
      apply rmerge_r. eapply rlt_rle_trans; [exact Hba|]. by apply rlt_rle.
Qed.

(** Merging commutes exactly on the pairs that the order separates or that
    are equal. *)
Lemma rmerge_comm_iff a b :
  rmerge a b = rmerge b a <-> (rle a b -> rle b a -> a = b).
Proof.
  rewrite !rmerge_spec. split.
  - intros E ??. by rewrite !decide_True in E.
  - intros E. case_decide; case_decide; auto.
    destruct (total rle a b); contradiction.
Qed.
End register_laws.

#[export] Hint Resolve rlt_rle rmerge_ub_l rmerge_ub_r rmerge_lub : sse.

(** ** The register of the engine *)

(** [LwwValue]: microseconds since the epoch and the writer's identifier make
    the stamp, the value is payload. *)
Record LwwValue := mk_lww {
  value : string;
  timestamp : N;
  node_id : string;
}.

#[export] Instance LwwValue_eq_dec : EqDecision LwwValue.
Proof. solve_decision. Defined.

(** [now_micros]: [clock] is the reading of the system clock in nanoseconds
    relative to the UNIX epoch.  [duration_since] fails before the epoch and
    [expect] panics; [as_micros() as u64] truncates. *)
Definition now_micros (clock : Z) : outcome N :=
  if (clock <? 0)%Z
  then Panic "system clock is before the UNIX epoch — check your clock"
  else Done (wrap64 (Z.to_N (clock / 1000))).

Definition LwwValue_new (clock : Z) (value node_id : string) : outcome LwwValue :=
  ts ← now_micros clock;
  Done {| value := value; timestamp := ts; node_id := node_id |}.

Definition merge (a b : LwwValue) : LwwValue :=
  match (timestamp a ?= timestamp b)%N with
  | Gt => a
  | Lt => b
  | Eq => if str_ge (node_id a) (node_id b) then a else b
  end.

Definition is_dominated_by (self incoming : LwwValue) : bool :=
  bool_decide (merge self incoming <> self).

(** ** The order on stamps *)

Definition stamp (v : LwwValue) : N * string := (timestamp v, node_id v).

Definition lww_le (a b : LwwValue) : Prop :=
  (timestamp a < timestamp b)%N
  \/ timestamp a = timestamp b /\ String.le (node_id a) (node_id b).

#[export] Instance lww_le_dec : RelDecision lww_le.
Proof. intros a b. unfold lww_le. apply _. Defined.

#[export] Instance lww_le_preorder : PreOrder lww_le.
Proof.
  split.
  - intros a. right. by split.
  - intros a b c [Hab|[Hab Hab']] [Hbc|[Hbc Hbc']]; unfold lww_le; [left; lia..|].
    right. split; [congruence|]. by transitivity (node_id b).
Qed.

#[export] Instance lww_le_total : Total lww_le.
Proof.
  intros a b. unfold lww_le.
  destruct (N.lt_trichotomy (timestamp a) (timestamp b)) as [|[E|]]; auto.
  destruct (total String.le (node_id a) (node_id b)); auto.
Qed.

Lemma merge_spec a b : merge a b = if decide (lww_le b a) then a else b.
Proof.
  unfold merge, str_ge, lww_le.
  destruct (N.compare_spec (timestamp a) (timestamp b)) as [E|E|E]; cases;
    try done; exfalso; try symmetry in E; intuition lia.
Qed.

#[export] Instance lww_register : MergeRegister LwwValue :=
  {| rle := lww_le; rmerge := merge; rmerge_spec := merge_spec |}.

Lemma lww_le_stamp a b : stamp a = stamp b -> lww_le a b.
Proof. intros [= E1 E2]. right. split; [exact E1|]. rewrite E2. reflexivity. Qed.

Lemma lww_le_antisymm_stamp a b : lww_le a b -> lww_le b a -> stamp a = stamp b.
Proof.
  unfold lww_le, stamp. intros [?|[E Hab]] [?|[? Hba]]; try lia.
  assert (node_id a = node_id b) by by apply (anti_symm String.le).
  congruence.
Qed.

Lemma lww_le_timestamp a b : lww_le a b -> (timestamp a <= timestamp b)%N.
Proof. unfold lww_le. lia. Qed.

#[export] Hint Resolve lww_le_timestamp lww_le_stamp : sse.

Lemma now_micros_Done clock :
  (0 <= clock)%Z -> now_micros clock = Done (wrap64 (Z.to_N (clock / 1000))).
Proof. intros. unfold now_micros. case_match eqn:E; [|done]. apply Z.ltb_lt in E. lia. Qed.

Lemma now_micros_Panic clock : (clock < 0)%Z -> exists msg, now_micros clock = Panic msg.
Proof. intros E%Z.ltb_lt. unfold now_micros. rewrite E. by eexists. Qed.

Lemma now_micros_inv clock t : now_micros clock = Done t -> (0 <= clock)%Z /\ (t < U64)%N.
Proof.
  unfold now_micros. case_match eqn:E; [done|]. apply Z.ltb_ge in E.
  intros [= <-]. split; [done|apply wrap64_lt].
Qed.

(** ** Properties *)

(** [merge] is associative and idempotent, for all values and with no
    assumption on their origin. *)
Theorem merge_assoc_idem a b c :
  merge a (merge b c) = merge (merge a b) c /\ merge a a = a.
Proof. exact (conj (rmerge_assoc a b c) (rmerge_idem a)). Qed.

(** C1: [merge] returns one of its arguments, and the returned stamp
    (timestamp, then node identifier) is the greater of the two: it is above
    both arguments and below every common upper bound. *)
Theorem merge_least_upper_bound a b :
  (merge a b = a \/ merge a b = b)
  /\ lww_le a (merge a b) /\ lww_le b (merge a b)
  /\ (forall c, lww_le a c -> lww_le b c -> lww_le (merge a b) c).
Proof.
  split; [exact (rmerge_choice a b)|]. split; [exact (rmerge_ub_l a b)|].
  split; [exact (rmerge_ub_r a b)|]. exact (rmerge_lub a b).
Qed.

(** [merge] commutes on a pair exactly when equal stamps imply equal
    values.  Two different values that carry the same timestamp and the same
    node identifier are therefore a pair on which it does not commute. *)
Theorem merge_comm_iff a b :
  merge a b = merge b a <-> (stamp a = stamp b -> a = b).
Proof.
  etransitivity; [exact (rmerge_comm_iff a b)|]. split.
  - intros Hab E. apply Hab; apply lww_le_stamp; congruence.
  - intros Hab ??. apply Hab. by apply lww_le_antisymm_stamp.
Qed.

(** [is_dominated_by] is the strict order on stamps: the incoming value
    has a greater timestamp, or the same one and a greater node identifier. *)
Theorem is_dominated_by_iff self incoming :
  is_dominated_by self incoming = true <->
  (timestamp self < timestamp incoming)%N
  \/ timestamp self = timestamp incoming
     /\ String.le (node_id self) (node_id incoming) /\ node_id self <> node_id incoming.
Proof.
  unfold is_dominated_by. rewrite bool_decide_eq_true, merge_spec.
  case_decide as Hle; unfold lww_le in *.
  - split; [done|]. intros [?|(? & Hs & Hne)]; [lia|].
    destruct Hle as [?|[_ Hi]]; [lia|]. destruct Hne. by apply (anti_symm String.le).
  - split; [|intros Hlt Heq; subst incoming; lia || (destruct Hlt as [?|(_ & _ & ?)]; [lia|done])].
    intros Hne.
    destruct (N.lt_trichotomy (timestamp self) (timestamp incoming)) as [?|[E|?]];
      [by left|right|destruct Hle; by left].
    destruct (total String.le (node_id self) (node_id incoming)) as [?|?].
    + split; [done|]. split; [done|]. intros Hid. destruct Hle. right. by rewrite Hid.
    + destruct Hle. by right.
Qed.
