(* ===== verification/Replica.v ===== *)
(** Replicated maps of registers: the theory the store, the gossip layer and
    the cluster share.  A replica is a finite map from keys to registers; the
    specification of a replica is the history of the entries it has absorbed,
    and [repr] says that the map holds, for every key, a greatest entry of
    the history.  Everything is proved against [MergeRegister]. *)
From S2P Require Import Prelude Crdt.

Section replica.
Context `{Countable K} `{MergeRegister V}.
Implicit Types (m : gmap K V) (d h : list (K * V)) (k : K) (v : V).

(** ** Operations *)

(** One entry absorbed: kept as it is when the key is new, merged with the
    present value otherwise. *)
Definition join_value (old : option V) (v : V) : V :=
  match old with None => v | Some e => rmerge e v end.

Definition absorb (m : gmap K V) (kv : K * V) : gmap K V :=
  <[kv.1 := join_value (m !! kv.1) kv.2]> m.

Definition absorb_all (m : gmap K V) (d : list (K * V)) : gmap K V :=
  foldl absorb m d.

(** ** The order on replicas *)

Definition dominates (m : gmap K V) (kv : K * V) : Prop :=
  exists v', m !! kv.1 = Some v' /\ rle kv.2 v'.

Definition mle (m1 m2 : gmap K V) : Prop :=
  forall k v, m1 !! k = Some v -> dominates m2 (k, v).

(** ** The specification: histories *)

(** No two different values of one key are tied. *)
Definition coherent (h : list (K * V)) : Prop :=
  forall k v v', (k, v) ∈ h -> (k, v') ∈ h -> rle v v' -> rle v' v -> v = v'.

Definition repr (h : list (K * V)) (m : gmap K V) : Prop :=
  forall k,
    match m !! k with
    | None => forall v, (k, v) ∉ h
    | Some v => (k, v) ∈ h /\ forall v', (k, v') ∈ h -> rle v' v
    end.

#[export] Instance dominates_dec m kv : Decision (dominates m kv).
Proof.
  refine (match m !! kv.1 as o return m !! kv.1 = o -> Decision (dominates m kv) with
          | Some v => fun E => cast_if (decide (rle kv.2 v))
          | None => fun E => right _
          end eq_refl).
  - by exists v.
  - intros (v' & E' & L). congruence.
  - intros (v' & E' & L). congruence.
Defined.

#[export] Instance mle_preorder : PreOrder mle.
Proof.
  split.
  - intros m k v E. by exists v.
  - intros m1 m2 m3 H12 H23 k v (v2 & E2 & L2)%H12.
    destruct (H23 _ _ E2) as (v3 & E3 & L3). exists v3. split; [done|].
    simpl in *. by transitivity v2.
Qed.

Lemma dominates_mle m m' kv : mle m m' -> dominates m kv -> dominates m' kv.
Proof.
  intros Hm (v & E & L). destruct (Hm _ _ E) as (v' & E' & L').
  exists v'. split; [done|]. simpl in *. by transitivity v.
Qed.

Lemma mle_empty m : mle ∅ m.
Proof. intros k v E. by rewrite lookup_empty in E. Qed.

Lemma join_value_ub o v : rle v (join_value o v).
Proof. destruct o; simpl; auto with sse. reflexivity. Qed.

Lemma lookup_absorb m k v k' :
  absorb m (k, v) !! k' = if decide (k = k') then Some (join_value (m !! k) v) else m !! k'.
Proof. unfold absorb. simpl. by rewrite lookup_insert. Qed.

Lemma absorb_mle m kv : mle m (absorb m kv).
Proof.
  destruct kv as [k v]. intros k' v' E. unfold dominates. simpl.
  rewrite lookup_absorb. case_decide as Hk; [subst k'|by exists v'].
  rewrite E. eexists. split; [done|]. simpl. auto with sse.
Qed.

Lemma absorb_dominates m kv : dominates (absorb m kv) kv.
Proof.
  destruct kv as [k v]. unfold dominates. simpl. rewrite lookup_absorb, decide_True by done.
  eexists. split; [done|]. apply join_value_ub.
Qed.

Lemma absorb_dominated m kv : dominates m kv -> absorb m kv = m.
Proof.
  destruct kv as [k v]. intros (v' & E & L). unfold absorb. simpl in *.
  apply insert_id. rewrite E. simpl. by rewrite rmerge_l.
Qed.

(** ** Folding a delta *)

Lemma absorb_all_app m d1 d2 : absorb_all m (d1 ++ d2) = absorb_all (absorb_all m d1) d2.
Proof. apply foldl_app. Qed.

Lemma absorb_all_mle m d : mle m (absorb_all m d).
Proof.
  revert m. induction d as [|kv d IH]; intros m; simpl; [reflexivity|].
  etransitivity; [apply absorb_mle|apply IH].
Qed.

Lemma absorb_all_dominates m d kv : kv ∈ d -> dominates (absorb_all m d) kv.
Proof.
  revert m. induction d as [|kv' d IH]; intros m; simpl; [by intros ?%not_elem_of_nil|].
  intros [->|?]%elem_of_cons; [|by apply IH].
  eapply dominates_mle; [apply absorb_all_mle|apply absorb_dominates].
Qed.

Lemma absorb_all_dominated m d : (forall kv, kv ∈ d -> dominates m kv) -> absorb_all m d = m.
Proof.
  induction d as [|kv d IH]; intros Hd; simpl; [done|].
  rewrite absorb_dominated by (apply Hd; left). apply IH. intros ??. apply Hd. by right.
Qed.

Lemma absorb_all_idemp m d : absorb_all (absorb_all m d) d = absorb_all m d.
Proof. apply absorb_all_dominated. intros. by apply absorb_all_dominates. Qed.

(** The value a key ends up with is the fold of the merges of its entries,
    in the order of the delta. *)
Lemma lookup_absorb_all m d k :
  absorb_all m d !! k =
  foldl (fun o v => Some (join_value o v)) (m !! k) (omap (fun kv => if decide (kv.1 = k) then Some kv.2 else None) d).
Proof.
  revert m. induction d as [|[k' v'] d IH]; intros m; [done|].
  etransitivity; [apply (IH (absorb m (k', v')))|]. rewrite lookup_absorb. simpl.
  by case_decide; subst.
Qed.

Lemma absorb_all_lookup_other m d k : k ∉ d.*1 -> absorb_all m d !! k = m !! k.
Proof.
  revert m. induction d as [|[k' v'] d IH]; intros m Hk; [done|].
  change (absorb_all (absorb m (k', v')) d !! k = m !! k).
  rewrite fmap_cons in Hk. apply not_elem_of_cons in Hk as [? ?].
  rewrite IH, lookup_absorb by done. by rewrite decide_False.
Qed.

(** An entry alone under its key in the delta is joined with what was held. *)
Lemma absorb_all_lookup_NoDup m d k v :
  NoDup d.*1 -> (k, v) ∈ d -> absorb_all m d !! k = Some (join_value (m !! k) v).
Proof.
  revert m. induction d as [|[k' v'] d IH]; intros m; [by intros _ ?%not_elem_of_nil|].
  rewrite fmap_cons. intros [Hk' Hnd]%NoDup_cons [[= <- <-]|Hin]%elem_of_cons.
  - change (absorb_all (absorb m (k, v)) d !! k = Some (join_value (m !! k) v)).
    by rewrite absorb_all_lookup_other, lookup_absorb, decide_True.
  - change (absorb_all (absorb m (k', v')) d !! k = Some (join_value (m !! k) v)).
    rewrite IH, lookup_absorb, decide_False by done || (intros <-; destruct Hk';
      apply list_elem_of_fmap; by exists (k', v)). done.
Qed.

Lemma absorb_all_news m d k v :
  NoDup d.*1 -> (k, v) ∈ d -> ~ dominates m (k, v) -> absorb_all m d !! k = Some v.
Proof.
  intros Hd Hin Hnews. rewrite (absorb_all_lookup_NoDup _ _ _ _ Hd Hin). unfold join_value.
  destruct (m !! k) as [e|] eqn:E; [|done]. rewrite rmerge_r; [done|].
  intros Hle. apply Hnews. by exists e.
Qed.

(** Leaving out entries that the replica dominates makes no difference. *)
Lemma absorb_all_skip m d d' :
  NoDup d.*1 -> NoDup d'.*1 -> (forall kv, kv ∈ d' -> kv ∈ d) ->
  (forall kv, kv ∈ d -> kv ∈ d' \/ dominates m kv) ->
  absorb_all m d' = absorb_all m d.
Proof.
  intros Hd Hd' Hsub Hdom. apply map_eq. intros k.
  destruct (decide (k ∈ d.*1)) as [Hk|Hk].
  - apply list_elem_of_fmap in Hk as ([k0 v] & -> & Hin). cbn [fst].
    rewrite (absorb_all_lookup_NoDup m d k0 v) by done. destruct (Hdom _ Hin) as [Hin'|(e & E & L)].
    + by apply absorb_all_lookup_NoDup.
    + cbn [fst snd] in *. destruct (decide (k0 ∈ d'.*1)) as [Hk'|Hk'].
      * apply list_elem_of_fmap in Hk' as ([k1 v1] & -> & Hin1). cbn [fst] in *.
        rewrite (absorb_all_lookup_NoDup m d' k1 v1) by done.
        apply Hsub in Hin1. by rewrite <-!(absorb_all_lookup_NoDup m d).
      * rewrite absorb_all_lookup_other, E by done. cbn [join_value]. by rewrite rmerge_l.
  - rewrite !absorb_all_lookup_other; [done|done|]. intros ([k0 v] & -> & Hin)%list_elem_of_fmap.
    apply Hk, list_elem_of_fmap. exists (k0, v). eauto.
Qed.

(** What a replica holds after a delta was there before or is in the delta. *)
Lemma absorb_all_source m d k v :
  absorb_all m d !! k = Some v -> m !! k = Some v \/ (k, v) ∈ d.
Proof.
  revert m. induction d as [|[k' v'] d IH]; intros m; simpl; [auto|].
  intros [E|E]%IH; [|right; by right].
  rewrite lookup_absorb in E. case_decide; [subst|auto].
  simplify_eq. unfold join_value. destruct (m !! k) as [e|] eqn:E'; [|right; left].
  destruct (rmerge_choice e v') as [-> | ->]; [by left|right; left].
Qed.

(** ... and what is new is strictly above what was there. *)
Lemma absorb_all_new m d k v :
  absorb_all m d !! k = Some v -> m !! k = Some v \/ (k, v) ∈ d /\ ~ dominates m (k, v).
Proof.
  revert m. induction d as [|[k' v'] d IH]; intros m; simpl; [auto|].
  intros [E|[Hin Hd]]%IH.
  - destruct (decide (dominates m (k', v'))) as [Hd|Hd].
    { rewrite absorb_dominated in E by done. auto. }
    rewrite lookup_absorb in E. case_decide; [subst k'|auto]. right.
    destruct (m !! k) as [e|] eqn:E'; simpl in E.
    + assert (rlt e v') by (intros ?; apply Hd; by exists e).
      rewrite rmerge_r in E by done. simplify_eq. split; [left|done].
    + simplify_eq. split; [left|done].
  - right. split; [by right|]. intros Hm. apply Hd. eapply dominates_mle; [apply absorb_mle|done].
Qed.

(** ** Refinement of histories *)

Lemma repr_nil : repr [] ∅.
Proof. intros k. rewrite lookup_empty. by intros v ?%not_elem_of_nil. Qed.

Lemma repr_dominates h m kv : repr h m -> kv ∈ h -> dominates m kv.
Proof.
  destruct kv as [k v]. intros Hr Hin. specialize (Hr k).
  destruct (m !! k) as [v'|] eqn:E; [|by destruct (Hr v)].
  destruct Hr as [_ Hmax]. exists v'. split; [done|]. by apply Hmax.
Qed.

Lemma repr_in h m k v : repr h m -> m !! k = Some v -> (k, v) ∈ h.
Proof. intros Hr E. specialize (Hr k). rewrite E in Hr. apply Hr. Qed.

Lemma repr_intro h m :
  (forall k v, m !! k = Some v -> (k, v) ∈ h) -> (forall kv, kv ∈ h -> dominates m kv) -> repr h m.
Proof.
  intros Hin Hdom k. destruct (m !! k) as [v|] eqn:E.
  - split; [by apply Hin|]. intros v' (v'' & E' & L)%Hdom. simpl in *. by simplify_eq.
  - intros v (v'' & E' & _)%Hdom. simpl in *. by simplify_eq.
Qed.

Lemma repr_absorb_all h m d : repr h m -> repr (h ++ d) (absorb_all m d).
Proof.
  intros Hr. apply repr_intro.
  - intros k v [E|?]%absorb_all_source; apply elem_of_app; [left|by right].
    by eapply repr_in.
  - intros kv [Hin|Hin]%elem_of_app; [|by apply absorb_all_dominates].
    eapply dominates_mle; [apply absorb_all_mle|]. by eapply repr_dominates.
Qed.

Lemma repr_self m : repr (map_to_list m) m.
Proof.
  apply repr_intro.
  - intros k v E. by apply elem_of_map_to_list.
  - intros [k v] E%elem_of_map_to_list. exists v. split; [done|reflexivity].
Qed.

(** A coherent history determines the replica. *)
Lemma repr_unique h h' m m' :
  coherent h -> (forall kv, kv ∈ h <-> kv ∈ h') -> repr h m -> repr h' m' -> m = m'.
Proof.
  intros Hc Hh Hm Hm'. apply map_eq. intros k. specialize (Hm k). specialize (Hm' k).
  destruct (m !! k) as [v|], (m' !! k) as [v'|]; try done.
  - destruct Hm as [Hi Hx], Hm' as [Hi' Hx']. f_equal.
    apply (Hc k); [done|by apply Hh|apply Hx'; by apply Hh|apply Hx; by apply Hh].
  - destruct Hm as [Hi _]. apply Hh in Hi. by destruct (Hm' v).
  - destruct Hm' as [Hi _]. apply Hh in Hi. by destruct (Hm v').
Qed.

Lemma coherent_subset h h' : (forall kv, kv ∈ h' -> kv ∈ h) -> coherent h -> coherent h'.
Proof. intros Hs Hc k v v' ????. apply (Hc k); auto. Qed.

Lemma coherent_snoc h k w :
  coherent h ->
  ((k, w) ∈ h \/ forall u, (k, u) ∈ h -> rle w u -> rle u w -> u = w) ->
  coherent (h ++ [(k, w)]).
Proof.
  intros Hc [Hin|Hw].
  - eapply coherent_subset; [|exact Hc].
    by intros kv [?| ->%list_elem_of_singleton]%elem_of_app.
  - intros k' v v' [Hv|Hv%list_elem_of_singleton]%elem_of_app
      [Hv'|Hv'%list_elem_of_singleton]%elem_of_app L L'; simplify_eq; auto.
    + by apply (Hc k').
    + symmetry. auto.
Qed.

(** Two replicas below each other hold the same value for every key on
    which the history is coherent. *)
Lemma mle_antisymm h m m' :
  coherent h ->
  (forall k v, m !! k = Some v -> (k, v) ∈ h) -> (forall k v, m' !! k = Some v -> (k, v) ∈ h) ->
  mle m m' -> mle m' m -> m = m'.
Proof.
  intros Hc Hin Hin' Hle Hle'. apply map_eq. intros k.
  destruct (m !! k) as [v|] eqn:E; [|destruct (m' !! k) as [v'|] eqn:E'; [|done]].
  - destruct (Hle _ _ E) as (v' & E' & L). simpl in *. rewrite E'. f_equal.
    destruct (Hle' _ _ E') as (v'' & E'' & L'). simpl in *. simplify_eq.
    apply (Hc k); auto.
  - destruct (Hle' _ _ E') as (v'' & E'' & _). simpl in *. congruence.
Qed.

(** Deltas with the same entries, in any order and with any repetition,
    have the same effect. *)
Lemma absorb_all_same m d d' :
  coherent (map_to_list m ++ d) -> (forall kv, kv ∈ d <-> kv ∈ d') ->
  absorb_all m d = absorb_all m d'.
Proof.
  intros Hc Hd. apply (repr_unique (map_to_list m ++ d) (map_to_list m ++ d')); [done| | |].
  - intros kv. by rewrite !elem_of_app, (Hd kv).
  - apply repr_absorb_all, repr_self.
  - apply repr_absorb_all, repr_self.
Qed.

(** A map is coherent, and is rebuilt from its entries in any order. *)
Lemma coherent_map m : coherent (map_to_list m).
Proof. intros k v v' Hv%elem_of_map_to_list Hv'%elem_of_map_to_list _ _. congruence. Qed.

Lemma absorb_all_entries m d :
  (forall kv, kv ∈ d <-> m !! kv.1 = Some kv.2) -> absorb_all ∅ d = m.
Proof.
  intros Hd. symmetry. apply (repr_unique (map_to_list m) ([] ++ d)).
  - apply coherent_map.
  - intros [k v]. rewrite (Hd (k, v)). apply elem_of_map_to_list.
  - apply repr_self.
  - apply repr_absorb_all, repr_nil.
Qed.

(** ** Copies that follow a replica *)

(** The replica holds this value under the key, or has left it behind. *)
Definition behind m (kv : K * V) : Prop :=
  exists v', m !! kv.1 = Some v' /\ (kv.2 = v' \/ rlt kv.2 v').

Lemma behind_lookup m k v : m !! k = Some v -> behind m (k, v).
Proof. intros E. exists v. auto. Qed.

Lemma behind_dominates m kv : behind m kv -> dominates m kv.
Proof.
  intros (v' & E & L). exists v'. split; [done|]. destruct L as [->|L]; [reflexivity|by apply rlt_rle].
Qed.

Lemma behind_absorb m kv kv' : behind m kv -> behind (absorb m kv') kv.
Proof.
  destruct kv as [k v], kv' as [k' w]. intros (v' & E & L). unfold behind. cbn [fst snd] in *.
  rewrite lookup_absorb. case_decide as Hk; [subst k'|by exists v'].
  rewrite E. eexists. split; [done|]. unfold join_value.
  destruct (rle_or_rlt w v') as [Hle|Hlt]; [by rewrite rmerge_l|]. rewrite rmerge_r by done. right.
  destruct L as [->|L]; [done|]. by eapply rle_rlt_trans; [apply rlt_rle|].
Qed.

Lemma behind_absorb_all m d kv : behind m kv -> behind (absorb_all m d) kv.
Proof. revert m. induction d as [|kv' d IH]; intros m; [done|]. intros ?. by apply IH, behind_absorb. Qed.

(** A replica is a copy that follows [m]. *)
Definition follows m (r : gmap K V) : Prop := forall k v, r !! k = Some v -> behind m (k, v).

Lemma follows_absorb m r kv : follows m r -> behind m kv -> follows m (absorb r kv).
Proof.
  destruct kv as [k v]. intros Hr Hk k' v'. rewrite lookup_absorb. case_decide as Hkk; [subst k'|apply Hr].
  intros [= <-]. destruct (r !! k) as [e|] eqn:E; [|done]. cbn [join_value].
  destruct (rmerge_choice e v) as [-> | ->]; [by apply Hr|done].
Qed.

Lemma follows_absorb_all m r d :
  follows m r -> (forall kv, kv ∈ d -> behind m kv) -> follows m (absorb_all r d).
Proof.
  revert r. induction d as [|kv d IH]; intros r Hr Hd; [done|].
  apply (IH (absorb r kv)); [apply follows_absorb; [done|apply Hd; by left]|].
  intros ??. apply Hd. by right.
Qed.

Lemma follows_later m d r : follows m r -> follows (absorb_all m d) r.
Proof. intros Hr k v Hk. by apply behind_absorb_all, Hr. Qed.

(** A copy that is given every entry it does not have is equal to the replica. *)
Lemma follows_complete m r d :
  follows m r -> (forall kv, kv ∈ d -> behind m kv) -> (forall k v, m !! k = Some v -> (k, v) ∈ d \/ r !! k = Some v) ->
  absorb_all r d = m.
Proof.
  intros Hr Hd Hm. pose proof (follows_absorb_all m r d Hr Hd) as Hf. apply map_eq. intros k.
  destruct (m !! k) as [v|] eqn:E.
  - assert (dominates (absorb_all r d) (k, v)) as (v' & E' & L).
    { destruct (Hm _ _ E) as [Hin|Er]; [by apply absorb_all_dominates|]. by apply absorb_all_mle. }
    cbn [fst snd] in *.
    destruct (Hf _ _ E') as (w & Ew & [Hvw|Hvw]); cbn [fst snd] in *; [congruence|].
    assert (w = v) as -> by congruence. by destruct Hvw.
  - destruct (absorb_all r d !! k) as [v|] eqn:E'; [|done].
    destruct (Hf _ _ E') as (w & Ew & _). cbn [fst] in *. congruence.
Qed.

(** The changed keys with their final values have the effect of the delta. *)
Lemma absorb_all_final `{!EqDecision V} m d ks :
  (forall k, k ∈ ks <-> absorb_all m d !! k <> m !! k) ->
  absorb_all m (ks ≫= fun k => option_list ((k,.) <$> absorb_all m d !! k)) = absorb_all m d.
Proof.
  intros Hks. set (m' := absorb_all m d) in *. apply follows_complete.
  - apply follows_later. intros k v E. by apply behind_lookup.
  - intros [k v] (k' & Hin & _)%list_elem_of_bind. destruct (m' !! k') as [w|] eqn:E; [|by apply not_elem_of_nil in Hin].
    apply list_elem_of_singleton in Hin as [= -> ->]. by apply behind_lookup.
  - intros k v E. destruct (decide (k ∈ ks)) as [Hk|Hk].
    + left. apply list_elem_of_bind. exists k. rewrite E. split; [by left|done].
    + right. rewrite Hks in Hk. rewrite <-E. by destruct (decide (m' !! k = m !! k)); [|destruct Hk].
Qed.

(** Coherence of a concrete history is checked pair by pair. *)
#[export] Instance coherent_dec `{!EqDecision V} h : Decision (coherent h).
Proof.
  refine (cast_if (decide (Forall (fun kv => Forall (fun kw =>
    kv.1 <> kw.1 \/ ~ rle kv.2 kw.2 \/ ~ rle kw.2 kv.2 \/ kv.2 = kw.2) h) h))).
  all: rewrite Forall_forall in *.
  - intros k v w Hv Hw L L'. specialize (f _ Hv). rewrite Forall_forall in f.
    destruct (f _ Hw) as [?|[?|[?|?]]]; done.
  - intros Hc. apply n. intros [k v] Hv. apply Forall_forall. intros [k' w] Hw. simpl.
    destruct (decide (k = k')) as [<-|]; [|by left]. right.
    destruct (decide (rle v w)) as [L|]; [|by left]. right.
    destruct (decide (rle w v)) as [L'|]; [|by left]. right. by apply (Hc k).
Defined.

#[export] Instance absorb_all_mono : Proper (mle ==> eq ==> mle) absorb_all.
Proof.
  intros m1 m2 Hm d ? <-. intros k v [E|E]%absorb_all_source.
  - eapply dominates_mle; [apply absorb_all_mle|]. by apply Hm.
  - by apply absorb_all_dominates.
Qed.
End replica.

#[export] Hint Resolve absorb_all_mle absorb_all_dominates dominates_mle : sse.
