(* ===== verification/Broadcast.v ===== *)
(** The interface of [tokio::sync::broadcast], a dependency of the engine and
    not part of its sources.  [BroadcastLib] has the operations the engine
    calls and the observations its documentation speaks of; [BroadcastLaws]
    states the documented behaviour.  [log_broadcast] is a small instance that
    shows that the laws can hold; nothing else depends on it. *)
From S2P Require Import Prelude.

(** What a poll of [Receiver::recv] gives: a value, [RecvError::Lagged],
    [RecvError::Closed], or nothing yet. *)
Inductive recv_poll (E : Type) : Type :=
| RecvOk (e : E)
| RecvLagged (n : N)
| RecvClosed
| RecvPending.
Arguments RecvOk {E} e.
Arguments RecvLagged {E} n.
Arguments RecvClosed {E}.
Arguments RecvPending {E}.

Class BroadcastLib (E : Type) := {
  Sender : Type;
  Receiver : Type;
  (** [broadcast::channel(n)], the receiver it returns being dropped *)
  bc_channel : N -> outcome Sender;
  bc_send : Sender -> E -> Sender;
  bc_subscribe : Sender -> Sender * Receiver;
  bc_recv : Sender -> Receiver -> recv_poll E * (Sender * Receiver);
  (** observations: the capacity, the receivers of this channel, and what a
      receiver has not been given yet, oldest first *)
  bc_cap : Sender -> N;
  bc_live : Sender -> Receiver -> Prop;
  bc_view : Sender -> Receiver -> list E;
}.

Class BroadcastLaws (E : Type) `{BroadcastLib E} : Prop := {
  (** "Panics if the capacity is 0 or larger than usize::MAX / 2"; the actual
      capacity may exceed the requested one. *)
  bc_channel_ok n :
    (0 < n < 9223372036854775808)%N -> exists c, bc_channel n = Done c /\ (n <= bc_cap c)%N;
  bc_channel_panic n :
    (n = 0 \/ 9223372036854775808 <= n)%N -> exists msg, bc_channel n = Panic msg;
  (** a receiver sees the values sent after it subscribed *)
  bc_subscribe_new c :
    bc_live (bc_subscribe c).1 (bc_subscribe c).2
    /\ bc_view (bc_subscribe c).1 (bc_subscribe c).2 = []
    /\ bc_cap (bc_subscribe c).1 = bc_cap c;
  bc_subscribe_other c r :
    bc_live c r ->
    bc_live (bc_subscribe c).1 r /\ bc_view (bc_subscribe c).1 r = bc_view c r;
  (** a new handle: none of those in use *)
  bc_subscribe_fresh c r : bc_live c r -> (bc_subscribe c).2 <> r;
  bc_send_view c r e :
    bc_live c r -> bc_live (bc_send c e) r /\ bc_view (bc_send c e) r = bc_view c r ++ [e];
  bc_send_cap c e : bc_cap (bc_send c e) = bc_cap c;
  (** a poll returns the oldest value, or, when more values wait than the
      channel retains, the number of values that were dropped *)
  bc_recv_live c r :
    bc_live c r ->
    bc_live (bc_recv c r).2.1 (bc_recv c r).2.2 /\ bc_cap (bc_recv c r).2.1 = bc_cap c;
  bc_recv_other c r r0 :
    bc_live c r -> bc_live c r0 -> r0 <> r ->
    bc_live (bc_recv c r).2.1 r0 /\ bc_view (bc_recv c r).2.1 r0 = bc_view c r0
    /\ r0 <> (bc_recv c r).2.2;
  bc_recv_empty c r :
    bc_live c r -> bc_view c r = [] ->
    (bc_recv c r).1 = RecvPending /\ bc_view (bc_recv c r).2.1 (bc_recv c r).2.2 = [];
  bc_recv_value c r e l :
    bc_live c r -> bc_view c r = e :: l -> (N.of_nat (length (e :: l)) <= bc_cap c)%N ->
    (bc_recv c r).1 = RecvOk e /\ bc_view (bc_recv c r).2.1 (bc_recv c r).2.2 = l;
  bc_recv_lagged c r n :
    bc_live c r -> N.of_nat (length (bc_view c r)) = (bc_cap c + n)%N -> (0 < n)%N ->
    (bc_recv c r).1 = RecvLagged n
    /\ bc_view (bc_recv c r).2.1 (bc_recv c r).2.2 = drop (N.to_nat n) (bc_view c r);
}.

(** What [n] polls in a row give a receiver. *)
Fixpoint bc_polls `{BroadcastLib E} (n : nat) (c : Sender) (r : Receiver) : list (recv_poll E) :=
  match n with
  | O => []
  | S n' => let '(p, (c', r')) := bc_recv c r in p :: bc_polls n' c' r'
  end.

(** What waits, if it is no more than the channel retains, is received in
    order and complete. *)
Lemma bc_polls_view `{BroadcastLaws E} (l : list E) c r :
  bc_live c r -> bc_view c r = l -> (N.of_nat (length l) <= bc_cap c)%N ->
  bc_polls (length l) c r = RecvOk <$> l.
Proof.
  revert c r. induction l as [|e l IH]; intros c r Hl Hv Hcap; [done|].
  destruct (bc_recv_value c r e l Hl Hv Hcap) as [Hp Hv'].
  destruct (bc_recv_live c r Hl) as [Hl' Hc']. simpl.
  destruct (bc_recv c r) as [p [c' r']]. cbn [fst snd] in *. rewrite Hp, (IH c' r'); [done..|].
  simpl in Hcap. lia.
Qed.

(** ** An instance *)

(** The channel keeps everything it was sent and the position of every
    receiver; a receiver is an index. *)
Section log_broadcast.
Context (E : Type).

Record log_sender := { log_sent : list E; log_cap : N; log_pos : list nat }.

Definition log_live (c : log_sender) (r : nat) : Prop :=
  exists p, log_pos c !! r = Some p /\ p <= length (log_sent c).

Definition log_view (c : log_sender) (r : nat) : list E :=
  match log_pos c !! r with Some p => drop p (log_sent c) | None => [] end.

Definition log_advance (c : log_sender) (r n : nat) : log_sender :=
  {| log_sent := log_sent c; log_cap := log_cap c;
     log_pos := alter (fun p => p + n) r (log_pos c) |}.

Definition log_recv (c : log_sender) (r : nat) : recv_poll E * (log_sender * nat) :=
  let pending := log_view c r in
  let excess := (N.of_nat (length pending) - log_cap c)%N in
  if (0 <? excess)%N then (RecvLagged excess, (log_advance c r (N.to_nat excess), r))
  else match pending with
       | [] => (RecvPending, (c, r))
       | e :: _ => (RecvOk e, (log_advance c r 1, r))
       end.

#[export] Instance log_broadcast : BroadcastLib E := {|
  Sender := log_sender;
  Receiver := nat;
  bc_channel n :=
    if decide (0 < n < 9223372036854775808)%N
    then Done {| log_sent := []; log_cap := n; log_pos := [] |}
    else Panic "broadcast channel capacity";
  bc_send c e := {| log_sent := log_sent c ++ [e]; log_cap := log_cap c; log_pos := log_pos c |};
  bc_subscribe c := ({| log_sent := log_sent c; log_cap := log_cap c;
                        log_pos := log_pos c ++ [length (log_sent c)] |}, length (log_pos c));
  bc_recv := log_recv;
  bc_cap := log_cap;
  bc_live := log_live;
  bc_view := log_view;
|}.

Lemma log_advance_live c r n :
  log_live c r -> n <= length (log_view c r) -> log_live (log_advance c r n) r.
Proof.
  unfold log_live, log_view, log_advance. intros (p & Hp & Hle) Hn. simpl. rewrite Hp in Hn.
  rewrite length_drop in Hn. exists (p + n). rewrite list_lookup_alter_eq, Hp. split; [done|]. simpl. lia.
Qed.

Lemma log_advance_view c r n : log_view (log_advance c r n) r = drop n (log_view c r).
Proof.
  unfold log_view, log_advance. simpl. rewrite list_lookup_alter_eq.
  destruct (log_pos c !! r) as [p|]; simpl; [by rewrite drop_drop|by rewrite drop_nil].
Qed.

Lemma log_advance_other c r r0 n :
  r0 <> r -> log_live c r0 ->
  log_live (log_advance c r n) r0 /\ log_view (log_advance c r n) r0 = log_view c r0.
Proof.
  unfold log_live, log_view, log_advance. simpl. intros Hne Hl. by rewrite list_lookup_alter_ne by done.
Qed.

Lemma log_recv_state c r :
  exists n, n <= length (log_view c r)
    /\ ((log_recv c r).2 = (c, r) \/ (log_recv c r).2 = (log_advance c r n, r)).
Proof.
  unfold log_recv. destruct (0 <? _)%N.
  - eexists. split; [|by right]. lia.
  - destruct (log_view c r) as [|e l]; [exists 0|exists 1]; simpl; split; auto; lia.
Qed.

#[export] Instance log_broadcast_laws : BroadcastLaws E.
Proof.
  split; simpl.
  - intros n Hn. rewrite decide_True by done. by eexists.
  - intros n Hn. rewrite decide_False by lia. by eexists.
  - intros c. unfold log_live, log_view. simpl. rewrite list_lookup_middle by done.
    rewrite drop_all. split; [by eexists|done].
  - intros c r (p & Hp & Hle). unfold log_live, log_view. simpl.
    by rewrite lookup_app_l, Hp by (by eapply lookup_lt_Some); eauto.
  - intros c r (p & Hp%lookup_lt_Some & _). lia.
  - intros c r e (p & Hp & Hle). unfold log_live, log_view. simpl. rewrite Hp, length_app.
    split; [exists p; split; [done|lia]|]. by apply drop_app_le.
  - done.
  - intros c r Hr. destruct (log_recv_state c r) as (n & Hn & [->| ->]); [done|].
    split; [by apply log_advance_live|done].
  - intros c r r0 _ H0 Hne. destruct (log_recv_state c r) as (n & Hn & [->| ->]); [done|].
    destruct (log_advance_other c r r0 n Hne H0). done.
  - intros c r Hr Hv. unfold log_recv. by rewrite Hv.
  - intros c r e l Hr Hv Hl. unfold log_recv. rewrite Hv. cbv zeta.
    case_match eqn:Hlt; [apply N.ltb_lt in Hlt; simpl in *; lia|]. simpl.
    by rewrite log_advance_view, Hv.
  - intros c r n Hr Hl Hn. unfold log_recv. rewrite Hl. cbv zeta.
    replace (log_cap c + n - log_cap c)%N with n by lia.
    case_match eqn:Hlt; [|apply N.ltb_ge in Hlt; simpl in *; lia]. simpl.
    by rewrite log_advance_view.
Qed.
End log_broadcast.
