(* ===== verification/Store.v ===== *)
(** The key-value store of src/state/store.rs: the map behind the
    [RwLock], the broadcast channel of change events, and the read and write
    operations.  The critical sections ([set_locked], [merge_locked]) are
    definitions of their own, so that StoreConc.v can interleave them. *)
From S2P Require Import Prelude Crdt Replica Broadcast.

Record StateEvent := mk_event { ev_key : string; ev_value : LwwValue }.

#[export] Instance StateEvent_eq_dec : EqDecision StateEvent.
Proof. solve_decision. Defined.

(** The entry an event announces. *)
Definition ev_pair (ev : StateEvent) : string * LwwValue := (ev_key ev, ev_value ev).

Abbreviation StateDelta := (list (string * LwwValue)).
Abbreviation StateMap := (gmap string LwwValue).

(** ** The critical sections *)

(** [set]: [entry(key).or_insert_with(incoming)], merged in place; the winner
    is what the entry then holds. *)
Definition set_locked (m : StateMap) (key : string) (incoming : LwwValue)
  : StateMap * LwwValue :=
  let m := match m !! key with
           | Some _ => m
           | None => <[key := incoming]> m
           end in
  let entry := default incoming (m !! key) in
  let entry := merge entry incoming in
  (<[key := entry]> m, entry).

(** [merge_delta]: one turn of the loop over the delta. *)
Definition merge_step (acc : StateMap * list string) (kv : string * LwwValue)
  : StateMap * list string :=
  let '(m, updated_keys) := acc in
  let '(key, incoming) := kv in
  let winner := match m !! key with
                | None => incoming
                | Some existing => merge existing incoming
                end in
  let changed := bool_decide (m !! key <> Some winner) in
  if changed then (<[key := winner]> m, updated_keys ++ [key])
  else (m, updated_keys).

Definition merge_locked (m : StateMap) (delta : StateDelta) : StateMap * list string :=
  foldl merge_step (m, []) delta.

#[global] Arguments set_locked : simpl never.
#[global] Arguments merge_locked : simpl never.

(** The body of [delta_since] under the read lock. *)
Definition delta_since_map (it : hash_iter LwwValue) (m : StateMap) (since : N) : StateDelta :=
  filter (fun kv => (since < timestamp kv.2)%N) (it m).

(** ** The store *)

Section store.
Context `{BroadcastLib StateEvent}.

Record StateStore := mk_store {
  state : StateMap;
  event_tx : Sender;
  store_node_id : string;
}.

Definition StateStore_new (node_id : string) (channel_capacity : N) : outcome StateStore :=
  tx ← bc_channel channel_capacity;
  Done {| state := ∅; event_tx := tx; store_node_id := node_id |}.

Definition with_state (s : StateStore) (m : StateMap) : StateStore :=
  {| state := m; event_tx := event_tx s; store_node_id := store_node_id s |}.

(** [let _ = self.inner.event_tx.send(ev)]: errors are ignored. *)
Definition send_event (s : StateStore) (ev : StateEvent) : StateStore :=
  {| state := state s;
     event_tx := bc_send (event_tx s) ev;
     store_node_id := store_node_id s |}.

Definition get (s : StateStore) (key : string) : option LwwValue := state s !! key.

Definition snapshot (it : hash_iter LwwValue) (s : StateStore) : StateDelta := it (state s).

Definition delta_since (it : hash_iter LwwValue) (s : StateStore) (since : N) : StateDelta :=
  delta_since_map it (state s) since.

Definition max_timestamp (it : hash_iter LwwValue) (s : StateStore) : N :=
  default 0%N (iter_max (timestamp <$> (it (state s)).*2)).

Definition len (s : StateStore) : N := N.of_nat (size (state s)).

Definition is_empty (s : StateStore) : bool := bool_decide (size (state s) = 0).

Definition set (clock : Z) (s : StateStore) (key value : string)
  : outcome (StateStore * LwwValue) :=
  incoming ← LwwValue_new clock value (store_node_id s);
  let '(m, winner) := set_locked (state s) key incoming in
  Done (send_event (with_state s m) {| ev_key := key; ev_value := winner |}, winner).

(** The loop after the lock is released: each updated key is read again. *)
Definition emit_updates (s : StateStore) (updated_keys : list string) : StateStore :=
  foldl (fun s key =>
           match get s key with
           | Some val => send_event s {| ev_key := key; ev_value := val |}
           | None => s
           end) s updated_keys.

Definition merge_delta (s : StateStore) (delta : StateDelta) : StateStore * list string :=
  let '(m, updated_keys) := merge_locked (state s) delta in
  (emit_updates (with_state s m) updated_keys, updated_keys).

(** [subscribe]: the channel registers a new receiver. *)
Definition subscribe (s : StateStore) : StateStore * Receiver :=
  let '(tx, rx) := bc_subscribe (event_tx s) in
  ({| state := state s; event_tx := tx; store_node_id := store_node_id s |}, rx).
End store.

Arguments StateStore {_}.

(** ** The critical sections as joins *)

Lemma set_locked_spec m key v :
  set_locked m key v = (absorb m (key, v), join_value (m !! key) v).
Proof.
  unfold set_locked, absorb. simpl. destruct (m !! key) as [e|] eqn:E; simpl.
  - by rewrite E.
  - rewrite lookup_insert_eq, insert_insert_eq. simpl.
    change (merge v v) with (rmerge v v). by rewrite rmerge_idem.
Qed.

Lemma merge_step_spec m upd key v :
  merge_step (m, upd) (key, v) =
  (absorb m (key, v), if decide (dominates m (key, v)) then upd else upd ++ [key]).
Proof.
  destruct (decide (dominates m (key, v))) as [Hd|Hd].
  - rewrite absorb_dominated by done. destruct Hd as (e & E & L). simpl in E, L.
    unfold merge_step. rewrite E. rewrite merge_spec, decide_True by done.
    by rewrite bool_decide_eq_false_2 by (intros Hn; by destruct Hn).
  - unfold merge_step, absorb, join_value. cbn [fst snd].
    destruct (m !! key) as [e|] eqn:E; cbv zeta.
    + assert (rlt e v) as Hlt by (intros ?; apply Hd; by exists e).
      change (merge e v) with (rmerge e v). rewrite rmerge_r by done.
      rewrite bool_decide_eq_true_2; [done|]. intros [= ->]. by apply (rlt_irrefl v).
    + by rewrite bool_decide_eq_true_2.
Qed.

(** The keys [merge_delta] reports: those of the entries that are not
    dominated when their turn comes. *)
Fixpoint changed_keys (m : StateMap) (delta : StateDelta) : list string :=
  match delta with
  | [] => []
  | kv :: delta' =>
      (if decide (dominates m kv) then [] else [kv.1]) ++ changed_keys (absorb m kv) delta'
  end.

Lemma merge_locked_spec m delta : merge_locked m delta = (absorb_all m delta, changed_keys m delta).
Proof.
  unfold merge_locked. enough (forall upd,
    foldl merge_step (m, upd) delta = (absorb_all m delta, upd ++ changed_keys m delta)) as Hx
    by apply Hx.
  revert m. induction delta as [|[key v] delta IH]; intros m upd; simpl; [by rewrite app_nil_r|].
  change (foldl merge_step (merge_step (m, upd) (key, v)) delta
          = (absorb_all (absorb m (key, v)) delta,
             upd ++ (if decide (dominates m (key, v)) then [] else [key])
                 ++ changed_keys (absorb m (key, v)) delta)).
  rewrite merge_step_spec, IH. case_decide; simpl; by rewrite <-?app_assoc.
Qed.

(** A key whose value changed is strictly above what it was. *)
Lemma absorb_lookup_changed (m : StateMap) key (v : LwwValue) :
  ~ dominates m (key, v) -> absorb m (key, v) !! key = Some v /\ m !! key <> Some v.
Proof.
  intros Hd. rewrite lookup_absorb, decide_True by done. unfold join_value.
  destruct (m !! key) as [e|] eqn:E.
  - assert (rlt e v) as Hlt by (intros ?; apply Hd; by exists e).
    rewrite rmerge_r by done. split; [done|]. intros [= ->]. by apply (rlt_irrefl v).
  - done.
Qed.

(** Once above a value, a key never returns to it. *)
Lemma mle_no_return (m m' : StateMap) (key : string) (v : LwwValue) :
  mle m m' -> m' !! key = m !! key ->
  ~ (exists m1, mle m m1 /\ mle m1 m' /\ ~ dominates m (key, v) /\ m1 !! key = Some v).
Proof.
  intros Hm E (m1 & Hm1 & Hm1' & Hd & E1). destruct (Hm1' _ _ E1) as (v' & E' & L).
  apply Hd. exists v'. simpl in *. split; [congruence|done].
Qed.

Lemma changed_keys_iff m delta key :
  key ∈ changed_keys m delta <-> absorb_all m delta !! key <> m !! key.
Proof.
  revert m. induction delta as [|[k v] delta IH]; intros m; simpl.
  { split; [by intros ?%not_elem_of_nil|done]. }
  rewrite elem_of_app. change (foldl absorb (absorb m (k, v)) delta)
    with (absorb_all (absorb m (k, v)) delta).
  destruct (decide (dominates m (k, v))) as [Hd|Hd].
  { rewrite absorb_dominated by done. rewrite IH. split; [intros [?%not_elem_of_nil|?]; done|auto]. }
  rewrite IH, list_elem_of_singleton. destruct (decide (k = key)) as [->|Hne].
  - split; [|auto]. intros _ E. destruct (absorb_lookup_changed _ _ _ Hd) as [E1 _].
    apply (mle_no_return m (absorb_all (absorb m (key, v)) delta) key v); [|done|].
    + transitivity (absorb m (key, v)); [apply absorb_mle|apply absorb_all_mle].
    + exists (absorb m (key, v)). split; [apply absorb_mle|]. split; [apply absorb_all_mle|done].
  - rewrite (lookup_absorb m k v key), decide_False by done. intuition congruence.
Qed.

Lemma changed_keys_subset m delta key : key ∈ changed_keys m delta -> key ∈ delta.*1.
Proof.
  rewrite changed_keys_iff. intros Hc. destruct (decide (key ∈ delta.*1)) as [|Hn]; [done|].
  by rewrite absorb_all_lookup_other in Hc.
Qed.

Lemma changed_keys_NoDup m delta : NoDup delta.*1 -> NoDup (changed_keys m delta).
Proof.
  revert m. induction delta as [|[k v] delta IH]; intros m; simpl; [constructor|].
  intros [Hk Hd]%NoDup_cons. apply NoDup_app. split; [case_decide; [constructor|apply NoDup_singleton]|].
  split; [|by apply IH]. intros k'. case_decide; [by intros ?%not_elem_of_nil|].
  intros ->%list_elem_of_singleton Hc. by apply changed_keys_subset in Hc.
Qed.

Lemma changed_keys_dominated m delta :
  (forall kv, kv ∈ delta -> dominates m kv) -> changed_keys m delta = [].
Proof.
  induction delta as [|kv delta IH]; intros Hd; simpl; [done|].
  rewrite decide_True by (apply Hd; left). rewrite absorb_dominated by (apply Hd; left).
  apply IH. intros ??. apply Hd. by right.
Qed.

Lemma elem_of_delta_since_map it m since k v :
  (k, v) ∈ delta_since_map it m since <-> m !! k = Some v /\ (since < timestamp v)%N.
Proof.
  unfold delta_since_map. rewrite list_elem_of_filter, elem_of_hash_run. simpl. tauto.
Qed.

Lemma delta_since_map_NoDup it m since : NoDup (delta_since_map it m since).*1.
Proof.
  eapply sublist_NoDup; [apply (hash_run_NoDup_fst it m)|]. apply fmap_sublist, sublist_filter.
Qed.

Lemma changed_keys_length m delta : length (changed_keys m delta) <= length delta.
Proof.
  revert m. induction delta as [|kv delta IH]; intros m; cbn [changed_keys length]; [done|].
  rewrite length_app. specialize (IH (absorb m kv)). case_decide; cbn [length]; lia.
Qed.

(** ** The operations *)

Section store_lemmas.
Context `{BroadcastLib StateEvent}.
Implicit Types s : StateStore.

Definition final_event (m : StateMap) (key : string) : list StateEvent :=
  match m !! key with
  | Some v => [{| ev_key := key; ev_value := v |}]
  | None => []
  end.

Lemma emit_updates_state s keys : state (emit_updates s keys) = state s.
Proof.
  revert s. induction keys as [|k keys IH]; intros s; simpl; [done|].
  rewrite IH. unfold get. by destruct (state s !! k).
Qed.

Lemma emit_updates_node_id s keys : store_node_id (emit_updates s keys) = store_node_id s.
Proof.
  revert s. induction keys as [|k keys IH]; intros s; simpl; [done|].
  rewrite IH. unfold get. by destruct (state s !! k).
Qed.

Lemma merge_delta_state s delta :
  state (merge_delta s delta).1 = absorb_all (state s) delta.
Proof.
  unfold merge_delta. rewrite merge_locked_spec. simpl. by rewrite emit_updates_state.
Qed.

Lemma merge_delta_node_id s delta :
  store_node_id (merge_delta s delta).1 = store_node_id s.
Proof.
  unfold merge_delta. rewrite merge_locked_spec. simpl. by rewrite emit_updates_node_id.
Qed.

Lemma merge_delta_keys s delta : (merge_delta s delta).2 = changed_keys (state s) delta.
Proof. unfold merge_delta. by rewrite merge_locked_spec. Qed.

Lemma set_Done clock s key value s' w :
  set clock s key value = Done (s', w) ->
  exists t, now_micros clock = Done t /\
    let v := {| value := value; timestamp := t; node_id := store_node_id s |} in
    state s' = absorb (state s) (key, v) /\ w = join_value (state s !! key) v
    /\ store_node_id s' = store_node_id s
    /\ event_tx s' = bc_send (event_tx s) {| ev_key := key; ev_value := w |}.
Proof.
  unfold set, LwwValue_new, mbind, outcome_bind.
  destruct (now_micros clock) as [t|]; [|done].
  rewrite set_locked_spec. intros [= <- <-]. by exists t.
Qed.

Lemma set_eq clock s key val t :
  now_micros clock = Done t ->
  let v := mk_lww val t (store_node_id s) in
  set clock s key val = Done (mk_store (absorb (state s) (key, v))
    (bc_send (event_tx s) (mk_event key (join_value (state s !! key) v))) (store_node_id s),
    join_value (state s !! key) v).
Proof.
  intros Ht. unfold set, LwwValue_new, mbind, outcome_bind. rewrite Ht. by rewrite set_locked_spec.
Qed.

Lemma set_Panic clock s key value msg :
  set clock s key value = Panic msg <-> now_micros clock = Panic msg.
Proof.
  unfold set, LwwValue_new, mbind, outcome_bind.
  destruct (now_micros clock) as [t|]; [by rewrite set_locked_spec|].
  split; intros [= ->]; done.
Qed.

Lemma snapshot_length it s : N.of_nat (length (snapshot it s)) = len s.
Proof. unfold len, snapshot. by rewrite hash_run_length. Qed.

Lemma max_timestamp_ub it s key v : get s key = Some v -> (timestamp v <= max_timestamp it s)%N.
Proof.
  intros E. apply max_or_0_ub, list_elem_of_fmap. exists v. split; [done|].
  apply list_elem_of_fmap. exists (key, v). split; [done|]. by apply elem_of_hash_run.
Qed.

Lemma max_timestamp_reached it s :
  state s <> ∅ -> exists key v, get s key = Some v /\ timestamp v = max_timestamp it s.
Proof.
  intros Hne. unfold max_timestamp. set (l := timestamp <$> (it (state s)).*2).
  assert (l <> []) as Hl.
  { intros E%fmap_nil_inv%fmap_nil_inv. apply Hne, map_to_list_empty_iff.
    apply Permutation_nil. by rewrite <-(hash_run_perm it), E. }
  apply max_or_0_elem, list_elem_of_fmap in Hl as (v & E & Hv).
  apply list_elem_of_fmap in Hv as ([key v'] & -> & Hkv). exists key, v'.
  split; [by apply elem_of_hash_run in Hkv|done].
Qed.

Lemma is_empty_spec s : is_empty s = true <-> state s = ∅.
Proof. unfold is_empty. by rewrite bool_decide_eq_true, map_size_empty_iff. Qed.

Context `{!BroadcastLaws StateEvent}.

Lemma emit_updates_view s keys r :
  bc_live (event_tx s) r ->
  bc_live (event_tx (emit_updates s keys)) r
  /\ bc_view (event_tx (emit_updates s keys)) r =
     bc_view (event_tx s) r ++ (keys ≫= final_event (state s)).
Proof.
  revert s. induction keys as [|k keys IH]; intros s Hl; simpl.
  { by rewrite app_nil_r. }
  unfold get, final_event at 1. destruct (state s !! k) as [v|]; [|by apply IH].
  destruct (bc_send_view (event_tx s) r {| ev_key := k; ev_value := v |} Hl) as [Hl' Hv].
  destruct (IH (send_event s {| ev_key := k; ev_value := v |}) Hl') as [? Hv'].
  split; [done|]. rewrite Hv'. simpl. by rewrite Hv, <-app_assoc.
Qed.
End store_lemmas.

#[export] Hint Rewrite @merge_delta_state @merge_delta_node_id @merge_delta_keys
  @emit_updates_state @emit_updates_node_id : sse_rw.

(** ** Properties *)

Section store_properties.
Context `{BroadcastLib StateEvent}.
Implicit Types s : StateStore.

(** [set] on every branch.  Before the epoch it panics; otherwise it
    stores under the key the merge of the present value and the new one,
    returns exactly what it stored, leaves every other key alone and sends
    one event, the stored value. *)
Theorem set_functional clock s key value :
  match now_micros clock with
  | Panic msg => set clock s key value = Panic msg
  | Done t =>
      let v := {| value := value; timestamp := t; node_id := store_node_id s |} in
      exists s' w,
        set clock s key value = Done (s', w)
        /\ w = match get s key with None => v | Some e => merge e v end
        /\ get s' key = Some w
        /\ (forall k, k <> key -> get s' k = get s k)
        /\ event_tx s' = bc_send (event_tx s) {| ev_key := key; ev_value := w |}
  end.
Proof.
  destruct (now_micros clock) as [t|msg] eqn:Ht; [|by apply set_Panic].
  destruct (set clock s key value) as [[s' w]|msg] eqn:Hs;
    [|apply set_Panic in Hs; congruence].
  destruct (set_Done _ _ _ _ _ _ Hs) as (t' & Ht' & Hst & Hw & _ & Htx).
  assert (t' = t) as -> by congruence. cbv zeta. exists s', w.
  split; [done|]. unfold get. rewrite Hst. split; [done|]. split; [by rewrite lookup_absorb, decide_True, Hw|]. split; [|done].
  intros k Hk. by rewrite lookup_absorb, decide_False.
Qed.

(** A second write of a key by the same node within the microsecond of
    the first is discarded: the store does not change and the caller is given
    the value of the earlier write. *)
Theorem set_same_micros_discarded clock clock' s key v1 v2 s1 w1 :
  set clock s key v1 = Done (s1, w1) ->
  now_micros clock' = now_micros clock ->
  exists s2, set clock' s1 key v2 = Done (s2, w1) /\ state s2 = state s1.
Proof.
  intros H1 Ht. destruct (set_Done _ _ _ _ _ _ H1) as (t & Ht1 & Hs1 & Hw1 & Hn1 & _).
  destruct (set clock' s1 key v2) as [[s2 w2]|msg] eqn:H2; [|apply set_Panic in H2; congruence].
  destruct (set_Done _ _ _ _ _ _ H2) as (t' & Ht2 & Hs2 & Hw2 & _ & _). simpl in *.
  assert (t' = t) as -> by congruence.
  set (x1 := mk_lww v1 t (store_node_id s)) in *.
  set (x2 := mk_lww v2 t (store_node_id s1)) in *.
  assert (state s1 !! key = Some w1) as E1.
  { rewrite Hs1, lookup_absorb, decide_True by done. by rewrite Hw1. }
  assert (rle x2 w1) as Hle.
  { transitivity x1; [apply lww_le_stamp; unfold stamp; simpl; by rewrite Hn1|].
    rewrite Hw1. apply join_value_ub. }
  exists s2. split.
  - rewrite Hw2, E1. simpl. by rewrite (rmerge_l w1 x2 Hle).
  - rewrite Hs2. apply absorb_dominated. by exists w1.
Qed.

(** C22: the store implements its specification, the history of the entries it
    was given: if the map holds a greatest entry of the history for every
    key, then it does so after [merge_delta] for the history extended with
    the delta, and after [set] for the history extended with the new entry. *)
Theorem store_refines_history h s :
  repr h (state s) ->
  (forall delta, repr (h ++ delta) (state (merge_delta s delta).1))
  /\ (forall clock key value s' w,
        set clock s key value = Done (s', w) ->
        exists t, now_micros clock = Done t
          /\ repr (h ++ [(key, mk_lww value t (store_node_id s))]) (state s')).
Proof.
  intros Hr. split.
  - intros delta. autorewrite with sse_rw. by apply repr_absorb_all.
  - intros clock key value s' w (t & Ht & Hst & _)%set_Done. exists t. split; [done|].
    rewrite Hst. by apply (repr_absorb_all h (state s) [_]).
Qed.

(** The keys [merge_delta] returns are exactly those whose value in the
    store is not what it was; a delta without repeated keys gives each of
    them once. *)
Theorem merge_delta_updated_keys s delta :
  (forall key, key ∈ (merge_delta s delta).2 <->
               get (merge_delta s delta).1 key <> get s key)
  /\ (NoDup delta.*1 -> NoDup (merge_delta s delta).2).
Proof.
  unfold get. autorewrite with sse_rw. split; [|apply changed_keys_NoDup].
  intros key. apply changed_keys_iff.
Qed.

(** Merging the same delta again changes nothing at all: no key is
    reported, the map is the same and no event is sent. *)
Theorem merge_delta_idempotent s delta :
  let s' := (merge_delta s delta).1 in merge_delta s' delta = (s', []).
Proof.
  cbv zeta. set (s' := (merge_delta s delta).1).
  assert (forall kv, kv ∈ delta -> dominates (state s') kv) as Hd.
  { intros kv Hkv. unfold s'. rewrite merge_delta_state. by apply absorb_all_dominates. }
  unfold merge_delta at 1. rewrite merge_locked_spec, absorb_all_dominated, changed_keys_dominated
    by done. by destruct s'.
Qed.

(** The order of a delta, and repetitions in it, are irrelevant to the
    resulting state, as long as equal stamps on a key mean equal values. *)
Theorem merge_delta_order_irrelevant s delta delta' :
  coherent (map_to_list (state s) ++ delta) ->
  (forall kv, kv ∈ delta <-> kv ∈ delta') ->
  state (merge_delta s delta).1 = state (merge_delta s delta').1.
Proof. intros. autorewrite with sse_rw. by apply absorb_all_same. Qed.

(** No write moves a key backwards: after [merge_delta], and after
    [set], every key that had a value has one whose stamp is at least as
    great. *)
Theorem writes_never_regress s :
  (forall delta key e, get s key = Some e ->
     exists e', get (merge_delta s delta).1 key = Some e' /\ lww_le e e')
  /\ (forall clock k value s' w key e, set clock s k value = Done (s', w) -> get s key = Some e ->
     exists e', get s' key = Some e' /\ lww_le e e').
Proof.
  unfold get. split.
  - intros delta key e He. rewrite merge_delta_state. exact (absorb_all_mle _ delta key e He).
  - intros clock k value s' w key e (t & _ & -> & _)%set_Done He.
    exact (absorb_mle _ (k, _) key e He).
Qed.

(** [delta_since] returns, in some order and once each, exactly the
    entries whose timestamp is strictly greater than [since]; the order of
    traversal of the hash map only permutes the result. *)
Theorem delta_since_exact it s since :
  (forall key v, (key, v) ∈ delta_since it s since <->
                 get s key = Some v /\ (since < timestamp v)%N)
  /\ NoDup (delta_since it s since).*1
  /\ (forall it', delta_since it' s since ≡ₚ delta_since it s since).
Proof.
  split; [intros; apply elem_of_delta_since_map|]. unfold delta_since, delta_since_map. split.
  - apply delta_since_map_NoDup.
  - intros it'. by rewrite (hash_run_perm it), (hash_run_perm it').
Qed.

(** [max_timestamp] is 0 on an empty store and otherwise the greatest
    timestamp in it, so nothing is newer than it: [delta_since] at
    [max_timestamp] is empty. *)
Theorem max_timestamp_spec it it' s :
  (forall key v, get s key = Some v -> (timestamp v <= max_timestamp it s)%N)
  /\ (state s = ∅ -> max_timestamp it s = 0%N)
  /\ (state s <> ∅ -> exists key v, get s key = Some v /\ timestamp v = max_timestamp it s)
  /\ delta_since it' s (max_timestamp it s) = [].
Proof.
  split; [apply max_timestamp_ub|]. split; [|split; [apply max_timestamp_reached|]].
  - unfold max_timestamp. intros ->.
    assert (it ∅ = []) as -> by (apply Permutation_nil; by rewrite (hash_run_perm it), map_to_list_empty).
    done.
  - destruct (delta_since it' s _) as [|[key v] l] eqn:E; [done|].
    assert ((key, v) ∈ delta_since it' s (max_timestamp it s)) as Hin by (rewrite E; left).
    apply elem_of_delta_since_map in Hin as [Hg Hlt].
    apply (max_timestamp_ub it) in Hg. lia.
Qed.

(** Two stores that send each other their full deltas end up with the
    same map, whichever values they started with, provided their entries
    are coherent and carry non-zero timestamps. *)
Theorem full_exchange_converges it it' s1 s2 :
  coherent (map_to_list (state s1) ++ map_to_list (state s2)) ->
  (forall key v, get s1 key = Some v \/ get s2 key = Some v -> (0 < timestamp v)%N) ->
  state (merge_delta s2 (delta_since it s1 0)).1 = state (merge_delta s1 (delta_since it' s2 0)).1.
Proof.
  intros Hc Hts. autorewrite with sse_rw.
  assert (forall it s, (forall key v, get s key = Some v -> (0 < timestamp v)%N) ->
    forall kv, kv ∈ delta_since it s 0 <-> kv ∈ map_to_list (state s)) as Hall.
  { intros it0 s Hs [k v]. unfold delta_since. rewrite elem_of_delta_since_map, elem_of_map_to_list.
    split; [tauto|]. intros E. split; [done|]. by apply (Hs k). }
  assert (forall kv, kv ∈ delta_since it s1 0 <-> kv ∈ map_to_list (state s1)) as Hd1
    by (apply Hall; eauto).
  assert (forall kv, kv ∈ delta_since it' s2 0 <-> kv ∈ map_to_list (state s2)) as Hd2
    by (apply Hall; eauto).
  apply (repr_unique (map_to_list (state s2) ++ delta_since it s1 0)
    (map_to_list (state s1) ++ delta_since it' s2 0)).
  - eapply coherent_subset; [|exact Hc]. intros kv. rewrite !elem_of_app, Hd1. tauto.
  - intros kv. rewrite !elem_of_app, Hd1, Hd2. tauto.
  - apply repr_absorb_all, repr_self.
  - apply repr_absorb_all, repr_self.
Qed.

(** After the lock is released [merge_delta] sends every receiver one
    event per updated key, in the order of the keys, carrying the value the
    key ended up with. *)
Theorem merge_delta_events `{!BroadcastLaws StateEvent} s delta r :
  bc_live (event_tx s) r ->
  let '(s', updated) := merge_delta s delta in
  bc_view (event_tx s') r = bc_view (event_tx s) r ++ (updated ≫= final_event (state s'))
  /\ (forall key, key ∈ updated -> exists v, final_event (state s') key = [mk_event key v]
                                             /\ get s' key = Some v).
Proof.
  intros Hl. unfold merge_delta. rewrite merge_locked_spec. unfold get.
  rewrite emit_updates_state. simpl. split.
  - by apply (emit_updates_view (with_state s (absorb_all (state s) delta))).
  - intros key Hk. apply changed_keys_subset, list_elem_of_fmap in Hk as (kv & -> & Hkv).
    apply (absorb_all_dominates (state s)) in Hkv as (v & Hv & _).
    exists v. unfold final_event. by rewrite Hv.
Qed.
End store_properties.
