(* ===== verification/StoreConc.v ===== *)
(** Concurrent writers of one store.  A call of [set] or [merge_delta] is not
    atomic: it takes the write lock once, releases it, and sends its events
    afterwards ([merge_delta] re-reading every key under the read lock
    first).  Here each call is a task that takes these steps one at a time,
    and the tasks of a node are interleaved in any way. *)
From stdpp Require Import relations.
From S2P Require Import Prelude Crdt Replica Broadcast Store.

(** ** Tasks *)

Inductive task : Type :=
| SetWait (key : string) (incoming : LwwValue)   (** clock read, lock not taken *)
| SetSend (key : string) (winner : LwwValue)     (** lock released *)
| MergeWait (delta : StateDelta)                 (** lock not taken *)
| MergeEmit (updated_keys : list string)         (** lock released, keys to announce *)
| MergeSend (key : string) (val : LwwValue) (updated_keys : list string)
                                                 (** key re-read, event not sent *)
| Finished.

Section conc.
Context `{BroadcastLib StateEvent}.

(** The next atomic action of a task. *)
Definition task_step (s : StateStore) (t : task) : option (StateStore * task) :=
  match t with
  | SetWait key incoming =>
      let '(m, winner) := set_locked (state s) key incoming in
      Some (with_state s m, SetSend key winner)
  | SetSend key winner =>
      Some (send_event s {| ev_key := key; ev_value := winner |}, Finished)
  | MergeWait delta =>
      let '(m, updated_keys) := merge_locked (state s) delta in
      Some (with_state s m, MergeEmit updated_keys)
  | MergeEmit [] => Some (s, Finished)
  | MergeEmit (key :: updated_keys) =>
      match get s key with
      | Some val => Some (s, MergeSend key val updated_keys)
      | None => Some (s, MergeEmit updated_keys)
      end
  | MergeSend key val updated_keys =>
      Some (send_event s {| ev_key := key; ev_value := val |}, MergeEmit updated_keys)
  | Finished => None
  end.

(** Some task of the node takes a step. *)
Inductive cstep : StateStore * list task -> StateStore * list task -> Prop :=
| cstep_task s ts i t s' t' :
    ts !! i = Some t -> task_step s t = Some (s', t') ->
    cstep (s, ts) (s', <[i := t']> ts).

(** A schedule is the list of the tasks that move, by index. *)
Fixpoint run_schedule (c : StateStore * list task) (sched : list nat)
  : option (StateStore * list task) :=
  match sched with
  | [] => Some c
  | i :: sched' =>
      t ← c.2 !! i;
      st ← task_step c.1 t;
      run_schedule (st.1, <[i := st.2]> c.2) sched'
  end.

(** Entries a task still has to bring to the map. *)
Definition task_entries (t : task) : StateDelta :=
  match t with
  | SetWait key incoming => [(key, incoming)]
  | MergeWait delta => delta
  | _ => []
  end.

Definition entries (ts : list task) : StateDelta := ts ≫= task_entries.

(** A task that has not started. *)
Definition fresh (t : task) : Prop :=
  match t with SetWait _ _ | MergeWait _ => True | _ => False end.

(** A task that will send an event for the key; when the value is already
    chosen it is this one. *)
Definition will_send (t : task) (key : string) (v : LwwValue) : Prop :=
  match t with
  | SetSend k w => k = key /\ w = v
  | MergeEmit ks => key ∈ ks
  | MergeSend k w ks => (k = key /\ w = v) \/ key ∈ ks
  | _ => False
  end.

(** The values a task has chosen and not sent. *)
Definition chosen (t : task) : StateDelta :=
  match t with
  | SetSend k w => [(k, w)]
  | MergeSend k w _ => [(k, w)]
  | _ => []
  end.
End conc.

(** ** Basic facts *)

Section conc_lemmas.
Context `{BroadcastLib StateEvent}.
Implicit Types (s : StateStore) (ts : list task).

Lemma run_schedule_rtc c sched c' : run_schedule c sched = Some c' -> rtc cstep c c'.
Proof.
  revert c. induction sched as [|i sched IH]; intros [s ts]; simpl; [intros [= ->]; constructor|].
  destruct (ts !! i) as [t|] eqn:Ht; simpl; [|done].
  destruct (task_step s t) as [[s' t']|] eqn:Hs; simpl; [|done].
  intros Hr. eapply rtc_l; [by econstructor|]. by apply IH.
Qed.

(** Evaluating a schedule exhibits an execution. *)
Lemma run_schedule_exists c sched (P : StateStore * list task -> Prop) :
  match run_schedule c sched with Some c' => P c' | None => False end ->
  exists c', rtc cstep c c' /\ P c'.
Proof.
  destruct (run_schedule c sched) as [c'|] eqn:E; [|done]. intros HP.
  exists c'. split; [by eapply run_schedule_rtc|done].
Qed.

Lemma elem_of_entries ts kv : kv ∈ entries ts <-> exists i t, ts !! i = Some t /\ kv ∈ task_entries t.
Proof.
  unfold entries. rewrite list_elem_of_bind. split.
  - intros (t & Hk & Ht). apply list_elem_of_lookup in Ht as [i Hi]. eauto.
  - intros (i & t & Hi & Hk). exists t. split; [done|]. by eapply list_elem_of_lookup_2.
Qed.

Lemma entries_insert ts i t t' kv :
  ts !! i = Some t -> task_entries t' = [] ->
  kv ∈ entries ts <-> kv ∈ task_entries t \/ kv ∈ entries (<[i := t']> ts).
Proof.
  intros Hi Ht'. assert (i < length ts) as Hlt by by eapply lookup_lt_Some.
  rewrite !elem_of_entries. split.
  - intros (j & u & Hj & Hu). destruct (decide (i = j)) as [->|Hne].
    + simplify_eq. by left.
    + right. exists j, u. by rewrite list_lookup_insert_ne.
  - intros [Hk|(j & u & Hj & Hu)]; [by exists i, t|].
    destruct (decide (i = j)) as [->|Hne].
    + rewrite list_lookup_insert_eq in Hj by done. simplify_eq.
      rewrite Ht' in Hu. by apply not_elem_of_nil in Hu.
    + rewrite list_lookup_insert_ne in Hj by done. eauto.
Qed.

(** A task other than a fresh one has no entries, and the step of a fresh
    task absorbs its entries. *)
Lemma task_step_inv s t s' t' :
  task_step s t = Some (s', t') ->
  match t with
  | SetWait key v =>
      s' = with_state s (absorb (state s) (key, v)) /\ t' = SetSend key (join_value (state s !! key) v)
  | SetSend key v => s' = send_event s (mk_event key v) /\ t' = Finished
  | MergeWait delta =>
      s' = with_state s (absorb_all (state s) delta) /\ t' = MergeEmit (changed_keys (state s) delta)
  | MergeEmit [] => s' = s /\ t' = Finished
  | MergeEmit (key :: keys) =>
      s' = s /\ ((exists v, state s !! key = Some v /\ t' = MergeSend key v keys)
                 \/ state s !! key = None /\ t' = MergeEmit keys)
  | MergeSend key v keys => s' = send_event s (mk_event key v) /\ t' = MergeEmit keys
  | Finished => False
  end.
Proof.
  unfold task_step, get. destruct t as [key v|key v|delta|[|key keys]|key v keys|].
  - rewrite set_locked_spec. by intros [= <- <-].
  - by intros [= <- <-].
  - rewrite merge_locked_spec. by intros [= <- <-].
  - by intros [= <- <-].
  - destruct (state s !! key) as [v|]; intros [= <- <-]; eauto.
  - by intros [= <- <-].
  - done.
Qed.

(** A step absorbs the entries of its task, of which none are left. *)
Lemma task_step_state s t s' t' :
  task_step s t = Some (s', t') ->
  task_entries t' = [] /\ state s' = absorb_all (state s) (task_entries t).
Proof.
  intros Hs%task_step_inv. destruct t as [key v|key v|delta|[|key keys]|key v keys|];
    [..|by destruct Hs]; destruct Hs as [-> Ht]; subst; try done. destruct Ht as [(v & _ & ->)|[_ ->]]; done.
Qed.

(** ** The invariant of an execution *)

(** From a start with map [m0] and receiver [r]: [applied] are the entries
    absorbed so far, [evs] the events sent so far.  Every value a key was
    given is announced, or some task has still to announce it. *)
Record conc_inv (m0 : StateMap) (es0 : StateDelta) (r : Receiver) (view0 : list StateEvent)
    (applied : StateDelta) (evs : list StateEvent) (c : StateStore * list task) : Prop := {
  ci_repr : repr (map_to_list m0 ++ applied) (state c.1);
  ci_entries kv : kv ∈ es0 <-> kv ∈ applied \/ kv ∈ entries c.2;
  ci_live : bc_live (event_tx c.1) r;
  ci_view : bc_view (event_tx c.1) r = view0 ++ evs;
  ci_events ev : ev ∈ evs -> ev_pair ev ∈ map_to_list m0 ++ applied;
  ci_chosen i t kv : c.2 !! i = Some t -> kv ∈ chosen t -> kv ∈ map_to_list m0 ++ applied;
  ci_announced k v :
    state c.1 !! k = Some v ->
    m0 !! k = Some v \/ mk_event k v ∈ evs \/ exists i t, c.2 !! i = Some t /\ will_send t k v;
}.

Lemma insert_other_task ts i t t' (P Q : task -> Prop) :
  ts !! i = Some t -> (P t -> Q t') -> (forall u, P u -> Q u) ->
  (exists j u, ts !! j = Some u /\ P u) -> exists j u, <[i := t']> ts !! j = Some u /\ Q u.
Proof.
  intros Hi Ht Hu (j & u & Hj & HP). assert (i < length ts) by by eapply lookup_lt_Some.
  destruct (decide (i = j)) as [->|Hne].
  - exists j, t'. rewrite list_lookup_insert_eq by done. simplify_eq. auto.
  - exists j, u. rewrite list_lookup_insert_ne by done. auto.
Qed.

Lemma lookup_insert_task ts i j t' u :
  <[i := t']> ts !! j = Some u -> u = t' \/ ts !! j = Some u.
Proof.
  intros Hj. destruct (decide (i = j)) as [->|Hne].
  - left. by apply list_lookup_insert_Some in Hj as [(_ & -> & _)|[? _]].
  - right. by rewrite list_lookup_insert_ne in Hj.
Qed.

Context `{!BroadcastLaws StateEvent}.

Lemma conc_inv_start s ts r :
  bc_live (event_tx s) r -> Forall fresh ts ->
  conc_inv (state s) (entries ts) r (bc_view (event_tx s) r) [] [] (s, ts).
Proof.
  intros Hl Hf. split; simpl.
  - rewrite app_nil_r. apply repr_self.
  - intros kv. rewrite elem_of_nil. tauto.
  - done.
  - by rewrite app_nil_r.
  - by intros ev ?%not_elem_of_nil.
  - intros i t kv Ht Hc. eapply Forall_lookup_1 in Hf; [|done].
    destruct t; try done; by apply not_elem_of_nil in Hc.
  - auto.
Qed.

Section conc_inv_step.
Context (m0 : StateMap) (es0 : StateDelta) (r : Receiver) (view0 : list StateEvent).
Context (applied : StateDelta) (evs : list StateEvent).
Context (s : StateStore) (ts : list task) (i : nat) (t t' : task).
Context (Hinv : conc_inv m0 es0 r view0 applied evs (s, ts)) (Hi : ts !! i = Some t).
Context (Ht' : task_entries t' = []).

(** A task that holds the write lock. *)
Lemma conc_inv_absorb m' :
  m' = absorb_all (state s) (task_entries t) ->
  (forall k v, ~ will_send t k v) ->
  (forall kv, kv ∈ chosen t' -> m' !! kv.1 = Some kv.2) ->
  (forall k v, m' !! k = Some v -> state s !! k <> Some v -> will_send t' k v) ->
  conc_inv m0 es0 r view0 (applied ++ task_entries t) evs (with_state s m', <[i := t']> ts).
Proof.
  destruct Hinv as [Hr He Hl Hv Hev Hch Han]; simpl in *. intros -> Hno Hch' Hnew.
  assert (repr (map_to_list m0 ++ applied ++ task_entries t)
    (absorb_all (state s) (task_entries t))) as Hr' by (rewrite app_assoc; by apply repr_absorb_all).
  assert (forall kv, kv ∈ map_to_list m0 ++ applied ->
    kv ∈ map_to_list m0 ++ applied ++ task_entries t) as Hsub
    by (intros kv; rewrite !elem_of_app; tauto).
  split; simpl; auto.
  - intros kv. rewrite He, elem_of_app, (entries_insert ts i t t') by done. tauto.
  - intros j u kv [-> |Hj]%lookup_insert_task Hk; [|eauto]. apply Hch' in Hk.
    destruct kv. by eapply repr_in.
  - intros k v Hkv. destruct (decide (state s !! k = Some v)) as [Hold|Hne].
    + destruct (Han _ _ Hold) as [?|[?|Hw]]; [by left|by right; left|right; right].
      refine (insert_other_task _ _ _ _ _ _ Hi _ (fun _ x => x) Hw). intros Hx. by destruct (Hno k v).
    + right; right. exists i, t'. split; [|by apply Hnew].
      apply list_lookup_insert_eq. by eapply lookup_lt_Some.
Qed.

(** A task that sends the value it has chosen. *)
Lemma conc_inv_send k v :
  task_entries t = [] -> (k, v) ∈ chosen t -> chosen t' = [] ->
  (forall k' v', will_send t k' v' -> will_send t' k' v' \/ (k', v') = (k, v)) ->
  conc_inv m0 es0 r view0 applied (evs ++ [mk_event k v])
    (send_event s (mk_event k v), <[i := t']> ts).
Proof.
  destruct Hinv as [Hr He Hl Hv Hev Hch Han]; simpl in *. intros Ht Hc Hc' Hw.
  destruct (bc_send_view _ _ (mk_event k v) Hl) as [Hl' Hv']. split; simpl; auto.
  - intros kv. rewrite He, (entries_insert ts i t t'), Ht, elem_of_nil by done. tauto.
  - by rewrite Hv', Hv, app_assoc.
  - intros ev [?| ->%list_elem_of_singleton]%elem_of_app; [by apply Hev|].
    by apply (Hch i t (k, v)).
  - intros j u kv [-> |Hj]%lookup_insert_task Hk; [|eauto].
    rewrite Hc' in Hk. by apply not_elem_of_nil in Hk.
  - intros k' v' E. setoid_rewrite elem_of_app. rewrite list_elem_of_singleton.
    destruct (decide ((k', v') = (k, v))) as [[= -> ->]|Hne]; [by right; left; right|].
    destruct (Han _ _ E) as [?|[?|Hx]]; [by left|by right; left; left|right; right].
    refine (insert_other_task _ _ _ _ _ _ Hi _ (fun _ x => x) Hx). intros Hx'. by destruct (Hw _ _ Hx').
Qed.

(** A task that reads a key, or ends. *)
Lemma conc_inv_read :
  task_entries t = [] ->
  (forall kv, kv ∈ chosen t' -> state s !! kv.1 = Some kv.2) ->
  (forall k v, state s !! k = Some v -> will_send t k v -> will_send t' k v) ->
  conc_inv m0 es0 r view0 applied evs (s, <[i := t']> ts).
Proof.
  destruct Hinv as [Hr He Hl Hv Hev Hch Han]; simpl in *. intros Ht Hc Hw. split; simpl; auto.
  - intros kv. rewrite He, (entries_insert ts i t t'), Ht, elem_of_nil by done. tauto.
  - intros j u kv [-> |Hj]%lookup_insert_task Hk; [|eauto]. apply Hc in Hk.
    destruct kv. by eapply repr_in.
  - intros k v E. destruct (Han _ _ E) as [?|[?|Hx]]; [by left|by right; left|right; right].
    refine (insert_other_task _ _ _ _ _ _ Hi _ (fun _ x => x) Hx). auto.
Qed.
End conc_inv_step.

Lemma conc_inv_step m0 es0 r view0 applied evs c c' :
  conc_inv m0 es0 r view0 applied evs c -> cstep c c' ->
  exists applied' evs', conc_inv m0 es0 r view0 applied' evs' c'.
Proof.
  intros Hinv Hstep. destruct Hstep as [s ts i t s' t' Hi Hs].
  destruct (task_step_state _ _ _ _ Hs) as [Ht' _]. apply task_step_inv in Hs.
  destruct t as [key v|key v|delta|[|key keys]|key v keys|]; [..|by destruct Hs];
    destruct Hs as [-> Hs]; try subst t'.
  - eexists _, evs. eapply conc_inv_absorb; try done; simpl; [by intros ?? []|..].
    + intros [k w] [= -> ->]%list_elem_of_singleton. simpl. by rewrite lookup_absorb, decide_True.
    + intros k w. rewrite lookup_absorb. case_decide; [|done]. intros [= <-] _. by subst.
  - eexists _, _. eapply conc_inv_send; try done; simpl; [left|].
    intros k' v' [-> ->]. by right.
  - eexists _, evs. eapply conc_inv_absorb; try done; simpl; [by intros ?? []|..].
    + by intros kv ?%not_elem_of_nil.
    + intros k w Hk Hne. apply changed_keys_iff. congruence.
  - eexists _, _. eapply conc_inv_read; try done; simpl.
    + by intros kv ?%not_elem_of_nil.
    + by intros k v _ ?%not_elem_of_nil.
  - eexists _, _. destruct Hs as [(v & E & ->)|[E ->]]; eapply conc_inv_read; try done; simpl.
    + by intros kv ->%list_elem_of_singleton.
    + intros k w Ek [->|?]%elem_of_cons; [left; split; congruence|by right].
    + by intros kv ?%not_elem_of_nil.
    + intros k w Ek [->|?]%elem_of_cons; [congruence|done].
  - eexists _, _. eapply conc_inv_send; try done; simpl; [left|].
    intros k' v' [[-> ->]|?]; auto.
Qed.

Lemma conc_inv_rtc m0 es0 r view0 c c' :
  rtc cstep c c' -> forall applied evs, conc_inv m0 es0 r view0 applied evs c ->
  exists applied' evs', conc_inv m0 es0 r view0 applied' evs' c'.
Proof.
  induction 1 as [|c1 c2 c3 Hs _ IH]; [eauto|]. intros applied evs Hinv.
  destruct (conc_inv_step _ _ _ _ _ _ _ _ Hinv Hs) as (a & e & Hinv'). by eapply IH.
Qed.
End conc_lemmas.

Section conc_state.
Context `{BroadcastLib StateEvent}.

Lemma cstep_state c c' :
  cstep c c' ->
  exists d, state c'.1 = absorb_all (state c.1) d
            /\ forall kv, kv ∈ entries c.2 <-> kv ∈ d \/ kv ∈ entries c'.2.
Proof.
  destruct 1 as [s ts i t s' t' Hi Hs]. apply task_step_state in Hs as [Ht' Hs].
  exists (task_entries t). split; [done|]. intros kv. by apply entries_insert.
Qed.

Lemma conc_state_rtc c c' :
  rtc cstep c c' ->
  exists d, state c'.1 = absorb_all (state c.1) d
            /\ forall kv, kv ∈ entries c.2 <-> kv ∈ d \/ kv ∈ entries c'.2.
Proof.
  induction 1 as [c|c1 c2 c3 (d1 & Hd1 & He1)%cstep_state _ (d2 & Hd2 & He2)].
  - exists []. split; [done|]. intros kv. rewrite elem_of_nil. tauto.
  - exists (d1 ++ d2). rewrite absorb_all_app, <-Hd1. split; [done|].
    intros kv. rewrite He1, He2, elem_of_app. tauto.
Qed.

Lemma entries_finished ts : Forall (eq Finished) ts -> entries ts = [].
Proof. induction 1 as [|t ts <- _ IH]; [done|]. exact IH. Qed.
End conc_state.

(** ** Properties *)

Section conc_properties.
Context `{BroadcastLib StateEvent}.

(** However the critical sections of any number of concurrent [set] and
    [merge_delta] calls are interleaved, the map they leave behind is the
    same: the merge of everything they brought, in any order. *)
Theorem conc_state_schedule_independent s ts s' ts' :
  coherent (map_to_list (state s) ++ entries ts) ->
  rtc cstep (s, ts) (s', ts') -> Forall (eq Finished) ts' ->
  state s' = absorb_all (state s) (entries ts).
Proof.
  intros Hc (d & Hs & He)%conc_state_rtc Hf. simpl in *.
  assert (forall kv, kv ∈ entries ts <-> kv ∈ d) as Hd.
  { intros kv. by rewrite He, (entries_finished ts'), elem_of_nil, (right_id False (∨)). }
  rewrite Hs. symmetry. by apply absorb_all_same.
Qed.

(** Run alone, a task does what the sequential definition says: the two
    steps of a [set] and the steps of a [merge_delta] end in the store that
    [set] and [merge_delta] compute. *)
Theorem solo_task_sequential s :
  (forall clock key value s' w t, set clock s key value = Done (s', w) -> now_micros clock = Done t ->
     run_schedule (s, [SetWait key (mk_lww value t (store_node_id s))]) [0; 0] = Some (s', [Finished]))
  /\ (forall delta, exists sched,
     run_schedule (s, [MergeWait delta]) sched = Some ((merge_delta s delta).1, [Finished])).
Proof.
  split.
  - intros clock key value s' w t Hset Ht. unfold set, LwwValue_new in Hset. rewrite Ht in Hset.
    unfold mbind, outcome_bind in Hset. rewrite set_locked_spec in Hset. injection Hset as <- <-.
    cbn [run_schedule lookup list_lookup fst snd mbind option_bind task_step].
    by rewrite set_locked_spec.
  - intros delta. unfold merge_delta. rewrite merge_locked_spec. cbn [fst].
    assert (forall ks s0, exists sched,
      run_schedule (s0, [MergeEmit ks]) sched = Some (emit_updates s0 ks, [Finished])) as Hemit.
    { intros ks. induction ks as [|k ks IH]; intros s0; [by exists [0]|].
      simpl. destruct (get s0 k) as [v|] eqn:E.
      - destruct (IH (send_event s0 (mk_event k v))) as [sched Hsched].
        exists (0 :: 0 :: sched). simpl. by rewrite E.
      - destruct (IH s0) as [sched Hsched]. exists (0 :: sched). simpl. by rewrite E. }
    destruct (Hemit (changed_keys (state s) delta) (with_state s (absorb_all (state s) delta)))
      as [sched Hsched].
    exists (0 :: sched). cbn [run_schedule lookup list_lookup fst snd mbind option_bind task_step].
    by rewrite merge_locked_spec.
Qed.

Context `{!BroadcastLaws StateEvent}.

(** No change goes unannounced, whatever the interleaving.  Once all
    calls have returned, a key whose value is not the initial one has had
    an event carrying its present value; and no event carries a value above
    the one in the store. *)
Theorem conc_changes_announced s ts s' ts' r :
  bc_live (event_tx s) r -> Forall fresh ts ->
  rtc cstep (s, ts) (s', ts') -> Forall (eq Finished) ts' ->
  exists evs, bc_view (event_tx s') r = bc_view (event_tx s) r ++ evs
    /\ (forall k v, get s' k = Some v -> get s k <> Some v -> mk_event k v ∈ evs)
    /\ (forall ev, ev ∈ evs -> exists v, get s' (ev_key ev) = Some v /\ lww_le (ev_value ev) v).
Proof.
  intros Hl Hfr Hrtc Hfin.
  destruct (conc_inv_rtc _ _ _ _ _ _ Hrtc _ _ (conc_inv_start s ts r Hl Hfr)) as (a & evs & Hinv).
  destruct Hinv as [Hr _ _ Hv Hev _ Han]. exists evs. split; [done|]. split.
  - intros k v E Hne. destruct (Han _ _ E) as [?|[?|(i & t & Hi & Hw)]]; [done|done|].
    eapply Forall_lookup_1 in Hfin; [|exact Hi]. by subst.
  - intros ev Hin%Hev. exact (repr_dominates _ _ _ Hr Hin).
Qed.

End conc_properties.

(** ** A concrete execution *)

(** A store with one receiver, 0, that has seen nothing yet. *)
Definition demo_store (id : string) (m : StateMap) : StateStore :=
  mk_store m {| log_sent := []; log_cap := 4; log_pos := [0] |} id.

Lemma demo_live id m : bc_live (event_tx (demo_store id m)) 0.
Proof. by exists 0. Qed.

Definition older : LwwValue := mk_lww "old" 10 "node-1".
Definition newer : LwwValue := mk_lww "new" 20 "node-1".

(** The events of two concurrent writes can be sent in the order
    opposite to the writes: here the last event for the key carries "old"
    while the store holds "new".  A subscriber that keeps the latest event
    it got, instead of comparing timestamps, stays wrong. *)
Theorem conc_events_out_of_order :
  exists c', rtc cstep (demo_store "node-1" ∅, [SetWait "k" older; SetWait "k" newer]) c'
    /\ c'.2 = [Finished; Finished]
    /\ get c'.1 "k" = Some newer
    /\ last (bc_view (event_tx c'.1) 0) = Some (mk_event "k" older).
Proof. apply (run_schedule_exists _ [0; 1; 1; 0]). vm_compute. done. Qed.
