(* ===== verification/Linearizable.v ===== *)
(** The store as a concurrent object.  Callers on any number of tasks invoke
    the operations of [StateStore] at any time; each reads the clock, takes
    the lock, releases it, sends its events and returns, in steps of its own
    that the others' come between.  To its callers the store is nevertheless
    the sequential one of Store.v: the calls took place one after the other,
    each at some moment between its invocation and its return.  What is read
    under two locks, as sync.status does, has no such moment. *)
From stdpp Require Import relations.
From S2P Require Import Prelude Crdt Replica Broadcast Store StoreConc.

(** ** Calls *)

Inductive call : Type :=
| CSet (clock : Z) (key value : string)
| CMerge (delta : StateDelta)
| CGet (key : string)
| CSnapshot (it : hash_iter LwwValue)
| CDeltaSince (it : hash_iter LwwValue) (since : N)
| CMaxTimestamp (it : hash_iter LwwValue)
| CLen
| CIsEmpty.

Inductive reply : Type :=
| RWinner (v : LwwValue)
| RUpdated (updated_keys : list string)
| RValue (v : option LwwValue)
| REntries (d : StateDelta)
| RNumber (n : N)
| RBool (b : bool).

(** A call among others: invoked; running, with what is left of it and, once
    it is known, what it will return; returned; dead of a panic. *)
Inductive operation : Type :=
| Invoked (c : call)
| Running (c : call) (t : task) (r : option reply)
| Returned (c : call) (r : reply)
| Panicked (c : call).

(** What callers see. *)
Inductive occurrence : Type :=
| Invocation (i : nat) (c : call)
| Response (i : nat) (r : reply).

Inductive laction := LInvoke (c : call) | LStep (i : nat) | LReturn (i : nat).

Section object.
Context `{BroadcastLib StateEvent}.

(** The sequential object: the operations of Store.v. *)
Definition apply_call (c : call) (s : StateStore) : option (StateStore * reply) :=
  match c with
  | CSet clock key value =>
      match set clock s key value with Done (s', w) => Some (s', RWinner w) | Panic _ => None end
  | CMerge delta => let '(s', updated_keys) := merge_delta s delta in Some (s', RUpdated updated_keys)
  | CGet key => Some (s, RValue (get s key))
  | CSnapshot it => Some (s, REntries (snapshot it s))
  | CDeltaSince it since => Some (s, REntries (delta_since it s since))
  | CMaxTimestamp it => Some (s, RNumber (max_timestamp it s))
  | CLen => Some (s, RNumber (len s))
  | CIsEmpty => Some (s, RBool (is_empty s))
  end.

(** [legal s l s']: called one after the other from [s], the calls of [l]
    return their replies and leave [s']. *)
Inductive legal : StateStore -> list (nat * call * reply) -> StateStore -> Prop :=
| legal_nil s : legal s [] s
| legal_snoc s l s1 i c r s2 :
    legal s l s1 -> apply_call c s1 = Some (s2, r) -> legal s (l ++ [(i, c, r)]) s2.

(** The concurrent object. *)
Record LConf := mk_lconf {
  lc_store : StateStore;
  lc_ops : list operation;
  lc_hist : list occurrence;
}.

(** The first step of a call: a [set] reads the clock, a read takes the read
    lock. *)
Definition begin_call (s : StateStore) (c : call) : operation :=
  match c with
  | CSet clock key value =>
      match LwwValue_new clock value (store_node_id s) with
      | Done incoming => Running c (SetWait key incoming) None
      | Panic _ => Panicked c
      end
  | CMerge delta => Running c (MergeWait delta) None
  | _ => match apply_call c s with Some (_, r) => Running c Finished (Some r) | None => Panicked c end
  end.

(** What a [set] or a [merge_delta] returns is settled while it holds the
    lock. *)
Definition settled (t t' : task) (r : option reply) : option reply :=
  match t, t' with
  | SetWait _ _, SetSend _ winner => Some (RWinner winner)
  | MergeWait _, MergeEmit updated_keys => Some (RUpdated updated_keys)
  | _, _ => r
  end.

Definition lexec (a : laction) (x : LConf) : option LConf :=
  match a with
  | LInvoke c =>
      Some (mk_lconf (lc_store x) (lc_ops x ++ [Invoked c])
              (lc_hist x ++ [Invocation (length (lc_ops x)) c]))
  | LStep i =>
      o ← lc_ops x !! i;
      match o with
      | Invoked c => Some (mk_lconf (lc_store x) (<[i := begin_call (lc_store x) c]> (lc_ops x)) (lc_hist x))
      | Running c t r =>
          st ← task_step (lc_store x) t;
          Some (mk_lconf st.1 (<[i := Running c st.2 (settled t st.2 r)]> (lc_ops x)) (lc_hist x))
      | _ => None
      end
  | LReturn i =>
      o ← lc_ops x !! i;
      match o with
      | Running c Finished (Some r) =>
          Some (mk_lconf (lc_store x) (<[i := Returned c r]> (lc_ops x)) (lc_hist x ++ [Response i r]))
      | _ => None
      end
  end.

Fixpoint lrun (acts : list laction) (x : LConf) : option LConf :=
  match acts with
  | [] => Some x
  | a :: acts' => x' ← lexec a x; lrun acts' x'
  end.

(** No call has been made. *)
Definition idle (s : StateStore) : LConf := mk_lconf s [] [].
End object.

Arguments LConf {_}.

(** [before h i j]: in the history, call [i] returned before call [j] was
    invoked. *)
Definition before (h : list occurrence) (i j : nat) : Prop :=
  exists m n r c, h !! m = Some (Response i r) /\ h !! n = Some (Invocation j c) /\ m < n.

Definition ids (l : list (nat * call * reply)) : list nat := (fun x => x.1.1) <$> l.

Definition precedes (l : list (nat * call * reply)) (i j : nat) : Prop :=
  exists m n, ids l !! m = Some i /\ ids l !! n = Some j /\ m < n.

(** ** Proof *)

Section proof.
Context `{BroadcastLib StateEvent}.
Implicit Types (s : StateStore) (x : LConf) (l : list (nat * call * reply)).

(** The sequential object depends on the map and the identifier only. *)
Definition same_content s1 s2 : Prop := state s1 = state s2 /\ store_node_id s1 = store_node_id s2.

Lemma apply_call_content c s1 s2 s1' r :
  same_content s1 s2 -> apply_call c s1 = Some (s1', r) ->
  exists s2', apply_call c s2 = Some (s2', r) /\ same_content s1' s2'.
Proof.
  intros [Hs Hi] Hc. destruct c as [clock key value|delta|key|it|it since|it| |]; cbn [apply_call] in *;
    try (injection Hc as <- <-; unfold get, snapshot, delta_since, max_timestamp, len, is_empty;
         rewrite Hs; by exists s2).
  - destruct (set clock s1 key value) as [[s1w w]|] eqn:E; [|done]. injection Hc as <- <-.
    apply set_Done in E as (t & Ht & E1 & -> & E2 & _). cbv zeta in *.
    pose proof (set_eq clock s2 key value t Ht) as Hx. cbv zeta in Hx. rewrite Hx, Hs, Hi.
    eexists. split; [done|]. split; [by rewrite E1, Hs, Hi|by rewrite E2].
  - destruct (merge_delta s1 delta) as [s1w u1] eqn:E1, (merge_delta s2 delta) as [s2w u2] eqn:E2.
    pose proof (merge_delta_state s1 delta) as S1. pose proof (merge_delta_state s2 delta) as S2.
    pose proof (merge_delta_node_id s1 delta) as I1. pose proof (merge_delta_node_id s2 delta) as I2.
    pose proof (merge_delta_keys s1 delta) as K1. pose proof (merge_delta_keys s2 delta) as K2.
    rewrite E1 in *. rewrite E2 in *. cbn [fst snd] in *. injection Hc as <- <-.
    exists s2w. assert (u1 = u2) as -> by congruence. split; [done|]. split; congruence.
Qed.

(** The call whose task is about to take the lock is the one that takes it. *)
Definition waiting s (c : call) (t : task) : Prop :=
  match c with
  | CSet clock key value => exists v, LwwValue_new clock value (store_node_id s) = Done v /\ t = SetWait key v
  | CMerge delta => t = MergeWait delta
  | _ => False
  end.

Definition past_lock (t : task) : Prop :=
  match t with SetWait _ _ | MergeWait _ => False | _ => True end.

(** At its lock the call does what it does sequentially, events aside. *)
Lemma lock_step s c t s' t' :
  waiting s c t -> task_step s t = Some (s', t') ->
  exists s2 r, apply_call c s = Some (s2, r) /\ same_content s2 s' /\ past_lock t'
    /\ settled t t' None = Some r.
Proof.
  intros Hw Hs%task_step_inv. destruct c as [clock key value|delta| | | | | |]; try done; cbn [waiting] in Hw.
  - destruct Hw as (v & Hv & ->). destruct Hs as [-> ->]. cbn [apply_call]. unfold set, mbind, outcome_bind.
    rewrite Hv, set_locked_spec. eexists _, _. by repeat split.
  - subst t. destruct Hs as [-> ->]. cbn [apply_call].
    pose proof (merge_delta_state s delta) as S. pose proof (merge_delta_node_id s delta) as I.
    pose proof (merge_delta_keys s delta) as K. destruct (merge_delta s delta) as [s2 u].
    cbn [fst snd] in *. subst u. eexists _, _. by repeat split.
Qed.

(** The other steps change neither the map nor what is returned. *)
Lemma past_lock_step s t s' t' r :
  past_lock t -> task_step s t = Some (s', t') -> same_content s s' /\ past_lock t' /\ settled t t' r = r.
Proof.
  intros Hp Hs%task_step_inv. destruct t as [| | |[|k ks]| |]; try done.
  - by destruct Hs as [-> ->].
  - by destruct Hs as [-> ->].
  - destruct Hs as [-> [(v & _ & ->)|[_ ->]]]; done.
  - by destruct Hs as [-> ->].
Qed.

(** *** The invariant *)

Definition pending (o : operation) : bool :=
  match o with Invoked _ | Panicked _ => true | Running _ _ r => bool_decide (r = None) | Returned _ _ => false end.

Definition op_ok s l (i : nat) (o : operation) : Prop :=
  match o with
  | Invoked c | Panicked c => i ∉ ids l
  | Running c t None => (i ∉ ids l) /\ waiting s c t
  | Running c t (Some r) => (i, c, r) ∈ l /\ past_lock t
  | Returned c r => (i, c, r) ∈ l
  end.

Definition call_of (o : operation) : call :=
  match o with Invoked c | Running c _ _ | Returned c _ | Panicked c => c end.

Record lin_inv s0 l (s1 : StateStore) x : Prop := {
  li_legal : legal s0 l s1;
  li_same : same_content s1 (lc_store x);
  li_nodup : NoDup (ids l);
  li_ids i : i ∈ ids l -> i < length (lc_ops x);
  li_op i o : lc_ops x !! i = Some o -> op_ok (lc_store x) l i o;
  li_lin i c r : (i, c, r) ∈ l -> Invocation i c ∈ lc_hist x;
  li_invoked i o : lc_ops x !! i = Some o -> Invocation i (call_of o) ∈ lc_hist x;
  li_response i r : Response i r ∈ lc_hist x -> exists c, lc_ops x !! i = Some (Returned c r);
  li_order i j : before (lc_hist x) i j -> j ∈ ids l -> precedes l i j;
}.

Lemma waiting_content s s' c t : store_node_id s = store_node_id s' -> waiting s c t -> waiting s' c t.
Proof. intros E. unfold waiting. destruct c; try done. by rewrite E. Qed.

Lemma before_snoc h e i j :
  before (h ++ [e]) i j -> before h i j \/ (exists c, e = Invocation j c) /\ exists r, Response i r ∈ h.
Proof.
  intros (m & n & r & c & Hm & Hn & Hlt).
  apply lookup_app_Some in Hn as [Hn|[Hge Hn]].
  - left. exists m, n, r, c. rewrite lookup_app_l in Hm; [done|].
    apply lookup_lt_Some in Hn. lia.
  - apply list_lookup_singleton_Some in Hn as [Hz ->].
    right. split; [by exists c|]. exists r. rewrite lookup_app_l in Hm by lia. by eapply list_elem_of_lookup_2.
Qed.

Lemma ids_snoc l i c r : ids (l ++ [(i, c, r)]) = ids l ++ [i].
Proof. unfold ids. by rewrite fmap_app. Qed.

Lemma precedes_snoc l i j k c r : precedes l i j -> precedes (l ++ [(k, c, r)]) i j.
Proof.
  intros (m & n & Hm & Hn & Hlt). exists m, n. rewrite ids_snoc. split_and!; [by apply lookup_app_l_Some..|done].
Qed.

Lemma elem_of_ids l i c r : (i, c, r) ∈ l -> i ∈ ids l.
Proof. intros Hin. apply list_elem_of_fmap. by exists (i, c, r). Qed.

(** A call is invoked. *)
Lemma inv_invoke s0 l s1 x c :
  lin_inv s0 l s1 x ->
  lin_inv s0 l s1 (mk_lconf (lc_store x) (lc_ops x ++ [Invoked c])
                     (lc_hist x ++ [Invocation (length (lc_ops x)) c])).
Proof.
  intros [Hl Hs Hn Hi Ho Hc Hv Hr Hb]. split; try done; cbn [lc_store lc_ops lc_hist].
  - intros i Hin. rewrite length_app. specialize (Hi _ Hin). lia.
  - intros i o [?|[Hge E]]%lookup_app_Some; [by apply Ho|].
    apply list_lookup_singleton_Some in E as [Hz <-]. cbn. intros Hin%Hi. lia.
  - intros i c' r Hin. apply elem_of_app. left. by eapply Hc.
  - intros i o [?|[Hge E]]%lookup_app_Some; apply elem_of_app; [left; by apply Hv|right].
    apply list_lookup_singleton_Some in E as [Hz <-]. cbn. apply list_elem_of_singleton. f_equal. lia.
  - intros i r [Hin|[=]%list_elem_of_singleton]%elem_of_app. destruct (Hr _ _ Hin) as [c' E]. exists c'.
    by apply lookup_app_l_Some.
  - intros i j [?|[(c' & [= Hz _]) _]]%before_snoc Hj; [by apply Hb|]. apply Hi in Hj. lia.
Qed.

(** Call [i] moves on without taking the lock for writing; it may settle. *)
Lemma inv_move s0 l s1 x i o o' s' :
  lin_inv s0 l s1 x -> lc_ops x !! i = Some o -> same_content (lc_store x) s' ->
  op_ok s' l i o' -> call_of o' = call_of o -> (forall c r, o <> Returned c r) ->
  lin_inv s0 l s1 (mk_lconf s' (<[i := o']> (lc_ops x)) (lc_hist x)).
Proof.
  intros [Hl [Hs Hsi] Hn Hi Ho Hc Hv Hr Hb] E [Es Ei] Hok Hcall Hnr. split; try done; cbn [lc_store lc_ops lc_hist].
  - split; congruence.
  - intros j Hj. rewrite length_insert. by apply Hi.
  - intros j o2 [(<- & <- & _)|[Hne Hj]]%list_lookup_insert_Some; [done|].
    specialize (Ho _ _ Hj). destruct o2 as [|c2 t2 [r2|]| |]; try done. cbn in *.
    destruct Ho as [? Hw]. split; [done|]. by eapply waiting_content.
  - intros j o2 [(<- & <- & _)|[Hne Hj]]%list_lookup_insert_Some; [|by apply Hv].
    rewrite Hcall. by apply Hv.
  - intros j r Hin. destruct (Hr _ _ Hin) as [c Hj]. exists c. rewrite list_lookup_insert_ne; [done|].
    intros <-. rewrite E in Hj. injection Hj as ->. by destruct (Hnr c r).
Qed.

(** Call [i] takes effect. *)
Lemma inv_settle s0 l s1 x i o c t' r s' s2 :
  lin_inv s0 l s1 x -> lc_ops x !! i = Some o -> call_of o = c -> i ∉ ids l ->
  apply_call c s1 = Some (s2, r) -> same_content s2 s' -> past_lock t' ->
  lin_inv s0 (l ++ [(i, c, r)]) s2 (mk_lconf s' (<[i := Running c t' (Some r)]> (lc_ops x)) (lc_hist x)).
Proof.
  intros [Hl [Hs Hsi] Hn Hi Ho Hc Hv Hr Hb] E <- Hni Happ Hsame Hpast.
  assert (store_node_id (lc_store x) = store_node_id s') as Eid.
  { destruct Hsame as [_ <-]. rewrite <-Hsi. clear -Happ. destruct (call_of o); cbn in Happ; try by injection Happ as <- _.
    - destruct (set clock s1 key value) as [[? ?]|] eqn:E; [|done]. injection Happ as <- _.
      apply set_Done in E as (? & _ & _ & _ & E & _). done.
    - pose proof (merge_delta_node_id s1 delta) as E. destruct (merge_delta s1 delta). by injection Happ as <- _. }
  split; cbn [lc_store lc_ops lc_hist].
  - by eapply legal_snoc.
  - done.
  - rewrite ids_snoc. apply NoDup_app. split; [done|]. split; [|apply NoDup_singleton].
    by intros j Hj ->%list_elem_of_singleton.
  - intros j. rewrite ids_snoc, length_insert, elem_of_app, list_elem_of_singleton.
    intros [Hj| ->]; [by apply Hi|by eapply lookup_lt_Some].
  - intros j o2 [(<- & <- & _)|[Hne Hj]]%list_lookup_insert_Some.
    { split; [apply elem_of_app; right; by apply list_elem_of_singleton|done]. }
    specialize (Ho _ _ Hj).
    assert (j ∉ ids l -> j ∉ ids (l ++ [(i, call_of o, r)])) as Hnot.
    { rewrite ids_snoc, elem_of_app, list_elem_of_singleton. intros Hj' [?| ->]; done. }
    assert (forall e, e ∈ l -> e ∈ l ++ [(i, call_of o, r)]) as Hin by (intros e ?; apply elem_of_app; by left).
    destruct o2 as [c2|c2 t2 [r2|]|c2 r2|c2]; cbn in Ho |- *;
      [exact (Hnot Ho)| | |by apply Hin|exact (Hnot Ho)].
    + split; [apply Hin, Ho|apply Ho].
    + split; [apply Hnot, Ho|]. eapply waiting_content; [done|apply Ho].
  - intros j c2 r2 [?|[= -> -> ->]%list_elem_of_singleton]%elem_of_app; [by eapply Hc|by apply Hv].
  - intros j o2 [(<- & <- & _)|[Hne Hj]]%list_lookup_insert_Some; [cbn; by apply (Hv _ o)|by apply Hv].
  - intros j r2 Hin. destruct (Hr _ _ Hin) as [c2 Hj]. exists c2. rewrite list_lookup_insert_ne; [done|].
    intros <-. rewrite E in Hj. injection Hj as ->. apply Hni. specialize (Ho _ _ E). by eapply elem_of_ids.
  - intros j k Hjk. rewrite ids_snoc, elem_of_app, list_elem_of_singleton.
    intros [Hk| ->]; [apply precedes_snoc; by apply Hb|].
    destruct Hjk as (m & n & r' & c' & Hm & _). destruct (Hr j r') as [c2 Hj]; [by eapply list_elem_of_lookup_2|].
    specialize (Ho _ _ Hj). apply elem_of_ids, list_elem_of_lookup in Ho as [q Hq].
    exists q, (length (ids l)). rewrite ids_snoc. split; [by apply lookup_app_l_Some|].
    split; [by apply list_lookup_middle|]. by eapply lookup_lt_Some.
Qed.

Lemma same_content_sym s s' : same_content s s' -> same_content s' s.
Proof. intros [E1 E2]. by split. Qed.

(** A read takes effect when it takes the read lock. *)
Lemma inv_read s0 l s1 x i c r :
  lin_inv s0 l s1 x -> lc_ops x !! i = Some (Invoked c) -> apply_call c (lc_store x) = Some (lc_store x, r) ->
  exists l' s1', lin_inv s0 l' s1' (mk_lconf (lc_store x) (<[i := Running c Finished (Some r)]> (lc_ops x)) (lc_hist x)).
Proof.
  intros Hx E Hc. destruct (apply_call_content _ _ s1 _ _ (same_content_sym _ _ (li_same _ _ _ _ Hx)) Hc) as (s2 & Hs2 & Hss).
  exists (l ++ [(i, c, r)]), s2. eapply (inv_settle s0 l s1 x i (Invoked c)); try done.
  - exact (li_op _ _ _ _ Hx _ _ E).
  - by apply same_content_sym.
Qed.

(** A call returns. *)
Lemma inv_return s0 l s1 x i c t r :
  lin_inv s0 l s1 x -> lc_ops x !! i = Some (Running c t (Some r)) ->
  lin_inv s0 l s1 (mk_lconf (lc_store x) (<[i := Returned c r]> (lc_ops x)) (lc_hist x ++ [Response i r])).
Proof.
  intros Hx E. destruct (li_op _ _ _ _ Hx _ _ E) as [Hin _]. pose proof (lookup_lt_Some _ _ _ E) as Hlt.
  destruct (inv_move s0 l s1 x i _ (Returned c r) (lc_store x) Hx E) as [Hl Hs Hn Hi Ho Hc Hv Hr Hb]; try done.
  split; try done; cbn [lc_store lc_ops lc_hist] in *.
  - intros j c' r' Hj. apply elem_of_app. left. by eapply Hc.
  - intros j o Hj. apply elem_of_app. left. by apply Hv.
  - intros j r' [Hj|[= -> ->]%list_elem_of_singleton]%elem_of_app; [by apply Hr|].
    exists c. by apply list_lookup_insert_eq.
  - intros j k [?|[(c' & [=]) _]]%before_snoc Hk. by apply Hb.
Qed.

Lemma lexec_inv s0 l s1 x a x' :
  lin_inv s0 l s1 x -> lexec a x = Some x' -> exists l' s1', lin_inv s0 l' s1' x'.
Proof.
  intros Hx. destruct a as [c|i|i]; cbn [lexec]; unfold mbind, option_bind.
  - intros [= <-]. exists l, s1. by apply inv_invoke.
  - destruct (lc_ops x !! i) as [o|] eqn:E; [|done]. pose proof (li_op _ _ _ _ Hx _ _ E) as Ho.
    destruct o as [c|c t r|c r|c]; try done.
    + intros [= <-]. destruct c as [clock key value|delta| | | | | |]; try (by eapply inv_read).
      * exists l, s1. cbn [begin_call]. destruct (LwwValue_new _ _ _) as [v|] eqn:Hv; eapply inv_move; try done.
        split; [done|]. by exists v.
      * exists l, s1. by eapply inv_move.
    + destruct (task_step (lc_store x) t) as [[s' t']|] eqn:Ht; [|done]. intros [= <-]. cbn [fst snd].
      destruct r as [r|]; destruct Ho as [Hi Hw].
      * destruct (past_lock_step _ _ _ _ (Some r) Hw Ht) as (Hs & Hp & ->). exists l, s1. by eapply inv_move.
      * destruct (lock_step _ _ _ _ _ Hw Ht) as (s2 & r & Hc & Hs2 & Hp & ->).
        destruct (apply_call_content _ _ s1 _ _ (same_content_sym _ _ (li_same _ _ _ _ Hx)) Hc) as (s3 & Hs3 & Hss).
        exists (l ++ [(i, c, r)]), s3. eapply inv_settle; try done.
        destruct Hs2 as [E1 E2], Hss as [E3 E4]. split; congruence.
  - destruct (lc_ops x !! i) as [[|c [] [r|]| |]|] eqn:E; try done. intros [= <-].
    exists l, s1. by eapply inv_return.
Qed.

Lemma lin_inv_idle s : lin_inv s [] s (idle s).
Proof.
  split; try done; cbn.
  - constructor.
  - constructor.
  - by intros i ?%not_elem_of_nil.
  - by intros i c r ?%not_elem_of_nil.
  - by intros i r ?%not_elem_of_nil.
  - by intros i j _ ?%not_elem_of_nil.
Qed.

Lemma lrun_inv s0 acts l s1 x x' :
  lin_inv s0 l s1 x -> lrun acts x = Some x' -> exists l' s1', lin_inv s0 l' s1' x'.
Proof.
  revert l s1 x. induction acts as [|a acts IH]; intros l s1 x Hx; cbn [lrun].
  - intros [= <-]. by exists l, s1.
  - unfold mbind, option_bind. destruct (lexec a x) as [x1|] eqn:E; [|done].
    destruct (lexec_inv _ _ _ _ _ _ Hx E) as (l1 & s2 & Hx1). by apply (IH l1 s2).
Qed.

(** ** Property *)

(** C6: The store is linearizable.  Whatever calls are made of a store, and
    however the steps of concurrent calls interleave, there is an order of
    those that took effect in which, made one after the other, they return
    what they returned to their callers, and leave the map that is there: a
    call that returned before another was invoked comes before it.  Every
    call that returned took effect, no other did twice or without being
    invoked. *)
Theorem store_linearizable s0 acts x :
  lrun acts (idle s0) = Some x ->
  exists l s, legal s0 l s /\ state s = state (lc_store x) /\ NoDup (ids l)
    /\ (forall i c r, (i, c, r) ∈ l -> Invocation i c ∈ lc_hist x)
    /\ (forall i r, Response i r ∈ lc_hist x -> exists c, (i, c, r) ∈ l)
    /\ (forall i j, before (lc_hist x) i j -> j ∈ ids l -> precedes l i j).
Proof.
  intros Hr. destruct (lrun_inv _ _ _ _ _ _ (lin_inv_idle s0) Hr) as (l & s & [Hl [Hs _] Hn _ Ho Hc _ Hres Hb]).
  exists l, s. split_and!; try done. intros i r (c & Hi)%Hres. exists c. exact (Ho _ _ Hi).
Qed.
End proof.
