(* ===== verification/StoreExamples.v ===== *)
(** The properties of the store at concrete inputs: a node "node-1" with an
    entry from elsewhere, over the example instance of the channel. *)
From S2P Require Import Prelude Crdt Replica Broadcast Store StoreConc Linearizable.

Definition v1 : LwwValue := mk_lww "one" 10 "node-1".
Definition v2 : LwwValue := mk_lww "two" 20 "node-2".
Definition v3 : LwwValue := mk_lww "three" 20 "node-3".

(** "a" is at [v2], "b" at [v1]. *)
Definition m1 : StateMap := {["a" := v2; "b" := v1]}.
Definition s1 : StateStore := demo_store "node-1" m1.

(** Another store, which has a newer "a", an older "b" and a "c". *)
Definition m2 : StateMap := {["a" := v3; "c" := v2]}.
Definition s2 : StateStore := demo_store "node-2" m2.

Definition delta1 : StateDelta := [("a", v1); ("b", v3); ("c", v2)].

(** Reading the result of [set] by projections. *)
Definition set_result (o : outcome (StateStore * LwwValue)) : StateStore * LwwValue :=
  match o with Done x => x | Panic _ => (s1, v1) end.

(** The store after [set("a", "x")] at 30 microseconds. *)
Definition s1_set : StateStore := (set_result (set 30000 s1 "a" "x")).1.

Lemma set_functional_example :
  set 30999 s1 "a" "x" = Done (s1_set, mk_lww "x" 30 "node-1").
Proof. reflexivity. Qed.

Lemma set_same_micros_discarded_witness :
  exists s', set 30999 s1_set "a" "y" = Done (s', mk_lww "x" 30 "node-1") /\ state s' = state s1_set.
Proof.
  apply (set_same_micros_discarded 30000 30999 s1 "a" "x" "y" s1_set (mk_lww "x" 30 "node-1"));
    reflexivity.
Defined.

Lemma store_refines_history_witness :
  repr (map_to_list m1 ++ delta1) (state (merge_delta s1 delta1).1).
Proof. apply (proj1 (store_refines_history (map_to_list m1) s1 (repr_self m1))). Defined.

Lemma merge_delta_updated_keys_witness :
  (merge_delta s1 delta1).2 = ["b"; "c"] /\ NoDup (merge_delta s1 delta1).2.
Proof.
  split; [by vm_compute|]. apply (proj2 (merge_delta_updated_keys s1 delta1)).
  apply (bool_decide_unpack _). by vm_compute.
Defined.

Lemma merge_delta_order_irrelevant_witness :
  state (merge_delta s1 delta1).1 = state (merge_delta s1 (reverse delta1)).1.
Proof.
  apply (merge_delta_order_irrelevant s1 delta1 (reverse delta1)).
  - apply (bool_decide_unpack _). by vm_compute.
  - intros kv. symmetry. apply elem_of_reverse.
Defined.

Lemma writes_never_regress_witness :
  exists e, get (merge_delta s1 delta1).1 "a" = Some e /\ lww_le v2 e.
Proof. apply (proj1 (writes_never_regress s1) delta1 "a" v2). by vm_compute. Defined.

Lemma max_timestamp_spec_witness :
  exists key v, get s1 key = Some v /\ timestamp v = max_timestamp canonical_iter s1.
Proof.
  apply (max_timestamp_spec canonical_iter reversed_iter s1). intros E.
  by apply (f_equal (fun m => m !! "a")) in E.
Defined.

Lemma full_exchange_converges_witness :
  state (merge_delta s2 (delta_since canonical_iter s1 0)).1
  = state (merge_delta s1 (delta_since reversed_iter s2 0)).1.
Proof.
  apply (full_exchange_converges canonical_iter reversed_iter s1 s2).
  - apply (bool_decide_unpack _). by vm_compute.
  - intros key v [Hv|Hv]; change (m1 !! key = Some v) in Hv || change (m2 !! key = Some v) in Hv;
      unfold m1, m2 in Hv; rewrite lookup_insert_Some, lookup_singleton_Some in Hv;
      by destruct Hv as [[_ <-]|[_ [_ <-]]].
Defined.

Lemma merge_delta_events_witness :
  bc_live (event_tx s1) 0
  /\ let '(s', updated) := merge_delta s1 delta1 in
     bc_view (event_tx s') 0 = bc_view (event_tx s1) 0 ++ (updated ≫= final_event (state s'))
     /\ (forall key, key ∈ updated -> exists v, final_event (state s') key = [mk_event key v]
                                               /\ get s' key = Some v).
Proof. split; [|apply (merge_delta_events s1 delta1 0)]; apply demo_live. Defined.

(** ** Concurrent calls *)

(** Two writes and the merge of a delta, interleaved. *)
Definition calls : list task :=
  [SetWait "a" (mk_lww "x" 30 "node-1"); MergeWait delta1; SetWait "c" (mk_lww "y" 31 "node-1")].
Definition schedule : list nat := [0; 1; 2; 2; 1; 1; 1; 0; 1; 1].
Definition calls_end : StateStore * list task := default (s1, []) (run_schedule (s1, calls) schedule).

Lemma calls_run : rtc cstep (s1, calls) (calls_end.1, calls_end.2).
Proof.
  rewrite <-surjective_pairing. apply (run_schedule_rtc _ schedule). unfold calls_end.
  assert (match run_schedule (s1, calls) schedule with Some _ => true | None => false end = true)
    as Hs by by vm_compute.
  by destruct (run_schedule (s1, calls) schedule).
Qed.

Lemma calls_finished : Forall (eq Finished) calls_end.2.
Proof.
  assert (calls_end.2 = [Finished; Finished; Finished]) as -> by by vm_compute.
  by repeat constructor.
Qed.

Lemma calls_coherent : coherent (map_to_list (state s1) ++ entries calls).
Proof. apply (bool_decide_unpack _). by vm_compute. Qed.

Lemma calls_fresh : Forall fresh calls.
Proof. by repeat constructor. Qed.

Lemma calls_live : bc_live (event_tx s1) 0.
Proof. apply demo_live. Qed.

Lemma conc_state_schedule_independent_witness :
  state calls_end.1 = absorb_all (state s1) (entries calls).
Proof.
  apply (conc_state_schedule_independent s1 calls calls_end.1 calls_end.2);
    [apply calls_coherent|apply calls_run|apply calls_finished].
Defined.

Lemma solo_task_sequential_witness :
  run_schedule (s1, [SetWait "a" (mk_lww "x" 30 "node-1")]) [0; 0] = Some (s1_set, [Finished]).
Proof.
  apply (proj1 (solo_task_sequential s1) 30000%Z "a" "x" s1_set (mk_lww "x" 30 "node-1") 30%N);
    reflexivity.
Defined.

Lemma conc_changes_announced_witness :
  exists evs, bc_view (event_tx calls_end.1) 0 = bc_view (event_tx s1) 0 ++ evs
    /\ (forall k v, get calls_end.1 k = Some v -> get s1 k <> Some v -> mk_event k v ∈ evs)
    /\ (forall ev, ev ∈ evs -> exists v, get calls_end.1 (ev_key ev) = Some v /\ lww_le (ev_value ev) v).
Proof.
  apply (conc_changes_announced s1 calls calls_end.1 calls_end.2 0);
    [apply calls_live|apply calls_fresh|apply calls_run|apply calls_finished].
Defined.


(** ** Concurrent callers *)

(** A [set], a [merge_delta] and two reads, interleaved: the first read comes
    between the write and its event, the second after the merge. *)
Definition client_steps : list laction :=
  [LInvoke (CSet 30000 "a" "x"); LInvoke (CMerge delta1); LStep 0; LStep 1; LStep 0;
   LInvoke (CGet "a"); LStep 2; LReturn 2; LStep 1; LStep 0; LReturn 0;
   LInvoke CLen; LStep 3; LReturn 3].
Definition clients_end : LConf := default (idle s1) (lrun client_steps (idle s1)).

Lemma clients_run : lrun client_steps (idle s1) = Some clients_end.
Proof.
  unfold clients_end.
  assert (match lrun client_steps (idle s1) with Some _ => true | None => false end = true) as Hs
    by by vm_compute.
  by destruct (lrun client_steps (idle s1)).
Qed.

Lemma store_linearizable_witness :
  exists l s, legal s1 l s /\ state s = state (lc_store clients_end) /\ NoDup (ids l)
    /\ (exists c, (2, c, RValue (Some (mk_lww "x" 30 "node-1"))) ∈ l)
    /\ precedes l 2 3.
Proof.
  destruct (store_linearizable s1 client_steps clients_end clients_run) as (l & s & Hl & Hs & Hn & Hi & Hr & Ho).
  exists l, s. split; [exact Hl|]. split; [exact Hs|]. split; [exact Hn|].
  assert (lc_hist clients_end = [Invocation 0 (CSet 30000 "a" "x"); Invocation 1 (CMerge delta1);
    Invocation 2 (CGet "a"); Response 2 (RValue (Some (mk_lww "x" 30 "node-1")));
    Response 0 (RWinner (mk_lww "x" 30 "node-1")); Invocation 3 CLen; Response 3 (RNumber 3)]) as E
    by by vm_compute.
  rewrite E in *. split; [by apply (Hr 2), list_elem_of_lookup_2 with 3|].
  apply Ho; [by exists 3, 5, (RValue (Some (mk_lww "x" 30 "node-1"))), CLen; split_and!; [..|lia]|].
  destruct (Hr 3 (RNumber 3)) as [c Hc]; [by apply list_elem_of_lookup_2 with 6|].
  by apply (elem_of_ids _ _ c (RNumber 3)).
Defined.

Definition status_steps : list laction :=
  [LInvoke CLen; LStep 0; LReturn 0; LInvoke (CSet 30000 "a" "x"); LStep 1; LStep 1; LStep 1; LReturn 1;
   LInvoke (CMaxTimestamp canonical_iter); LStep 2; LReturn 2].

Definition responses (h : list occurrence) : list (nat * reply) :=
  omap (fun o => match o with Response i r => Some (i, r) | Invocation _ _ => None end) h.

(** The answer to sync.status is made of two reads, the size and then the
    greatest timestamp.  With a write in between, it describes no state the
    store ever was in: a store without entries whose greatest timestamp is
    not 0. *)
Theorem status_torn :
  (fun x => responses (lc_hist x)) <$> lrun status_steps (idle (demo_store "node-1" ∅))
  = Some [(0, RNumber 0); (1, RWinner (mk_lww "x" 30 "node-1")); (2, RNumber 30)]
  /\ forall s it, len s = 0%N -> max_timestamp it s = 0%N.
Proof.
  split; [by vm_compute|].
  intros s it Hl. unfold max_timestamp. pose proof (snapshot_length it s) as E. rewrite Hl in E.
  unfold snapshot in E. by destruct (hash_run it (state s)).
Qed.
