(* ===== verification/UnitTests.v ===== *)
(** The unit tests of src/state/crdt.rs and src/state/store.rs: their bodies
    as definitions that return whether every assertion held, and the clock
    readings for which they pass.  The sources run them at one reading of the
    system clock; here they are decided for all of them. *)
From S2P Require Import Prelude Crdt Replica Broadcast Store.

(** ** src/state/crdt.rs *)

Definition merge_higher_timestamp_wins : bool :=
  let old := {| value := "old"; timestamp := 100; node_id := "a" |} in
  let new := {| value := "new"; timestamp := 200; node_id := "b" |} in
  bool_decide (value (merge old new) = "new") && bool_decide (value (merge new old) = "new").

Definition merge_tie_broken_by_node_id : bool :=
  let a := {| value := "a"; timestamp := 100; node_id := "node-z" |} in
  let b := {| value := "b"; timestamp := 100; node_id := "node-a" |} in
  bool_decide (value (merge a b) = "a") && bool_decide (value (merge b a) = "a").

Definition merge_is_idempotent (clock : Z) : outcome bool :=
  v ← LwwValue_new clock "x" "n";
  Done (bool_decide (merge v v = v)).

(** ** src/state/store.rs *)

(** [Option::unwrap]. *)
Definition unwrap {A} (o : option A) : outcome A :=
  match o with
  | Some x => Done x
  | None => Panic "called `Option::unwrap()` on a `None` value"
  end.

(** [u64] arithmetic of a test build, which checks for overflow. *)
Definition checked_add (a b : N) : outcome N :=
  if (a + b <? U64)%N then Done (a + b)%N else Panic "attempt to add with overflow".
Definition checked_sub (a b : N) : outcome N :=
  if (b <=? a)%N then Done (a - b)%N else Panic "attempt to subtract with overflow".

Section tests.
Context `{BroadcastLib StateEvent}.

Definition set_and_get_roundtrip (clock : Z) : outcome bool :=
  store ← StateStore_new "node-1" 64;
  sw ← set clock store "foo" "bar";
  v ← unwrap (get sw.1 "foo");
  Done (bool_decide (value v = "bar") && bool_decide (node_id v = "node-1")).

Definition merge_delta_updates_stale_entries (clock : Z) : outcome bool :=
  store ← StateStore_new "node-1" 64;
  sw ← set clock store "k" "local";
  cur ← unwrap (get sw.1 "k");
  ts ← checked_add (timestamp cur) 1000000;
  let remote := {| value := "remote"; timestamp := ts; node_id := "node-2" |} in
  let '(store, updated) := merge_delta sw.1 [("k", remote)] in
  v ← unwrap (get store "k");
  Done (bool_decide (updated = ["k"]) && bool_decide (value v = "remote")).

Definition merge_delta_does_not_regress (clock : Z) : outcome bool :=
  store ← StateStore_new "node-1" 64;
  sw ← set clock store "k" "current";
  cur ← unwrap (get sw.1 "k");
  ts ← checked_sub (timestamp cur) 1;
  let stale := {| value := "stale"; timestamp := ts; node_id := "node-2" |} in
  let '(store, updated) := merge_delta sw.1 [("k", stale)] in
  v ← unwrap (get store "k");
  Done (bool_decide (updated = []) && bool_decide (value v = "current")).

(** [clock'] is the reading after the sleep. *)
Definition delta_since_filters_correctly (it : hash_iter LwwValue) (clock clock' : Z) : outcome bool :=
  store ← StateStore_new "node-1" 64;
  sw ← set clock store "a" "1";
  mid ← unwrap (get sw.1 "a");
  sw ← set clock' sw.1 "b" "2";
  let delta := delta_since it sw.1 (timestamp mid) in
  Done (bool_decide (length delta = 1) && bool_decide (delta !! 0 ≫= (fun kv => Some kv.1) = Some "b")).

(** ** Lemmas *)

Lemma later_is_greater (a b : LwwValue) : (timestamp a < timestamp b)%N -> rlt a b.
Proof. intros Hlt Hle. apply lww_le_timestamp in Hle. lia. Qed.

Context `{!BroadcastLaws StateEvent}.

Lemma new_store id : exists tx, StateStore_new id 64 = Done (mk_store ∅ tx id).
Proof.
  unfold StateStore_new, mbind, outcome_bind. destruct (bc_channel_ok 64) as (tx & -> & _); [lia|by eexists].
Qed.

(** The map of a fresh store after one [set]. *)
Lemma absorb_fresh key (v : LwwValue) : absorb (∅ : StateMap) (key, v) = {[key := v]}.
Proof. unfold absorb. cbn. by rewrite lookup_empty. Qed.

Lemma merge_one (s : StateStore) key v :
  (merge_delta s [(key, v)]).2 = (if decide (dominates (state s) (key, v)) then [] else [key])
  /\ get (merge_delta s [(key, v)]).1 key = Some (join_value (state s !! key) v).
Proof.
  unfold get. rewrite merge_delta_keys, merge_delta_state. split; [apply app_nil_r|].
  change (absorb (state s) (key, v) !! key = Some (join_value (state s !! key) v)).
  by rewrite lookup_absorb, decide_True.
Qed.

(** The entries of two keys that are newer than the first. *)
Lemma delta_of_two (it : hash_iter LwwValue) (a b : LwwValue) :
  let m : StateMap := <["b" := b]> {["a" := a]} in
  delta_since_map it m (timestamp a) = if decide (timestamp a < timestamp b)%N then [("b", b)] else [].
Proof.
  intros m. assert (forall k v, (k, v) ∈ delta_since_map it m (timestamp a)
    <-> k = "b" /\ v = b /\ (timestamp a < timestamp b)%N) as Hin.
  { intros k v. rewrite elem_of_delta_since_map. unfold m. rewrite lookup_insert.
    case_decide as Hk; [naive_solver|]. rewrite lookup_singleton_Some. split; [|naive_solver].
    intros [[_ <-] Hlt]. lia. }
  pose proof (NoDup_fmap_1 _ _ (delta_since_map_NoDup it m (timestamp a))) as Hnd.
  case_decide as Hlt.
  - apply Permutation_singleton_r, NoDup_Permutation; [done|apply NoDup_singleton|].
    intros [k v]. rewrite Hin, list_elem_of_singleton. naive_solver.
  - destruct (delta_since_map it m (timestamp a)) as [|[k v] l]; [done|].
    destruct (proj1 (Hin k v)) as (_ & _ & ?); [by left|done].
Qed.
Lemma updates_stale_result clock t :
  now_micros clock = Done t ->
  merge_delta_updates_stale_entries clock
  = (if (t + 1000000 <? U64)%N then Done true else Panic "attempt to add with overflow").
Proof.
  intros Ht. destruct (new_store "node-1") as [tx Hnew]. 
  unfold merge_delta_updates_stale_entries, mbind, outcome_bind. rewrite Hnew, (set_eq _ _ _ _ _ Ht).
  cbn [fst]. unfold get at 1. cbn [state store_node_id]. rewrite absorb_fresh, lookup_singleton_eq.
  cbn [unwrap timestamp]. unfold checked_add. destruct (t + 1000000 <? U64)%N; [|done].
  set (s1 := mk_store _ _ _). set (w := mk_lww "remote" _ _).
  pose proof (merge_one s1 "k" w) as [Hk Hv]. destruct (merge_delta s1 _) as [s2 upd]. cbn [fst snd] in *.
  assert (join_value (state s1 !! "k") w = w) as Hj.
  { unfold s1. cbn [state]. rewrite lookup_singleton_eq. cbn [join_value]. apply rmerge_r, later_is_greater.
    unfold w. cbn. lia. }
  rewrite Hv, Hj. rewrite decide_False in Hk; [by rewrite Hk|]. intros (e & He & Hle).
  unfold s1 in He. cbn in He, Hle. rewrite lookup_singleton_eq in He. injection He as <-.
  apply lww_le_timestamp in Hle. unfold w in Hle. cbn in Hle. lia.
Qed.

Lemma does_not_regress_result clock t :
  now_micros clock = Done t ->
  merge_delta_does_not_regress clock
  = (if (1 <=? t)%N then Done true else Panic "attempt to subtract with overflow").
Proof.
  intros Ht. destruct (new_store "node-1") as [tx Hnew]. 
  unfold merge_delta_does_not_regress, mbind, outcome_bind. rewrite Hnew, (set_eq _ _ _ _ _ Ht).
  cbn [fst]. unfold get at 1. cbn [state store_node_id]. rewrite absorb_fresh, lookup_singleton_eq.
  cbn [unwrap timestamp]. unfold checked_sub. destruct (1 <=? t)%N eqn:Hle; [|done]. apply N.leb_le in Hle.
  set (s1 := mk_store _ _ _). set (w := mk_lww "stale" _ _).
  pose proof (merge_one s1 "k" w) as [Hk Hv]. destruct (merge_delta s1 _) as [s2 upd]. cbn [fst snd] in *.
  assert (dominates (state s1) ("k", w)) as Hd.
  { eexists. split; [apply lookup_singleton_eq|]. apply rlt_rle, later_is_greater. unfold w. cbn. lia. }
  rewrite decide_True in Hk by done. rewrite Hk, Hv. unfold s1. cbn [state]. rewrite lookup_singleton_eq.
  destruct Hd as (e & He & Hle'). unfold s1 in He. cbn in He. rewrite lookup_singleton_eq in He. injection He as <-.
  cbn [join_value unwrap]. by rewrite rmerge_l.
Qed.

Lemma delta_filter_result it clock clock' t t' :
  now_micros clock = Done t -> now_micros clock' = Done t' ->
  delta_since_filters_correctly it clock clock' = Done (t <? t')%N.
Proof.
  intros Ht Ht'. destruct (new_store "node-1") as [tx Hnew]. 
  unfold delta_since_filters_correctly, mbind, outcome_bind. rewrite Hnew, (set_eq _ _ _ _ _ Ht).
  cbn [fst]. unfold get at 1. cbn [state store_node_id]. rewrite absorb_fresh, lookup_singleton_eq. cbn [unwrap timestamp].
  rewrite (set_eq _ _ _ _ _ Ht'). cbn [fst store_node_id state]. unfold delta_since. cbn [state].
  unfold absorb. cbn [fst snd]. rewrite lookup_singleton_ne by done. cbn [join_value].
  pose proof (delta_of_two it (mk_lww "1" t "node-1") (mk_lww "2" t' "node-1")) as Hd.
  cbn [timestamp] in Hd. cbn [store_node_id]. rewrite Hd. clear Hd. destruct (t <? t')%N eqn:Hlt.
  + by rewrite decide_True by by apply N.ltb_lt.
  + by rewrite decide_False by (apply N.ltb_ge in Hlt; lia).
Qed.

End tests.

(** ** Property *)

(** When the unit tests pass.  The three tests of the register pass at any
    clock reading, and so does the round trip of [set] and [get].  The test
    of an update by a newer value passes unless the reading is within a second
    of the end of [u64], the one against a regression unless the reading is
    the epoch itself (their arithmetic panics then).  The test of
    [delta_since] passes exactly if the clock has advanced during its sleep,
    in any traversal order of the map. *)
Theorem unit_tests_pass `{BroadcastLib StateEvent, !BroadcastLaws StateEvent} it clock clock' t t' :
  now_micros clock = Done t -> now_micros clock' = Done t' ->
  merge_higher_timestamp_wins = true /\ merge_tie_broken_by_node_id = true
  /\ merge_is_idempotent clock = Done true /\ set_and_get_roundtrip clock = Done true
  /\ merge_delta_updates_stale_entries clock
     = (if (t + 1000000 <? U64)%N then Done true else Panic "attempt to add with overflow")
  /\ merge_delta_does_not_regress clock
     = (if (1 <=? t)%N then Done true else Panic "attempt to subtract with overflow")
  /\ delta_since_filters_correctly it clock clock' = Done (t <? t')%N.
Proof.
  intros Ht Ht'. split; [done|]. split; [done|]. destruct (new_store "node-1") as [tx Hnew].
  split; [|split; [|split; [|split]]].
  - unfold merge_is_idempotent, LwwValue_new, mbind, outcome_bind. rewrite Ht.
    change (merge ?v ?v) with (rmerge v v). by rewrite rmerge_idem, bool_decide_eq_true_2.
  - unfold set_and_get_roundtrip, mbind, outcome_bind. rewrite Hnew, (set_eq _ _ _ _ _ Ht). cbn [fst].
    unfold get. cbn [state store_node_id]. by rewrite absorb_fresh, lookup_singleton_eq.
  - by apply updates_stale_result.
  - by apply does_not_regress_result.
  - by apply delta_filter_result.
Qed.

(** At a reading of 5 and, after the sleep, 20 microseconds past a second. *)
Lemma unit_tests_pass_witness :
  set_and_get_roundtrip (H := log_broadcast StateEvent) 1000005000 = Done true
  /\ merge_delta_updates_stale_entries (H := log_broadcast StateEvent) 1000005000 = Done true
  /\ merge_delta_does_not_regress (H := log_broadcast StateEvent) 1000005000 = Done true
  /\ delta_since_filters_correctly (H := log_broadcast StateEvent) reversed_iter 1000005000 1000020000
     = Done true.
Proof.
  destruct (unit_tests_pass (H := log_broadcast StateEvent) reversed_iter 1000005000 1000020000
    1000005 1000020 eq_refl eq_refl) as (_ & _ & _ & H1 & H2 & H3 & H4).
  split; [exact H1|]. split; [exact H2|]. split; [exact H3|exact H4].
Defined.
