(* ===== verification/Config.v ===== *)
(** Node configuration, src/config.rs.  [clap] (command line, environment)
    is a dependency: what is modelled is the record it fills, the defaults
    its attributes declare, and the three methods. *)
From S2P Require Import Prelude.

Record Config := mk_config {
  host : string;
  rpc_port : N;
  gossip_port : N;
  cfg_node_id : option string;
  seed_peers : list string;
  gossip_interval_ms : N;
  gossip_fanout : N;
  event_channel_capacity : N;
}.

(** The values of the [default_value] attributes. *)
Definition default_config : Config := {|
  host := "127.0.0.1";
  rpc_port := 7070;
  gossip_port := 7071;
  cfg_node_id := None;
  seed_peers := [];
  gossip_interval_ms := 1000;
  gossip_fanout := 3;
  event_channel_capacity := 4096;
|}.

(** [uuid] is the string of the [Uuid::new_v4()] of this call. *)
Definition resolved_node_id (uuid : string) (c : Config) : string :=
  match cfg_node_id c with Some id => id | None => uuid end.

Definition socket_addr (host : string) (port : N) : string :=
  host +:+ ":" +:+ pretty port.

Definition rpc_addr (c : Config) : string := socket_addr (host c) (rpc_port c).

Definition gossip_addr_of (c : Config) : string := socket_addr (host c) (gossip_port c).

Lemma socket_addr_inj h p q : socket_addr h p = socket_addr h q -> p = q.
Proof. unfold socket_addr. by intros E%(inj (String.append h))%(inj (String.append ":"))%(inj pretty). Qed.

(** The two listeners of a node ask for the same address exactly when
    their ports are the same number, and the defaults keep them apart. *)
Theorem listener_addrs_distinct c :
  (rpc_addr c = gossip_addr_of c <-> rpc_port c = gossip_port c)
  /\ rpc_addr default_config = "127.0.0.1:7070"
  /\ gossip_addr_of default_config = "127.0.0.1:7071".
Proof.
  split; [|by split; vm_compute]. unfold rpc_addr, gossip_addr_of. split.
  - apply socket_addr_inj.
  - by intros ->.
Qed.
