(* ===== verification/DashMap.v ===== *)
(** The interface of [dashmap::DashMap], a dependency: the operations the
    engine calls on its peer table, with the documented behaviour.  The order
    of iteration is not specified.  [gmap_dashmap] is an instance. *)
From S2P Require Import Prelude.

Class DashMapLib (V : Type) := {
  DashMap : Type;
  dm_new : DashMap;
  dm_get : DashMap -> string -> option V;
  (** [entry(k).or_insert_with(|| mk)], then [f] applied to the value in place *)
  dm_entry : DashMap -> string -> V -> (V -> V) -> DashMap;
  dm_iter : DashMap -> list (string * V);
  dm_len : DashMap -> N;
}.

Class DashMapLaws (V : Type) `{DashMapLib V} : Prop := {
  dm_get_new k : dm_get dm_new k = None;
  dm_get_entry d k mk f k' :
    dm_get (dm_entry d k mk f) k' =
    if decide (k = k') then Some (f (default mk (dm_get d k))) else dm_get d k';
  dm_iter_get d k v : (k, v) ∈ dm_iter d <-> dm_get d k = Some v;
  dm_iter_NoDup d : NoDup (dm_iter d).*1;
  dm_len_iter d : dm_len d = N.of_nat (length (dm_iter d));
}.

#[export] Instance gmap_dashmap V : DashMapLib V := {|
  DashMap := gmap string V;
  dm_new := ∅;
  dm_get d k := d !! k;
  dm_entry d k mk f := <[k := f (default mk (d !! k))]> d;
  dm_iter d := map_to_list d;
  dm_len d := N.of_nat (size d);
|}.

#[export] Instance gmap_dashmap_laws V : DashMapLaws V.
Proof.
  split; simpl.
  - apply lookup_empty.
  - intros d k mk f k'. by rewrite lookup_insert.
  - intros d k v. apply elem_of_map_to_list.
  - intros d. apply NoDup_fst_map_to_list.
  - intros d. by rewrite length_map_to_list.
Qed.
