(* ===== verification/Peer.v ===== *)
(** What a node knows about a peer, src/gossip/peer.rs.  An [Instant] is the
    reading of the monotonic clock in nanoseconds; [exchange_count] is a
    [u64] whose increment wraps, as in the release profile. *)
From S2P Require Import Prelude.

Record PeerInfo := mk_peer {
  gossip_addr : string;
  last_seen : N;
  last_sync_ts : N;
  exchange_count : N;
}.

#[export] Instance PeerInfo_eq_dec : EqDecision PeerInfo.
Proof. solve_decision. Defined.

Definition PeerInfo_new (now : N) (addr : string) : PeerInfo :=
  {| gossip_addr := addr; last_seen := now; last_sync_ts := 0; exchange_count := 0 |}.

Definition record_exchange (now sync_ts : N) (p : PeerInfo) : PeerInfo := {|
  gossip_addr := gossip_addr p;
  last_seen := now;
  last_sync_ts := N.max (last_sync_ts p) sync_ts;
  exchange_count := wrap64 (exchange_count p + 1);
|}.

Definition mark_seen (now : N) (p : PeerInfo) : PeerInfo := {|
  gossip_addr := gossip_addr p;
  last_seen := now;
  last_sync_ts := last_sync_ts p;
  exchange_count := wrap64 (exchange_count p + 1);
|}.

(** [last_seen.elapsed().as_secs()]: saturating difference, whole seconds. *)
Definition elapsed_secs (now since : N) : N := ((now - since) / 1000000000)%N.

Definition is_stale (now timeout_secs : N) (p : PeerInfo) : bool :=
  (timeout_secs <=? elapsed_secs now (last_seen p))%N.

(** What can happen to the entry of a peer: an acknowledged push, or a
    message from the peer. *)
Inductive peer_event := Acked (now sync_ts : N) | Seen (now : N).

Definition peer_apply (p : PeerInfo) (ev : peer_event) : PeerInfo :=
  match ev with Acked now ts => record_exchange now ts p | Seen now => mark_seen now p end.

Definition acked_ts (ev : peer_event) : option N :=
  match ev with Acked _ ts => Some ts | Seen _ => None end.

(** The cursor [last_sync_ts] only moves forward.  A sequence of
    acknowledged exchanges, interleaved in any way with messages from the
    peer, leaves it at the greatest of its old value and the acknowledged
    timestamps, in whatever order the acknowledgements come; hearing from
    the peer does not move it. *)
Theorem cursor_is_max_acked p evs :
  let p' := foldl peer_apply p evs in
  last_sync_ts p' = foldr N.max (last_sync_ts p) (omap acked_ts evs)
  /\ gossip_addr p' = gossip_addr p
  /\ (last_sync_ts p <= last_sync_ts p')%N
  /\ (exchange_count p < U64 ->
      exchange_count p' = wrap64 (exchange_count p + N.of_nat (length evs)))%N.
Proof.
  cbv zeta. revert p. induction evs as [|ev evs IH]; intros p; simpl.
  { split; [done|]. split; [done|]. split; [lia|]. intros. by rewrite wrap64_small; lia. }
  destruct (IH (peer_apply p ev)) as (-> & -> & Hle & Hc).
  assert (forall l a b, foldr N.max (N.max a b) l = N.max b (foldr N.max a l)) as Hmax.
  { intros l a b. induction l as [|x l IHl]; simpl; lia. }
  destruct ev as [now ts|now]; simpl in *; rewrite ?Hmax; (split; [done|]); (split; [done|]).
  all: rewrite ?Hmax in Hle; split; [try lia|]; intros Hp.
  all: rewrite Hc by apply wrap64_lt; unfold wrap64; rewrite N.Div0.add_mod_idemp_l.
  all: f_equal; lia.
Qed.

(** A peer is stale exactly when [timeout_secs] whole seconds have
    passed since it was last heard from; an exchange, or hearing from it,
    makes it fresh for that long. *)
Theorem is_stale_spec now timeout_secs p :
  (is_stale now timeout_secs p = true <-> (timeout_secs * 1000000000 <= now - last_seen p)%N)
  /\ (forall now' ts, is_stale now timeout_secs (record_exchange now' ts p) = true <->
        (timeout_secs * 1000000000 <= now - now')%N)
  /\ (forall now', is_stale now timeout_secs (mark_seen now' p) =
                   is_stale now timeout_secs (record_exchange now' 0 p)).
Proof.
  assert (forall since, (timeout_secs <= elapsed_secs now since)%N <->
                        (timeout_secs * 1000000000 <= now - since)%N) as He.
  { intros since. unfold elapsed_secs. split.
    - intros. pose proof (N.Div0.mul_div_le (now - since) 1000000000). lia.
    - intros. apply N.div_le_lower_bound; lia. }
  unfold is_stale. split; [by rewrite N.leb_le|]. split; [|done].
  intros. by rewrite N.leb_le.
Qed.
