(* ===== verification/Protocol.v ===== *)
(** The gossip wire protocol, src/gossip/protocol.rs: the messages, and the
    length-prefixed framing of [write_message] and [read_message].  The
    payload encoding is [bincode], a dependency: [Codec] is its interface and
    [CodecLaws] the round trip the framing relies on. *)
From Stdlib Require Export Strings.Byte.
From S2P Require Import Prelude Crdt Store.

(** ** Messages *)

Record GossipMessage := mk_msg {
  from_node_id : string;
  from_gossip_addr : string;
  deltas : StateDelta;
  generation : N;
}.

Record GossipAck := mk_ack {
  ack_from_node_id : string;
  merged_count : N;
}.

Class Codec (T : Type) := {
  encode : T -> result string (list byte);
  decode : list byte -> result string T;
}.

Class CodecLaws (T : Type) `{Codec T} : Prop :=
  decode_encode (m : T) bs : encode m = Ok bs -> decode bs = Ok m.

(** ** Big-endian lengths *)

Definition byte_of_N (n : N) : byte := default x00 (Byte.of_N (n mod 256)).

(** [u32::to_be_bytes] and [u32::from_be_bytes]. *)
Definition u32_to_be_bytes (n : N) : list byte :=
  [byte_of_N (n / 16777216); byte_of_N (n / 65536); byte_of_N (n / 256); byte_of_N n].

Definition u32_from_be_bytes (bs : list byte) : N :=
  foldl (fun acc b => acc * 256 + Byte.to_N b)%N 0%N bs.

(** ** Streams *)

(** The readable end of a connection: the bytes that will arrive, and the
    error a read gives when they run out (end of file, reset, ...). *)
Record reader := mk_reader { incoming_bytes : list byte; at_end : string }.

(** The writable end: the bytes accepted so far, how many more are accepted
    before the connection fails ([None]: it does not), and the error then. *)
Record writer := mk_writer { written : list byte; room : option N; write_error : string }.

(** A read consumes what it could even when it fails. *)
Definition read_exact (n : N) (r : reader) : result string (list byte) * reader :=
  if (n <=? N.of_nat (length (incoming_bytes r)))%N
  then (Ok (take (N.to_nat n) (incoming_bytes r)),
        mk_reader (drop (N.to_nat n) (incoming_bytes r)) (at_end r))
  else (Err (at_end r), mk_reader [] (at_end r)).

Definition write_all (bs : list byte) (w : writer) : result string unit * writer :=
  match room w with
  | None => (Ok tt, mk_writer (written w ++ bs) None (write_error w))
  | Some n =>
      if (N.of_nat (length bs) <=? n)%N
      then (Ok tt, mk_writer (written w ++ bs) (Some (n - N.of_nat (length bs))%N) (write_error w))
      else (Err (write_error w),
            mk_writer (written w ++ take (N.to_nat n) bs) (Some 0%N) (write_error w))
  end.

(** [flush] has nothing buffered to write on a socket. *)
Definition flush (w : writer) : result string unit * writer := (Ok tt, w).

(** ** Framing *)

Definition MAX_MESSAGE_BYTES : N := 16 * 1024 * 1024.

Definition too_large_message (len : N) : string :=
  "gossip message too large: " +:+ pretty len +:+ " bytes (max " +:+ pretty MAX_MESSAGE_BYTES +:+ ")".

Definition write_message `{Codec T} (w : writer) (msg : T) : result string unit * writer :=
  match encode msg with
  | Err e => (Err ("gossip encode: " +:+ e), w)
  | Ok payload =>
      let len := wrap32 (N.of_nat (length payload)) in
      match write_all (u32_to_be_bytes len) w with
      | (Err e, w) => (Err e, w)
      | (Ok _, w) =>
          match write_all payload w with
          | (Err e, w) => (Err e, w)
          | (Ok _, w) => flush w
          end
      end
  end.

Definition read_message `{Codec T} (r : reader) : result string T * reader :=
  match read_exact 4 r with
  | (Err e, r) => (Err e, r)
  | (Ok len_buf, r) =>
      let len := u32_from_be_bytes len_buf in
      if (MAX_MESSAGE_BYTES <? len)%N then (Err (too_large_message len), r)
      else match read_exact len r with
           | (Err e, r) => (Err e, r)
           | (Ok payload, r) => (map_err (fun e => "gossip decode: " +:+ e) (decode payload), r)
           end
  end.

(** The bytes of one message on the wire. *)
Definition frame (payload : list byte) : list byte :=
  u32_to_be_bytes (wrap32 (N.of_nat (length payload))) ++ payload.

(** ** Lemmas *)

Lemma to_N_byte_of_N n : Byte.to_N (byte_of_N n) = (n mod 256)%N.
Proof.
  unfold byte_of_N. destruct (Byte.of_N (n mod 256)) as [b|] eqn:E.
  - simpl. by apply Byte.to_of_N.
  - apply Byte.of_N_None_iff in E. pose proof (N.mod_upper_bound n 256 ltac:(done)). lia.
Qed.

Lemma u32_be_roundtrip n : (n < U32)%N -> u32_from_be_bytes (u32_to_be_bytes n) = n.
Proof.
  unfold u32_from_be_bytes, u32_to_be_bytes, U32. simpl. rewrite !to_N_byte_of_N. intros Hn.
  assert (n / 16777216 < 256)%N as Hd by (apply N.Div0.div_lt_upper_bound; lia).
  change 16777216%N with (256 * (256 * 256))%N in *. change 65536%N with (256 * 256)%N.
  rewrite <-!N.Div0.div_div in *. rewrite (N.mod_small (n / 256 / 256 / 256) 256) by done.
  pose proof (N.Div0.div_mod n 256). pose proof (N.Div0.div_mod (n / 256) 256).
  pose proof (N.Div0.div_mod (n / 256 / 256) 256). lia.
Qed.

Lemma read_exact_app bs rest e n :
  n = N.of_nat (length bs) ->
  read_exact n (mk_reader (bs ++ rest) e) = (Ok bs, mk_reader rest e).
Proof.
  intros ->. unfold read_exact. cbn [incoming_bytes at_end].
  rewrite length_app, Nat2N.inj_add, (proj2 (N.leb_le _ _)) by lia.
  by rewrite Nat2N.id, take_app_length, drop_app_length.
Qed.

Lemma read_exact_short n bs e :
  (N.of_nat (length bs) < n)%N -> read_exact n (mk_reader bs e) = (Err e, mk_reader [] e).
Proof. intros. unfold read_exact. simpl. by rewrite (proj2 (N.leb_gt _ _)). Qed.

Lemma write_all_unlimited bs wr e :
  write_all bs (mk_writer wr None e) = (Ok tt, mk_writer (wr ++ bs) None e).
Proof. reflexivity. Qed.

Lemma read_length n rest e :
  (n < U32)%N ->
  exists buf, read_exact 4 (mk_reader (u32_to_be_bytes n ++ rest) e) = (Ok buf, mk_reader rest e)
              /\ u32_from_be_bytes buf = n.
Proof.
  intros Hn. exists (u32_to_be_bytes n). split; [by apply read_exact_app|by apply u32_be_roundtrip].
Qed.

Section framing.
Context `{Codec T}.

Lemma write_message_ok msg payload wr e :
  encode msg = Ok payload ->
  write_message (mk_writer wr None e) msg = (Ok tt, mk_writer (wr ++ frame payload) None e).
Proof.
  intros He. unfold write_message, frame. rewrite He. cbv zeta.
  by rewrite !write_all_unlimited, app_assoc.
Qed.

(** Reading against a header that announces [len]. *)
Lemma read_message_header len rest e :
  (len < U32)%N ->
  read_message (T := T) (mk_reader (u32_to_be_bytes len ++ rest) e) =
  if (MAX_MESSAGE_BYTES <? len)%N then (Err (too_large_message len), mk_reader rest e)
  else match read_exact len (mk_reader rest e) with
       | (Err e, r) => (Err e, r)
       | (Ok payload, r) => (map_err (fun e => "gossip decode: " +:+ e) (decode payload), r)
       end.
Proof.
  intros Hlen. unfold read_message. destruct (read_length len rest e Hlen) as (buf & -> & Hb).
  by rewrite Hb.
Qed.

Lemma read_message_frame msg payload rest e :
  decode payload = Ok msg -> (N.of_nat (length payload) <= MAX_MESSAGE_BYTES)%N ->
  read_message (mk_reader (frame payload ++ rest) e) = (Ok msg, mk_reader rest e).
Proof.
  intros Hd Hlen. assert (MAX_MESSAGE_BYTES = 16777216)%N as HM by reflexivity.
  unfold frame. rewrite <-app_assoc, read_message_header by apply wrap32_lt.
  rewrite wrap32_small by (unfold U32; lia).
  rewrite (proj2 (N.ltb_ge _ _)) by done. rewrite read_exact_app by done. by rewrite Hd.
Qed.
End framing.

(** ** Properties *)

Section protocol_properties.
Context `{Codec T}.

(** A message whose encoding fits in [MAX_MESSAGE_BYTES] arrives as it
    was sent.  Written to a connection that does not fail it appends one
    frame; reading that frame gives the message back and leaves exactly the
    bytes that follow it. *)
Theorem wire_roundtrip `{!CodecLaws T} (msg : T) payload wr e :
  encode msg = Ok payload -> (N.of_nat (length payload) <= MAX_MESSAGE_BYTES)%N ->
  exists bytes,
    write_message (mk_writer wr None e) msg = (Ok tt, mk_writer (wr ++ bytes) None e)
    /\ (forall rest e', read_message (mk_reader (bytes ++ rest) e') = (Ok msg, mk_reader rest e')).
Proof.
  intros He Hlen. exists (frame payload). split; [by apply write_message_ok|].
  intros. apply read_message_frame; [by apply decode_encode|done].
Qed.

Fixpoint write_messages (w : writer) (msgs : list T) : result string unit * writer :=
  match msgs with
  | [] => (Ok tt, w)
  | msg :: msgs' =>
      match write_message w msg with
      | (Err e, w) => (Err e, w)
      | (Ok _, w) => write_messages w msgs'
      end
  end.

Fixpoint read_messages (n : nat) (r : reader) : result string (list T) * reader :=
  match n with
  | 0 => (Ok [], r)
  | S n' =>
      match read_message r with
      | (Err e, r) => (Err e, r)
      | (Ok msg, r) =>
          match read_messages n' r with
          | (Err e, r) => (Err e, r)
          | (Ok msgs, r) => (Ok (msg :: msgs), r)
          end
      end
  end.

(** C36: framing is self-delimiting: any sequence of messages that fit,
    written one after the other on a connection, is read back as the same
    sequence, in order, with nothing lost or left over. *)
Theorem wire_stream_roundtrip `{!CodecLaws T} (msgs : list T) wr e :
  Forall (fun msg => exists payload, encode msg = Ok payload
            /\ (N.of_nat (length payload) <= MAX_MESSAGE_BYTES)%N) msgs ->
  exists bytes,
    write_messages (mk_writer wr None e) msgs = (Ok tt, mk_writer (wr ++ bytes) None e)
    /\ forall rest e', read_messages (length msgs) (mk_reader (bytes ++ rest) e')
                       = (Ok msgs, mk_reader rest e').
Proof.
  intros Hm. revert wr. induction Hm as [|msg msgs (payload & He & Hlen) _ IH]; intros wr.
  - exists []. rewrite app_nil_r. done.
  - destruct (IH (wr ++ frame payload)) as (bytes & Hw & Hr).
    exists (frame payload ++ bytes). cbn [write_messages read_messages length]. erewrite write_message_ok by done.
    rewrite Hw, app_assoc. split; [done|]. intros rest e'.
    rewrite <-app_assoc, (read_message_frame msg) by first [by apply decode_encode | done].
    by rewrite Hr.
Qed.

(** C37: the size limit is enforced by the receiver alone.  A message whose
    encoding is larger than [MAX_MESSAGE_BYTES] (and shorter than 2^32 bytes)
    is written without an error, and the receiver rejects it after the four
    bytes of its length, before it reads or allocates the payload. *)
Theorem oversized_rejected_by_receiver_only (msg : T) payload wr e :
  encode msg = Ok payload -> (MAX_MESSAGE_BYTES < N.of_nat (length payload) < U32)%N ->
  exists bytes,
    write_message (mk_writer wr None e) msg = (Ok tt, mk_writer (wr ++ bytes) None e)
    /\ forall rest e', read_message (T := T) (mk_reader (bytes ++ rest) e') =
         (Err (too_large_message (N.of_nat (length payload))), mk_reader (payload ++ rest) e').
Proof.
  intros He [Hmax Hlen]. exists (frame payload). split; [by apply write_message_ok|].
  intros rest e'. unfold frame. rewrite <-app_assoc, wrap32_small, read_message_header by done.
  by rewrite (proj2 (N.ltb_lt _ _)).
Qed.

(** A connection that ends inside a frame never yields a message: for
    every strict prefix of a frame the read fails with the stream's own
    error. *)
Theorem truncated_frame_rejected payload n e :
  (N.of_nat (length payload) <= MAX_MESSAGE_BYTES)%N -> n < length (frame payload) ->
  read_message (T := T) (mk_reader (take n (frame payload)) e) = (Err e, mk_reader [] e).
Proof.
  intros Hlen Hn. assert (MAX_MESSAGE_BYTES = 16777216)%N as HM by reflexivity.
  assert (length (frame payload) = 4 + length payload) as Hf by done.
  destruct (decide (n < 4)) as [Hlt|Hge].
  - unfold read_message. rewrite read_exact_short; [done|]. rewrite length_take. lia.
  - unfold frame. rewrite wrap32_small by (unfold U32; lia).
    rewrite take_app_ge by (simpl; lia). rewrite read_message_header by (unfold U32; lia).
    rewrite (proj2 (N.ltb_ge _ _)) by done. rewrite read_exact_short; [done|].
    rewrite length_take. simpl. lia.
Qed.

(** What any frame reads back as, with no assumption on its size.  The
    length field holds the length modulo 2^32, so the reader takes only that
    many bytes of the payload: it decodes a prefix and the rest of the
    payload is left to be read as the next frame. *)
Theorem length_field_wraps payload rest e :
  let n := wrap32 (N.of_nat (length payload)) in
  read_message (T := T) (mk_reader (frame payload ++ rest) e) =
  if (MAX_MESSAGE_BYTES <? n)%N then (Err (too_large_message n), mk_reader (payload ++ rest) e)
  else (map_err (fun e => "gossip decode: " +:+ e) (decode (take (N.to_nat n) payload)),
        mk_reader (drop (N.to_nat n) payload ++ rest) e).
Proof.
  cbv zeta. set (n := wrap32 (N.of_nat (length payload))). unfold frame. fold n.
  rewrite <-app_assoc, read_message_header by apply wrap32_lt. case_match; [done|].
  assert (n <= N.of_nat (length payload))%N as Hle by (apply N.Div0.mod_le).
  rewrite <-(take_drop (N.to_nat n) payload) at 1. rewrite <-app_assoc.
  by rewrite read_exact_app by (rewrite length_take; lia).
Qed.
End protocol_properties.
