(* ===== verification/Snapshot.v ===== *)
(** Serialisation of a delta, src/state/snapshot.rs: [bincode] with the
    error wrapped in a message. *)
From S2P Require Import Prelude Crdt Store Protocol.

Section snapshot.
Context `{Codec StateDelta}.

Definition serialize_delta (delta : StateDelta) : result string (list byte) :=
  map_err (fun e => "snapshot serialize: " +:+ e) (encode delta).

Definition deserialize_delta (bytes : list byte) : result string StateDelta :=
  map_err (fun e => "snapshot deserialize: " +:+ e) (decode bytes).
End snapshot.

(** A delta that serialises deserialises to itself, and an error of the
    codec, in either direction, is reported with its direction. *)
Theorem snapshot_roundtrip `{CodecLaws StateDelta} :
  (forall delta bytes, serialize_delta delta = Ok bytes -> deserialize_delta bytes = Ok delta)
  /\ (forall delta e, encode delta = Err e ->
        serialize_delta delta = Err ("snapshot serialize: " +:+ e))
  /\ (forall bytes e, decode (T := StateDelta) bytes = Err e ->
        deserialize_delta bytes = Err ("snapshot deserialize: " +:+ e)).
Proof.
  unfold serialize_delta, deserialize_delta. split; [|split].
  - intros delta bytes. destruct (encode delta) as [bs|] eqn:E; simpl; [|done].
    intros [= <-]. by rewrite (decode_encode delta).
  - by intros delta e ->.
  - by intros bytes e ->.
Qed.
