(* ===== verification/Bincode.v ===== *)
(** A codec in the layout [bincode] documents for its default options:
    integers little-endian and fixed-width, a [u64] length before the bytes
    of a string and before the elements of a sequence, fields in order.  It
    shows that the hypotheses [CodecLaws] of the protocol can hold, and gives
    the examples something to run; no theorem about the engine depends on it. *)
From S2P Require Import Prelude Crdt Store Protocol.

Class BinFormat (A : Type) := {
  put : A -> list byte;
  parse : list byte -> option (A * list byte);
  fits : A -> bool;
  parse_put a rest : fits a = true -> parse (put a ++ rest) = Some (a, rest);
}.

Fixpoint le_bytes (k : nat) (n : N) : list byte :=
  match k with 0 => [] | S k' => byte_of_N n :: le_bytes k' (n / 256) end.

Definition le_value (bs : list byte) : N :=
  foldr (fun b acc => Byte.to_N b + 256 * acc)%N 0%N bs.

Lemma length_le_bytes k n : length (le_bytes k n) = k.
Proof. revert n. induction k as [|k IH]; intros n; simpl; [done|]. by rewrite IH. Qed.

Lemma le_value_bytes k n : (n < 256 ^ N.of_nat k)%N -> le_value (le_bytes k n) = n.
Proof.
  revert n. induction k as [|k IH]; intros n Hn.
  - simpl in *. change (256 ^ N.of_nat 0)%N with 1%N in Hn. lia.
  - cbn [le_bytes le_value foldr]. rewrite to_N_byte_of_N.
    change (foldr _ 0%N (le_bytes k (n / 256))) with (le_value (le_bytes k (n / 256))).
    rewrite IH.
    + pose proof (N.Div0.div_mod n 256). lia.
    + rewrite Nat2N.inj_succ, N.pow_succ_r' in Hn. by apply N.Div0.div_lt_upper_bound.
Qed.

(** A fixed number of bytes off the front. *)
Definition parse_bytes (n : N) (bs : list byte) : option (list byte * list byte) :=
  if (n <=? N.of_nat (length bs))%N
  then Some (take (N.to_nat n) bs, drop (N.to_nat n) bs) else None.

Lemma parse_bytes_app bs rest n :
  n = N.of_nat (length bs) -> parse_bytes n (bs ++ rest) = Some (bs, rest).
Proof.
  intros ->. unfold parse_bytes. rewrite length_app, Nat2N.inj_add, (proj2 (N.leb_le _ _)) by lia.
  by rewrite Nat2N.id, take_app_length, drop_app_length.
Qed.

Definition parse_u64 (bs : list byte) : option (N * list byte) :=
  '(w, rest) ← parse_bytes 8 bs; Some (le_value w, rest).

Lemma parse_u64_put n rest : (n <? U64)%N = true -> parse_u64 (le_bytes 8 n ++ rest) = Some (n, rest).
Proof.
  intros Hn%N.ltb_lt. unfold parse_u64. rewrite parse_bytes_app by (by rewrite length_le_bytes).
  unfold mbind, option_bind. by rewrite le_value_bytes.
Qed.

#[export] Instance bin_u64 : BinFormat N :=
  {| put := le_bytes 8; parse := parse_u64; fits n := (n <? U64)%N; parse_put := parse_u64_put |}.

Definition put_string (s : string) : list byte :=
  le_bytes 8 (N.of_nat (length (String.list_byte_of_string s))) ++ String.list_byte_of_string s.

Definition parse_string (bs : list byte) : option (string * list byte) :=
  '(n, rest) ← parse_u64 bs;
  '(w, rest) ← parse_bytes n rest;
  Some (String.string_of_list_byte w, rest).

Lemma parse_string_put s rest :
  (N.of_nat (length (String.list_byte_of_string s)) <? U64)%N = true ->
  parse_string (put_string s ++ rest) = Some (s, rest).
Proof.
  intros Hn. unfold parse_string, put_string. rewrite <-app_assoc, parse_u64_put by done.
  unfold mbind, option_bind. rewrite parse_bytes_app by done.
  by rewrite String.string_of_list_byte_of_string.
Qed.

#[export] Instance bin_string : BinFormat string :=
  {| put := put_string; parse := parse_string; parse_put := parse_string_put |}.

#[export] Program Instance bin_pair `{BinFormat A, BinFormat B} : BinFormat (A * B) := {|
  put p := put p.1 ++ put p.2;
  parse bs := '(a, rest) ← parse bs; '(b, rest) ← parse rest; Some ((a, b), rest);
  fits p := fits p.1 && fits p.2;
|}.
Next Obligation.
  intros A HA B HB [a b] rest [Ha Hb]%andb_true_iff. cbn [fst snd] in *.
  rewrite <-app_assoc, parse_put by done. cbn [mbind option_bind].
  by rewrite parse_put.
Qed.

Fixpoint parse_n `{BinFormat A} (n : nat) (bs : list byte) : option (list A * list byte) :=
  match n with
  | 0 => Some ([], bs)
  | S n' => '(a, rest) ← parse bs; '(l, rest) ← parse_n n' rest; Some (a :: l, rest)
  end.

Lemma parse_n_puts `{BinFormat A} (l : list A) rest :
  forallb fits l = true -> parse_n (length l) ((l ≫= put) ++ rest) = Some (l, rest).
Proof.
  induction l as [|a l IH]; [done|]. cbn [forallb]. intros [Ha Hl]%andb_true_iff.
  rewrite bind_cons. cbn [length parse_n].
  rewrite <-app_assoc, parse_put by done. unfold mbind at 1, option_bind at 1.
  by rewrite IH.
Qed.

#[export] Program Instance bin_list `{BinFormat A} : BinFormat (list A) := {|
  put l := le_bytes 8 (N.of_nat (length l)) ++ (l ≫= put);
  parse bs := '(n, rest) ← parse_u64 bs; parse_n (N.to_nat n) rest;
  fits l := (N.of_nat (length l) <? U64)%N && forallb fits l;
|}.
Next Obligation.
  intros A HA l rest [Hn Hl]%andb_true_iff. cbv beta. rewrite <-app_assoc, parse_u64_put by done.
  cbn [mbind option_bind]. rewrite Nat2N.id. by apply parse_n_puts.
Qed.

(** A format carried along a bijection with a tuple of the fields. *)
Program Definition bin_iso {A B} `{BinFormat A} (f : A -> B) (g : B -> A)
    (Hfg : forall b, f (g b) = b) : BinFormat B := {|
  put b := put (g b);
  parse bs := '(a, rest) ← parse bs; Some (f a, rest);
  fits b := fits (g b);
|}.
Next Obligation.
  intros A B HA f g Hfg b rest Hb. cbv beta. rewrite parse_put by done. cbn [mbind option_bind].
  by rewrite Hfg.
Qed.

#[export] Program Instance bin_lww : BinFormat LwwValue :=
  bin_iso (A := string * N * string) (fun '(v, t, n) => mk_lww v t n)
    (fun x => (value x, timestamp x, node_id x)) _.
Next Obligation. by intros []. Qed.

#[export] Program Instance bin_message : BinFormat GossipMessage :=
  bin_iso (A := string * string * StateDelta * N) (fun '(i, a, d, g) => mk_msg i a d g)
    (fun m => (from_node_id m, from_gossip_addr m, deltas m, generation m)) _.
Next Obligation. by intros []. Qed.

#[export] Program Instance bin_ack : BinFormat GossipAck :=
  bin_iso (A := string * N) (fun '(i, c) => mk_ack i c)
    (fun m => (ack_from_node_id m, merged_count m)) _.
Next Obligation. by intros []. Qed.

(** [deserialize] of a slice accepts trailing bytes. *)
#[export] Instance bin_codec `{BinFormat A} : Codec A := {|
  encode a := if fits a then Ok (put a) else Err "value out of range";
  decode bs := match parse bs with Some (a, _) => Ok a | None => Err "unexpected end of file" end;
|}.

#[export] Instance bin_codec_laws `{BinFormat A} : CodecLaws A.
Proof.
  intros a bs. simpl. destruct (fits a) eqn:Hf; [|done]. intros [= <-].
  rewrite <-(app_nil_r (put a)). by rewrite parse_put.
Qed.
