(* ===== verification/Manager.v ===== *)
(** The gossip manager of src/gossip/manager.rs: seed registration, the
    outbound round (target selection, delta construction, the completion of a
    send task) and the inbound connection handler.  [gossip_round] is cut at
    the points where other tasks can run; Cluster.v interleaves the pieces.
    The random shuffle, the timers and the sockets are the environment's:
    arguments of the definitions that use them. *)
From S2P Require Import Prelude Crdt Replica Broadcast Store Config DashMap Peer Protocol.

(** ** Outbound connections *)

(** What the network answers to [send_and_ack].  [conn_writer] is [None] when
    the peer stops draining its socket and the write stays pending;
    [conn_reply] is [None] when no acknowledgement arrives in five seconds. *)
Record connection := mk_conn {
  conn_writer : option writer;
  conn_reply : option reader;
}.

(** The outcome of [timeout(5 s, TcpStream::connect(addr))]: [None] when it
    elapses. *)
Definition connect_outcome : Type := option (result string connection).

(** [None]: the future never completes. *)
Definition send_and_ack `{Codec GossipMessage, Codec GossipAck}
    (connect : connect_outcome) (addr : string) (msg : GossipMessage)
  : option (result string GossipAck) :=
  match connect with
  | None => Some (Err ("connect timeout to " +:+ addr))
  | Some (Err e) => Some (Err ("connect failed to " +:+ addr +:+ ": " +:+ e))
  | Some (Ok conn) =>
      match conn_writer conn with
      | None => None
      | Some w =>
          match write_message w msg with
          | (Err e, _) => Some (Err e)
          | (Ok _, _) =>
              match conn_reply conn with
              | None => Some (Err ("ack timeout from " +:+ addr))
              | Some r => Some (fst (read_message r))
              end
          end
      end
  end.

(** A task [gossip_round] spawns: what it captured. *)
Record SendTask := mk_send_task {
  task_peer_id : string;
  task_peer_addr : string;
  task_msg : GossipMessage;
  task_max_sent_ts : N;
}.

(** A permutation the random generator can pick. *)
Record shuffler := mk_shuffler {
  shuffle :> list (string * PeerInfo) -> list (string * PeerInfo);
  shuffle_perm l : shuffle l ≡ₚ l;
}.

Definition no_shuffle : shuffler := mk_shuffler (fun l => l) (fun l => reflexivity l).

Section manager.
Context `{BroadcastLib StateEvent, DashMapLib PeerInfo}.

Record GossipManager := mk_manager {
  mgr_config : Config;
  mgr_store : StateStore;
  mgr_peers : DashMap;
  mgr_generation : N;
}.

(** [new]: [now addr] is the clock reading of the insertion of [addr]. *)
Definition register_seed (now : string -> N) (peers : DashMap) (addr : string) : DashMap :=
  dm_entry peers addr (PeerInfo_new (now addr) addr) (fun p => p).

Definition GossipManager_new (now : string -> N) (config : Config) (store : StateStore)
    (peers : DashMap) : GossipManager :=
  let seeds := filter (fun a => a <> "") (seed_peers config) in
  {| mgr_config := config;
     mgr_store := store;
     mgr_peers := foldl (register_seed now) peers seeds;
     mgr_generation := 0 |}.

(** ** [gossip_round] *)

(** Step 1: [shuffle] is the permutation the random generator picks. *)
Definition select_targets (shuffle : list (string * PeerInfo) -> list (string * PeerInfo))
    (peers : DashMap) (config : Config) : list (string * PeerInfo) :=
  let all := shuffle (dm_iter peers) in
  let fanout := N.min (gossip_fanout config) (N.of_nat (length all)) in
  take (N.to_nat fanout) all.

(** Steps 2 and 3 for one target: [None] when it is skipped. *)
Definition round_target (it : hash_iter LwwValue) (store : StateStore) (config : Config)
    (gen : N) (target : string * PeerInfo) : option SendTask :=
  let '(peer_id, peer_info) := target in
  let delta := delta_since it store (last_sync_ts peer_info) in
  if bool_decide (delta = []) && (0 <? exchange_count peer_info)%N then None
  else
    let max_sent_ts := default 0%N (iter_max ((fun kv => timestamp kv.2) <$> delta)) in
    let msg := {| from_node_id := store_node_id store;
                  from_gossip_addr := gossip_addr_of config;
                  deltas := delta;
                  generation := gen |} in
    Some {| task_peer_id := peer_id;
            task_peer_addr := gossip_addr peer_info;
            task_msg := msg;
            task_max_sent_ts := max_sent_ts |}.

(** [generation.fetch_add(1)] gives the old value; the counter wraps. *)
Definition fetch_add_generation (m : GossipManager) : N * GossipManager :=
  (mgr_generation m,
   {| mgr_config := mgr_config m; mgr_store := mgr_store m; mgr_peers := mgr_peers m;
      mgr_generation := wrap64 (mgr_generation m + 1) |}).

(** A round during which nothing else runs; [its] is the traversal order of
    the delta of each target. *)
Definition gossip_round (shuffle : list (string * PeerInfo) -> list (string * PeerInfo))
    (its : string -> hash_iter LwwValue) (m : GossipManager) : GossipManager * list SendTask :=
  let targets := select_targets shuffle (mgr_peers m) (mgr_config m) in
  match targets with
  | [] => (m, [])
  | _ =>
      let '(gen, m) := fetch_add_generation m in
      (m, omap (fun t => round_target (its t.1) (mgr_store m) (mgr_config m) gen t) targets)
  end.

(** The end of a send task. *)
Definition finish_task (now : N) (peers : DashMap) (task : SendTask)
    (res : result string GossipAck) : DashMap :=
  match res with
  | Ok _ =>
      dm_entry peers (task_peer_id task) (PeerInfo_new now (task_peer_addr task))
        (record_exchange now (task_max_sent_ts task))
  | Err _ => peers
  end.

(** ** [handle_inbound] *)

Definition register_sender (now : N) (peers : DashMap) (msg : GossipMessage) : DashMap :=
  dm_entry peers (from_node_id msg) (PeerInfo_new now (from_gossip_addr msg)) (mark_seen now).

Definition ack_of (store : StateStore) (updated : list string) : GossipAck :=
  {| ack_from_node_id := store_node_id store; merged_count := N.of_nat (length updated) |}.

Definition handle_inbound `{Codec GossipMessage, Codec GossipAck}
    (now : N) (r : reader) (w : writer) (store : StateStore) (peers : DashMap)
  : result string unit * (writer * StateStore * DashMap) :=
  match read_message r with
  | (Err e, _) => (Err e, (w, store, peers))
  | (Ok msg, _) =>
      let '(store, updated) := merge_delta store (deltas msg) in
      let peers := register_sender now peers msg in
      let '(res, w) := write_message w (ack_of store updated) in
      (res, (w, store, peers))
  end.
End manager.

Arguments GossipManager {_ _}.

(** ** Lemmas *)

Section manager_lemmas.
Context `{BroadcastLib StateEvent, DashMapLib PeerInfo}.

Lemma delta_max_ub (delta : StateDelta) k v :
  (k, v) ∈ delta ->
  (timestamp v <= default 0 (iter_max ((fun kv => timestamp kv.2) <$> delta)))%N.
Proof. intros Hin. apply max_or_0_ub, list_elem_of_fmap. by exists (k, v). Qed.

Lemma round_target_Some it store config gen pid info task :
  round_target it store config gen (pid, info) = Some task ->
  task_peer_id task = pid /\ task_peer_addr task = gossip_addr info
  /\ deltas (task_msg task) = delta_since it store (last_sync_ts info)
  /\ from_node_id (task_msg task) = store_node_id store
  /\ from_gossip_addr (task_msg task) = gossip_addr_of config
  /\ generation (task_msg task) = gen
  /\ task_max_sent_ts task =
     default 0%N (iter_max ((fun kv => timestamp kv.2) <$> deltas (task_msg task))).
Proof. unfold round_target. case_match; [done|]. by intros [= <-]. Qed.

Lemma round_target_None it store config gen pid info :
  round_target it store config gen (pid, info) = None ->
  (0 < exchange_count info)%N /\ delta_since it store (last_sync_ts info) = [].
Proof.
  unfold round_target. case_match eqn:Hc; [|done].
  by apply andb_true_iff in Hc as [?%bool_decide_eq_true ?%N.ltb_lt].
Qed.

Context `{!DashMapLaws PeerInfo}.

Lemma finish_task_get now peers task res k :
  dm_get (finish_task now peers task res) k =
  match res with
  | Ok _ => if decide (task_peer_id task = k)
            then Some (record_exchange now (task_max_sent_ts task)
                   (default (PeerInfo_new now (task_peer_addr task)) (dm_get peers k)))
            else dm_get peers k
  | Err _ => dm_get peers k
  end.
Proof. destruct res; simpl; [|done]. rewrite dm_get_entry. by case_decide; subst. Qed.

Lemma register_sender_get now peers msg k :
  dm_get (register_sender now peers msg) k =
  if decide (from_node_id msg = k)
  then Some (mark_seen now (default (PeerInfo_new now (from_gossip_addr msg)) (dm_get peers k)))
  else dm_get peers k.
Proof. unfold register_sender. rewrite dm_get_entry. by case_decide; subst. Qed.

Lemma register_seeds_get now peers seeds k :
  dm_get (foldl (register_seed now) peers seeds) k =
  match dm_get peers k with
  | Some p => Some p
  | None => if decide (k ∈ seeds) then Some (PeerInfo_new (now k) k) else None
  end.
Proof.
  revert peers. induction seeds as [|a seeds IH]; intros peers; cbn [foldl].
  - destruct (dm_get peers k); [done|]. by rewrite decide_False by apply not_elem_of_nil.
  - rewrite IH. unfold register_seed. rewrite dm_get_entry. destruct (decide (a = k)) as [->|Hne].
    + destruct (dm_get peers k); [done|]. rewrite (decide_True (P := k ∈ k :: seeds)) by left. done.
    + destruct (dm_get peers k); [done|].
      destruct (decide (k ∈ seeds)).
      * by rewrite (decide_True (P := k ∈ a :: seeds)) by by right.
      * by rewrite (decide_False (P := k ∈ a :: seeds)) by (intros [->|?]%elem_of_cons; done).
Qed.

Lemma select_targets_sub shuffle peers config pid info :
  (forall l, shuffle l ≡ₚ l) ->
  (pid, info) ∈ select_targets shuffle peers config -> dm_get peers pid = Some info.
Proof.
  intros Hs Hin. unfold select_targets in Hin. apply elem_of_take in Hin as (i & Hi & _).
  apply list_elem_of_lookup_2 in Hi. rewrite Hs in Hi. by apply dm_iter_get.
Qed.
End manager_lemmas.

#[export] Hint Rewrite @finish_task_get @register_sender_get @register_seeds_get
  using typeclasses eauto : sse_rw.

(** ** Properties *)

Section manager_properties.
Context `{BroadcastLib StateEvent, DashMapLib PeerInfo, !DashMapLaws PeerInfo}.

(** Creating the manager registers every non-empty seed address that is
    not in the table, under the address itself, with a cursor at 0 and no
    exchange; entries that were in the table are kept as they are, and
    nothing else is added. *)
Theorem manager_new_registers_seeds now config store peers k :
  dm_get (mgr_peers (GossipManager_new now config store peers)) k =
  match dm_get peers k with
  | Some p => Some p
  | None => if decide (k <> "" /\ k ∈ seed_peers config)
            then Some (mk_peer k (now k) 0 0) else None
  end.
Proof.
  unfold GossipManager_new. simpl. rewrite register_seeds_get.
  destruct (dm_get peers k); [done|].
  destruct (decide (k <> "" /\ k ∈ seed_peers config)) as [Hk|Hk].
  - by rewrite decide_True by (by apply list_elem_of_filter).
  - by rewrite decide_False by (by rewrite list_elem_of_filter).
Qed.

(** A round picks distinct entries of the peer table, as many as the
    fanout allows and never more than there are; when the fanout covers the
    table every peer is picked. *)
Theorem select_targets_spec shuffle peers config :
  (forall l, shuffle l ≡ₚ l) ->
  let targets := select_targets shuffle peers config in
  NoDup targets.*1
  /\ (forall pid info, (pid, info) ∈ targets -> dm_get peers pid = Some info)
  /\ N.of_nat (length targets) = N.min (gossip_fanout config) (N.of_nat (length (dm_iter peers)))
  /\ ((N.of_nat (length (dm_iter peers)) <= gossip_fanout config)%N -> targets ≡ₚ dm_iter peers).
Proof.
  intros Hs. cbv zeta. set (all := shuffle (dm_iter peers)).
  assert (all ≡ₚ dm_iter peers) as Hall by apply Hs.
  assert (length all = length (dm_iter peers)) as Hlen by by rewrite Hall.
  split; [|split; [|split]].
  - unfold select_targets. fold all. rewrite fmap_take.
    eapply sublist_NoDup; [|apply sublist_take]. rewrite Hall. apply dm_iter_NoDup.
  - intros pid info. by apply select_targets_sub.
  - unfold select_targets. fold all. rewrite length_take, Hlen. lia.
  - intros Hf. unfold select_targets. fold all. rewrite Hlen, N.min_r by done.
    by rewrite take_ge by lia.
Qed.

(** What is sent to a target.  The target is skipped exactly when it is
    known ([exchange_count] is not 0) and the store has nothing newer than
    its cursor.  Otherwise the message carries exactly the entries newer than
    the cursor, under this node's identity and gossip address, and
    [max_sent_ts], to which the cursor will be advanced, bounds the
    timestamps sent and is one of them unless nothing is sent. *)
Theorem round_target_spec it store config gen pid info :
  match round_target it store config gen (pid, info) with
  | None => (0 < exchange_count info)%N
            /\ forall k v, get store k = Some v -> (timestamp v <= last_sync_ts info)%N
  | Some task =>
      ((exchange_count info = 0)%N
       \/ exists k v, get store k = Some v /\ (last_sync_ts info < timestamp v)%N)
      /\ task_peer_id task = pid /\ task_peer_addr task = gossip_addr info
      /\ from_node_id (task_msg task) = store_node_id store
      /\ from_gossip_addr (task_msg task) = gossip_addr_of config
      /\ (forall k v, (k, v) ∈ deltas (task_msg task) <->
                      get store k = Some v /\ (last_sync_ts info < timestamp v)%N)
      /\ (forall k v, (k, v) ∈ deltas (task_msg task) -> (timestamp v <= task_max_sent_ts task)%N)
      /\ (task_max_sent_ts task = 0%N \/ exists k v, (k, v) ∈ deltas (task_msg task)
                                                      /\ timestamp v = task_max_sent_ts task)
  end.
Proof.
  pose proof (elem_of_delta_since_map it (state store) (last_sync_ts info)) as Hd.
  destruct (round_target it store config gen (pid, info)) as [task|] eqn:E.
  - destruct (round_target_Some _ _ _ _ _ _ _ E) as (Hp & Ha & Hdl & Hi & Hg & _ & Hm).
    split.
    { unfold round_target in E. case_match eqn:Hc; [done|].
      apply andb_false_iff in Hc as [Hc|Hc%N.ltb_ge]; [right|left; lia].
      apply bool_decide_eq_false in Hc. unfold delta_since in Hc.
      destruct (delta_since_map _ _ _) as [|[k v] l] eqn:El; [done|]. exists k, v.
      apply Hd. left. }
    do 4 (split; [done|]). rewrite Hm, Hdl. split; [apply Hd|]. split; [apply delta_max_ub|].
    set (l := (fun kv => timestamp kv.2) <$> delta_since it store (last_sync_ts info)).
    destruct (decide (l = [])) as [->|Hne]; [by left|right].
    apply max_or_0_elem, list_elem_of_fmap in Hne as ([k v] & Hv & Hin). by exists k, v.
  - apply round_target_None in E as [Hx Hc]. split; [done|].
    intros k v Hk. apply N.le_ngt. intros Hlt. unfold delta_since in Hc.
    assert ((k, v) ∈ delta_since_map it (state store) (last_sync_ts info)) as Hin by (by apply Hd).
    rewrite Hc in Hin. by apply not_elem_of_nil in Hin.
Qed.

(** Only an acknowledgement moves a cursor, only of the peer it came
    from, and only forward, to the timestamps that were sent.  A failed send
    changes nothing; a message from a peer counts as an exchange but leaves
    every cursor where it was and every known address as it was. *)
Theorem cursors_move_on_ack_only now peers task msg :
  (forall e, finish_task now peers task (Err e) = peers)
  /\ (forall ack k p, dm_get peers k = Some p ->
        exists p', dm_get (finish_task now peers task (Ok ack)) k = Some p'
          /\ gossip_addr p' = gossip_addr p
          /\ last_sync_ts p' = if decide (task_peer_id task = k)
                               then N.max (last_sync_ts p) (task_max_sent_ts task)
                               else last_sync_ts p)
  /\ (forall k p, dm_get peers k = Some p ->
        exists p', dm_get (register_sender now peers msg) k = Some p'
          /\ gossip_addr p' = gossip_addr p /\ last_sync_ts p' = last_sync_ts p)
  /\ (dm_get peers (from_node_id msg) = None ->
        dm_get (register_sender now peers msg) (from_node_id msg)
        = Some (mk_peer (from_gossip_addr msg) now 0 1)).
Proof.
  split; [done|]. split; [|split].
  - intros ack k p Hk. rewrite finish_task_get, Hk. case_decide; by eexists.
  - intros k p Hk. rewrite register_sender_get, Hk. case_decide; by eexists.
  - intros Hk. rewrite register_sender_get, Hk, decide_True by done. done.
Qed.

Context `{Codec GossipMessage, Codec GossipAck}.

(** The inbound handler on every branch.  A message that cannot be read
    changes nothing.  Otherwise the delta is merged and the sender is
    registered or marked as seen, before the acknowledgement is attempted:
    a failure to send it is reported but undoes nothing. *)
Theorem handle_inbound_spec now r w store peers :
  match read_message r with
  | (Err e, _) => handle_inbound now r w store peers = (Err e, (w, store, peers))
  | (Ok msg, _) =>
      exists store' updated w' res,
        handle_inbound now r w store peers
          = (res, (w', store', register_sender now peers msg))
        /\ merge_delta store (deltas msg) = (store', updated)
        /\ write_message w (mk_ack (store_node_id store) (N.of_nat (length updated))) = (res, w')
  end.
Proof.
  unfold handle_inbound. destruct (read_message r) as [[msg|e] r']; [|done].
  destruct (merge_delta store (deltas msg)) as [store' updated] eqn:Hm.
  assert (store_node_id store' = store_node_id store) as Hid.
  { pose proof (merge_delta_node_id store (deltas msg)) as Hid. by rewrite Hm in Hid. }
  unfold ack_of. rewrite Hid. destruct (write_message w _) as [res w'] eqn:Hw.
  by exists store', updated, w', res.
Qed.

(** C35: [send_and_ack] on every branch: it succeeds only if the connection
    is made in time, the message is written and a well-formed
    acknowledgement is read in time; every other completion is an error.  It
    completes unless the write itself stays pending: unlike the connection
    and the acknowledgement, the write has no timeout. *)
Theorem send_and_ack_spec connect addr msg :
  (send_and_ack connect addr msg = None <->
     exists c, connect = Some (Ok c) /\ conn_writer c = None)
  /\ (forall ack, send_and_ack connect addr msg = Some (Ok ack) <->
        exists c w w' r r', connect = Some (Ok c) /\ conn_writer c = Some w
          /\ write_message w msg = (Ok tt, w') /\ conn_reply c = Some r
          /\ read_message r = (Ok ack, r')).
Proof.
  unfold send_and_ack. destruct connect as [[[[w|] rep]|e]|]; simpl.
  - destruct (write_message w msg) as [[[]|e] w'] eqn:Hw.
    + destruct rep as [r|]; [destruct (read_message r) as [res r'] eqn:Hr|]; simpl; split.
      * split; [done|]. intros (c & [= <-] & Hc). done.
      * intros ack. split; [intros [= ->]; by exists (mk_conn (Some w) (Some r)), w, w', r, r'|].
        intros (c & w0 & w1 & r0 & r1 & [= <-] & [= <-] & Hw' & [= <-] & Hr'). congruence.
      * split; [done|]. intros (c & [= <-] & Hc). done.
      * intros ack. split; [done|]. intros (c & ? & ? & r & ? & [= <-] & _ & _ & ? & _). done.
    + split; [split; [done|by intros (c & [= <-] & Hc)]|]. intros ack. split; [done|].
      intros (c & w0 & w1 & r0 & r1 & [= <-] & [= <-] & Hw' & _). congruence.
  - split; [split; [intros _; by exists (mk_conn None rep)|done]|]. intros ack. split; [done|].
    by intros (c & ? & ? & ? & ? & [= <-] & ? & _).
  - split; [split; [done|by intros (? & ? & _)]|]. intros ack. split; [done|].
    by intros (c & ? & ? & ? & ? & ? & _).
  - split; [split; [done|by intros (? & ? & _)]|]. intros ack. split; [done|].
    by intros (c & ? & ? & ? & ? & ? & _).
Qed.

Context `{!CodecLaws GossipMessage, !CodecLaws GossipAck}.

(** C31: one push, end to end.  If the two encodings fit in a frame and the
    connection works, the bytes [send_and_ack] writes make the receiver merge
    exactly the delta that was sent, and the bytes the receiver answers make
    [send_and_ack] succeed with the number of keys that changed there. *)
Theorem push_end_to_end now addr msg store peers mp ap e1 e2 e3 :
  encode msg = Ok mp -> (N.of_nat (length mp) <= MAX_MESSAGE_BYTES)%N ->
  encode (ack_of store (merge_delta store (deltas msg)).2) = Ok ap ->
  (N.of_nat (length ap) <= MAX_MESSAGE_BYTES)%N ->
  exists sent reply,
    write_message (mk_writer [] None e1) msg = (Ok tt, mk_writer sent None e1)
    /\ handle_inbound now (mk_reader sent e2) (mk_writer [] None e2) store peers
       = (Ok tt, (mk_writer reply None e2, (merge_delta store (deltas msg)).1,
                  register_sender now peers msg))
    /\ send_and_ack (Some (Ok (mk_conn (Some (mk_writer [] None e1)) (Some (mk_reader reply e3)))))
         addr msg
       = Some (Ok (mk_ack (store_node_id store)
                          (N.of_nat (length (merge_delta store (deltas msg)).2)))).
Proof.
  intros Hmp Hml Hap Hal. exists (frame mp), (frame ap).
  split; [by apply (write_message_ok msg mp [])|]. split.
  - unfold handle_inbound. rewrite <-(app_nil_r (frame mp)).
    rewrite (read_message_frame msg mp) by first [by apply decode_encode | done].
    destruct (merge_delta store (deltas msg)) as [store' updated] eqn:Hm. simpl in *.
    unfold ack_of in *. pose proof (merge_delta_node_id store (deltas msg)) as Hid.
    rewrite Hm in Hid. simpl in Hid. rewrite Hid.
    by rewrite (write_message_ok _ ap []) by done.
  - unfold send_and_ack. simpl. rewrite (write_message_ok msg mp []) by done.
    rewrite <-(app_nil_r (frame ap)).
    rewrite (read_message_frame _ ap) by first [by apply decode_encode | done]. done.
Qed.
End manager_properties.
