(* ===== verification/ProtocolExamples.v ===== *)
(** The wire format, the snapshot format and the peer table at concrete
    inputs, with the codec of Bincode.v. *)
From S2P Require Import Prelude Crdt Replica Broadcast Store StoreConc StoreExamples Config.
From S2P Require Import DashMap Peer Protocol Snapshot Bincode Manager.

(** ** Messages *)

Definition msg1 : GossipMessage := mk_msg "node-1" "A:7071" [("a", v1); ("b", v2)] 3.
Definition ack1 : GossipAck := mk_ack "node-2" 2.
Definition msg1_bytes : list byte := put msg1.

Lemma wire_roundtrip_witness :
  exists bytes,
    write_message (mk_writer [] None "reset") msg1 = (Ok tt, mk_writer ([] ++ bytes) None "reset")
    /\ (forall rest e', read_message (mk_reader (bytes ++ rest) e') = (Ok msg1, mk_reader rest e')).
Proof. apply (wire_roundtrip msg1 msg1_bytes); by vm_compute. Defined.

Lemma wire_stream_roundtrip_witness :
  exists bytes,
    write_messages (mk_writer [] None "reset") [ack1; ack1]
      = (Ok tt, mk_writer ([] ++ bytes) None "reset")
    /\ forall rest e', read_messages (length [ack1; ack1]) (mk_reader (bytes ++ rest) e')
                       = (Ok [ack1; ack1], mk_reader rest e').
Proof.
  apply (wire_stream_roundtrip [ack1; ack1]).
  repeat constructor; (exists (put ack1); split; by vm_compute).
Defined.

Lemma truncated_frame_rejected_witness :
  read_message (T := GossipMessage) (mk_reader (take 40 (frame msg1_bytes)) "unexpected end of file")
  = (Err "unexpected end of file", mk_reader [] "unexpected end of file").
Proof. apply truncated_frame_rejected; vm_compute; [done|lia]. Defined.

(** ** A message that is too large *)

(** A node identifier of 16 MiB. *)
Definition big_id : string := String.string_of_list_byte (replicate (N.to_nat MAX_MESSAGE_BYTES) x41).
Definition big_msg : GossipMessage := mk_msg big_id "A:7071" [] 0.

Lemma length_put_string s : length (put_string s) = 8 + length (String.list_byte_of_string s).
Proof. unfold put_string. by rewrite length_app, length_le_bytes. Qed.

Lemma big_id_length : N.of_nat (length (String.list_byte_of_string big_id)) = MAX_MESSAGE_BYTES.
Proof.
  unfold big_id. by rewrite String.list_byte_of_string_of_list_byte, length_replicate, N2Nat.id.
Qed.

Lemma big_msg_length : N.of_nat (length (put big_msg)) = (MAX_MESSAGE_BYTES + 38)%N.
Proof.
  change (put big_msg) with (((put_string big_id ++ put_string "A:7071")
    ++ (le_bytes 8 0 ++ [])) ++ le_bytes 8 0).
  rewrite !length_app, length_put_string, !Nat2N.inj_add, big_id_length. by vm_compute.
Qed.

Lemma big_msg_encode : encode big_msg = Ok (put big_msg).
Proof.
  unfold encode, bin_codec. assert (fits big_msg = true) as ->; [|done].
  change (fits big_msg) with
    ((((N.of_nat (length (String.list_byte_of_string big_id)) <? U64)%N && true) && true) && true).
  by rewrite big_id_length.
Qed.

Lemma oversized_rejected_by_receiver_only_witness :
  exists bytes,
    write_message (mk_writer [] None "reset") big_msg = (Ok tt, mk_writer ([] ++ bytes) None "reset")
    /\ forall rest e', read_message (T := GossipMessage) (mk_reader (bytes ++ rest) e') =
         (Err (too_large_message (N.of_nat (length (put big_msg)))),
          mk_reader (put big_msg ++ rest) e').
Proof.
  apply (oversized_rejected_by_receiver_only big_msg (put big_msg)); [apply big_msg_encode|].
  by rewrite big_msg_length.
Defined.

(** ** Snapshots *)

Lemma snapshot_roundtrip_witness :
  exists bytes, serialize_delta delta1 = Ok bytes /\ deserialize_delta bytes = Ok delta1.
Proof.
  exists (put delta1). assert (serialize_delta delta1 = Ok (put delta1)) as H by (by vm_compute).
  split; [exact H|]. by apply (proj1 snapshot_roundtrip delta1 (put delta1)).
Defined.

(** ** Peer tables *)

Definition config1 : Config := mk_config "A" 7070 7071 (Some "node-1") ["B:7071"; ""; "C:7071"] 1000 2 16.
Definition peers1 : DashMap := ({["node-2" := mk_peer "B:7071" 5 40 3]} : gmap string PeerInfo).

Lemma manager_new_registers_seeds_witness :
  dm_get (mgr_peers (GossipManager_new (fun _ => 9%N) config1 s1 peers1)) "C:7071"
    = Some (mk_peer "C:7071" 9 0 0)
  /\ dm_get (mgr_peers (GossipManager_new (fun _ => 9%N) config1 s1 peers1)) "" = None.
Proof. split; by rewrite manager_new_registers_seeds. Defined.

Definition peers2 : DashMap :=
  mgr_peers (GossipManager_new (fun _ => 9%N) config1 s1 peers1).

Lemma select_targets_spec_witness :
  (select_targets reverse peers2 config1).*1 = ["B:7071"; "node-2"]
  /\ NoDup (select_targets reverse peers2 config1).*1.
Proof.
  split; [by vm_compute|].
  apply (select_targets_spec reverse peers2 config1). apply reverse_Permutation.
Defined.

Lemma cursors_move_on_ack_only_witness :
  exists p', dm_get (finish_task 20 peers1 (mk_send_task "node-2" "B:7071" msg1 60) (Ok ack1)) "node-2"
    = Some p' /\ gossip_addr p' = "B:7071"
    /\ last_sync_ts p' = if decide ("node-2" = "node-2") then N.max 40 60 else 40%N.
Proof.
  apply (proj1 (proj2 (cursors_move_on_ack_only 20 peers1 (mk_send_task "node-2" "B:7071" msg1 60) msg1))
           ack1 "node-2" (mk_peer "B:7071" 5 40 3)). done.
Defined.

Lemma cursor_is_max_acked_witness :
  exchange_count (foldl peer_apply (mk_peer "B:7071" 5 40 3) [Acked 20 60; Seen 21; Acked 22 50])
    = wrap64 (3 + 3)
  /\ last_sync_ts (foldl peer_apply (mk_peer "B:7071" 5 40 3) [Acked 20 60; Seen 21; Acked 22 50]) = 60%N.
Proof.
  split; [|by vm_compute].
  apply (cursor_is_max_acked (mk_peer "B:7071" 5 40 3) [Acked 20 60; Seen 21; Acked 22 50]). done.
Defined.

Lemma push_end_to_end_witness :
  exists sent reply,
    write_message (mk_writer [] None "e1") msg1 = (Ok tt, mk_writer sent None "e1")
    /\ handle_inbound 30 (mk_reader sent "e2") (mk_writer [] None "e2") s2 peers1
       = (Ok tt, (mk_writer reply None "e2", (merge_delta s2 (deltas msg1)).1,
                  register_sender 30 peers1 msg1))
    /\ send_and_ack (Some (Ok (mk_conn (Some (mk_writer [] None "e1")) (Some (mk_reader reply "e3")))))
         "B:7071" msg1
       = Some (Ok (mk_ack "node-2" (N.of_nat (length (merge_delta s2 (deltas msg1)).2)))).
Proof.
  apply (push_end_to_end 30 "B:7071" msg1 s2 peers1 msg1_bytes (put (mk_ack "node-2" 1)));
    by vm_compute.
Defined.
