(* ===== verification/Cluster.v ===== *)
(** A cluster of nodes gossiping: the pieces of Manager.v interleaved.  Each
    node is a manager (store, peer table, generation counter) and the state
    of its scheduler task; every send task in progress is a flight.  An
    [action] is one atomic step of one task, with all the choices the
    environment makes (clock readings, random shuffle, traversal orders,
    losses); [exec] performs it, [run] performs a sequence of them. *)
From S2P Require Import Prelude Crdt Replica Broadcast Store Config DashMap Peer Protocol.
From S2P Require Import Manager.

(** Progress of one push: connecting or transmitting, merged by the receiver,
    receiver has registered the sender and written the acknowledgement,
    acknowledgement processed by the sender, never received. *)
Inductive phase := Sending | Merged (ack : GossipAck) | AckSent (ack : GossipAck) | Closed | Lost.

(** [fl_waiting]: the sending task is still waiting for the outcome. *)
Record flight := mk_flight {
  fl_src : string;
  fl_task : SendTask;
  fl_phase : phase;
  fl_waiting : bool;
}.

Definition fl_dst (f : flight) : string := task_peer_addr (fl_task f).
Definition fl_deltas (f : flight) : StateDelta := deltas (task_msg (fl_task f)).

Definition set_phase (f : flight) (p : phase) (waiting : bool) : flight :=
  mk_flight (fl_src f) (fl_task f) p waiting.

Inductive action :=
| ASet (addr : string) (clock : Z) (key value : string)
| ARoundStart (addr : string) (sh : shuffler)
| ARoundTarget (addr : string) (it : hash_iter LwwValue)
| ARoundEnd (addr : string)
| AMerge (i : nat)
| ARegister (i : nat) (now : N)
| AAck (i : nat) (now : N)
| AGiveUp (i : nat)
| ALose (i : nat).

Section cluster.
Context `{BroadcastLib StateEvent, DashMapLib PeerInfo}.

(** [node_round]: [gossip_round] in progress, with its generation and the
    targets it has still to serve. *)
Record Node := mk_node {
  node_mgr : GossipManager;
  node_round : option (N * list (string * PeerInfo));
}.

Record Cluster := mk_cluster {
  nodes : gmap string Node;
  flights : list flight;
}.

Definition node_store (n : Node) : StateStore := mgr_store (node_mgr n).
Definition node_state (n : Node) : StateMap := state (node_store n).
Definition node_peers (n : Node) : DashMap := mgr_peers (node_mgr n).
Definition node_id_of (n : Node) : string := store_node_id (node_store n).

Definition with_store (n : Node) (s : StateStore) : Node :=
  mk_node (mk_manager (mgr_config (node_mgr n)) s (node_peers n) (mgr_generation (node_mgr n)))
          (node_round n).
Definition with_peers (n : Node) (p : DashMap) : Node :=
  mk_node (mk_manager (mgr_config (node_mgr n)) (node_store n) p (mgr_generation (node_mgr n)))
          (node_round n).

Definition put_node (c : Cluster) (a : string) (n : Node) : Cluster :=
  mk_cluster (<[a := n]> (nodes c)) (flights c).
Definition put_flight (c : Cluster) (i : nat) (f : flight) : Cluster :=
  mk_cluster (nodes c) (<[i := f]> (flights c)).

Definition exec (act : action) (c : Cluster) : option Cluster :=
  match act with
  | ASet addr clock key value =>
      n ← nodes c !! addr;
      match set clock (node_store n) key value with
      | Done (s, _) => Some (put_node c addr (with_store n s))
      | Panic _ => None
      end
  | ARoundStart addr sh =>
      n ← nodes c !! addr;
      match node_round n, select_targets sh (node_peers n) (mgr_config (node_mgr n)) with
      | None, (_ :: _) as targets =>
          let '(gen, m) := fetch_add_generation (node_mgr n) in
          Some (put_node c addr (mk_node m (Some (gen, targets))))
      | _, _ => None
      end
  | ARoundTarget addr it =>
      n ← nodes c !! addr;
      match node_round n with
      | Some (gen, t :: ts) =>
          let new := match round_target it (node_store n) (mgr_config (node_mgr n)) gen t with
                     | Some task => [mk_flight addr task Sending true]
                     | None => []
                     end in
          Some (mk_cluster (<[addr := mk_node (node_mgr n) (Some (gen, ts))]> (nodes c))
                           (flights c ++ new))
      | _ => None
      end
  | ARoundEnd addr =>
      n ← nodes c !! addr;
      match node_round n with
      | Some (_, []) => Some (put_node c addr (mk_node (node_mgr n) None))
      | _ => None
      end
  | AMerge i =>
      f ← flights c !! i;
      match fl_phase f with
      | Sending =>
          n ← nodes c !! fl_dst f;
          let '(s, updated) := merge_delta (node_store n) (fl_deltas f) in
          Some (put_flight (put_node c (fl_dst f) (with_store n s)) i
                  (set_phase f (Merged (ack_of s updated)) (fl_waiting f)))
      | _ => None
      end
  | ARegister i now =>
      f ← flights c !! i;
      match fl_phase f with
      | Merged ack =>
          n ← nodes c !! fl_dst f;
          Some (put_flight (put_node c (fl_dst f)
                  (with_peers n (register_sender now (node_peers n) (task_msg (fl_task f))))) i
                  (set_phase f (AckSent ack) (fl_waiting f)))
      | _ => None
      end
  | AAck i now =>
      f ← flights c !! i;
      match fl_phase f, fl_waiting f with
      | AckSent ack, true =>
          n ← nodes c !! fl_src f;
          Some (put_flight (put_node c (fl_src f)
                  (with_peers n (finish_task now (node_peers n) (fl_task f) (Ok ack)))) i
                  (set_phase f Closed false))
      | _, _ => None
      end
  | AGiveUp i =>
      f ← flights c !! i;
      if fl_waiting f then Some (put_flight c i (set_phase f (fl_phase f) false)) else None
  | ALose i =>
      f ← flights c !! i;
      match fl_phase f with
      | Sending => Some (put_flight c i (set_phase f Lost (fl_waiting f)))
      | _ => None
      end
  end.

Fixpoint run (acts : list action) (c : Cluster) : option Cluster :=
  match acts with
  | [] => Some c
  | act :: acts' => c' ← exec act c; run acts' c'
  end.

(** The entries that the [set] calls of an execution left in the store of
    their node. *)
Definition written (act : action) (c : Cluster) : StateDelta :=
  match act with
  | ASet addr clock key value =>
      match nodes c !! addr with
      | Some n => match set clock (node_store n) key value with
                  | Done (_, w) => [(key, w)]
                  | Panic _ => []
                  end
      | None => []
      end
  | _ => []
  end.

Fixpoint history (acts : list action) (c : Cluster) : StateDelta :=
  match acts with
  | [] => []
  | act :: acts' =>
      written act c ++ match exec act c with Some c' => history acts' c' | None => [] end
  end.

(** A node as [main] sets it up. *)
Definition start_node (now : string -> N) (config : Config) (store : StateStore) : Node :=
  mk_node (GossipManager_new now config store dm_new) None.

(** A cluster that starts: empty stores, no round, no flight; every node is
    found at the address it announces, and identifiers are not shared. *)
Record initial (c : Cluster) : Prop := {
  init_flights : flights c = [];
  init_state a n : nodes c !! a = Some n -> node_state n = ∅;
  init_round a n : nodes c !! a = Some n -> node_round n = None;
  init_cursor a n pid p : nodes c !! a = Some n -> dm_get (node_peers n) pid = Some p ->
                          last_sync_ts p = 0%N;
  init_ids a b n m : nodes c !! a = Some n -> nodes c !! b = Some m ->
                     node_id_of n = node_id_of m -> a = b;
}.
End cluster.

Arguments Cluster {_ _}.
Arguments Node {_ _}.
