(* ===== verification/ClusterLemmas.v ===== *)
(** Lemmas about the steps of Cluster.v: the effect of each action, what an
    execution can only increase, and the invariants of all executions. *)
From S2P Require Import Prelude Crdt Replica Broadcast Store Config DashMap Peer Protocol.
From S2P Require Import Manager Cluster.

Section effects.
Context `{BroadcastLib StateEvent, DashMapLib PeerInfo}.
Implicit Types (c : Cluster) (n : Node) (f : flight) (h : StateDelta).

(** The effect of each action, with the branch it takes made explicit. *)
Definition effect (act : action) c c' : Prop :=
  match act with
  | ASet a clock key value => exists n s w,
      nodes c !! a = Some n /\ set clock (node_store n) key value = Done (s, w)
      /\ c' = put_node c a (with_store n s)
  | ARoundStart a sh => exists n targets,
      nodes c !! a = Some n /\ node_round n = None
      /\ targets = select_targets sh (node_peers n) (mgr_config (node_mgr n))
      /\ c' = put_node c a (mk_node (fetch_add_generation (node_mgr n)).2
                                    (Some ((fetch_add_generation (node_mgr n)).1, targets)))
  | ARoundTarget a it => exists n gen t ts new,
      nodes c !! a = Some n /\ node_round n = Some (gen, t :: ts)
      /\ (new = [] \/ exists task, new = [mk_flight a task Sending true]
            /\ round_target it (node_store n) (mgr_config (node_mgr n)) gen t = Some task)
      /\ c' = mk_cluster (<[a := mk_node (node_mgr n) (Some (gen, ts))]> (nodes c)) (flights c ++ new)
  | ARoundEnd a => exists n gen,
      nodes c !! a = Some n /\ node_round n = Some (gen, [])
      /\ c' = put_node c a (mk_node (node_mgr n) None)
  | AMerge i => exists f n ack,
      flights c !! i = Some f /\ fl_phase f = Sending /\ nodes c !! fl_dst f = Some n
      /\ c' = put_flight (put_node c (fl_dst f)
                (with_store n (merge_delta (node_store n) (fl_deltas f)).1)) i
                (set_phase f (Merged ack) (fl_waiting f))
  | ARegister i now => exists f n ack,
      flights c !! i = Some f /\ fl_phase f = Merged ack /\ nodes c !! fl_dst f = Some n
      /\ c' = put_flight (put_node c (fl_dst f)
                (with_peers n (register_sender now (node_peers n) (task_msg (fl_task f))))) i
                (set_phase f (AckSent ack) (fl_waiting f))
  | AAck i now => exists f n ack,
      flights c !! i = Some f /\ fl_phase f = AckSent ack /\ fl_waiting f = true
      /\ nodes c !! fl_src f = Some n
      /\ c' = put_flight (put_node c (fl_src f)
                (with_peers n (finish_task now (node_peers n) (fl_task f) (Ok ack)))) i
                (set_phase f Closed false)
  | AGiveUp i => exists f,
      flights c !! i = Some f /\ fl_waiting f = true
      /\ c' = put_flight c i (set_phase f (fl_phase f) false)
  | ALose i => exists f,
      flights c !! i = Some f /\ fl_phase f = Sending
      /\ c' = put_flight c i (set_phase f Lost (fl_waiting f))
  end.

Lemma exec_effect act c c' : exec act c = Some c' -> effect act c c'.
Proof.
  destruct act as [a clock key value|a sh|a it|a|i|i now|i now|i|i]; unfold exec, effect,
    mbind, option_bind; intros E.
  - destruct (nodes c !! a) as [n|] eqn:Hn; [|done].
    destruct (set _ _ _ _) as [[s w]|] eqn:Hs; [|done]. injection E as <-. eauto 10.
  - destruct (nodes c !! a) as [n|] eqn:Hn; [|done].
    destruct (node_round n) eqn:Hr; [done|].
    destruct (select_targets _ _ _) as [|t ts] eqn:Hs; [done|].
    injection E as <-. exists n. eexists. eauto.
  - destruct (nodes c !! a) as [n|] eqn:Hn; [|done].
    destruct (node_round n) as [[gen [|t ts]]|] eqn:Hr; [done| |done].
    destruct (round_target _ _ _ _ _) as [task|] eqn:Ht; injection E as <-;
      exists n, gen, t, ts; eexists; eauto 10.
  - destruct (nodes c !! a) as [n|] eqn:Hn; [|done].
    destruct (node_round n) as [[gen [|t ts]]|] eqn:Hr; [|done|done]. injection E as <-. eauto.
  - destruct (flights c !! i) as [f|] eqn:Hf; [|done]. destruct (fl_phase f) eqn:Hp; try done.
    destruct (nodes c !! fl_dst f) as [n|] eqn:Hn; [|done].
    destruct (merge_delta _ _) as [s updated] eqn:Hm. injection E as <-.
    exists f, n. eexists. rewrite Hm. eauto.
  - destruct (flights c !! i) as [f|] eqn:Hf; [|done]. destruct (fl_phase f) eqn:Hp; try done.
    destruct (nodes c !! fl_dst f) as [n|] eqn:Hn; [|done]. injection E as <-. eauto 10.
  - destruct (flights c !! i) as [f|] eqn:Hf; [|done]. destruct (fl_phase f) eqn:Hp; try done.
    destruct (fl_waiting f) eqn:Hw; [|done].
    destruct (nodes c !! fl_src f) as [n|] eqn:Hn; [|done]. injection E as <-. eauto 10.
  - destruct (flights c !! i) as [f|] eqn:Hf; [|done].
    destruct (fl_waiting f) eqn:Hw; [|done]. injection E as <-. eauto.
  - destruct (flights c !! i) as [f|] eqn:Hf; [|done]. destruct (fl_phase f) eqn:Hp; try done.
    injection E as <-. eauto.
Qed.

(** ** What only grows *)

Definition peers_le (d d' : DashMap) : Prop :=
  forall k p, dm_get d k = Some p ->
    exists p', dm_get d' k = Some p' /\ gossip_addr p' = gossip_addr p
               /\ (last_sync_ts p <= last_sync_ts p')%N.

Definition node_le n n' : Prop :=
  mle (node_state n) (node_state n') /\ peers_le (node_peers n) (node_peers n')
  /\ node_id_of n' = node_id_of n.

Definition cluster_le c c' : Prop :=
  forall a, match nodes c !! a, nodes c' !! a with
            | Some n, Some n' => node_le n n'
            | None, None => True
            | _, _ => False
            end.

#[export] Instance peers_le_preorder : PreOrder peers_le.
Proof.
  split.
  - intros d k p E. exists p. done.
  - intros d1 d2 d3 H12 H23 k p E. destruct (H12 _ _ E) as (p2 & E2 & Ha2 & Hl2).
    destruct (H23 _ _ E2) as (p3 & E3 & Ha3 & Hl3). exists p3. split; [done|].
    split; [congruence|lia].
Qed.

#[export] Instance node_le_preorder : PreOrder node_le.
Proof.
  split.
  - intros n. split; [reflexivity|]. split; [reflexivity|done].
  - intros n1 n2 n3 (? & ? & ?) (? & ? & ?). split; [by etransitivity|].
    split; [by etransitivity|congruence].
Qed.

#[export] Instance cluster_le_preorder : PreOrder cluster_le.
Proof.
  split.
  - intros c a. destruct (nodes c !! a); [reflexivity|done].
  - intros c1 c2 c3 H12 H23 a. specialize (H12 a). specialize (H23 a).
    destruct (nodes c1 !! a), (nodes c2 !! a), (nodes c3 !! a); try done. by etransitivity.
Qed.

Lemma cluster_le_put c a n n' fs :
  nodes c !! a = Some n -> node_le n n' -> cluster_le c (mk_cluster (<[a := n']> (nodes c)) fs).
Proof.
  intros Hn Hle b. simpl. destruct (decide (a = b)) as [->|Hne].
  - by rewrite Hn, lookup_insert_eq.
  - rewrite lookup_insert_ne by done. destruct (nodes c !! b); [reflexivity|done].
Qed.

Lemma cluster_le_flights c fs : cluster_le c (mk_cluster (nodes c) fs).
Proof. intros b. simpl. destruct (nodes c !! b); [reflexivity|done]. Qed.

Lemma cluster_le_node c c' a n :
  cluster_le c c' -> nodes c !! a = Some n -> exists n', nodes c' !! a = Some n' /\ node_le n n'.
Proof. intros Hle Hn. specialize (Hle a). rewrite Hn in Hle. destruct (nodes c' !! a); [eauto|done]. Qed.

Lemma cluster_le_node_inv c c' a n' :
  cluster_le c c' -> nodes c' !! a = Some n' -> exists n, nodes c !! a = Some n /\ node_le n n'.
Proof. intros Hle Hn. specialize (Hle a). rewrite Hn in Hle. destruct (nodes c !! a); [eauto|done]. Qed.

Context `{!DashMapLaws PeerInfo}.

Lemma finish_task_peers_le now d task res : peers_le d (finish_task now d task res).
Proof.
  intros k p E. rewrite finish_task_get, E. destruct res; [|by exists p].
  case_decide; [|by exists p]. eexists. split; [done|]. simpl. split; [done|lia].
Qed.

Lemma register_sender_peers_le now d msg : peers_le d (register_sender now d msg).
Proof.
  intros k p E. rewrite register_sender_get, E. case_decide; [|by exists p].
  eexists. split; [done|]. simpl. split; [done|lia].
Qed.

Lemma with_store_le n s :
  mle (node_state n) (state s) -> store_node_id s = node_id_of n -> node_le n (with_store n s).
Proof. intros Hs Hid. split; [done|]. split; [reflexivity|done]. Qed.

Lemma with_peers_le n d : peers_le (node_peers n) d -> node_le n (with_peers n d).
Proof. intros Hd. split; [reflexivity|]. split; [done|done]. Qed.

Lemma with_round_le n m r :
  mgr_store m = node_store n -> mgr_peers m = node_peers n -> node_le n (mk_node m r).
Proof.
  intros Hs Hp. unfold node_le, node_state, node_id_of, node_store, node_peers in *. simpl.
  rewrite Hs, Hp. done.
Qed.

Lemma set_store_le n clock key value s w :
  set clock (node_store n) key value = Done (s, w) -> node_le n (with_store n s).
Proof.
  intros (t & _ & Hst & _ & Hid & _)%set_Done. apply with_store_le; [|done].
  rewrite Hst. apply absorb_mle.
Qed.

Lemma merge_store_le n delta : node_le n (with_store n (merge_delta (node_store n) delta).1).
Proof.
  apply with_store_le; [|apply merge_delta_node_id].
  rewrite merge_delta_state. apply absorb_all_mle.
Qed.

Lemma exec_le act c c' : exec act c = Some c' -> cluster_le c c'.
Proof.
  intros E%exec_effect. destruct act; cbn [effect] in E; split_hyps; subst; unfold put_node, put_flight;
    try apply cluster_le_flights; (eapply cluster_le_put; [done|]).
  - by eapply set_store_le.
  - by apply with_round_le.
  - by apply with_round_le.
  - by apply with_round_le.
  - apply merge_store_le.
  - apply with_peers_le, register_sender_peers_le.
  - apply with_peers_le, finish_task_peers_le.
Qed.

Lemma run_le acts c c' : run acts c = Some c' -> cluster_le c c'.
Proof.
  revert c. induction acts as [|act acts IH]; intros c; cbn [run]; [intros [= ->]; reflexivity|].
  unfold mbind, option_bind. destruct (exec act c) as [c1|] eqn:E; [|done].
  intros Hr. etransitivity; [by eapply exec_le|by apply IH].
Qed.

Lemma run_app acts1 acts2 c : run (acts1 ++ acts2) c = (c1 ← run acts1 c; run acts2 c1).
Proof.
  revert c. induction acts1 as [|act acts1 IH]; intros c; cbn [run app]; [done|].
  unfold mbind, option_bind in *. by destruct (exec act c).
Qed.

(** Induction over an execution, forwards, with the actions and the history
    so far. *)
Lemma run_ind (P : list action -> StateDelta -> Cluster -> Prop) c0 :
  P [] [] c0 ->
  (forall acts h c act c', P acts h c -> exec act c = Some c' ->
     P (acts ++ [act]) (h ++ written act c) c') ->
  forall acts c, run acts c0 = Some c -> P acts (history acts c0) c.
Proof.
  intros Hinit Hstep. enough (forall acts pre h c c', P pre h c -> run acts c = Some c' ->
    P (pre ++ acts) (h ++ history acts c) c') as Hx by (intros acts c; by apply (Hx acts [] [])).
  induction acts as [|act acts IH]; intros pre h c c' Hc; cbn [run history].
  - intros [= <-]. by rewrite !app_nil_r.
  - unfold mbind, option_bind. destruct (exec act c) as [c1|] eqn:E; [|done].
    rewrite app_assoc. change (act :: acts) with ([act] ++ acts). rewrite (app_assoc pre).
    apply IH. by apply Hstep.
Qed.

(** ** The structure of an execution *)

(** Some node at [a] dominates the entry. *)
Definition dom_at c (a : string) (kv : string * LwwValue) : Prop :=
  exists n, nodes c !! a = Some n /\ dominates (node_state n) kv.

(** Node [a] has, under [pid], a peer at address [addr] with cursor at least
    [t]. *)
Definition known c (a pid addr : string) (t : N) : Prop :=
  exists n p, nodes c !! a = Some n /\ dm_get (node_peers n) pid = Some p
              /\ gossip_addr p = addr /\ (t <= last_sync_ts p)%N.

(** The table of node [a] has exactly this entry. *)
Definition in_table c (a pid : string) (info : PeerInfo) : Prop :=
  exists n, nodes c !! a = Some n /\ dm_get (node_peers n) pid = Some info.

Lemma in_table_known c a pid info :
  in_table c a pid info -> known c a pid (gossip_addr info) (last_sync_ts info).
Proof. intros (n & Hn & Hp). exists n, info. done. Qed.

Definition delivered (p : phase) : Prop :=
  match p with Merged _ | AckSent _ | Closed => True | _ => False end.

Lemma dom_at_le c c' a kv : cluster_le c c' -> dom_at c a kv -> dom_at c' a kv.
Proof.
  intros Hle (n & Hn & Hd). destruct (cluster_le_node _ _ _ _ Hle Hn) as (n' & Hn' & Hm & _).
  exists n'. split; [done|]. by eapply dominates_mle.
Qed.

Lemma known_le c c' a pid addr t : cluster_le c c' -> known c a pid addr t -> known c' a pid addr t.
Proof.
  intros Hle (n & p & Hn & Hp & Ha & Ht).
  destruct (cluster_le_node _ _ _ _ Hle Hn) as (n' & Hn' & _ & Hpl & _).
  destruct (Hpl _ _ Hp) as (p' & Hp' & Ha' & Hl'). exists n', p'.
  split; [done|]. split; [done|]. split; [congruence|lia].
Qed.

Record flight_ok c f : Prop := {
  fo_known : known c (fl_src f) (task_peer_id (fl_task f)) (fl_dst f) 0;
  fo_max : task_max_sent_ts (fl_task f)
           = default 0%N (iter_max ((fun kv => timestamp kv.2) <$> fl_deltas f));
  fo_delivered kv : delivered (fl_phase f) -> kv ∈ fl_deltas f -> dom_at c (fl_dst f) kv;
}.

Record struct_inv c : Prop := {
  si_round a n gen ts pid info :
    nodes c !! a = Some n -> node_round n = Some (gen, ts) -> (pid, info) ∈ ts ->
    known c a pid (gossip_addr info) (last_sync_ts info);
  si_flight i f : flights c !! i = Some f -> flight_ok c f;
}.

Lemma flight_ok_le c c' f : cluster_le c c' -> flight_ok c f -> flight_ok c' f.
Proof.
  intros Hle [Hk Hm Hd]. split; [by eapply known_le|done|].
  intros kv Hp Hin. eapply dom_at_le; [done|]. by apply Hd.
Qed.

Lemma flight_ok_phase c f p b :
  flight_ok c f -> (delivered p -> forall kv, kv ∈ fl_deltas f -> dom_at c (fl_dst f) kv) ->
  flight_ok c (set_phase f p b).
Proof. intros [Hk Hm _] Hd. split; [done|done|]. simpl. intros kv Hp. by apply Hd. Qed.

Lemma struct_inv_initial c : initial c -> struct_inv c.
Proof.
  intros [Hf _ Hr _ _]. split.
  - intros a n gen ts pid info Hn. rewrite (Hr _ _ Hn). done.
  - intros i f. by rewrite Hf.
Qed.

(** A step keeps the invariant if what remains of a round comes from a round
    or from the peer table, and the flight it touches, if any, is in order. *)
Lemma struct_inv_preserved c c' :
  struct_inv c -> cluster_le c c' ->
  (forall a n', nodes c' !! a = Some n' -> forall gen ts pid info,
     node_round n' = Some (gen, ts) -> (pid, info) ∈ ts ->
     (exists n gen0 ts0, nodes c !! a = Some n /\ node_round n = Some (gen0, ts0) /\ (pid, info) ∈ ts0)
     \/ in_table c a pid info) ->
  (forall i f', flights c' !! i = Some f' -> flights c !! i = Some f' \/ flight_ok c' f') ->
  struct_inv c'.
Proof.
  intros [Hr Hf] Hle Hround Hfl. split.
  - intros a n' gen ts pid info Hn' Hrn Hin. eapply known_le; [done|].
    destruct (Hround _ _ Hn' _ _ _ _ Hrn Hin) as [(n & gen0 & ts0 & Hn & Hrn0 & Hin0)|];
      eauto using in_table_known.
  - intros i f' Hi. destruct (Hfl _ _ Hi) as [Hi'|]; [|done].
    eapply flight_ok_le; [done|]. by eapply Hf.
Qed.

(** The two side conditions, for the forms the steps take. *)
Lemma round_side_insert c a n n' fs :
  nodes c !! a = Some n ->
  (forall gen ts pid info, node_round n' = Some (gen, ts) -> (pid, info) ∈ ts ->
     (exists gen0 ts0, node_round n = Some (gen0, ts0) /\ (pid, info) ∈ ts0)
     \/ in_table c a pid info) ->
  forall b m', nodes (mk_cluster (<[a := n']> (nodes c)) fs) !! b = Some m' -> forall gen ts pid info,
     node_round m' = Some (gen, ts) -> (pid, info) ∈ ts ->
     (exists m gen0 ts0, nodes c !! b = Some m /\ node_round m = Some (gen0, ts0) /\ (pid, info) ∈ ts0)
     \/ in_table c b pid info.
Proof.
  intros Hn Hx b m' Hm' gen ts pid info Hr Hin. simpl in Hm'.
  destruct (decide (a = b)) as [->|Hne].
  - rewrite lookup_insert_eq in Hm'. simplify_eq.
    destruct (Hx _ _ _ _ Hr Hin) as [(g0 & t0 & ? & ?)|?]; [left; eauto 10|by right].
  - rewrite lookup_insert_ne in Hm' by done. left. eauto 10.
Qed.

Lemma flight_side_update c c' i f f' :
  flights c !! i = Some f -> flights c' = <[i := f']> (flights c) -> flight_ok c' f' ->
  forall j g, flights c' !! j = Some g -> flights c !! j = Some g \/ flight_ok c' g.
Proof.
  intros Hi -> Hok j g Hj. destruct (decide (i = j)) as [->|Hne].
  - apply list_lookup_insert_Some in Hj as [(_ & <- & _)|[? _]]; [by right|done].
  - rewrite list_lookup_insert_ne in Hj by done. by left.
Qed.

Lemma new_flight_ok c c' a n gen t ts it task :
  struct_inv c -> cluster_le c c' ->
  nodes c !! a = Some n -> node_round n = Some (gen, t :: ts) ->
  round_target it (node_store n) (mgr_config (node_mgr n)) gen t = Some task ->
  flight_ok c' (mk_flight a task Sending true).
Proof.
  intros [Hr _] Hle Hn Hrn Ht. destruct t as [pid info].
  destruct (round_target_Some _ _ _ _ _ _ _ Ht) as (Hp & Ha & _ & _ & _ & _ & Hm).
  split; [|done|done]. unfold fl_dst. simpl. rewrite Hp, Ha.
  eapply known_le; [done|].
  destruct (Hr _ _ _ _ pid info Hn Hrn) as (m & p & ? & ? & ? & _); [left|].
  exists m, p. split; [done|]. split; [done|]. split; [done|lia].
Qed.

Lemma merged_dom_at c f n i ack :
  nodes c !! fl_dst f = Some n ->
  forall kv, kv ∈ fl_deltas f ->
  dom_at (put_flight (put_node c (fl_dst f)
            (with_store n (merge_delta (node_store n) (fl_deltas f)).1)) i
            (set_phase f (Merged ack) (fl_waiting f))) (fl_dst f) kv.
Proof.
  intros Hn kv Hkv. eexists. split; [apply lookup_insert_eq|].
  unfold node_state, node_store, with_store. simpl. rewrite merge_delta_state.
  by apply absorb_all_dominates.
Qed.

Lemma exec_round_side act c c' :
  exec act c = Some c' ->
  forall a n', nodes c' !! a = Some n' -> forall gen ts pid info,
     node_round n' = Some (gen, ts) -> (pid, info) ∈ ts ->
     (exists n gen0 ts0, nodes c !! a = Some n /\ node_round n = Some (gen0, ts0) /\ (pid, info) ∈ ts0)
     \/ in_table c a pid info.
Proof.
  intros E%exec_effect. destruct act; cbn [effect] in E; split_hyps; subst c';
    try (by intros; left; eauto 10); (eapply round_side_insert; [eassumption|]);
    try (by intros; left; eauto).
  - intros gen ts pid info Hrn Hin. simpl in Hrn. simplify_eq. right. exists x. split; [done|].
    apply select_targets_sub in Hin; [done|apply shuffle_perm].
  - intros gen ts pid info Hrn Hin. simpl in Hrn. simplify_eq.
    left. do 2 eexists. split; [done|by right].
Qed.

(** A flight whose delivery status does not change, or was never made. *)
Lemma flight_ok_step c c' f p b :
  flight_ok c f -> cluster_le c c' -> (delivered p -> delivered (fl_phase f)) ->
  flight_ok c' (set_phase f p b).
Proof.
  intros Hok Hle Hp. apply flight_ok_phase; [by eapply flight_ok_le|].
  intros Hd kv Hkv. eapply dom_at_le; [done|]. apply (fo_delivered _ _ Hok); auto.
Qed.

Lemma exec_flight_side act c c' :
  struct_inv c -> exec act c = Some c' ->
  forall i f', flights c' !! i = Some f' -> flights c !! i = Some f' \/ flight_ok c' f'.
Proof.
  intros Hinv E. assert (cluster_le c c') as Hle by by eapply exec_le.
  pose proof (si_flight _ Hinv) as Hf. apply exec_effect in E.
  destruct act; cbn [effect] in E; destruct E as (x & E); split_hyps; subst c';
    try (by intros; left); try (eapply flight_side_update; [done..|]).
  - intros i f' Hi. simpl in Hi. apply lookup_app_Some in Hi as [?|[_ Hi]]; [by left|right].
    destruct H3 as [->|(task & -> & Ht)]; [done|]. apply list_lookup_singleton_Some in Hi as [_ <-].
    by eapply (new_flight_ok c).
  - apply flight_ok_phase; [eapply flight_ok_le; [done|]; by eapply Hf|].
    intros _. by apply merged_dom_at.
  - eapply flight_ok_step; [by eapply Hf|done|]. by rewrite H2.
  - eapply flight_ok_step; [by eapply Hf|done|]. by rewrite H2.
  - eapply flight_ok_step; [by eapply Hf|done|done].
  - eapply flight_ok_step; [by eapply Hf|done|done].
Qed.

Lemma struct_inv_exec act c c' : struct_inv c -> exec act c = Some c' -> struct_inv c'.
Proof.
  intros Hinv E. apply (struct_inv_preserved c c'); [done|by eapply exec_le| |].
  - by eapply exec_round_side.
  - by eapply exec_flight_side.
Qed.

(** The part that concerns the peer tables alone. *)
Record table_inv c : Prop := {
  ti_round a n gen ts pid info :
    nodes c !! a = Some n -> node_round n = Some (gen, ts) -> (pid, info) ∈ ts ->
    known c a pid (gossip_addr info) (last_sync_ts info);
  ti_waiting i f : flights c !! i = Some f -> fl_waiting f = true ->
    known c (fl_src f) (task_peer_id (fl_task f)) (fl_dst f) 0;
}.

Lemma struct_table c : struct_inv c -> table_inv c.
Proof. intros [Hr Hf]. split; [done|]. intros i f Hi _. by apply (fo_known _ _ (Hf _ _ Hi)). Qed.

Lemma struct_inv_steps acts c c' : struct_inv c -> run acts c = Some c' -> struct_inv c'.
Proof.
  revert c. induction acts as [|act acts IH]; intros c Hc; cbn [run]; [by intros [= <-]|].
  unfold mbind, option_bind. destruct (exec act c) as [c1|] eqn:E; [|done].
  apply IH. by eapply struct_inv_exec.
Qed.

Lemma struct_inv_run acts c0 c : initial c0 -> run acts c0 = Some c -> struct_inv c.
Proof. intros Hi. by apply struct_inv_steps, struct_inv_initial. Qed.

(** ** Provenance *)

(** What is known of the entries of a cluster whose history is [h]; [gone] are
    the identifiers of nodes that are no more (RestartRuns.v). *)
Record past_inv (gone : gset string) (h : StateDelta) c : Prop := {
  hi_store a n k v : nodes c !! a = Some n -> node_state n !! k = Some v -> (k, v) ∈ h;
  hi_flight i f kv : flights c !! i = Some f -> kv ∈ fl_deltas f -> kv ∈ h;
  (** the author of an entry never falls below it *)
  hi_origin kv : kv ∈ h -> node_id kv.2 ∈ gone
                           \/ exists a n, nodes c !! a = Some n /\ node_id_of n = node_id kv.2
                                          /\ dominates (node_state n) kv;
  hi_ids a b n m : nodes c !! a = Some n -> nodes c !! b = Some m ->
                   node_id_of n = node_id_of m -> a = b;
  hi_coherent : coherent h;
  hi_live a n : nodes c !! a = Some n -> node_id_of n ∉ gone;
}.

Abbreviation hist_inv := (past_inv ∅).

Lemma hi_author h c kv :
  hist_inv h c -> kv ∈ h ->
  exists a n, nodes c !! a = Some n /\ node_id_of n = node_id kv.2 /\ dominates (node_state n) kv.
Proof. intros Hh [Hg|?]%(hi_origin _ _ _ Hh); [set_solver|done]. Qed.

Lemma ids_le c c' :
  cluster_le c c' ->
  (forall a b n m, nodes c !! a = Some n -> nodes c !! b = Some m ->
     node_id_of n = node_id_of m -> a = b) ->
  (forall a b n m, nodes c' !! a = Some n -> nodes c' !! b = Some m ->
     node_id_of n = node_id_of m -> a = b).
Proof.
  intros Hle Hids a b n m Hn Hm E.
  destruct (cluster_le_node_inv _ _ _ _ Hle Hn) as (n0 & Hn0 & _ & _ & En).
  destruct (cluster_le_node_inv _ _ _ _ Hle Hm) as (m0 & Hm0 & _ & _ & Em).
  eapply Hids; [done..|congruence].
Qed.

Lemma author_le c c' kv :
  cluster_le c c' ->
  (exists a n, nodes c !! a = Some n /\ node_id_of n = node_id kv.2 /\ dominates (node_state n) kv) ->
  (exists a n, nodes c' !! a = Some n /\ node_id_of n = node_id kv.2 /\ dominates (node_state n) kv).
Proof.
  intros Hle (a & n & Hn & Hid & Hd).
  destruct (cluster_le_node _ _ _ _ Hle Hn) as (n' & Hn' & Hm & _ & En).
  exists a, n'. split; [done|]. split; [congruence|]. by eapply dominates_mle.
Qed.

Lemma live_le (gone : gset string) c c' :
  cluster_le c c' -> (forall a n, nodes c !! a = Some n -> node_id_of n ∉ gone) ->
  forall a n, nodes c' !! a = Some n -> node_id_of n ∉ gone.
Proof.
  intros Hle Hg a n Hn. destruct (cluster_le_node_inv _ _ _ _ Hle Hn) as (n0 & Hn0 & _ & _ & ->). by eapply Hg.
Qed.

(** Steps that write nothing: every entry of the new cluster was somewhere. *)
Lemma past_inv_no_write gone h c c' :
  past_inv gone h c -> cluster_le c c' ->
  (forall a n k v, nodes c' !! a = Some n -> node_state n !! k = Some v -> (k, v) ∈ h) ->
  (forall i f kv, flights c' !! i = Some f -> kv ∈ fl_deltas f -> kv ∈ h) ->
  past_inv gone h c'.
Proof.
  intros [Hst Hfl Ha Hi Hc Hg] Hle Hst' Hfl'. split; auto.
  - intros kv [?|Hkv]%Ha; [by left|right]. by eapply author_le.
  - by eapply ids_le.
  - by eapply live_le.
Qed.

Lemma store_entries_insert h c a n' fs :
  (forall b n k v, nodes c !! b = Some n -> node_state n !! k = Some v -> (k, v) ∈ h) ->
  (forall k v, node_state n' !! k = Some v -> (k, v) ∈ h) ->
  forall b n k v, nodes (mk_cluster (<[a := n']> (nodes c)) fs) !! b = Some n ->
    node_state n !! k = Some v -> (k, v) ∈ h.
Proof.
  intros Hst Hn' b n k v Hb. simpl in Hb. destruct (decide (a = b)) as [->|Hne].
  - rewrite lookup_insert_eq in Hb. simplify_eq. apply Hn'.
  - rewrite lookup_insert_ne in Hb by done. by eapply Hst.
Qed.

Lemma flight_entries_update h c i f f' :
  (forall i f kv, flights c !! i = Some f -> kv ∈ fl_deltas f -> kv ∈ h) ->
  flights c !! i = Some f -> fl_deltas f' = fl_deltas f ->
  forall j g kv, <[i := f']> (flights c) !! j = Some g -> kv ∈ fl_deltas g -> kv ∈ h.
Proof.
  intros Hfl Hi Hd j g kv Hj Hkv. destruct (decide (i = j)) as [->|Hne].
  - apply list_lookup_insert_Some in Hj as [(_ & <- & _)|[? _]]; [|done].
    rewrite Hd in Hkv. by eapply Hfl.
  - rewrite list_lookup_insert_ne in Hj by done. by eapply Hfl.
Qed.

(** What [set] leaves under the key is in the history, or is tied with
    nothing in it: the node's own past writes are below its present value, and
    the others carry another identifier. *)
Lemma set_untied gone h c a n clock key value s w :
  past_inv gone h c -> nodes c !! a = Some n ->
  set clock (node_store n) key value = Done (s, w) ->
  (w = mk_lww value (timestamp w) (node_id_of n) /\ now_micros clock = Done (timestamp w)
     /\ (forall u, (key, u) ∈ h -> rle w u -> rle u w -> u = w))
  \/ (key, w) ∈ h.
Proof.
  intros [Hst _ Ha Hi _ Hg] Hn (t & Ht & Hs & Hw & Hid & _)%set_Done.
  set (v := mk_lww value t (store_node_id (node_store n))) in *.
  unfold join_value in Hw. destruct (state (node_store n) !! key) as [e|] eqn:E.
  - destruct (rle_or_rlt v e) as [L|L].
    + right. rewrite Hw, rmerge_l by done. by apply (Hst a n).
    + left. rewrite rmerge_r in Hw by done. subst w. split; [done|]. split; [done|]. intros u Hu L1 L2. exfalso.
      assert (stamp v = stamp u) as [= _ Hnid] by by apply lww_le_antisymm_stamp.
      destruct (Ha _ Hu) as [Hgone|(b & m & Hm & Hmid & e' & E' & L')]; simpl in *.
      { apply (Hg _ _ Hn). unfold node_id_of. by rewrite Hnid. }
      assert (a = b) as <- by (eapply Hi; [done..|unfold node_id_of in *; congruence]).
      unfold node_state in E'. simplify_eq. apply L. by transitivity u.
  - left. subst w. split; [done|]. split; [done|]. intros u Hu L1 L2. exfalso.
    assert (stamp v = stamp u) as [= _ Hnid] by by apply lww_le_antisymm_stamp.
    destruct (Ha _ Hu) as [Hgone|(b & m & Hm & Hmid & e' & E' & L')]; simpl in *.
    { apply (Hg _ _ Hn). unfold node_id_of. by rewrite Hnid. }
    assert (a = b) as <- by (eapply Hi; [done..|unfold node_id_of in *; congruence]).
    unfold node_state in E'. simplify_eq.
Qed.

(** The case of [set]: the history grows by the value the key now has. *)
Lemma past_inv_set gone h c a n clock key value s w :
  past_inv gone h c -> nodes c !! a = Some n ->
  set clock (node_store n) key value = Done (s, w) ->
  past_inv gone (h ++ [(key, w)]) (put_node c a (with_store n s)).
Proof.
  intros Hinv Hn Hset. destruct (set_untied _ _ _ _ _ _ _ _ _ _ Hinv Hn Hset) as [Hu|Hu].
  all: assert (node_le n (with_store n s)) as Hnle by (by eapply set_store_le).
  all: assert (cluster_le c (put_node c a (with_store n s))) as Hle by by apply (cluster_le_put c a n).
  all: destruct Hinv as [Hst Hfl Ha Hi Hc Hg].
  all: destruct (set_Done _ _ _ _ _ _ Hset) as (t & _ & Hs & Hw & Hid & _).
  all: assert (state s !! key = Some w) as Hkey
    by (rewrite Hs, lookup_absorb, decide_True by done; by rewrite Hw).
  all: split; [apply store_entries_insert| | |by eapply ids_le| |by eapply live_le].
  all: try (intros b m k u ??; apply elem_of_app; left; by eapply Hst).
  all: try (intros i f kv Hf Hkv; apply elem_of_app; left; by eapply Hfl).
  all: try (apply coherent_snoc; [done|]; tauto).
  all: try (intros k u E; apply elem_of_app; unfold node_state, node_store, with_store in E; simpl in E;
    (destruct (decide (key = k)) as [->|Hne]; [right; simplify_eq; left|left]);
    rewrite Hs, lookup_absorb, decide_False in E by done; by apply (Hst a n)).
  all: intros kv [Hkv| ->%list_elem_of_singleton]%elem_of_app;
    [destruct (Ha _ Hkv) as [?|?]; [by left|right; by eapply author_le]|].
  - right. exists a, (with_store n s). split; [apply lookup_insert_eq|].
    destruct Hu as (Hu & _ & _). split; [simpl; rewrite Hu; done|]. exists w. split; [done|reflexivity].
  - destruct (Ha _ Hu) as [?|?]; [by left|right; by eapply author_le].
Qed.

Lemma hist_inv_initial c : initial c -> hist_inv [] c.
Proof.
  intros [Hf Hs _ _ Hi]. split; try done.
  - intros a n k v Hn. by rewrite (Hs _ _ Hn), lookup_empty.
  - intros i f kv. by rewrite Hf.
  - by intros kv ?%not_elem_of_nil.
  - by intros k v v' ?%not_elem_of_nil.
Qed.

Lemma past_inv_exec gone h c act c' :
  past_inv gone h c -> exec act c = Some c' -> past_inv gone (h ++ written act c) c'.
Proof.
  intros Hinv E. assert (cluster_le c c') as Hle by by eapply exec_le.
  apply exec_effect in E. destruct act; cbn [effect] in E; split_hyps; cbn [written];
    try rewrite app_nil_r.
  { rewrite H1, H2. subst. by eapply past_inv_set. }
  all: apply (past_inv_no_write gone h c); [done|done| |]; pose proof (hi_store _ _ _ Hinv) as Hst;
    pose proof (hi_flight _ _ _ Hinv) as Hfl; subst c'; try done.
  all: try (eapply flight_entries_update; [done..|]; done).
  all: try (apply store_entries_insert; [done|]; intros k v; first [eapply (Hst _ x); eassumption | eapply (Hst _ x0); eassumption]).
  - intros i f kv Hi Hkv. simpl in Hi. apply lookup_app_Some in Hi as [?|[_ Hi]]; [by eapply Hfl|].
    destruct H3 as [->|(task & -> & Ht)]; [done|].
    apply list_lookup_singleton_Some in Hi as [_ <-]. destruct x1 as [pid info], kv as [k v].
    apply round_target_Some in Ht as (_ & _ & Hd & _). unfold fl_deltas in Hkv. simpl in Hkv.
    rewrite Hd in Hkv. apply elem_of_delta_since_map in Hkv as [Hkv _]. by apply (Hst addr x).
  - apply store_entries_insert; [done|]. intros k v E.
    unfold node_state, node_store, with_store in E. simpl in E. rewrite merge_delta_state in E.
    apply absorb_all_source in E as [E|Hin]; [by apply (Hst (fl_dst x) x0)|by eapply Hfl].
Qed.

Lemma past_inv_steps gone h acts c c' :
  past_inv gone h c -> run acts c = Some c' -> past_inv gone (h ++ history acts c) c'.
Proof.
  revert h c. induction acts as [|act acts IH]; intros h c Hh; cbn [run history].
  - intros [= <-]. by rewrite app_nil_r.
  - unfold mbind, option_bind. destruct (exec act c) as [c1|] eqn:E; [|done].
    rewrite app_assoc. apply IH. by apply past_inv_exec.
Qed.

Lemma hist_inv_run acts c0 c : initial c0 -> run acts c0 = Some c -> hist_inv (history acts c0) c.
Proof. intros Hi. by apply (past_inv_steps ∅ []), hist_inv_initial. Qed.
End effects.

Abbreviation hist_inv := (past_inv ∅).
