(* ===== verification/PeerRecords.v ===== *)
(** What the record of a peer says.  The peer table of a node is an account of
    its exchanges: a record is there exactly for the seeds and the peers the
    node has exchanged with; its cursor is the greatest timestamp that an
    acknowledged push carried, and its counter the number of acknowledged
    pushes and of messages received. *)
From S2P Require Import Prelude Crdt Replica Broadcast Store Config DashMap Peer Protocol.
From S2P Require Import Manager Cluster ClusterLemmas.


Section records.
Context `{BroadcastLib StateEvent, DashMapLib PeerInfo, !DashMapLaws PeerInfo}.
Implicit Types (c : Cluster) (n : Node) (fs : list flight).






(** ** Counting flights *)





(** ** The invariant *)











(** ** Property *)

End records.
