(* ===== verification/ClusterSafety.v ===== *)
(** What every execution of a cluster guarantees: values are never invented
    and never tied, replicas that have received the same writes are equal,
    and a cursor never claims more than its peer has. *)
From S2P Require Import Prelude Crdt Replica Broadcast Store Config DashMap Peer Protocol.
From S2P Require Import Manager Cluster ClusterLemmas.

Section safety.
Context `{BroadcastLib StateEvent, DashMapLib PeerInfo, !DashMapLaws PeerInfo}.
Implicit Types (c : Cluster) (n : Node) (f : flight).

(** ** Cursors *)

(** The node at [addr] holds an entry at least as recent as [t]. *)
Definition backed c (addr : string) (t : N) : Prop :=
  t = 0%N \/ exists d k v, nodes c !! addr = Some d /\ node_state d !! k = Some v
                           /\ (t <= timestamp v)%N.

Lemma backed_le c c' addr t : cluster_le c c' -> backed c addr t -> backed c' addr t.
Proof.
  intros Hle [?|(d & k & v & Hd & Hk & Ht)]; [by left|right].
  destruct (cluster_le_node _ _ _ _ Hle Hd) as (d' & Hd' & Hm & _).
  destruct (Hm _ _ Hk) as (v' & Hk' & L). exists d', k, v'. split; [done|]. split; [done|].
  apply lww_le_timestamp in L. simpl in L. lia.
Qed.

(** Where an entry of a peer table comes from. *)
Lemma exec_peers act c c' a n' pid p' :
  table_inv c -> exec act c = Some c' ->
  nodes c' !! a = Some n' -> dm_get (node_peers n') pid = Some p' ->
  (last_sync_ts p' = 0%N /\ exists i now f n, act = ARegister i now /\ flights c !! i = Some f
     /\ fl_dst f = a /\ from_node_id (task_msg (fl_task f)) = pid
     /\ nodes c !! a = Some n /\ dm_get (node_peers n) pid = None
     /\ gossip_addr p' = from_gossip_addr (task_msg (fl_task f)))
  \/ exists n p, nodes c !! a = Some n /\ dm_get (node_peers n) pid = Some p
       /\ gossip_addr p' = gossip_addr p
       /\ (last_sync_ts p' = last_sync_ts p
           \/ exists i f ack, flights c !! i = Some f /\ fl_src f = a /\ fl_dst f = gossip_addr p
                /\ fl_phase f = AckSent ack /\ fl_waiting f = true
                /\ last_sync_ts p' = N.max (last_sync_ts p) (task_max_sent_ts (fl_task f))).
Proof.
  intros Hinv E%exec_effect Hn' Hp'.
  assert (forall b m m', nodes c !! b = Some m -> node_peers m' = node_peers m ->
    <[b := m']> (nodes c) !! a = Some n' ->
    exists n p, nodes c !! a = Some n /\ dm_get (node_peers n) pid = Some p
      /\ gossip_addr p' = gossip_addr p /\ last_sync_ts p' = last_sync_ts p) as Hsame.
  { intros b m m' Hm Hpeers Hx. destruct (decide (b = a)) as [->|Hne].
    - rewrite lookup_insert_eq in Hx. simplify_eq. rewrite Hpeers in Hp'. eauto 10.
    - rewrite lookup_insert_ne in Hx by done. eauto 10. }
  destruct act; cbn [effect] in E; split_hyps; subst c'; simpl in Hn';
    try (eapply Hsame in Hn' as (m & p & ? & ? & ? & ?); [|eassumption|reflexivity];
         right; eauto 10).
  - destruct (decide (fl_dst x = a)) as [<-|Hne]; [rewrite lookup_insert_eq in Hn'
      |rewrite lookup_insert_ne in Hn' by done; right; eauto 10].
    injection Hn' as <-. unfold node_peers at 1 in Hp'. simpl in Hp'.
    rewrite register_sender_get in Hp'. case_decide; [|right; eauto 10].
    destruct (dm_get (node_peers x0) pid) as [p|] eqn:Hp; simplify_eq; simpl;
      [right; eauto 10|left; eauto 15].
  - destruct (decide (fl_src x = a)) as [<-|Hne]; [rewrite lookup_insert_eq in Hn'
      |rewrite lookup_insert_ne in Hn' by done; right; eauto 10].
    injection Hn' as <-. unfold node_peers at 1 in Hp'. simpl in Hp'.
    rewrite (finish_task_get now (node_peers x0) (fl_task x) (Ok x1)) in Hp'.
    destruct (decide (task_peer_id (fl_task x) = pid)) as [Hpid|]; [|right; eauto 10].
    destruct (ti_waiting _ Hinv _ _ H1 H3) as (m & p & Hm & Hp & Hap & _).
    assert (m = x0) as -> by congruence. rewrite Hpid in Hp. rewrite Hp in Hp'.
    injection Hp' as <-. right. exists x0, p. split; [done|]. split; [done|]. split; [done|].
    right. eexists _, _, _. eauto 10.
  - right. eauto 10.
  - right. eauto 10.
Qed.

Definition cursor_inv c : Prop :=
  forall a n pid p, nodes c !! a = Some n -> dm_get (node_peers n) pid = Some p ->
    backed c (gossip_addr p) (last_sync_ts p).

Lemma flight_backed c f :
  flight_ok c f -> delivered (fl_phase f) -> backed c (fl_dst f) (task_max_sent_ts (fl_task f)).
Proof.
  intros [_ Hm Hd] Hp. rewrite Hm.
  destruct (decide (((fun kv => timestamp kv.2) <$> fl_deltas f) = [])) as [->|Hne]; [by left|right].
  apply max_or_0_elem, list_elem_of_fmap in Hne as ([k v] & -> & Hin).
  destruct (Hd _ Hp Hin) as (d & Hnd & v' & E & L). exists d, k, v'.
  split; [done|]. split; [done|]. by apply lww_le_timestamp in L.
Qed.

Lemma cursor_inv_exec act c c' :
  struct_inv c -> cursor_inv c -> exec act c = Some c' -> cursor_inv c'.
Proof.
  intros Hs Hc E a n' pid p' Hn' Hp'. pose proof (exec_le _ _ _ E) as Hle.
  destruct (exec_peers _ _ _ _ _ _ _ (struct_table _ Hs) E Hn' Hp') as [[-> _]|(n & p & Hn & Hp & -> & Hcur)]; [by left|].
  pose proof (Hc _ _ _ _ Hn Hp) as Hb.
  destruct Hcur as [->|(i & f & ack & Hf & _ & Hdst & Hph & _ & ->)]; [by eapply backed_le|].
  destruct (N.max_spec (last_sync_ts p) (task_max_sent_ts (fl_task f))) as [[_ ->]|[_ ->]];
    (eapply backed_le; [done|]); [|done].
  rewrite <-Hdst. apply flight_backed; [by eapply si_flight|by rewrite Hph].
Qed.

Lemma cursor_inv_run acts c0 c : initial c0 -> run acts c0 = Some c -> struct_inv c /\ cursor_inv c.
Proof.
  intros Hinit. apply (run_ind (fun _ _ c => struct_inv c /\ cursor_inv c) c0).
  - split; [by apply struct_inv_initial|]. intros a n pid p Hn Hp. left.
    by eapply init_cursor.
  - intros _ _ c1 act c2 [Hs Hc] Hx. split; [by eapply struct_inv_exec|by eapply cursor_inv_exec].
Qed.

(** ** Provenance of the history *)

Definition authored (acts : list action) c (kv : string * LwwValue) : Prop :=
  exists a clock n, ASet a clock kv.1 (value kv.2) ∈ acts
    /\ now_micros clock = Done (timestamp kv.2)
    /\ nodes c !! a = Some n /\ node_id_of n = node_id kv.2.

Lemma authored_run acts c0 c :
  initial c0 -> run acts c0 = Some c ->
  hist_inv (history acts c0) c /\ forall kv, kv ∈ history acts c0 -> authored acts c kv.
Proof.
  intros Hinit. apply (run_ind (fun acts h c => hist_inv h c /\ forall kv, kv ∈ h -> authored acts c kv)).
  { split; [by apply hist_inv_initial|]. by intros kv ?%not_elem_of_nil. }
  intros pre h c1 act c2 [Hh Ha] E. split; [by eapply past_inv_exec|].
  assert (forall kv, authored pre c1 kv -> authored (pre ++ [act]) c2 kv) as Hmono.
  { intros kv (a & clock & n & Hin & Ht & Hn & Hid).
    destruct (cluster_le_node _ _ _ _ (exec_le _ _ _ E) Hn) as (n' & Hn' & _ & _ & Hid').
    exists a, clock, n'. split; [apply elem_of_app; by left|].
    split; [done|]. split; [done|congruence]. }
  intros kv [Hkv|Hkv]%elem_of_app; [by apply Hmono, Ha|].
  destruct act as [a clock key val| | | | | | | |]; [|by apply not_elem_of_nil in Hkv..].
  pose proof (exec_effect _ _ _ E) as (n & s & w & Hn & Hset & Hc2).
  cbn [written] in Hkv. rewrite Hn, Hset in Hkv. apply list_elem_of_singleton in Hkv as ->.
  destruct (set_untied _ _ _ _ _ _ _ _ _ _ Hh Hn Hset) as [(Hw & Ht & _)|Hin]; [|by apply Hmono, Ha].
  exists a, clock, (with_store n s). cbn [fst snd].
  destruct (set_Done _ _ _ _ _ _ Hset) as (_ & _ & _ & _ & Hid & _).
  split; [apply elem_of_app; right; rewrite Hw; left|]. split; [done|].
  split; [rewrite Hc2; apply lookup_insert_eq|]. rewrite Hw. exact Hid.
Qed.

(** An execution: the actions [acts] lead from a cluster that starts to [c]. *)
Definition execution (acts : list action) (c0 c : Cluster) : Prop :=
  initial c0 /\ run acts c0 = Some c.

(** ** Properties *)

(** Starting from empty stores with distinct node identifiers, however
    messages are delayed, lost, duplicated by further rounds or reordered,
    two values of one key that carry the same stamp are the same value, on
    the same node or on different ones; on the values that occur, [merge]
    is therefore commutative. *)
Theorem reachable_values_untied acts c0 c a b n m k v w :
  execution acts c0 c ->
  nodes c !! a = Some n -> nodes c !! b = Some m ->
  node_state n !! k = Some v -> node_state m !! k = Some w ->
  (stamp v = stamp w -> v = w) /\ merge v w = merge w v.
Proof.
  intros [Hi Hr] Hn Hm Hv Hw. pose proof (hist_inv_run _ _ _ Hi Hr) as Hh.
  assert (rle v w -> rle w v -> v = w) as Hu
    by (apply (hi_coherent _ _ _ Hh k); eauto using hi_store).
  split; [|exact (proj2 (rmerge_comm_iff v w) Hu)]. intros Hs. apply Hu; by apply lww_le_stamp.
Qed.

(** C29: nothing is invented: every value in any store was the argument of a
    [set] call of that key, made at the node whose identifier it carries, at
    the time its timestamp says. *)
Theorem stored_values_authored acts c0 c a n k v :
  execution acts c0 c ->
  nodes c !! a = Some n -> node_state n !! k = Some v ->
  exists b clock m, ASet b clock k (value v) ∈ acts /\ now_micros clock = Done (timestamp v)
    /\ nodes c !! b = Some m /\ node_id_of m = node_id v.
Proof.
  intros [Hi Hr] Hn Hv. destruct (authored_run _ _ _ Hi Hr) as [Hh Ha].
  exact (Ha (k, v) (hi_store _ _ _ Hh _ _ _ _ Hn Hv)).
Qed.

(** C7: strong eventual consistency.  A node that has received every write
    of an execution (directly, or as something newer) holds for every key
    the last write of the history; two such nodes hold the same map. *)
Theorem complete_replicas_equal acts c0 c a b n m :
  execution acts c0 c ->
  nodes c !! a = Some n -> nodes c !! b = Some m ->
  (forall kv, kv ∈ history acts c0 -> dominates (node_state n) kv) ->
  (forall kv, kv ∈ history acts c0 -> dominates (node_state m) kv) ->
  repr (history acts c0) (node_state n) /\ node_state n = node_state m.
Proof.
  intros [Hi Hr] Hn Hm Hdn Hdm. pose proof (hist_inv_run _ _ _ Hi Hr) as Hh.
  assert (repr (history acts c0) (node_state n)) as Hrn
    by (apply repr_intro; [intros; by eauto using hi_store|done]).
  assert (repr (history acts c0) (node_state m)) as Hrm
    by (apply repr_intro; [intros; by eauto using hi_store|done]).
  split; [done|]. eapply repr_unique; [apply (hi_coherent _ _ _ Hh)|done|done|done].
Qed.

(** A cursor never runs ahead of its peer: in every reachable state, if
    a node's cursor for a peer is not 0, the node at that peer's address
    holds an entry with a timestamp at least as great. *)
Theorem cursor_backed_by_peer acts c0 c a n pid p :
  execution acts c0 c ->
  nodes c !! a = Some n -> dm_get (node_peers n) pid = Some p -> last_sync_ts p <> 0%N ->
  exists d k v, nodes c !! gossip_addr p = Some d /\ node_state d !! k = Some v
                /\ (last_sync_ts p <= timestamp v)%N.
Proof.
  intros [Hi Hr] Hn Hp Hne. destruct (cursor_inv_run _ _ _ Hi Hr) as [_ Hc].
  by destruct (Hc _ _ _ _ Hn Hp).
Qed.

(** C30: a push that was merged stays received.  From when the receiver has
    merged a message, before it has acknowledged it as well as after, and
    whether or not the sender ever gets the acknowledgement, the receiver
    holds for every entry that was sent a value no smaller, and keeps doing
    so. *)
Theorem acknowledged_push_received acts acts' c0 c c' i f k v :
  execution acts c0 c -> run acts' c = Some c' ->
  flights c !! i = Some f -> delivered (fl_phase f) -> (k, v) ∈ fl_deltas f ->
  exists d e, nodes c' !! fl_dst f = Some d /\ node_state d !! k = Some e /\ lww_le v e.
Proof.
  intros [Hi Hr] Hr' Hf Hp Hkv. pose proof (struct_inv_run _ _ _ Hi Hr) as Hs.
  destruct (dom_at_le c c' (fl_dst f) (k, v)) as (d & Hd & e & He & L); [by eapply run_le| |].
  - by apply (fo_delivered _ _ (si_flight _ Hs _ _ Hf)).
  - by exists d, e.
Qed.
End safety.
