(* ===== verification/ClusterSpec.v ===== *)
(** The specification a gossiping cluster implements, and the proof that it
    does: a replicated set.  In the specification there are no messages,
    cursors, peer tables or registers: every node knows a list of entries;
    it writes an entry of its own (a write that is not newer than what it
    knows of the key is ignored), or learns some of what another node
    knows.  The cluster of Cluster.v simulates it step by step. *)
From S2P Require Import Prelude Crdt Replica Broadcast Store Config DashMap Peer Protocol.
From S2P Require Import Manager Cluster ClusterLemmas.

(** ** The specification *)

(** What each node knows, by address. *)
Abbreviation Known := (gmap string StateDelta).

(** [ids]: the identifiers of the nodes, by address. *)
Inductive spec_step (ids : gmap string string) (k : Known) : Known -> Prop :=
| spec_write a l id key val t :
    k !! a = Some l -> ids !! a = Some id ->
    spec_step ids k (<[a := l ++ [(key, mk_lww val t id)]]> k)
| spec_learn a b la lb d :
    k !! a = Some la -> k !! b = Some lb -> (forall kv, kv ∈ d -> kv ∈ la) ->
    spec_step ids k (<[b := lb ++ d]> k).

(** A step of the implementation is a step of the specification or none. *)
Definition spec_step_opt ids (k k' : Known) : Prop := k' = k \/ spec_step ids k k'.

(** Runs of the specification, as many steps as there are actions or fewer. *)
Inductive spec_run (ids : gmap string string) : nat -> Known -> Known -> Prop :=
| spec_run_nil k : spec_run ids 0 k k
| spec_run_snoc n k k1 k2 : spec_run ids n k k1 -> spec_step_opt ids k1 k2 -> spec_run ids (S n) k k2.

(** Nothing but writes creates an entry: everything known anywhere was written
    by the node whose identifier it carries, which still knows it. *)
Definition authored (ids : gmap string string) (k : Known) : Prop :=
  forall a l kv, k !! a = Some l -> kv ∈ l ->
    exists b lb, ids !! b = Some (node_id kv.2) /\ k !! b = Some lb /\ kv ∈ lb.

Lemma spec_step_grows ids k k' a l :
  spec_step_opt ids k k' -> k !! a = Some l -> exists d, k' !! a = Some (l ++ d).
Proof.
  intros [->|Hs] Ha; [exists []; by rewrite app_nil_r|].
  destruct Hs as [b lb id key val t Hb _|b1 b la lb d _ Hb _]; destruct (decide (b = a)) as [<-|Hne].
  1,3: rewrite lookup_insert_eq; assert (lb = l) as -> by congruence; by eexists.
  all: rewrite lookup_insert_ne by done; exists []; by rewrite app_nil_r.
Qed.

Lemma authored_step ids k k' : spec_step_opt ids k k' -> authored ids k -> authored ids k'.
Proof.
  intros Hs Hau. assert (forall kv, (exists b lb, ids !! b = Some (node_id kv.2) /\ k !! b = Some lb /\ kv ∈ lb) ->
    exists b lb, ids !! b = Some (node_id kv.2) /\ k' !! b = Some lb /\ kv ∈ lb) as Hlater.
  { intros kv (b & lb & Hid & Hb & Hin). destruct (spec_step_grows _ _ _ _ _ Hs Hb) as [d Hd].
    exists b, (lb ++ d). split_and!; [done|done|]. apply elem_of_app. by left. }
  destruct Hs as [->|Hs]; [done|]. revert Hlater.
  destruct Hs as [a l id key val t Ha Hida|a1 b la lb d Ha Hb Hd]; intros Hlater a' l' kv Ha' Hin.
  - destruct (decide (a = a')) as [<-|Hne].
    + rewrite lookup_insert_eq in Ha'. injection Ha' as <-.
      apply elem_of_app in Hin as [Hin| ->%list_elem_of_singleton]; [by eapply Hlater, Hau|].
      exists a, (l ++ [(key, mk_lww val t id)]). rewrite lookup_insert_eq. split_and!; [done|done|].
      apply elem_of_app. right. by left.
    + rewrite lookup_insert_ne in Ha' by done. by eapply Hlater, Hau.
  - apply Hlater. destruct (decide (b = a')) as [<-|Hne].
    + rewrite lookup_insert_eq in Ha'. injection Ha' as <-.
      apply elem_of_app in Hin as [Hin|Hin]; [by eapply Hau|]. by eapply Hau, Hd.
    + rewrite lookup_insert_ne in Ha' by done. by eapply Hau.
Qed.

(** ** The simulation *)

Section refinement.
Context `{BroadcastLib StateEvent, DashMapLib PeerInfo}.
Implicit Types (c : Cluster) (n : Node) (f : flight).

Definition ids_of c : gmap string string := node_id_of <$> nodes c.

Record simulates (k : Known) c : Prop := {
  sim_dom a : is_Some (k !! a) <-> is_Some (nodes c !! a);
  sim_node a n l : nodes c !! a = Some n -> k !! a = Some l -> repr l (node_state n);
  sim_flight i f : flights c !! i = Some f ->
    exists l, k !! fl_src f = Some l /\ forall kv, kv ∈ fl_deltas f -> kv ∈ l;
}.

(** A node replaced by one with the same store, and the flights by others with
    the same entries. *)
Lemma simulates_same k c a n n' fs :
  simulates k c -> nodes c !! a = Some n -> node_state n' = node_state n ->
  (forall i f, fs !! i = Some f -> exists l, k !! fl_src f = Some l /\ forall kv, kv ∈ fl_deltas f -> kv ∈ l) ->
  simulates k (mk_cluster (<[a := n']> (nodes c)) fs).
Proof.
  intros [Hd Hn Hf] Ha Hst Hfs. split; [| |done]; cbn [nodes].
  - intros b. rewrite Hd. rewrite lookup_insert_is_Some'. split; [by auto|].
    intros [<-|?]; [by rewrite Ha; eexists|done].
  - intros b m l. destruct (decide (a = b)) as [<-|Hne].
    + rewrite lookup_insert_eq. intros [= <-]. rewrite Hst. by apply Hn.
    + rewrite lookup_insert_ne by done. apply Hn.
Qed.

(** One node learns [d], the others and the flights stay. *)
Lemma simulates_grow k c a n n' l d fs :
  simulates k c -> nodes c !! a = Some n -> k !! a = Some l ->
  node_state n' = absorb_all (node_state n) d ->
  (forall i f, fs !! i = Some f -> exists l, k !! fl_src f = Some l /\ forall kv, kv ∈ fl_deltas f -> kv ∈ l) ->
  simulates (<[a := l ++ d]> k) (mk_cluster (<[a := n']> (nodes c)) fs).
Proof.
  intros [Hd Hn Hf] Ha Hl Hst Hfs. split; cbn [nodes flights].
  - intros b. rewrite !lookup_insert_is_Some'. by rewrite Hd.
  - intros b m lb. destruct (decide (a = b)) as [<-|Hne].
    + rewrite !lookup_insert_eq. intros [= <-] [= <-]. rewrite Hst.
      apply repr_absorb_all. by eapply Hn.
    + rewrite !lookup_insert_ne by done. apply Hn.
  - intros i f Hi. destruct (Hfs _ _ Hi) as (ls & Hls & Hin). destruct (decide (a = fl_src f)) as [->|Hne].
    + rewrite lookup_insert_eq. eexists. split; [done|]. intros kv ?. apply elem_of_app. left.
      assert (ls = l) as <- by congruence. by apply Hin.
    + rewrite lookup_insert_ne by done. by exists ls.
Qed.

Lemma sim_flight_update k c i f f' :
  simulates k c -> flights c !! i = Some f -> fl_src f' = fl_src f -> fl_deltas f' = fl_deltas f ->
  forall j g, <[i := f']> (flights c) !! j = Some g ->
    exists l, k !! fl_src g = Some l /\ forall kv, kv ∈ fl_deltas g -> kv ∈ l.
Proof.
  intros Hs Hi Hsrc Hdel j g [(<- & <- & _)|[_ Hj]]%list_lookup_insert_Some.
  - rewrite Hsrc, Hdel. by eapply sim_flight.
  - by eapply sim_flight.
Qed.

(** Only entries of [h] are known. *)
Definition within (h : StateDelta) (k : Known) : Prop := forall a l kv, k !! a = Some l -> kv ∈ l -> kv ∈ h.

Lemma within_grow h h' k a l d :
  within h k -> k !! a = Some l -> (forall kv, kv ∈ h -> kv ∈ h') -> (forall kv, kv ∈ d -> kv ∈ h') ->
  within h' (<[a := l ++ d]> k).
Proof.
  intros Hw Ha Hh Hd b lb kv Hb Hin. apply lookup_insert_Some in Hb as [(<- & <-)|[_ Hb]].
  - apply elem_of_app in Hin as [Hin|Hin]; [by eapply Hh, Hw|by apply Hd].
  - by eapply Hh, Hw.
Qed.

(** The case of [set]. *)
Lemma set_simulates h k c a n clock key val s w :
  simulates k c -> within h k -> nodes c !! a = Some n -> set clock (node_store n) key val = Done (s, w) ->
  exists k', spec_step_opt (ids_of c) k k' /\ simulates k' (put_node c a (with_store n s))
    /\ within (h ++ [(key, w)]) k'.
Proof.
  intros Hs Hw Hn (t & _ & Hst & Hwin & _)%set_Done.
  destruct (proj2 (sim_dom _ _ Hs a)) as [l Hl]; [by eexists|].
  set (v := mk_lww val t (store_node_id (node_store n))) in *.
  destruct (decide (dominates (state (node_store n)) (key, v))) as [Hd|Hd].
  - exists k. split; [by left|]. rewrite absorb_dominated in Hst by done. split.
    + eapply simulates_same; [done|done|exact Hst|by eapply sim_flight].
    + intros b lb kv Hb Hin. apply elem_of_app. left. by eapply Hw.
  - destruct (absorb_lookup_changed _ _ _ Hd) as [Hk _]. rewrite lookup_absorb, decide_True in Hk by done.
    rewrite <-Hwin in Hk. injection Hk as ->. exists (<[a := l ++ [(key, v)]]> k). split_and!.
    + right. apply (spec_write _ _ a l (node_id_of n) key val t); [done|]. unfold ids_of. by rewrite lookup_fmap, Hn.
    + apply (simulates_grow k c a n); try done. by eapply sim_flight.
    + apply (within_grow h); [done|done|..]; intros kv ?; apply elem_of_app; auto.
Qed.

(** The forward simulation. *)
Lemma exec_simulates h act k c c' :
  simulates k c -> within h k -> exec act c = Some c' ->
  exists k', spec_step_opt (ids_of c) k k' /\ simulates k' c' /\ within (h ++ written act c) k'.
Proof.
  intros Hs Hw E. apply exec_effect in E.
  destruct act as [a clock key val|a sh|a it|a|i|i now|i now|i|i]; cbn [effect] in E; split_hyps; subst c';
    cbn [written]; rewrite ?app_nil_r.
  - match goal with H : nodes c !! a = Some _ |- _ => rewrite H end.
    match goal with H : set _ _ _ _ = Done _ |- _ => rewrite H end. by eapply set_simulates.
  - exists k. split; [by left|]. split; [|done]. eapply simulates_same; [done|done|done|by eapply sim_flight].
  - exists k. split; [by left|]. split; [|done]. eapply simulates_same; [done|done|done|].
    intros i f [Hi|[_ Hi]]%lookup_app_Some; [by eapply sim_flight|].
    match goal with H : _ \/ _ |- _ => destruct H as [->|(task & -> & Ht)]; [done|] end.
    apply list_lookup_singleton_Some in Hi as [_ <-]. cbn [fl_src fl_deltas].
    destruct (proj2 (sim_dom _ _ Hs a)) as [l Hl]; [by eexists|]. exists l. split; [done|].
    match goal with H : round_target _ _ _ _ ?t = _ |- _ => destruct t as [pid info] end.
    apply round_target_Some in Ht as (_ & _ & Hd & _). unfold fl_deltas. cbn [fl_task]. rewrite Hd.
    intros [k0 v] [Hk _]%elem_of_delta_since_map. eapply repr_in, Hk. by eapply sim_node.
  - exists k. split; [by left|]. split; [|done]. eapply simulates_same; [done|done|done|by eapply sim_flight].
  - match goal with H : flights c !! i = Some ?f |- _ => rename f into f0, H into Hf end.
    match goal with H : nodes c !! _ = Some ?n |- _ => rename n into n0, H into Hn end.
    destruct (proj2 (sim_dom _ _ Hs (fl_dst f0))) as [l Hl]; [by eexists|].
    destruct (sim_flight _ _ Hs _ _ Hf) as (la & Hla & Hin). eexists. split_and!.
    + right. by apply (spec_learn _ _ (fl_src f0) (fl_dst f0) la l (fl_deltas f0)).
    + apply (simulates_grow k c (fl_dst f0) n0); try done.
      * apply merge_delta_state.
      * eapply (sim_flight_update k c); [done|eassumption|done|done].
    + apply (within_grow h); [done|done|done|]. intros kv Hkv%Hin. by eapply Hw.
  - exists k. split; [by left|]. split; [|done]. eapply simulates_same; [done|done|done|eapply (sim_flight_update k c); [done|eassumption|done|done]].
  - exists k. split; [by left|]. split; [|done]. eapply simulates_same; [done|done|done|eapply (sim_flight_update k c); [done|eassumption|done|done]].
  - exists k. split; [by left|]. split; [|done]. pose proof Hs as [Hd Hn Hf]. split; [done|done|]. eapply (sim_flight_update k c); [done|eassumption|done|done].
  - exists k. split; [by left|]. split; [|done]. pose proof Hs as [Hd Hn Hf]. split; [done|done|]. eapply (sim_flight_update k c); [done|eassumption|done|done].
Qed.

Lemma ids_of_le c c' : cluster_le c c' -> ids_of c' = ids_of c.
Proof.
  intros Hle. unfold ids_of. apply map_eq. intros a. rewrite !lookup_fmap. specialize (Hle a).
  destruct (nodes c !! a), (nodes c' !! a); try done. cbn. by destruct Hle as (_ & _ & ->).
Qed.

(** Nobody knows anything. *)
Definition spec_start c : Known := (fun _ => []) <$> nodes c.

Lemma simulates_start c : initial c -> simulates (spec_start c) c.
Proof.
  intros [Hf Hst _ _ _]. unfold spec_start. split.
  - intros a. by rewrite lookup_fmap, fmap_is_Some.
  - intros a n l Ha. rewrite lookup_fmap, Ha. intros [= <-]. rewrite (Hst _ _ Ha). apply repr_nil.
  - intros i f. by rewrite Hf.
Qed.

Context `{!DashMapLaws PeerInfo}.

Lemma run_simulates acts c0 c :
  initial c0 -> run acts c0 = Some c ->
  exists k, spec_run (ids_of c0) (length acts) (spec_start c0) k /\ simulates k c
    /\ within (history acts c0) k /\ authored (ids_of c0) k.
Proof.
  intros Hi Hr. apply (run_ind (fun acts h c => ids_of c = ids_of c0 /\ exists k,
    spec_run (ids_of c0) (length acts) (spec_start c0) k /\ simulates k c /\ within h k
    /\ authored (ids_of c0) k) c0) in Hr; [by destruct Hr| |].
  - split; [done|]. exists (spec_start c0). split; [constructor|]. split; [by apply simulates_start|].
    split; intros a l kv; unfold spec_start; rewrite lookup_fmap; destruct (nodes c0 !! a); try done;
      intros [= <-]; by intros ?%not_elem_of_nil.
  - intros acts' h c1 act c2 (Hids & k & Hrun & Hsim & Hw & Hau) E.
    split; [rewrite <-Hids; by eapply ids_of_le, exec_le|].
    destruct (exec_simulates _ _ _ _ _ Hsim Hw E) as (k' & Hst & Hsim' & Hw'). rewrite Hids in Hst.
    exists k'. split; [|split; [done|split; [done|by eapply authored_step]]].
    rewrite length_app, Nat.add_comm. by eapply spec_run_snoc.
Qed.

(** ** Property *)

(** C2: a cluster is a replicated set.  Every execution, with any losses,
    delays, timeouts, reorderings and interleavings of the steps of all nodes,
    is matched by a run of the specification that takes at most one step per
    action, in which nodes only write entries of their own and learn entries
    that another node knows.  The store of every node then holds, for every
    key, a greatest entry of those its node knows; what is in flight is known
    to its sender; whatever is known anywhere was written by the node it
    names, which still knows it; and nodes that know the same entries hold the
    same map. *)
Theorem cluster_refines_replicated_set acts c0 c :
  initial c0 -> run acts c0 = Some c ->
  exists k, spec_run (ids_of c0) (length acts) (spec_start c0) k
    /\ simulates k c /\ authored (ids_of c0) k
    /\ forall a b n m la lb, nodes c !! a = Some n -> nodes c !! b = Some m ->
         k !! a = Some la -> k !! b = Some lb -> (forall kv, kv ∈ la <-> kv ∈ lb) ->
         node_state n = node_state m.
Proof.
  intros Hi Hr. pose proof (hi_coherent _ _ _ (hist_inv_run _ _ _ Hi Hr)) as Hco.
  destruct (run_simulates _ _ _ Hi Hr) as (k & Hrun & Hsim & Hw & Hau).
  exists k. split; [done|]. split; [done|]. split; [done|]. intros a b n m la lb Hn Hm Ha Hb Heq.
  eapply repr_unique; [|exact Heq|by eapply sim_node|by eapply sim_node].
  eapply coherent_subset; [|exact Hco]. intros kv. by eapply Hw.
Qed.
End refinement.
