(* ===== verification/ClusterTypes.v ===== *)
(** The machine types of the sources, as an invariant.  Rust's [u64] fields
    are numbers without bound in the model, with the wrap-around written
    where the code computes; that every number a cluster ever holds fits its
    type is a property of all executions. *)
From S2P Require Import Prelude Crdt Replica Broadcast Store Config DashMap Peer Protocol.
From S2P Require Import Manager Cluster ClusterLemmas.

(** ** Types *)

Definition u64 (n : N) : Prop := (n < U64)%N.

Definition value_typed (v : LwwValue) : Prop := u64 (timestamp v).
Definition delta_typed (d : StateDelta) : Prop := forall kv, kv ∈ d -> value_typed kv.2.
Definition map_typed (m : StateMap) : Prop := forall k v, m !! k = Some v -> value_typed v.
Definition peer_typed (p : PeerInfo) : Prop := u64 (last_sync_ts p) /\ u64 (exchange_count p).
Definition message_typed (msg : GossipMessage) : Prop := u64 (generation msg) /\ delta_typed (deltas msg).
Definition task_typed (t : SendTask) : Prop := u64 (task_max_sent_ts t) /\ message_typed (task_msg t).

Lemma u64_max a b : u64 a -> u64 b -> u64 (N.max a b).
Proof. unfold u64. lia. Qed.

Lemma u64_0 : u64 0.
Proof. done. Qed.

Lemma u64_wrap n : u64 (wrap64 n).
Proof. apply wrap64_lt. Qed.

Create HintDb typed discriminated.
#[export] Hint Resolve u64_max u64_0 u64_wrap : typed.

Lemma absorb_all_typed m d : map_typed m -> delta_typed d -> map_typed (absorb_all m d).
Proof. intros Hm Hd k v [E|Hin]%absorb_all_source; [by eapply Hm|by apply (Hd (k, v))]. Qed.

Lemma delta_since_typed it m since : map_typed m -> delta_typed (delta_since_map it m since).
Proof. intros Hm [k v] [E _]%elem_of_delta_since_map. by eapply Hm. Qed.

Lemma now_micros_typed clock t : now_micros clock = Done t -> u64 t.
Proof. unfold now_micros. case_match; [done|]. intros [= <-]. auto with typed. Qed.

Lemma delta_max_typed (d : StateDelta) :
  delta_typed d -> u64 (default 0%N (iter_max ((fun kv => timestamp kv.2) <$> d))).
Proof.
  intros Hd. set (l := (fun kv => timestamp kv.2) <$> d).
  destruct (decide (l = [])) as [->|Hne]; [auto with typed|].
  apply max_or_0_elem, list_elem_of_fmap in Hne as (kv & -> & Hin). by apply Hd.
Qed.

Lemma record_exchange_typed now ts p : u64 ts -> peer_typed p -> peer_typed (record_exchange now ts p).
Proof. intros ? [??]. split; simpl; auto with typed. Qed.

Lemma mark_seen_typed now p : peer_typed p -> peer_typed (mark_seen now p).
Proof. intros [??]. split; simpl; auto with typed. Qed.

Lemma peer_new_typed now addr : peer_typed (PeerInfo_new now addr).
Proof. split; simpl; auto with typed. Qed.
#[export] Hint Resolve record_exchange_typed mark_seen_typed peer_new_typed : typed.

(** ** Clusters *)

Section types.
Context `{BroadcastLib StateEvent, DashMapLib PeerInfo, !DashMapLaws PeerInfo}.
Implicit Types (c : Cluster) (n : Node) (f : flight).

Definition peers_typed (d : DashMap) : Prop := forall k p, dm_get d k = Some p -> peer_typed p.

Definition round_typed (r : option (N * list (string * PeerInfo))) : Prop :=
  match r with None => True | Some (gen, ts) => u64 gen /\ forall t, t ∈ ts -> peer_typed t.2 end.

Record node_typed n : Prop := {
  nt_state : map_typed (node_state n);
  nt_peers : peers_typed (node_peers n);
  nt_generation : u64 (mgr_generation (node_mgr n));
  nt_round : round_typed (node_round n);
}.

Record cluster_typed c : Prop := {
  ct_node a n : nodes c !! a = Some n -> node_typed n;
  ct_flight i f : flights c !! i = Some f -> task_typed (fl_task f);
}.

Lemma peers_typed_update (d d' : DashMap) q x :
  (forall k, dm_get d' k = if decide (x = k) then Some (q (dm_get d k)) else dm_get d k) ->
  (forall o, (forall p, o = Some p -> peer_typed p) -> peer_typed (q o)) ->
  peers_typed d -> peers_typed d'.
Proof.
  intros Hget Hq Hd k p. rewrite Hget. case_decide; [|apply Hd]. intros [= <-]. apply Hq. intros p. apply Hd.
Qed.

Lemma default_typed o p : peer_typed p -> (forall q, o = Some q -> peer_typed q) -> peer_typed (default p o).
Proof. intros Hp Ho. destruct o as [q|]; [by apply Ho|done]. Qed.

Lemma finish_task_typed now d task res :
  u64 (task_max_sent_ts task) -> peers_typed d -> peers_typed (finish_task now d task res).
Proof.
  intros Ht Hd. destruct res as [ack|e]; [|exact Hd].
  eapply (peers_typed_update d _ (fun o => record_exchange now (task_max_sent_ts task)
            (default (PeerInfo_new now (task_peer_addr task)) o)) (task_peer_id task)); [| |done].
  - intros k. by rewrite finish_task_get.
  - intros o Ho. apply record_exchange_typed; [done|]. apply default_typed; auto with typed.
Qed.

Lemma register_sender_typed now d msg : peers_typed d -> peers_typed (register_sender now d msg).
Proof.
  apply (peers_typed_update d _ (fun o => mark_seen now
            (default (PeerInfo_new now (from_gossip_addr msg)) o)) (from_node_id msg)).
  - intros k. by rewrite register_sender_get.
  - intros o Ho. apply mark_seen_typed, default_typed; auto with typed.
Qed.

Lemma round_target_typed it store config gen t task :
  map_typed (state store) -> u64 gen -> round_target it store config gen t = Some task -> task_typed task.
Proof.
  intros Hm Hg Ht. destruct t as [pid info]. apply round_target_Some in Ht as (_ & _ & Hd & _ & _ & Hgen & Hmax).
  assert (delta_typed (deltas (task_msg task))) as Hdt by (rewrite Hd; by apply delta_since_typed).
  split; [rewrite Hmax; by apply delta_max_typed|]. split; [by rewrite Hgen|done].
Qed.

Lemma cluster_typed_put c a n fs :
  cluster_typed c -> node_typed n -> (forall i f, fs !! i = Some f -> task_typed (fl_task f)) ->
  cluster_typed (mk_cluster (<[a := n]> (nodes c)) fs).
Proof.
  intros [Hn Hf] Hn' Hfs. split; [|done]. intros b m Hb. cbn in Hb.
  apply lookup_insert_Some in Hb as [[_ <-]|[_ Hb]]; [done|by eapply Hn].
Qed.

Lemma flights_typed_update c i f f' :
  cluster_typed c -> flights c !! i = Some f -> fl_task f' = fl_task f ->
  forall j g, <[i := f']> (flights c) !! j = Some g -> task_typed (fl_task g).
Proof.
  intros Hc Hi Ht j g [(_ & <- & _)|[_ Hj]]%list_lookup_insert_Some; [rewrite Ht|]; by eapply ct_flight.
Qed.

Lemma exec_typed act c c' : cluster_typed c -> exec act c = Some c' -> cluster_typed c'.
Proof.
  intros Hc E. apply exec_effect in E.
  destruct act as [a clock key val|a sh|a it|a|i|i now|i now|i|i]; cbn [effect] in E; split_hyps; subst c';
    try match goal with H : nodes c !! _ = Some ?n |- _ =>
      pose proof (ct_node _ Hc _ _ H) as [Hst Hps Hg Hr] end;
    try match goal with H : flights c !! _ = Some ?f |- _ => pose proof (ct_flight _ Hc _ _ H) as [Hmax [_ Hdt]] end;
    try (apply cluster_typed_put; [done| |first [by eapply ct_flight | by eapply (flights_typed_update c)]]).
  - match goal with H : set _ _ _ _ = _ |- _ => apply set_Done in H as (t & Ht & Hs & _) end.
    split; [|done..]. unfold node_state, node_store, with_store. cbn. rewrite Hs.
    apply (absorb_all_typed _ [_]); [done|]. intros kv ->%list_elem_of_singleton. by eapply now_micros_typed.
  - split; [done|done|apply u64_wrap|]. split; [done|]. intros [pid info] Ht. cbn.
    subst. eapply Hps, select_targets_sub, Ht. apply shuffle_perm.
  - apply cluster_typed_put; [done| |].
    + split; [done|done|done|]. match goal with H : node_round _ = _ |- _ => rewrite H in Hr end.
      destruct Hr as [? Ht]. split; [done|]. intros t' ?. apply Ht. by right.
    + intros i f [Hi|[_ Hi]]%lookup_app_Some; [by eapply ct_flight|].
      match goal with H : _ \/ _ |- _ => destruct H as [->|(task & -> & Ht)]; [done|] end.
      apply list_lookup_singleton_Some in Hi as [_ <-]. eapply round_target_typed; [exact Hst| |exact Ht].
      match goal with H : node_round _ = _ |- _ => rewrite H in Hr end. by destruct Hr.
  - by split.
  - split; [|done..]. unfold node_state, node_store, with_store. cbn. rewrite merge_delta_state.
    by apply absorb_all_typed.
  - split; [done| |done..]. by apply register_sender_typed.
  - split; [done| |done..]. by apply finish_task_typed.
  - split; [exact (ct_node _ Hc)|by eapply (flights_typed_update c)].
  - split; [exact (ct_node _ Hc)|by eapply (flights_typed_update c)].
Qed.

Lemma start_node_typed now config (store : StateStore) : state store = ∅ -> node_typed (start_node now config store).
Proof.
  intros Hs. split; cbn; auto with typed.
  - intros k v. unfold node_state, node_store. cbn. by rewrite Hs, lookup_empty.
  - intros k p. unfold node_peers. cbn. rewrite register_seeds_get, dm_get_new.
    case_decide; [|done]. intros [= <-]. auto with typed.
Qed.

(** ** Property *)

(** Every number of a cluster fits its machine type, always.  Nodes start
    as [main] starts them, with empty stores and nothing in flight; in every
    state any execution reaches, the timestamps in all stores and messages,
    the cursors and exchange counters of all peer tables, the generations of
    all managers, rounds and messages, and the cursor values that pending
    pushes will set are below 2^64. *)
Theorem clusters_well_typed acts c0 c :
  (forall a n, nodes c0 !! a = Some n -> exists now config (store : StateStore),
     n = start_node now config store /\ state store = ∅) ->
  flights c0 = [] -> run acts c0 = Some c -> cluster_typed c.
Proof.
  intros Hstart Hfl Hr. apply (run_ind (fun _ _ => cluster_typed) c0) in Hr; [done|split|].
  - intros a n Hn. destruct (Hstart _ _ Hn) as (now & config & store & -> & Hs). by apply start_node_typed.
  - intros i f. by rewrite Hfl.
  - intros _ _ c1 act c2. apply exec_typed.
Qed.
End types.
