(* ===== verification/ClusterSync.v ===== *)
(** When the delta protocol is enough.  A push carries the entries newer than
    the peer's cursor and moves the cursor to the newest timestamp sent; it
    skips an entry that reaches the node later with an older timestamp.  Here:
    if that never happens to a peer that lacks the entry ([fresh_run]), a peer
    whose cursor covers a node's entries has them all.  Divergence.v shows
    that the condition is needed. *)
From S2P Require Import Prelude Crdt Replica Broadcast Store Config DashMap Peer Protocol.
From S2P Require Import Manager Cluster ClusterLemmas ClusterSafety.

Section sync.
Context `{BroadcastLib StateEvent, DashMapLib PeerInfo}.
Implicit Types (c : Cluster) (n : Node) (f : flight).

(** The peers of node [a] cannot miss the entry: every cursor of [a], and
    what every push it is waiting for will move one to, is below the entry or
    belongs to a peer that has it after the step. *)
Definition fresh_at c c' (a : string) (kv : string * LwwValue) : Prop :=
  (forall n pid p, nodes c !! a = Some n -> dm_get (node_peers n) pid = Some p ->
     (last_sync_ts p < timestamp kv.2)%N \/ dom_at c' (gossip_addr p) kv)
  /\ (forall i f, flights c !! i = Some f -> fl_src f = a -> fl_waiting f = true ->
     (task_max_sent_ts (fl_task f) < timestamp kv.2)%N \/ nodes c !! fl_dst f = None
     \/ dom_at c' (fl_dst f) kv).

(** The entries a step brings to a node are fresh there. *)
Definition fresh_step (act : action) c c' : Prop :=
  match act with
  | ASet a clock key value =>
      forall n s w, nodes c !! a = Some n -> set clock (node_store n) key value = Done (s, w) ->
        node_state n !! key <> Some w -> fresh_at c c' a (key, w)
  | AMerge i =>
      forall f n k v, flights c !! i = Some f -> nodes c !! fl_dst f = Some n ->
        (k, v) ∈ fl_deltas f -> ~ dominates (node_state n) (k, v) ->
        fresh_at c c' (fl_dst f) (k, v)
  | _ => True
  end.

Fixpoint fresh_run (acts : list action) c : Prop :=
  match acts with
  | [] => True
  | act :: acts' =>
      match exec act c with
      | Some c' => fresh_step act c c' /\ fresh_run acts' c'
      | None => True
      end
  end.

Context `{!DashMapLaws PeerInfo}.

(** An entry of the new state is old, or new and fresh. *)
Lemma exec_state act c c' a n' k v :
  exec act c = Some c' -> fresh_step act c c' ->
  nodes c' !! a = Some n' -> node_state n' !! k = Some v ->
  (exists n, nodes c !! a = Some n /\ node_state n !! k = Some v)
  \/ (flights c' = flights c \/ exists i, act = AMerge i) /\ fresh_at c c' a (k, v).
Proof.
  intros E%exec_effect Hfresh Hn' Hk.
  assert (forall b m m', nodes c !! b = Some m -> node_state m' = node_state m ->
    <[b := m']> (nodes c) !! a = Some n' ->
    exists n, nodes c !! a = Some n /\ node_state n !! k = Some v) as Hsame.
  { intros b m m' Hm Hst Hx. destruct (decide (b = a)) as [->|Hne].
    - rewrite lookup_insert_eq in Hx. simplify_eq. rewrite Hst in Hk. eauto.
    - rewrite lookup_insert_ne in Hx by done. eauto. }
  destruct act; cbn [effect] in E; split_hyps; subst c'; simpl in Hn';
    try (eapply Hsame in Hn' as (m & ? & ?); [|eassumption|reflexivity]; left; eauto);
    try (left; by eauto).
  - destruct (decide (addr = a)) as [->|Hne]; [rewrite lookup_insert_eq in Hn'
      |rewrite lookup_insert_ne in Hn' by done; left; eauto].
    injection Hn' as <-. destruct (decide (node_state x !! k = Some v)) as [|Hold]; [left; eauto|].
    right. split; [by left|]. destruct (set_Done _ _ _ _ _ _ H2) as (t & _ & Hs & Hw & _).
    unfold node_state, node_store, with_store in Hk. simpl in Hk. rewrite Hs, lookup_absorb in Hk.
    case_decide; [subst k|done]. rewrite <-Hw in Hk. injection Hk as ->. by eapply Hfresh.
  - destruct (decide (fl_dst x = a)) as [<-|Hne]; [rewrite lookup_insert_eq in Hn'
      |rewrite lookup_insert_ne in Hn' by done; left; eauto].
    injection Hn' as <-. destruct (decide (node_state x0 !! k = Some v)) as [|Hold]; [left; eauto|].
    right. split; [right; eauto|]. unfold node_state, node_store, with_store in Hk. simpl in Hk.
    rewrite merge_delta_state in Hk.
    apply absorb_all_new in Hk as [Hk|[Hin Hnd]]; [done|]. by eapply Hfresh.
Qed.

(** What a step does to a flight. *)
Lemma exec_flights act c c' i f' :
  exec act c = Some c' -> flights c' !! i = Some f' ->
  flights c !! i = Some f'
  \/ (exists f, flights c !! i = Some f /\ fl_src f' = fl_src f /\ fl_task f' = fl_task f
       /\ (fl_waiting f' = true -> fl_waiting f = true)
       /\ (fl_phase f' = fl_phase f \/ fl_phase f' = Lost
           \/ (fl_phase f = Sending /\ forall kv, kv ∈ fl_deltas f -> dom_at c' (fl_dst f) kv)
           \/ delivered (fl_phase f)))
  \/ (exists a it n gen t ts task, act = ARoundTarget a it /\ nodes c !! a = Some n
       /\ node_round n = Some (gen, t :: ts)
       /\ round_target it (node_store n) (mgr_config (node_mgr n)) gen t = Some task
       /\ f' = mk_flight a task Sending true).
Proof.
  intros E%exec_effect Hf'.
  destruct act; cbn [effect] in E; destruct E as (x & E); split_hyps; subst c';
    unfold put_flight in Hf' ; simpl in Hf'; try (by left).
  { apply lookup_app_Some in Hf' as [?|[_ Hf']]; [by left|right; right].
    destruct H3 as [->|(task & -> & Ht)]; [done|].
    apply list_lookup_singleton_Some in Hf' as [_ <-]. eauto 15. }
  all: destruct (decide (i0 = i)) as [->|Hne];
    [|rewrite list_lookup_insert_ne in Hf' by done; by left].
  all: apply list_lookup_insert_Some in Hf' as [(_ & <- & _)|[? _]]; [|done].
  all: right; left; exists x; (split; [done|]); (split; [done|]); (split; [done|]); simpl.
  - split; [done|]. right; right; left. split; [done|]. by apply merged_dom_at.
  - split; [done|]. right; right; right. by rewrite H2.
  - split; [done|]. right; right; right. by rewrite H2.
  - split; [done|]. by left.
  - split; [done|]. by right; left.
Qed.

(** ** The invariant of fresh executions *)

Record sync_inv c : Prop := {
  (** entries up to a cursor are at the peer *)
  sy_cursor a n pid p k v :
    nodes c !! a = Some n -> dm_get (node_peers n) pid = Some p -> node_state n !! k = Some v ->
    (0 < timestamp v <= last_sync_ts p)%N -> dom_at c (gossip_addr p) (k, v);
  (** entries up to what a push will move the cursor to are at the peer, or
      in the push *)
  sy_flight i f n d k v :
    flights c !! i = Some f -> fl_waiting f = true -> nodes c !! fl_src f = Some n ->
    nodes c !! fl_dst f = Some d ->
    node_state n !! k = Some v -> (0 < timestamp v <= task_max_sent_ts (fl_task f))%N ->
    fl_phase f = Lost \/ (fl_phase f = Sending /\ (k, v) ∈ fl_deltas f) \/ dom_at c (fl_dst f) (k, v);
}.

Lemma sync_inv_initial c : initial c -> sync_inv c.
Proof.
  intros Hi. split.
  - intros a n pid p k v Hn _ Hk. by rewrite (init_state _ Hi _ _ Hn), lookup_empty in Hk.
  - intros i f n d k v Hf. by rewrite (init_flights _ Hi) in Hf.
Qed.

(** A push that sent something and was acknowledged has a receiver. *)
Lemma acked_dst c i f ack :
  struct_inv c -> flights c !! i = Some f -> fl_phase f = AckSent ack ->
  (0 < task_max_sent_ts (fl_task f))%N -> exists d, nodes c !! fl_dst f = Some d.
Proof.
  intros Hs Hi Hp Hlt. destruct (flight_backed c f) as [?|(d & _ & _ & Hd & _)].
  - by eapply si_flight.
  - by rewrite Hp.
  - lia.
  - by exists d.
Qed.

Lemma sy_cursor_exec act c c' a n' pid p' k v :
  struct_inv c -> sync_inv c -> fresh_step act c c' -> exec act c = Some c' ->
  nodes c' !! a = Some n' -> dm_get (node_peers n') pid = Some p' -> node_state n' !! k = Some v ->
  (0 < timestamp v <= last_sync_ts p')%N -> dom_at c' (gossip_addr p') (k, v).
Proof.
  intros Hs [Hc Hf] Hfresh E Hn' Hp' Hk Hts. pose proof (exec_le _ _ _ E) as Hle.
  destruct (exec_peers _ _ _ _ _ _ _ (struct_table _ Hs) E Hn' Hp') as [[? _]|(n & p & Hn & Hp & -> & Hcur)]; [lia|].
  destruct (exec_state _ _ _ _ _ _ _ E Hfresh Hn' Hk) as [(n0 & Hn0 & Hk0)|(_ & Hb & Hbf)].
  - eapply dom_at_le; [done|]. assert (n0 = n) as -> by congruence. destruct Hcur as [Hcur|(i & f & ack & Hi & Hsrc & Hdst & Hph & Hw & Hcur)].
    + apply (Hc a n pid p); try done. lia.
    + destruct (N.le_gt_cases (timestamp v) (last_sync_ts p)); [apply (Hc a n pid p); try done; lia|].
      rewrite <-Hdst. subst a. destruct (acked_dst c i f ack) as [d Hd]; [done..|lia|].
      destruct (Hf i f n d k v) as [?|[[? _]|?]]; try done; [lia|congruence|congruence].
  - specialize (Hb _ _ _ Hn Hp) as [Hb|Hb]; [|done]. cbn [snd] in *.
    destruct Hcur as [Hcur|(i & f & ack & Hi & Hsrc & Hdst & Hph & Hw & Hcur)]; [lia|].
    rewrite <-Hdst. specialize (Hbf _ _ Hi Hsrc Hw) as [Hbf|[Hbf|Hbf]]; [simpl in Hbf; lia| |done].
    destruct (acked_dst c i f ack) as [d Hd]; [done..|lia|congruence].
Qed.

(** A push that moves a cursor past a fresh entry goes to a peer that has it. *)
Lemma fresh_flight_dom c c' a i f d k v :
  fresh_at c c' a (k, v) -> flights c !! i = Some f -> fl_src f = a -> fl_waiting f = true ->
  nodes c !! fl_dst f = Some d -> (timestamp v <= task_max_sent_ts (fl_task f))%N ->
  dom_at c' (fl_dst f) (k, v).
Proof.
  intros [_ Hb] Hi Hsrc Hw Hd Hts.
  destruct (Hb _ _ Hi Hsrc Hw) as [Hlt|[Hn|?]]; [simpl in Hlt; lia|congruence|done].
Qed.

Lemma sy_flight_exec act c c' i f' n' d' k v :
  struct_inv c -> sync_inv c -> fresh_step act c c' -> exec act c = Some c' ->
  flights c' !! i = Some f' -> fl_waiting f' = true -> nodes c' !! fl_src f' = Some n' ->
  nodes c' !! fl_dst f' = Some d' ->
  node_state n' !! k = Some v -> (0 < timestamp v <= task_max_sent_ts (fl_task f'))%N ->
  fl_phase f' = Lost \/ (fl_phase f' = Sending /\ (k, v) ∈ fl_deltas f') \/ dom_at c' (fl_dst f') (k, v).
Proof.
  intros Hs Hsy Hfresh E Hf' Hw Hn' Hd' Hk Hts. pose proof (exec_le _ _ _ E) as Hle.
  destruct (cluster_le_node_inv _ _ _ _ Hle Hd') as (d & Hd & _).
  pose proof (exec_state _ _ _ _ _ _ _ E Hfresh Hn' Hk) as Hst.
  destruct (exec_flights _ _ _ _ _ E Hf') as [Hf|[(f & Hf & Hsrc & Htask & Hwt & Hph)|Hnew]].
  - destruct Hst as [(n & Hn & Hk0)|(_ & Hb)].
    2: { right; right. by eapply (fresh_flight_dom c); [..|apply Hts]. }
    destruct (sy_flight _ Hsy _ _ _ _ _ _ Hf Hw Hn Hd Hk0 Hts) as [?|[?|?]]; [by left|by right; left|].
    right; right. by eapply dom_at_le.
  - unfold fl_dst, fl_deltas in *. rewrite Htask in *. destruct Hst as [(n & Hn & Hk0)|(_ & Hb)].
    2: { right; right. exact (fresh_flight_dom c c' _ i f d k v Hb Hf (eq_sym Hsrc) (Hwt Hw) Hd (proj2 Hts)). }
    rewrite Hsrc in Hn.
    destruct (sy_flight _ Hsy _ _ _ _ _ _ Hf (Hwt Hw) Hn Hd Hk0 Hts) as [Hl|[[Hse Hin]|Hdom]].
    + destruct Hph as [->|[?|[[? _]|?]]]; [by left|by left|congruence|by rewrite Hl in *].
    + destruct Hph as [->|[?|[[_ Hall]|?]]]; [by right; left|by left|right; right; by apply Hall|].
      by rewrite Hse in *.
    + right; right. by eapply dom_at_le.
  - destruct Hnew as (a & it & n0 & gen & [pid info] & ts & task & -> & Hn0 & Hr & Ht & ->).
    simpl in *. destruct Hst as [(n & Hn & Hk0)|([Hfl|[j ?]] & Hb)]; [|rewrite Hfl in Hf'|done].
    2: { right; right. by eapply (fresh_flight_dom c); [..|apply Hts]. }
    assert (n0 = n) as -> by congruence.
    destruct (round_target_Some _ _ _ _ _ _ _ Ht) as (Hp & Ha & Hdl & _ & _ & _ & _).
    unfold fl_dst, fl_deltas. simpl. rewrite Ha, Hdl.
    destruct (N.le_gt_cases (timestamp v) (last_sync_ts info)) as [Hc|Hc].
    + right; right. eapply dom_at_le; [done|].
      destruct (si_round _ Hs _ _ _ _ pid info Hn0 Hr) as (m & p & Hm & Hpm & Hap & Hlp); [left|].
      assert (m = n) as -> by congruence. rewrite <-Hap.
      apply (sy_cursor _ Hsy a n pid p); try done. lia.
    + right; left. split; [done|]. by apply elem_of_delta_since_map.
Qed.

Lemma sync_inv_exec act c c' :
  struct_inv c -> sync_inv c -> fresh_step act c c' -> exec act c = Some c' -> sync_inv c'.
Proof.
  intros. split; intros; [by eapply sy_cursor_exec|by eapply sy_flight_exec].
Qed.

Lemma sync_inv_run acts c c' :
  struct_inv c -> sync_inv c -> fresh_run acts c -> run acts c = Some c' -> sync_inv c'.
Proof.
  revert c. induction acts as [|act acts IH]; intros c Hs Hsy Hfr Hr; cbn [run fresh_run] in *.
  - congruence.
  - unfold mbind, option_bind in Hr. destruct (exec act c) as [c1|] eqn:E; [|done].
    destruct Hfr as [Hstep Hfr]. apply (IH c1); try done.
    + by eapply struct_inv_exec.
    + by eapply sync_inv_exec.
Qed.

(** ** A schedule that pushes to a given peer *)

Fixpoint to_front (x : string * PeerInfo) (l : list (string * PeerInfo)) : list (string * PeerInfo) :=
  match l with
  | [] => []
  | y :: l' =>
      if decide (y = x) then l
      else match to_front x l' with [] => [y] | z :: r => z :: y :: r end
  end.

Lemma to_front_perm x l : to_front x l ≡ₚ l.
Proof.
  induction l as [|y l IH]; simpl; [done|]. case_decide; [done|].
  destruct (to_front x l) as [|z r].
  - apply Permutation_nil in IH. by subst.
  - rewrite <-IH. constructor.
Qed.

Lemma to_front_head x l : x ∈ l -> exists r, to_front x l = x :: r.
Proof.
  induction l as [|y l IH]; [by intros ?%not_elem_of_nil|]. simpl. intros Hx.
  case_decide as Hy; [subst; by eexists|]. apply elem_of_cons in Hx as [?|Hx]; [by subst|].
  destruct (IH Hx) as [r ->]. by eexists.
Qed.

Definition front_shuffler (x : string * PeerInfo) : shuffler :=
  mk_shuffler (to_front x) (to_front_perm x).

Lemma select_front pid p d config :
  dm_get d pid = Some p -> (0 < gossip_fanout config)%N ->
  exists ts, select_targets (front_shuffler (pid, p)) d config = (pid, p) :: ts.
Proof.
  intros Hp Hf. apply dm_iter_get in Hp. destruct (to_front_head _ _ Hp) as [r Hr].
  unfold select_targets, front_shuffler. cbn [shuffle]. rewrite Hr.
  destruct (N.to_nat (N.min _ _)) as [|m] eqn:E; [simpl in E; lia|]. by eexists.
Qed.

Definition no_set (act : action) : Prop := match act with ASet _ _ _ _ => False | _ => True end.

(** Starting a round and serving its first target, when that is [pid]. *)
Lemma serve_first_target c a n pid p :
  nodes c !! a = Some n -> node_round n = None ->
  dm_get (node_peers n) pid = Some p -> (0 < gossip_fanout (mgr_config (node_mgr n)))%N ->
  exists c2, run [ARoundStart a (front_shuffler (pid, p)); ARoundTarget a canonical_iter] c = Some c2
    /\ flights c2 = flights c ++
         match round_target canonical_iter (node_store n) (mgr_config (node_mgr n))
                 (mgr_generation (node_mgr n)) (pid, p) with
         | Some task => [mk_flight a task Sending true]
         | None => []
         end
    /\ forall b, b <> a -> nodes c2 !! b = nodes c !! b.
Proof.
  intros Hn Hr Hp Hf. destruct (select_front _ _ _ _ Hp Hf) as [ts Hsel].
  set (m := (fetch_add_generation (node_mgr n)).2).
  set (c1 := put_node c a (mk_node m (Some (mgr_generation (node_mgr n), (pid, p) :: ts)))).
  assert (exec (ARoundStart a (front_shuffler (pid, p))) c = Some c1) as E1.
  { unfold exec, mbind, option_bind. by rewrite Hn, Hr, Hsel. }
  eexists. split.
  - cbn [run]. rewrite E1. unfold exec, c1, put_node, mbind, option_bind. cbn [nodes].
    by rewrite lookup_insert_eq.
  - split; [reflexivity|]. intros b Hb. unfold c1, put_node. cbn [nodes].
    by rewrite !lookup_insert_ne.
Qed.

(** Delivering a flight. *)
Lemma deliver_flight c i f d :
  flights c !! i = Some f -> fl_phase f = Sending -> nodes c !! fl_dst f = Some d ->
  exists c', run [AMerge i] c = Some c' /\ forall kv, kv ∈ fl_deltas f -> dom_at c' (fl_dst f) kv.
Proof.
  intros Hf Hp Hd. destruct (merge_delta (node_store d) (fl_deltas f)) as [s u] eqn:Hm.
  eexists. split.
  - cbn [run]. unfold exec, mbind, option_bind. by rewrite Hf, Hp, Hd, Hm.
  - pose proof (merged_dom_at c f d i (ack_of s u) Hd) as Hdom. rewrite Hm in Hdom. exact Hdom.
Qed.

(** ** Properties *)

(** C24: when the delta protocol is complete.  If, in the execution so far,
    every entry that reached a node was newer than the cursors (and than what
    pending pushes will move them to) that the node has for peers without
    that entry, then a cursor means what its documentation says: a peer whose
    cursor covers an entry of the node holds that entry, or a newer one. *)
Theorem fresh_cursor_covers acts c0 c a n pid p k v :
  initial c0 -> fresh_run acts c0 -> run acts c0 = Some c ->
  nodes c !! a = Some n -> dm_get (node_peers n) pid = Some p ->
  node_state n !! k = Some v -> (0 < timestamp v <= last_sync_ts p)%N ->
  exists d e, nodes c !! gossip_addr p = Some d /\ node_state d !! k = Some e /\ lww_le v e.
Proof.
  intros Hi Hfr Hr Hn Hp Hk Hts.
  assert (sync_inv c) as [Hc _].
  { eapply sync_inv_run; [by apply struct_inv_initial|by apply sync_inv_initial|done|done]. }
  destruct (Hc _ _ _ _ _ _ Hn Hp Hk Hts) as (d & Hd & e & He & L). by exists d, e.
Qed.

(** Convergence of a pair.  Under the same condition, two nodes that
    know each other, and whose cursors for each other cover all they hold,
    hold the same map. *)
Theorem fresh_covered_pair_equal acts c0 c a b n m pida pidb pa pb :
  initial c0 -> fresh_run acts c0 -> run acts c0 = Some c ->
  nodes c !! a = Some n -> nodes c !! b = Some m ->
  dm_get (node_peers n) pidb = Some pb -> gossip_addr pb = b ->
  dm_get (node_peers m) pida = Some pa -> gossip_addr pa = a ->
  (forall k v, node_state n !! k = Some v -> (0 < timestamp v <= last_sync_ts pb)%N) ->
  (forall k v, node_state m !! k = Some v -> (0 < timestamp v <= last_sync_ts pa)%N) ->
  node_state n = node_state m.
Proof.
  intros Hi Hfr Hr Hn Hm Hpb Eb Hpa Ea Hcn Hcm.
  pose proof (hist_inv_run _ _ _ Hi Hr) as Hh.
  assert (sync_inv c) as [Hc _].
  { eapply sync_inv_run; [by apply struct_inv_initial|by apply sync_inv_initial|done|done]. }
  apply (mle_antisymm _ _ _ (hi_coherent _ _ _ Hh)); [eauto using hi_store..| |].
  - intros k v Hk. destruct (Hc _ _ _ _ _ _ Hn Hpb Hk (Hcn _ _ Hk)) as (d & Hd & Hdom).
    by assert (d = m) as -> by congruence.
  - intros k v Hk. destruct (Hc _ _ _ _ _ _ Hm Hpa Hk (Hcm _ _ Hk)) as (d & Hd & Hdom).
    by assert (d = n) as -> by congruence.
Qed.

(** C25: the optimisation is sound.  Under the same condition, the merge of the
    delta that the cursor selects leaves the peer with the same map as the
    merge of the whole store would, in any traversal orders, provided no
    timestamp is 0. *)
Theorem delta_push_equals_full_push acts c0 c a n pid p d it it' :
  initial c0 -> fresh_run acts c0 -> run acts c0 = Some c ->
  nodes c !! a = Some n -> dm_get (node_peers n) pid = Some p ->
  nodes c !! gossip_addr p = Some d ->
  (forall k v, node_state n !! k = Some v -> (0 < timestamp v)%N) ->
  state (merge_delta (node_store d) (delta_since it (node_store n) (last_sync_ts p))).1
  = state (merge_delta (node_store d) (snapshot it' (node_store n))).1.
Proof.
  intros Hi Hfr Hr Hn Hp Hd Hpos.
  assert (sync_inv c) as [Hc _].
  { eapply sync_inv_run; [by apply struct_inv_initial|by apply sync_inv_initial|done|done]. }
  rewrite !merge_delta_state. apply absorb_all_skip.
  - apply (hash_run_NoDup_fst it').
  - apply delta_since_map_NoDup.
  - intros [k v] [Hk _]%elem_of_delta_since_map. by apply elem_of_hash_run.
  - intros [k v] Hk%elem_of_hash_run. destruct (decide (last_sync_ts p < timestamp v)%N) as [Hlt|Hle].
    + left. by apply elem_of_delta_since_map.
    + right. destruct (Hc _ _ _ _ _ _ Hn Hp Hk) as (d' & Hd' & Hdom).
      { split; [by eapply Hpos|lia]. }
      by assert (d' = d) as -> by congruence.
Qed.

(** Progress.  From any state in which a node's scheduler is idle, for
    any peer of its table at whose address a node is running, the steps of
    one round and one delivery bring that node everything the cursor does
    not exclude; no write is needed. *)
Theorem push_reaches_peer c a n pid p d :
  nodes c !! a = Some n -> node_round n = None ->
  dm_get (node_peers n) pid = Some p -> (0 < gossip_fanout (mgr_config (node_mgr n)))%N ->
  nodes c !! gossip_addr p = Some d ->
  exists acts c', Forall no_set acts /\ run acts c = Some c'
    /\ forall k v, node_state n !! k = Some v -> (last_sync_ts p < timestamp v)%N ->
         exists d' e, nodes c' !! gossip_addr p = Some d' /\ node_state d' !! k = Some e /\ lww_le v e.
Proof.
  intros Hn Hr Hp Hf Hd. destruct (serve_first_target c a n pid p) as (c2 & Hrun & Hfl & _); try done.
  pose proof (fun k v => elem_of_delta_since_map canonical_iter (state (node_store n))
    (last_sync_ts p) k v) as Hdelta.
  destruct (round_target _ _ _ _ _) as [task|] eqn:Ht.
  2: { apply round_target_None in Ht as [_ Hnil]. unfold delta_since in Hnil. rewrite Hnil in Hdelta.
       eexists _, c2. split; [|split; [exact Hrun|]]; [by repeat constructor|].
       intros k v Hk Hlt. by destruct (not_elem_of_nil (k, v) (proj2 (Hdelta k v) (conj Hk Hlt))). }
  destruct (round_target_Some _ _ _ _ _ _ _ Ht) as (_ & Haddr & Hdel & _).
  destruct (cluster_le_node c c2 (gossip_addr p) d) as (d2 & Hd2 & _); [by eapply run_le|done|].
  set (f := mk_flight a task Sending true) in *.
  destruct (deliver_flight c2 (length (flights c)) f d2) as (c3 & Hrun3 & Hdom).
  { rewrite Hfl. by apply list_lookup_middle. }
  { done. }
  { unfold fl_dst. simpl. by rewrite Haddr. }
  eexists (_ ++ [AMerge _]), c3. split; [|split; [rewrite run_app, Hrun; exact Hrun3|]].
  { by repeat constructor. }
  intros k v Hk Hlt. destruct (Hdom (k, v)) as (d3 & Hd3 & e & He & L); [|].
  { unfold fl_deltas, f. simpl. rewrite Hdel. by apply Hdelta. }
  unfold fl_dst in Hd3. simpl in Hd3. rewrite Haddr in Hd3. by exists d3, e.
Qed.
End sync.
