(* ===== verification/Topology.v ===== *)
(** Who talks to whom.  Nodes learn the addresses of others from their seeds
    and from the messages they receive, so a cluster keeps the shape its
    seeds give it: if the addresses each node knows at the start are related
    to its own by a symmetric relation, so are those it ever pushes to. *)
From S2P Require Import Prelude Crdt Replica Broadcast Store Config DashMap Peer Protocol.
From S2P Require Import Manager Cluster ClusterLemmas ClusterSafety ClusterSync.

Section topology.
Context `{BroadcastLib StateEvent, DashMapLib PeerInfo, !DashMapLaws PeerInfo}.
Implicit Types (c : Cluster) (n : Node) (f : flight).

(** ** Constant parts of a node *)

Lemma exec_config act c c' x n' :
  exec act c = Some c' -> nodes c' !! x = Some n' ->
  exists n, nodes c !! x = Some n /\ mgr_config (node_mgr n') = mgr_config (node_mgr n).
Proof.
  intros E%exec_effect Hn'.
  assert (forall y m m', nodes c !! y = Some m -> mgr_config (node_mgr m') = mgr_config (node_mgr m) ->
    <[y := m']> (nodes c) !! x = Some n' ->
    exists n, nodes c !! x = Some n /\ mgr_config (node_mgr n') = mgr_config (node_mgr n)) as Hsame.
  { intros y m m' Hm Hc Hx. destruct (decide (y = x)) as [->|Hne].
    - rewrite lookup_insert_eq in Hx. simplify_eq. eauto.
    - rewrite lookup_insert_ne in Hx by done. eauto. }
  destruct act; cbn [effect] in E; split_hyps; subst c'; simpl in Hn'; eauto;
    (eapply Hsame; [eassumption| |exact Hn']; done).
Qed.

Lemma run_node acts c c' x n :
  run acts c = Some c' -> nodes c !! x = Some n ->
  exists n', nodes c' !! x = Some n' /\ node_le n n' /\ mgr_config (node_mgr n') = mgr_config (node_mgr n).
Proof.
  revert c n. induction acts as [|act acts IH]; intros c n; cbn [run].
  - intros [= ->] Hn. exists n. split; [done|]. split; [reflexivity|done].
  - unfold mbind, option_bind. destruct (exec act c) as [c1|] eqn:E; [|done]. intros Hr Hn.
    destruct (cluster_le_node _ _ _ _ (exec_le _ _ _ E) Hn) as (n1 & Hn1 & Hle).
    destruct (exec_config _ _ _ _ _ E Hn1) as (n0 & Hn0 & Hc). assert (n0 = n) as -> by congruence.
    destruct (IH _ _ Hr Hn1) as (n' & Hn' & Hle' & Hc'). exists n'. split; [done|].
    split; [by transitivity n1|congruence].
Qed.

(** ** What a cluster knows of its peers *)

Lemma table_inv_exec act c c' : table_inv c -> exec act c = Some c' -> table_inv c'.
Proof.
  intros Hs E. pose proof (exec_le _ _ _ E) as Hle. split.
  - intros a n' gen ts pid info Hn' Hr Hin. eapply known_le; [done|].
    destruct (exec_round_side _ _ _ E _ _ Hn' _ _ _ _ Hr Hin) as [(n & g0 & t0 & Hn & Hr0 & Hin0)|?];
      [by eapply ti_round|by apply in_table_known].
  - intros i f' Hf' Hw. eapply known_le; [done|].
    destruct (exec_flights _ _ _ _ _ E Hf') as [Hf|[(f & Hf & Hsrc & Htask & Hwt & _)|Hnew]].
    + by eapply ti_waiting.
    + unfold fl_dst. rewrite Hsrc, Htask. eapply ti_waiting; [done|done|auto].
    + destruct Hnew as (a & it & n & gen & [pid info] & ts & task & _ & Hn & Hr & Ht & ->).
      destruct (round_target_Some _ _ _ _ _ _ _ Ht) as (Hp & Ha & _).
      unfold fl_dst. cbn [fl_src fl_task]. rewrite Hp, Ha.
      destruct (ti_round _ Hs _ _ _ _ pid info Hn Hr) as (m & p & ? & ? & ? & _); [left|].
      exists m, p. split_and!; try done. lia.
Qed.

(** ** Where messages come from *)

(** The sender of a message holds what the message carries, or something
    newer. *)
Definition sourced c : Prop :=
  forall i f kv, flights c !! i = Some f -> kv ∈ fl_deltas f -> dom_at c (fl_src f) kv.

Lemma sourced_exec act c c' : sourced c -> exec act c = Some c' -> sourced c'.
Proof.
  intros Hs E i f' kv Hf' Hkv. eapply dom_at_le; [by eapply exec_le|].
  destruct (exec_flights _ _ _ _ _ E Hf') as [Hf|[(f & Hf & -> & Htask & _)|Hnew]].
  - by eapply Hs.
  - eapply Hs; [done|]. unfold fl_deltas in *. by rewrite <-Htask.
  - destruct Hnew as (a & it & n & gen & [pid info] & ts & task & _ & Hn & _ & Ht & ->).
    destruct (round_target_Some _ _ _ _ _ _ _ Ht) as (_ & _ & Hd & _).
    unfold fl_deltas in Hkv. cbn [fl_task] in Hkv. rewrite Hd in Hkv.
    destruct kv as [k v]. apply elem_of_delta_since_map in Hkv as [Hk _].
    exists n. split; [done|]. exists v. split; [done|reflexivity].
Qed.

(** ** The shape of a cluster *)

Context (E : string -> string -> Prop) (E_sym : forall x y, E x y -> E y x).

Record linked c : Prop := {
  (** a node is at the address it announces *)
  ln_addr x n : nodes c !! x = Some n -> gossip_addr_of (mgr_config (node_mgr n)) = x;
  ln_table x pid p : in_table c x pid p -> E x (gossip_addr p);
  ln_round x n gen ts pid info :
    nodes c !! x = Some n -> node_round n = Some (gen, ts) -> (pid, info) ∈ ts -> E x (gossip_addr info);
  ln_flight i f : flights c !! i = Some f ->
    E (fl_src f) (fl_dst f) /\ from_gossip_addr (task_msg (fl_task f)) = fl_src f
    /\ exists n, nodes c !! fl_src f = Some n /\ from_node_id (task_msg (fl_task f)) = node_id_of n;
}.

Lemma linked_initial c :
  initial c -> (forall x n, nodes c !! x = Some n -> gossip_addr_of (mgr_config (node_mgr n)) = x) ->
  (forall x pid p, in_table c x pid p -> E x (gossip_addr p)) -> linked c.
Proof.
  intros Hi Ha Ht. split; [done|done| |].
  - intros x n gen ts pid info Hn. by rewrite (init_round _ Hi _ _ Hn).
  - intros i f. by rewrite (init_flights _ Hi).
Qed.

Lemma linked_exec act c c' :
  table_inv c -> linked c -> exec act c = Some c' -> linked c'.
Proof.
  intros Hs [Ha Ht Hr Hf] Hx. pose proof (exec_le _ _ _ Hx) as Hle. split.
  - intros x n' Hn'. destruct (exec_config _ _ _ _ _ Hx Hn') as (n & Hn & ->). by apply Ha.
  - intros x pid p' (n' & Hn' & Hp').
    destruct (exec_peers _ _ _ _ _ _ _ Hs Hx Hn' Hp') as [(_ & Hnew)|(n & p & Hn & Hp & -> & _)].
    + destruct Hnew as (i & now & f & n & _ & Hi & <- & _ & _ & _ & ->).
      destruct (Hf _ _ Hi) as (HE & -> & _). by apply E_sym.
    + apply (Ht x pid). by exists n.
  - intros x n' gen ts pid info Hn' Hrd Hin.
    destruct (exec_round_side _ _ _ Hx _ _ Hn' _ _ _ _ Hrd Hin) as [(n & g0 & t0 & ? & ? & ?)|Htab].
    + by eapply Hr.
    + by apply (Ht x pid).
  - assert (forall f, (exists n, nodes c !! fl_src f = Some n
      /\ from_node_id (task_msg (fl_task f)) = node_id_of n) ->
      exists n, nodes c' !! fl_src f = Some n /\ from_node_id (task_msg (fl_task f)) = node_id_of n)
      as Hid.
    { intros f (n & Hn & ->). destruct (cluster_le_node _ _ _ _ Hle Hn) as (n' & Hn' & _ & _ & Hid).
      by exists n'. }
    intros i f' Hf'. destruct (exec_flights _ _ _ _ _ Hx Hf') as [Hi|[(f & Hi & Hsrc & Htask & _)|Hnew]].
    + destruct (Hf _ _ Hi) as (? & ? & ?). auto.
    + destruct (Hf _ _ Hi) as (HE & Hg & Hn). unfold fl_dst in *. rewrite Hsrc, Htask. auto.
    + destruct Hnew as (a & it & n & gen & [pid info] & ts & task & _ & Hn & Hrd & Htgt & ->).
      destruct (round_target_Some _ _ _ _ _ _ _ Htgt) as (_ & Hdst & _ & Hfrom & Hg & _).
      unfold fl_dst. cbn [fl_src fl_task]. rewrite Hdst, Hg. split; [|split; [by apply Ha|]].
      * eapply Hr; [done|done|left].
      * apply (Hid (mk_flight a task Sending true)). by exists n.
Qed.

Lemma linked_run acts c c' :
  table_inv c -> linked c -> run acts c = Some c' -> linked c'.
Proof.
  revert c. induction acts as [|act acts IH]; intros c Hs Hl; cbn [run]; [by intros [= <-]|].
  unfold mbind, option_bind. destruct (exec act c) as [c1|] eqn:Hx; [|done].
  apply IH; [by eapply table_inv_exec|by eapply linked_exec].
Qed.
End topology.
