(* ===== verification/Convergence.v ===== *)
(** When gossip converges.  Once the writes have stopped and the nodes that
    wrote have each served the others, in any order and among any other
    activity, all nodes hold the same map and keep it, provided the
    execution is fresh (ClusterSync.v).  OneClock.v says when it is. *)
From S2P Require Import Prelude Crdt Replica Broadcast Store Config DashMap Peer Protocol.
From S2P Require Import Manager Cluster ClusterLemmas ClusterSafety ClusterSync.

Section convergence.
Context `{BroadcastLib StateEvent, DashMapLib PeerInfo}.
Implicit Types (c : Cluster) (n : Node) (f : flight).

(** ** Serving a peer *)

(** During [acts], from [c] to [c'], the scheduler of [a] comes to a target at
    address [b], and the push it makes, if any, has been merged by then. *)
Definition served (acts : list action) c c' (a b : string) : Prop :=
  exists acts1 it acts2 c1 n gen pid info ts,
    acts = acts1 ++ ARoundTarget a it :: acts2 /\ run acts1 c = Some c1
    /\ nodes c1 !! a = Some n /\ node_round n = Some (gen, (pid, info) :: ts) /\ gossip_addr info = b
    /\ match round_target it (node_store n) (mgr_config (node_mgr n)) gen (pid, info) with
       | Some _ => exists f, flights c' !! length (flights c1) = Some f /\ delivered (fl_phase f)
       | None => True
       end.

(** All nodes of [c] hold what represents the history [h]. *)
Definition converged (h : StateDelta) c : Prop :=
  forall x n, nodes c !! x = Some n -> repr h (node_state n).

Lemma exec_keeps_flight act c c' i f :
  exec act c = Some c' -> flights c !! i = Some f ->
  exists f', flights c' !! i = Some f' /\ fl_src f' = fl_src f /\ fl_task f' = fl_task f.
Proof.
  intros E%exec_effect Hf.
  destruct act; cbn [effect] in E; destruct E as (x & E); split_hyps; subst c';
    unfold put_flight; simpl; try (by exists f).
  { exists f. split; [|done]. by apply lookup_app_l_Some. }
  all: destruct (decide (i0 = i)) as [->|Hne];
    [|rewrite list_lookup_insert_ne by done; by exists f].
  all: rewrite list_lookup_insert_eq by (by eapply lookup_lt_Some).
  all: assert (x = f) as -> by congruence; by eexists.
Qed.

Lemma run_keeps_flight acts c c' i f :
  run acts c = Some c' -> flights c !! i = Some f ->
  exists f', flights c' !! i = Some f' /\ fl_src f' = fl_src f /\ fl_task f' = fl_task f.
Proof.
  revert c f. induction acts as [|act acts IH]; intros c f; cbn [run].
  - intros [= ->] Hf. by exists f.
  - unfold mbind, option_bind. destruct (exec act c) as [c1|] eqn:E; [|done]. intros Hr Hf.
    destruct (exec_keeps_flight _ _ _ _ _ E Hf) as (f1 & Hf1 & Hs1 & Ht1).
    destruct (IH _ _ Hr Hf1) as (f' & Hf' & Hs' & Ht'). exists f'. split; [done|]. split; congruence.
Qed.

Lemma exec_keeps_delivered act c c' i f f' :
  exec act c = Some c' -> flights c !! i = Some f -> flights c' !! i = Some f' ->
  delivered (fl_phase f) -> delivered (fl_phase f').
Proof.
  intros E%exec_effect Hf Hf' Hd.
  destruct act; cbn [effect] in E; destruct E as (x & E); split_hyps; subst c';
    unfold put_flight in Hf'; simpl in Hf'; try congruence.
  { rewrite (lookup_app_l_Some _ _ _ _ Hf) in Hf'. congruence. }
  all: destruct (decide (i0 = i)) as [->|Hne];
    [|rewrite list_lookup_insert_ne in Hf' by done; congruence].
  all: apply list_lookup_insert_Some in Hf' as [(_ & <- & _)|[? _]]; [|done].
  all: assert (x = f) as -> by congruence; try done; by rewrite H2 in Hd.
Qed.

Lemma run_keeps_delivered acts c c' i f :
  run acts c = Some c' -> flights c !! i = Some f -> delivered (fl_phase f) ->
  exists f', flights c' !! i = Some f' /\ delivered (fl_phase f').
Proof.
  revert c f. induction acts as [|act acts IH]; intros c f; cbn [run].
  - intros [= ->] Hf Hd. by exists f.
  - unfold mbind, option_bind. destruct (exec act c) as [c1|] eqn:E; [|done]. intros Hr Hf Hd.
    destruct (exec_keeps_flight _ _ _ _ _ E Hf) as (f1 & Hf1 & _).
    eapply IH; [done|done|]. by eapply (exec_keeps_delivered act c).
Qed.

Lemma served_before acts1 acts2 c c1 c2 a b :
  run acts1 c = Some c1 -> served acts2 c1 c2 a b -> served (acts1 ++ acts2) c c2 a b.
Proof.
  intros Hr (pre & it & post & c' & n & gen & pid & info & ts & -> & Hr' & Hrest).
  exists (acts1 ++ pre), it, post, c', n, gen, pid, info, ts. split; [by rewrite app_assoc|].
  split; [by rewrite run_app, Hr|done].
Qed.

Lemma served_after acts1 acts2 c c1 c2 a b :
  run acts2 c1 = Some c2 -> served acts1 c c1 a b -> served (acts1 ++ acts2) c c2 a b.
Proof.
  intros Hr (pre & it & post & c' & n & gen & pid & info & ts & -> & Hr' & Hn & Hrd & Ha & Hpush).
  exists pre, it, (post ++ acts2), c', n, gen, pid, info, ts. split; [by rewrite <-app_assoc|].
  do 4 (split; [done|]). destruct (round_target _ _ _ _ _); [|done].
  destruct Hpush as (f & Hf & Hd). by eapply run_keeps_delivered.
Qed.

Lemma fresh_run_app acts1 acts2 c c1 :
  run acts1 c = Some c1 -> fresh_run (acts1 ++ acts2) c <-> fresh_run acts1 c /\ fresh_run acts2 c1.
Proof.
  revert c. induction acts1 as [|act acts1 IH]; intros c; cbn [run fresh_run app].
  - intros [= ->]. tauto.
  - unfold mbind, option_bind. destruct (exec act c) as [c2|]; [|done]. intros Hr%IH. tauto.
Qed.

Lemma history_no_set acts c : Forall no_set acts -> history acts c = [].
Proof.
  revert c. induction acts as [|act acts IH]; intros c; [done|]. intros [Hn Hns]%Forall_cons.
  cbn [history]. assert (written act c = []) as -> by by destruct act.
  destruct (exec act c); [by apply IH|done].
Qed.

Lemma history_app acts1 acts2 c c1 :
  run acts1 c = Some c1 -> history (acts1 ++ acts2) c = history acts1 c ++ history acts2 c1.
Proof.
  revert c. induction acts1 as [|act acts1 IH]; intros c; cbn [run history app].
  - by intros [= ->].
  - unfold mbind, option_bind. destruct (exec act c) as [c2|]; [|done]. intros Hr%IH.
    by rewrite Hr, app_assoc.
Qed.

Context `{!DashMapLaws PeerInfo}.

(** What is known of a fresh execution that has come to [c] with history [h]. *)
Record sound (h : StateDelta) c : Prop := {
  so_struct : struct_inv c;
  so_sync : sync_inv c;
  so_hist : hist_inv h c;
  so_pos kv : kv ∈ h -> (0 < timestamp kv.2)%N;
}.

Lemma sound_no_set h acts c c' :
  sound h c -> fresh_run acts c -> Forall no_set acts -> run acts c = Some c' -> sound h c'.
Proof.
  intros [Hs Hsy Hh Hp] Hfr Hns Hr. split; [by eapply struct_inv_steps|by eapply sync_inv_run| |done].
  rewrite <-(app_nil_r h), <-(history_no_set acts c) by done. by eapply past_inv_steps.
Qed.

Lemma sound_run acts c0 c :
  initial c0 -> fresh_run acts c0 -> run acts c0 = Some c ->
  (forall kv, kv ∈ history acts c0 -> (0 < timestamp kv.2)%N) -> sound (history acts c0) c.
Proof.
  intros Hi Hfr Hr Hpos. split; [by eapply struct_inv_run| |by eapply hist_inv_run|done].
  eapply sync_inv_run; [by apply struct_inv_initial|by apply sync_inv_initial|done|done].
Qed.

(** What a node held before it served a peer, the peer has afterwards. *)
Lemma served_dominates h acts c c' a b n kv :
  sound h c -> fresh_run acts c -> Forall no_set acts -> run acts c = Some c' ->
  served acts c c' a b ->
  nodes c !! a = Some n -> dominates (node_state n) kv -> dom_at c' b kv.
Proof.
  intros Hso Hfr Hns Hr (acts1 & it & acts2 & c1 & n1 & gen & pid & info & ts & -> & Hr1 & Hn1 & Hrd & <- & Hpush)
    Hn Hkv.
  destruct (cluster_le_node _ _ _ _ (run_le _ _ _ Hr1) Hn) as (n1' & Hn1' & Hm & _).
  assert (n1' = n1) as -> by congruence. destruct (dominates_mle _ _ _ Hm Hkv) as (v & Hv & L).
  assert (dom_at c' (gossip_addr info) (kv.1, v) -> dom_at c' (gossip_addr info) kv) as Hup.
  { intros (d & Hd & w & Hw & L'). exists d. split; [done|]. exists w. split; [done|].
    by transitivity v. }
  apply Hup. clear Hup. pose proof Hr as Hr0. rewrite (run_app acts1), Hr1 in Hr. cbn [mbind option_bind] in Hr.
  apply (fresh_run_app _ _ _ _ Hr1) in Hfr as [Hfr1 Hfr2].
  pose proof Hns as [Hns1 _]%Forall_app.
  pose proof (sound_no_set _ _ _ _ Hso Hfr1 Hns1 Hr1) as [Hs1 Hsy1 Hh1 Hp1].
  assert (0 < timestamp v)%N as Hp by by apply (Hp1 (kv.1, v)), (hi_store _ _ _ Hh1 _ _ _ _ Hn1).
  destruct (N.lt_ge_cases (last_sync_ts info) (timestamp v)) as [Hlt|Hge].
  - pose proof (proj2 (elem_of_delta_since_map it (state (node_store n1)) (last_sync_ts info) kv.1 v)
      (conj Hv Hlt)) as Hin.
    destruct (round_target _ _ _ _ _) as [task|] eqn:Ht.
    2: { apply round_target_None in Ht as [_ Hnil]. unfold delta_since in Hnil.
         rewrite Hnil in Hin. by apply not_elem_of_nil in Hin. }
    destruct Hpush as (f & Hf & Hd). cbn [run exec] in Hr. unfold mbind, option_bind in Hr.
    rewrite Hn1, Hrd, Ht in Hr.
    destruct (run_keeps_flight _ _ _ (length (flights c1)) (mk_flight a task Sending true) Hr)
      as (f' & Hf' & _ & Htask); [by apply list_lookup_middle|].
    assert (f' = f) as -> by congruence. cbn [fl_task] in Htask.
    destruct (round_target_Some _ _ _ _ _ _ _ Ht) as (_ & Ha & Hdl & _).
    pose proof (struct_inv_steps _ _ _ (so_struct _ _ Hso) Hr0) as Hs'.
    pose proof (fo_delivered _ _ (si_flight _ Hs' _ _ Hf) (kv.1, v) Hd) as Hdom.
    unfold fl_dst, fl_deltas in Hdom. rewrite Htask, Ha, Hdl in Hdom. by apply Hdom.
  - apply (dom_at_le c1); [by eapply run_le|].
    destruct (si_round _ Hs1 _ _ _ _ pid info Hn1 Hrd) as (m & p & Hm' & Hpm & Hap & Hlp); [left|].
    assert (m = n1) as -> by congruence. rewrite <-Hap.
    apply (sy_cursor _ Hsy1 a n1 pid p); try done. split; [done|]. lia.
Qed.

(** Once every author has served every other node, all nodes have everything. *)
Lemma all_served_converged h acts c c' :
  sound h c -> fresh_run acts c -> Forall no_set acts -> run acts c = Some c' ->
  (forall a b n m, nodes c !! a = Some n -> nodes c !! b = Some m -> a <> b ->
     (exists kv, kv ∈ h /\ node_id kv.2 = node_id_of n) -> served acts c c' a b) ->
  converged h c'.
Proof.
  intros Hso Hfr Hns Hr Hserved x n' Hn'.
  pose proof (so_hist _ _ (sound_no_set _ _ _ _ Hso Hfr Hns Hr)) as Hh'.
  apply repr_intro; [intros k v; by apply (hi_store _ _ _ Hh' x)|]. intros kv Hkv.
  destruct (hi_author _ _ _ (so_hist _ _ Hso) Hkv) as (a & n & Hn & Hid & Hd).
  enough (dom_at c' x kv) as (n'' & Hn'' & Hd').
  { by assert (n'' = n') as -> by congruence. }
  destruct (decide (a = x)) as [->|Hne].
  - eapply dom_at_le; [by eapply run_le|]. by exists n.
  - destruct (cluster_le_node_inv _ _ _ _ (run_le _ _ _ Hr) Hn') as (m & Hm & _).
    apply (served_dominates h acts c c' a x n kv); try done.
    apply (Hserved a x n m); try done. by exists kv.
Qed.

(** A converged cluster stays as it is. *)
Lemma converged_stays h acts c c' :
  hist_inv h c -> converged h c -> Forall no_set acts -> run acts c = Some c' -> converged h c'.
Proof.
  intros Hh Hc Hns Hr x n' Hn'.
  pose proof (past_inv_steps _ _ _ _ _ Hh Hr) as Hh'. rewrite history_no_set, app_nil_r in Hh' by done.
  destruct (cluster_le_node_inv _ _ _ _ (run_le _ _ _ Hr) Hn') as (n & Hn & Hle & _).
  apply repr_intro; [intros k v; by apply (hi_store _ _ _ Hh' x)|]. intros kv Hkv.
  eapply dominates_mle; [exact Hle|]. eapply repr_dominates; [by apply (Hc x)|done].
Qed.

(** Once every author has served every other node, all nodes have everything,
    and keep it. *)
Lemma sound_converges h acts acts' c c1 c2 :
  sound h c -> fresh_run acts c -> Forall no_set acts -> run acts c = Some c1 ->
  (forall a b n m, nodes c !! a = Some n -> nodes c !! b = Some m -> a <> b ->
     (exists kv, kv ∈ h /\ node_id kv.2 = node_id_of n) -> served acts c c1 a b) ->
  Forall no_set acts' -> run acts' c1 = Some c2 ->
  converged h c2
  /\ forall x y n m, nodes c2 !! x = Some n -> nodes c2 !! y = Some m -> node_state n = node_state m.
Proof.
  intros Hso Hfr Hns Hr Hserved Hns' Hr'.
  pose proof (sound_no_set _ _ _ _ Hso Hfr Hns Hr) as Hso1.
  assert (converged h c2) as Hc.
  { eapply converged_stays; [apply Hso1| |done|done]. by apply (all_served_converged _ acts c c1). }
  split; [done|]. intros x y n m Hn Hm.
  eapply repr_unique; [apply (hi_coherent _ _ _ (so_hist _ _ Hso))| |by apply (Hc x)|by apply (Hc y)].
  done.
Qed.

(** ** Serving is always possible *)

(** A round in progress can end at once. *)
Lemma can_finish_round c a n :
  nodes c !! a = Some n ->
  exists acts c' n', Forall no_set acts /\ run acts c = Some c' /\ nodes c' !! a = Some n'
    /\ node_round n' = None /\ node_mgr n' = node_mgr n.
Proof.
  intros Hn. destruct (node_round n) as [[gen ts]|] eqn:Hr; [|by exists [], c, n].
  revert c n Hn Hr. induction ts as [|t ts IH]; intros c n Hn Hr.
  - exists [ARoundEnd a]. eexists _, (mk_node (node_mgr n) None). split; [by repeat constructor|].
    cbn [run exec]. unfold mbind, option_bind. rewrite Hn, Hr.
    split; [done|]. split; [apply lookup_insert_eq|done].
  - set (n1 := mk_node (node_mgr n) (Some (gen, ts))).
    assert (exists c1, exec (ARoundTarget a canonical_iter) c = Some c1 /\ nodes c1 !! a = Some n1)
      as (c1 & E & Hn1).
    { eexists. cbn [exec]. unfold mbind, option_bind. rewrite Hn, Hr. split; [done|].
      apply lookup_insert_eq. }
    destruct (IH c1 n1 Hn1 eq_refl) as (acts & c' & n' & Hns & Hr' & Hrest).
    exists (ARoundTarget a canonical_iter :: acts), c', n'. split; [by constructor|].
    split; [|done]. cbn [run]. by rewrite E.
Qed.

(** A target whose turn has come can be served at once. *)
Lemma can_serve_target c a n gen pid info ts d :
  nodes c !! a = Some n -> node_round n = Some (gen, (pid, info) :: ts) ->
  nodes c !! gossip_addr info = Some d ->
  exists acts c', Forall no_set acts /\ run acts c = Some c' /\ served acts c c' a (gossip_addr info).
Proof.
  intros Hn Hr Hd. set (push := ARoundTarget a canonical_iter).
  assert (forall acts c', Forall no_set acts -> run (push :: acts) c = Some c' ->
    match round_target canonical_iter (node_store n) (mgr_config (node_mgr n)) gen (pid, info) with
    | Some _ => exists f, flights c' !! length (flights c) = Some f /\ delivered (fl_phase f)
    | None => True end ->
    exists acts c', Forall no_set acts /\ run acts c = Some c' /\ served acts c c' a (gossip_addr info))
    as Hdone.
  { intros acts c' Hns Hr' Hpush. exists (push :: acts), c'. split; [by constructor|]. split; [done|].
    by exists [], canonical_iter, acts, c, n, gen, pid, info, ts. }
  destruct (round_target _ _ _ _ _) as [task|] eqn:Ht.
  2: { eapply (Hdone []); [done| |done]. cbn [run exec push]. unfold mbind, option_bind.
       by rewrite Hn, Hr, Ht. }
  destruct (round_target_Some _ _ _ _ _ _ _ Ht) as (_ & Ha & _).
  set (f := mk_flight a task Sending true).
  set (c2 := mk_cluster (<[a := mk_node (node_mgr n) (Some (gen, ts))]> (nodes c)) (flights c ++ [f])).
  assert (exec push c = Some c2) as E.
  { cbn [exec push]. unfold mbind, option_bind. by rewrite Hn, Hr, Ht. }
  destruct (cluster_le_node c c2 (gossip_addr info) d) as (d2 & Hd2 & _); [by eapply exec_le|done|].
  assert (flights c2 !! length (flights c) = Some f) as Hf2 by by apply list_lookup_middle.
  assert (nodes c2 !! fl_dst f = Some d2) as Hd2' by (unfold fl_dst; cbn; by rewrite Ha).
  destruct (merge_delta (node_store d2) (fl_deltas f)) as [s u] eqn:Hmd.
  assert (exists c3, exec (AMerge (length (flights c))) c2 = Some c3
    /\ flights c3 = <[length (flights c) := set_phase f (Merged (ack_of s u)) true]> (flights c2))
    as (c3 & E3 & Hf3).
  { eexists. cbn [exec]. unfold mbind, option_bind. by rewrite Hf2, Hd2', Hmd. }
  apply (Hdone [AMerge (length (flights c))] c3); [by repeat constructor| |].
  - cbn [run]. rewrite E. unfold mbind, option_bind. by rewrite E3.
  - eexists. rewrite Hf3. split; [apply list_lookup_insert_eq; by eapply lookup_lt_Some|done].
Qed.

Lemma can_serve c a n pid p d :
  nodes c !! a = Some n -> dm_get (node_peers n) pid = Some p ->
  (0 < gossip_fanout (mgr_config (node_mgr n)))%N -> nodes c !! gossip_addr p = Some d ->
  exists acts c', Forall no_set acts /\ run acts c = Some c' /\ served acts c c' a (gossip_addr p).
Proof.
  intros Hn Hp Hf Hd.
  destruct (can_finish_round c a n Hn) as (acts0 & c0 & n0 & Hns0 & Hr0 & Hn0 & Hidle & Hm).
  assert (dm_get (node_peers n0) pid = Some p) as Hp0 by (unfold node_peers; by rewrite Hm).
  rewrite <-Hm in Hf. destruct (select_front _ _ _ _ Hp0 Hf) as [ts Hsel].
  set (start := ARoundStart a (front_shuffler (pid, p))).
  set (n1 := mk_node (fetch_add_generation (node_mgr n0)).2
                     (Some (mgr_generation (node_mgr n0), (pid, p) :: ts))).
  assert (run (acts0 ++ [start]) c = Some (put_node c0 a n1)) as Hr1.
  { rewrite run_app, Hr0. cbn [mbind option_bind run exec start]. unfold mbind, option_bind.
    by rewrite Hn0, Hidle, Hsel. }
  destruct (cluster_le_node _ _ _ _ (run_le _ _ _ Hr1) Hd) as (d1 & Hd1 & _).
  destruct (can_serve_target (put_node c0 a n1) a n1 (mgr_generation (node_mgr n0)) pid p ts d1) as (acts & c' & Hns & Hr' & Hsv);
    [apply lookup_insert_eq|done|done|].
  exists ((acts0 ++ [start]) ++ acts), c'.
  split; [repeat (apply Forall_app; split); by repeat constructor|].
  split; [by rewrite run_app, Hr1|]. by eapply served_before.
Qed.

(** ** Property *)

(** C5: Convergence.  Let the execution so far be fresh and without a
    timestamp of 0.  If no more is written, and the execution goes on (fresh)
    until every node that wrote has served every other node, then all nodes
    hold for every key the last write of the history; and they keep doing so
    whatever gossip follows. *)
Theorem gossip_converges acts0 acts acts' c0 c c1 c2 :
  initial c0 -> run acts0 c0 = Some c -> fresh_run (acts0 ++ acts) c0 ->
  (forall kv, kv ∈ history acts0 c0 -> (0 < timestamp kv.2)%N) ->
  Forall no_set acts -> run acts c = Some c1 ->
  (forall a b n m, nodes c !! a = Some n -> nodes c !! b = Some m -> a <> b ->
     (exists kv, kv ∈ history acts0 c0 /\ node_id kv.2 = node_id_of n) -> served acts c c1 a b) ->
  Forall no_set acts' -> run acts' c1 = Some c2 ->
  converged (history acts0 c0) c2
  /\ forall x y n m, nodes c2 !! x = Some n -> nodes c2 !! y = Some m -> node_state n = node_state m.
Proof.
  intros Hi Hr0 Hfr Hpos Hns Hr Hserved Hns' Hr'.
  apply (fresh_run_app _ _ _ _ Hr0) in Hfr as [Hfr0 Hfr].
  apply (sound_converges _ acts acts' c c1 c2); try done.
  by eapply sound_run.
Qed.
End convergence.
