(* ===== verification/OneClock.v ===== *)
(** Executions under one clock: the nodes stamp their writes with increasing
    readings, as they would if all clocks were exact.  Which clusters converge
    then?  Two nodes do, whoever writes; a star does if its hub alone writes.
    StarDivergence.v has a star with a second writer that does not. *)
From S2P Require Import Prelude Crdt Replica Broadcast Store Config DashMap Peer Protocol.
From S2P Require Import Manager Cluster ClusterLemmas ClusterSafety ClusterSync Topology Convergence.

(** The readings that the writes take increase, above [last]. *)
Fixpoint one_clock (last : N) (acts : list action) : Prop :=
  match acts with
  | [] => True
  | ASet _ clock _ _ :: acts' =>
      match now_micros clock with
      | Done t => (last < t)%N /\ one_clock t acts'
      | Panic _ => False
      end
  | _ :: acts' => one_clock last acts'
  end.

(** The reading a step leaves as the last. *)
Definition tick (last : N) (act : action) : N :=
  match act with
  | ASet _ clock _ _ => match now_micros clock with Done t => t | Panic _ => last end
  | _ => last
  end.

Lemma one_clock_cons last act acts :
  one_clock last (act :: acts) -> (last <= tick last act)%N /\ one_clock (tick last act) acts.
Proof.
  destruct act; simpl; try (by split; [lia|]).
  destruct (now_micros clock); [|done]. intros [? ?]. split; [lia|done].
Qed.

Lemma one_clock_no_set last acts : Forall no_set acts -> one_clock last acts.
Proof. induction 1 as [|act acts Hn _ IH]; [done|]. by destruct act. Qed.

Lemma one_clock_skip last acts acts' :
  Forall no_set acts -> one_clock last acts' -> one_clock last (acts ++ acts').
Proof. induction 1 as [|act acts Hn _ IH]; [done|]. by destruct act. Qed.

Lemma one_clock_app last acts acts' :
  one_clock last acts -> Forall no_set acts' -> one_clock last (acts ++ acts').
Proof.
  revert last. induction acts as [|act acts IH]; intros last; [intros _; apply one_clock_no_set|].
  intros Hc Hns. destruct act; simpl in *; auto.
  destruct (now_micros clock); [|done]. destruct Hc. auto.
Qed.

Section one_clock.
Context `{BroadcastLib StateEvent, DashMapLib PeerInfo, !DashMapLaws PeerInfo}.
Implicit Types (c : Cluster) (n : Node) (f : flight).

(** ** The invariant *)

Record clock_inv (last : N) (h : StateDelta) c : Prop := {
  ck_struct : struct_inv c;
  ck_cursor : cursor_inv c;
  ck_hist : hist_inv h c;
  ck_source : sourced c;
  ck_last kv : kv ∈ h -> (0 < timestamp kv.2 <= last)%N;
}.

Lemma clock_inv_initial c : initial c -> clock_inv 0 [] c.
Proof.
  intros Hi. split; [by apply struct_inv_initial| |by apply hist_inv_initial| |].
  - by apply (cursor_inv_run [] c c Hi eq_refl).
  - intros i f kv. by rewrite (init_flights _ Hi).
  - by intros kv ?%not_elem_of_nil.
Qed.

(** What a write leaves is as old as the value before, or has the reading. *)
Lemma set_timestamp clock s key val s' w :
  set clock s key val = Done (s', w) ->
  state s !! key = Some w \/ now_micros clock = Done (timestamp w).
Proof.
  intros (t & Ht & _ & -> & _)%set_Done. unfold join_value.
  destruct (state s !! key) as [e|]; [|by right].
  destruct (rmerge_choice e (mk_lww val t (store_node_id s))) as [-> | ->]; [by left|by right].
Qed.

Lemma clock_inv_exec last h c act acts c' :
  clock_inv last h c -> one_clock last (act :: acts) -> exec act c = Some c' ->
  clock_inv (tick last act) (h ++ written act c) c'.
Proof.
  intros [Hs Hc Hh Hsrc Hl] Hk E. split.
  - by eapply struct_inv_exec.
  - by eapply cursor_inv_exec.
  - by apply past_inv_exec.
  - by eapply sourced_exec.
  - apply one_clock_cons in Hk as Hk'. destruct Hk' as [Hle _].
    intros kv [Hkv|Hkv]%elem_of_app; [specialize (Hl _ Hkv); lia|].
    destruct act as [a clock key val| | | | | | | |]; try by apply not_elem_of_nil in Hkv.
    apply exec_effect in E as (n & s & w & Hn & Hset & _).
    cbn [written] in Hkv. rewrite Hn, Hset in Hkv. apply list_elem_of_singleton in Hkv as ->.
    destruct (set_timestamp _ _ _ _ _ _ Hset) as [Hold|Hnow].
    + specialize (Hl _ (hi_store _ _ _ Hh _ _ _ _ Hn Hold)). cbn [snd] in *. lia.
    + cbn [one_clock tick snd] in *. rewrite Hnow in *. lia.
Qed.

(** No cursor, and no cursor to be, is above the last reading. *)
Lemma backed_last last h c addr t : clock_inv last h c -> backed c addr t -> (t <= last)%N.
Proof.
  intros Hk [->|(d & k & v & Hd & Hv & Ht)]; [lia|].
  pose proof (ck_last _ _ _ Hk _ (hi_store _ _ _ (ck_hist _ _ _ Hk) _ _ _ _ Hd Hv)). simpl in *. lia.
Qed.

Lemma max_sent_last last h c i f :
  clock_inv last h c -> flights c !! i = Some f -> (task_max_sent_ts (fl_task f) <= last)%N.
Proof.
  intros Hk Hf. rewrite (fo_max _ _ (si_flight _ (ck_struct _ _ _ Hk) _ _ Hf)).
  apply max_or_0_lub. intros x (kv & -> & Hkv)%list_elem_of_fmap.
  by apply (ck_last _ _ _ Hk), (hi_flight _ _ _ (ck_hist _ _ _ Hk) _ _ _ Hf).
Qed.

(** ** Freshness *)

(** A write is fresh. *)
Lemma set_fresh last h c a clock key val acts c' :
  clock_inv last h c -> one_clock last (ASet a clock key val :: acts) ->
  fresh_step (ASet a clock key val) c c'.
Proof.
  intros Hk Hc n s w Hn Hset Hnew.
  destruct (set_timestamp _ _ _ _ _ _ Hset) as [|Hnow]; [done|].
  cbn [one_clock] in Hc. rewrite Hnow in Hc. destruct Hc as [Hlt _]. split; cbn [snd].
  - intros m pid p Hm Hp. left. pose proof (ck_cursor _ _ _ Hk _ _ _ _ Hm Hp) as Hb.
    apply (backed_last _ _ _ _ _ Hk) in Hb. lia.
  - intros i f Hf _ _. left. pose proof (max_sent_last _ _ _ _ _ Hk Hf). lia.
Qed.

(** A merge is fresh if the nodes the receiver knows have what it merges. *)
Lemma merge_fresh last h c i c' :
  clock_inv last h c ->
  (forall f n k v y pid p m, flights c !! i = Some f -> nodes c !! fl_dst f = Some n ->
     (k, v) ∈ fl_deltas f -> ~ dominates (node_state n) (k, v) ->
     dm_get (node_peers n) pid = Some p -> gossip_addr p = y -> nodes c !! y = Some m ->
     dom_at c' y (k, v)) ->
  fresh_step (AMerge i) c c'.
Proof.
  intros Hk Hall f n k v Hf Hn Hkv Hnd.
  pose proof (ck_last _ _ _ Hk _ (hi_flight _ _ _ (ck_hist _ _ _ Hk) _ _ _ Hf Hkv)) as [Hpos _].
  split; cbn [snd] in *.
  - intros n' pid p Hn' Hp. assert (n' = n) as -> by congruence.
    destruct (ck_cursor _ _ _ Hk _ _ _ _ Hn Hp) as [->|(d & _ & _ & Hd & _)]; [by left|right].
    by eapply (Hall f n k v).
  - intros j g Hg Hsrc _. destruct (nodes c !! fl_dst g) as [d|] eqn:Hd; [|by right; left].
    right; right. destruct (fo_known _ _ (si_flight _ (ck_struct _ _ _ Hk) _ _ Hg))
      as (n' & p & Hn' & Hp & Ha & _).
    rewrite Hsrc in Hn'. assert (n' = n) as -> by congruence.
    by eapply (Hall f n k v).
Qed.

(** An invariant under which every step is fresh makes every run fresh. *)
Lemma clock_run (I : Cluster -> StateDelta -> Prop) (P : action -> Prop) :
  (forall last h c act acts c', clock_inv last h c -> I c h -> P act ->
     one_clock last (act :: acts) -> exec act c = Some c' ->
     fresh_step act c c' /\ I c' (h ++ written act c)) ->
  forall acts last h c c', clock_inv last h c -> I c h -> Forall P acts -> one_clock last acts ->
    run acts c = Some c' ->
    fresh_run acts c /\ I c' (h ++ history acts c) /\ exists last', clock_inv last' (h ++ history acts c) c'.
Proof.
  intros Hstep acts. induction acts as [|act acts IH]; intros last h c c' Hk HI HP Hc Hr.
  - injection Hr as <-. cbn [history]. rewrite app_nil_r. by eauto.
  - apply Forall_cons in HP as [HP1 HP]. cbn [run fresh_run history] in *.
    unfold mbind, option_bind in Hr. destruct (exec act c) as [c1|] eqn:E; [|done].
    destruct (Hstep _ _ _ _ _ _ Hk HI HP1 Hc E) as [Hf HI'].
    pose proof (clock_inv_exec _ _ _ _ _ _ Hk Hc E) as Hk1. apply one_clock_cons in Hc as [_ Hc].
    destruct (IH _ _ _ _ Hk1 HI' HP Hc Hr) as (? & ? & ?). by rewrite app_assoc.
Qed.

Lemma merge_dom_at c i c' f kv :
  exec (AMerge i) c = Some c' -> flights c !! i = Some f -> kv ∈ fl_deltas f ->
  dom_at c' (fl_dst f) kv.
Proof.
  intros (f' & n & ack & Hf' & _ & Hn & ->)%exec_effect Hf. assert (f' = f) as -> by congruence.
  by apply merged_dom_at.
Qed.

(** What the history consists of after a write at [a]: what it consisted of,
    and the value that the key has at [a], which [a] wrote if it is new. *)
Lemma written_author h c act c' kv :
  hist_inv h c -> exec act c = Some c' -> kv ∈ h ++ written act c ->
  kv ∈ h \/ exists a clock key val n, act = ASet a clock key val /\ nodes c' !! a = Some n
    /\ node_id_of n = node_id kv.2 /\ dominates (node_state n) kv.
Proof.
  intros Hh E [?|Hkv]%elem_of_app; [by left|].
  destruct act as [a clock key val| | | | | | | |]; try by apply not_elem_of_nil in Hkv.
  apply exec_effect in E as (n & s & w & Hn & Hset & ->). cbn [written] in Hkv.
  rewrite Hn, Hset in Hkv. apply list_elem_of_singleton in Hkv as ->.
  destruct (set_untied _ _ _ _ _ _ _ _ _ _ Hh Hn Hset) as [(Hw & _ & _)|?]; [right|by left].
  exists a, clock, key, val, (with_store n s). split; [done|]. split; [apply lookup_insert_eq|].
  destruct (set_Done _ _ _ _ _ _ Hset) as (t & _ & Hs & Hjoin & Hid & _).
  split; [cbn [snd]; by rewrite Hw|]. exists w. split; [|reflexivity].
  unfold node_state, node_store, with_store. cbn [node_mgr mgr_store fst].
  by rewrite Hs, lookup_absorb, decide_True, Hjoin.
Qed.

(** ** Two nodes *)

Definition pair_of (a b : string) c : Prop := forall x n, nodes c !! x = Some n -> x = a \/ x = b.

Lemma pair_step a b last h c act acts c' :
  clock_inv last h c -> pair_of a b c -> one_clock last (act :: acts) -> exec act c = Some c' ->
  fresh_step act c c' /\ pair_of a b c'.
Proof.
  intros Hk Hp Hc E. pose proof (exec_le _ _ _ E) as Hle. split.
  2: { intros x n' Hn'. destruct (cluster_le_node_inv _ _ _ _ Hle Hn') as (n & Hn & _). by eapply Hp. }
  destruct act; try done; [by eapply set_fresh|]. eapply merge_fresh; [done|].
  intros f n k v y pid p m Hf Hn Hkv Hnd _ _ Hm.
  destruct (fo_known _ _ (si_flight _ (ck_struct _ _ _ Hk) _ _ Hf)) as (ns & _ & Hns & _).
  pose proof (ck_source _ _ _ Hk _ _ _ Hf Hkv) as Hsrc.
  assert (y = fl_dst f \/ y = fl_src f \/ fl_src f = fl_dst f) as [-> |[-> | Heq]].
  { destruct (Hp _ _ Hn), (Hp _ _ Hm), (Hp _ _ Hns); subst; auto; right; right; congruence. }
  - by eapply merge_dom_at.
  - by eapply dom_at_le.
  - destruct Hsrc as (n' & Hn' & Hd). destruct Hnd. rewrite Heq in Hn'.
    by assert (n' = n) as <- by congruence.
Qed.

(** ** A star *)

Definition spoke_link (hub x y : string) : Prop := x = hub \/ y = hub.

Definition written_at (hub : string) (act : action) : Prop :=
  match act with ASet a _ _ _ => a = hub | _ => True end.

(** The hub wrote all there is. *)
Definition hub_author (hub : string) (h : StateDelta) c : Prop :=
  forall kv, kv ∈ h -> exists n, nodes c !! hub = Some n /\ node_id_of n = node_id kv.2
                                 /\ dominates (node_state n) kv.

Lemma star_step hub last h c act acts c' :
  clock_inv last h c -> linked (spoke_link hub) c /\ hub_author hub h c -> written_at hub act ->
  one_clock last (act :: acts) -> exec act c = Some c' ->
  fresh_step act c c' /\ linked (spoke_link hub) c' /\ hub_author hub (h ++ written act c) c'.
Proof.
  intros Hk [Hl Ha] Hw Hc E. pose proof (exec_le _ _ _ E) as Hle. split; [|split].
  - destruct act; try done; [by eapply set_fresh|]. eapply merge_fresh; [done|].
    intros f n k v y pid p m Hf Hn Hkv Hnd Hp Hy Hm.
    destruct (Ha _ (hi_flight _ _ _ (ck_hist _ _ _ Hk) _ _ _ Hf Hkv)) as (nh & Hnh & _ & Hd).
    destruct (ln_table _ _ Hl (fl_dst f) pid p) as [Hx|Hx]; [by exists n| |].
    + destruct Hnd. rewrite Hx in Hn. by assert (n = nh) as -> by congruence.
    + apply (dom_at_le c); [done|]. exists nh. split; [congruence|done].
  - eapply linked_exec; [|apply struct_table, Hk|done|done]. intros x y [?|?]; [by right|by left].
  - intros kv Hkv.
    destruct (written_author _ _ _ _ _ (ck_hist _ _ _ Hk) E Hkv)
      as [Hin|(a & clock & key & val & n & -> & Hn & Hid & Hd)].
    + destruct (Ha _ Hin) as (n & Hn & Hid & Hd).
      destruct (cluster_le_node _ _ _ _ Hle Hn) as (n' & Hn' & Hm & _ & Hid').
      exists n'. split; [done|]. split; [congruence|]. by eapply dominates_mle.
    + cbn [written_at] in Hw. subst a. by exists n.
Qed.

(** ** Properties *)

(** Convergence under one clock, from an invariant as above. *)
Lemma clock_converges (I : Cluster -> StateDelta -> Prop) (P : action -> Prop) acts0 acts acts' c0 c c1 c2 :
  (forall last h c act acts c', clock_inv last h c -> I c h -> P act ->
     one_clock last (act :: acts) -> exec act c = Some c' ->
     fresh_step act c c' /\ I c' (h ++ written act c)) ->
  execution acts0 c0 c -> one_clock 0 acts0 -> I c0 [] -> Forall P acts0 -> Forall P acts ->
  Forall no_set acts -> run acts c = Some c1 ->
  (I c (history acts0 c0) -> forall a b n m, nodes c !! a = Some n -> nodes c !! b = Some m -> a <> b ->
     (exists kv, kv ∈ history acts0 c0 /\ node_id kv.2 = node_id_of n) -> served acts c c1 a b) ->
  Forall no_set acts' -> run acts' c1 = Some c2 ->
  converged (history acts0 c0) c2
  /\ forall x y n m, nodes c2 !! x = Some n -> nodes c2 !! y = Some m -> node_state n = node_state m.
Proof.
  intros Hstep [Hi Hr0] Hc HI HP0 HP Hns Hr Hserved Hns' Hr'.
  pose proof (clock_inv_initial _ Hi) as Hk0.
  destruct (clock_run I P Hstep acts0 _ _ _ _ Hk0 HI HP0 Hc Hr0) as (_ & HIc & last & Hk).
  destruct (clock_run I P Hstep (acts0 ++ acts) _ _ _ c1 Hk0 HI) as (Hfr & _).
  { by apply Forall_app. }
  { by apply one_clock_app. }
  { by rewrite run_app, Hr0. }
  apply (fresh_run_app _ _ _ _ Hr0) in Hfr as [Hfr0 Hfr].
  apply (sound_converges _ acts acts' c c1 c2); try done; [|by apply Hserved].
  apply sound_run; try done. intros kv Hkv. by apply (ck_last _ _ _ Hk) in Hkv as [? _].
Qed.

Lemma pair_converges a b acts0 acts acts' c0 c c1 c2 :
  execution acts0 c0 c -> one_clock 0 acts0 -> pair_of a b c0 ->
  Forall no_set acts -> run acts c = Some c1 -> served acts c c1 a b -> served acts c c1 b a ->
  Forall no_set acts' -> run acts' c1 = Some c2 ->
  converged (history acts0 c0) c2
  /\ forall n m, nodes c2 !! a = Some n -> nodes c2 !! b = Some m -> node_state n = node_state m.
Proof.
  intros Hx Hc Hp Hns Hr Hab Hba Hns' Hr'.
  destruct (clock_converges (fun c _ => pair_of a b c) (fun _ => True) acts0 acts acts' c0 c c1 c2);
    eauto using Forall_true.
  - intros. by eapply pair_step.
  - intros Hpc x y n m Hn Hm Hne _. by destruct (Hpc _ _ Hn), (Hpc _ _ Hm); subst.
Qed.

(** Two nodes that know each other can serve each other, whatever they and
    their messages are in the middle of. *)
Lemma pair_can_serve a b c n m pa pb qa qb :
  nodes c !! a = Some n -> nodes c !! b = Some m ->
  dm_get (node_peers n) pb = Some qb -> gossip_addr qb = b ->
  dm_get (node_peers m) pa = Some qa -> gossip_addr qa = a ->
  (0 < gossip_fanout (mgr_config (node_mgr n)))%N -> (0 < gossip_fanout (mgr_config (node_mgr m)))%N ->
  exists acts c', Forall no_set acts /\ run acts c = Some c' /\ served acts c c' a b /\ served acts c c' b a.
Proof.
  intros Hn Hm Hqb <- Hqa <- Hfn Hfm.
  destruct (can_serve c (gossip_addr qa) n pb qb m) as (acts1 & c1 & Hns1 & Hr1 & Hs1); try done.
  destruct (run_node _ _ _ _ _ Hr1 Hn) as (n1 & Hn1 & _).
  destruct (run_node _ _ _ _ _ Hr1 Hm) as (m1 & Hm1 & (_ & Hpl & _) & Hc).
  destruct (Hpl _ _ Hqa) as (qa1 & Hqa1 & Ha & _). rewrite <-Hc in Hfm. rewrite <-Ha in Hn1.
  destruct (can_serve c1 (gossip_addr qb) m1 pa qa1 n1) as (acts2 & c2 & Hns2 & Hr2 & Hs2); try done.
  rewrite Ha in Hs2. exists (acts1 ++ acts2), c2. split; [by apply Forall_app|].
  split; [by rewrite run_app, Hr1|]. split; [by eapply served_after|by eapply served_before].
Qed.

(** Two nodes that stamp their writes with one clock converge.  Once no more
    is written, as soon as each has served the other, both hold for every key
    the last write of the history, and keep it; messages may have been lost,
    delayed and overtaken before.  And if the two know each other, they can
    always serve each other, without further writes. *)
Theorem two_nodes_converge a b acts0 c0 c :
  execution acts0 c0 c -> one_clock 0 acts0 -> pair_of a b c0 ->
  (forall acts acts' c1 c2,
     Forall no_set acts -> run acts c = Some c1 -> served acts c c1 a b -> served acts c c1 b a ->
     Forall no_set acts' -> run acts' c1 = Some c2 ->
     converged (history acts0 c0) c2
     /\ forall n m, nodes c2 !! a = Some n -> nodes c2 !! b = Some m -> node_state n = node_state m)
  /\ (forall n m pa pb qa qb,
     nodes c !! a = Some n -> nodes c !! b = Some m ->
     dm_get (node_peers n) pb = Some qb -> gossip_addr qb = b ->
     dm_get (node_peers m) pa = Some qa -> gossip_addr qa = a ->
     (0 < gossip_fanout (mgr_config (node_mgr n)))%N -> (0 < gossip_fanout (mgr_config (node_mgr m)))%N ->
     exists acts c1, Forall no_set acts /\ run acts c = Some c1
                     /\ served acts c c1 a b /\ served acts c c1 b a).
Proof.
  intros Hx Hc Hp. split; [|intros; by eapply pair_can_serve].
  intros acts acts' c1 c2 Hns Hr Hab Hba Hns' Hr'. by apply (pair_converges a b acts0 acts acts' c0 c c1 c2).
Qed.

Lemma star_converges hub acts0 acts acts' c0 c c1 c2 :
  execution acts0 c0 c -> one_clock 0 acts0 -> Forall (written_at hub) acts0 ->
  (forall x n, nodes c0 !! x = Some n -> gossip_addr_of (mgr_config (node_mgr n)) = x) ->
  (forall x pid p, in_table c0 x pid p -> spoke_link hub x (gossip_addr p)) ->
  Forall no_set acts -> run acts c = Some c1 ->
  (forall x n, nodes c !! x = Some n -> x <> hub -> served acts c c1 hub x) ->
  Forall no_set acts' -> run acts' c1 = Some c2 ->
  converged (history acts0 c0) c2
  /\ forall x n m, nodes c2 !! x = Some n -> nodes c2 !! hub = Some m -> node_state n = node_state m.
Proof.
  intros Hx Hc Hw Haddr Htab Hns Hr Hserved Hns' Hr'.
  destruct (clock_converges (fun c h => linked (spoke_link hub) c /\ hub_author hub h c) (written_at hub)
    acts0 acts acts' c0 c c1 c2); try done; [|split| | |by eauto].
  - intros. by eapply star_step.
  - apply linked_initial; [apply Hx|done|done].
  - by intros kv ?%not_elem_of_nil.
  - eapply Forall_impl; [exact Hns|]. by intros [].
  - intros [_ Ha] x y n m Hn Hm Hne (kv & Hkv & Hid). destruct (Ha _ Hkv) as (nh & Hnh & Hidh & _).
    destruct Hx as [Hi Hr0]. pose proof (hi_ids _ _ _ (hist_inv_run _ _ _ Hi Hr0)) as Hids.
    assert (x = hub) as -> by (eapply Hids; [done|done|congruence]). by eapply Hserved.
Qed.

(** A node can serve any of the peers it knows, one after the other. *)
Lemma can_serve_all c a n (xs : list string) :
  nodes c !! a = Some n -> (0 < gossip_fanout (mgr_config (node_mgr n)))%N ->
  (forall x, x ∈ xs -> is_Some (nodes c !! x)
     /\ exists pid p, dm_get (node_peers n) pid = Some p /\ gossip_addr p = x) ->
  exists acts c', Forall no_set acts /\ run acts c = Some c' /\ forall x, x ∈ xs -> served acts c c' a x.
Proof.
  intros Hn Hf. induction xs as [|x xs IH]; intros Hxs.
  { exists [], c. split; [done|]. split; [done|]. by intros x ?%not_elem_of_nil. }
  destruct IH as (acts & c1 & Hns & Hr & Hserved); [intros y Hy; apply Hxs; by right|].
  destruct (Hxs x) as [[d Hd] (pid & p & Hp & Hpa)]; [left|].
  destruct (run_node _ _ _ _ _ Hr Hn) as (n1 & Hn1 & (_ & Hpl & _) & Hcfg).
  destruct (run_node _ _ _ _ _ Hr Hd) as (d1 & Hd1 & _).
  destruct (Hpl _ _ Hp) as (p1 & Hp1 & Ha1 & _). rewrite <-Hcfg in Hf.
  destruct (can_serve c1 a n1 pid p1 d1) as (acts2 & c2 & Hns2 & Hr2 & Hs2); try done; [congruence|].
  exists (acts ++ acts2), c2. split; [by apply Forall_app|]. split; [by rewrite run_app, Hr|].
  intros y [->|Hy]%elem_of_cons.
  - eapply served_before; [done|]. by rewrite <-Hpa, <-Ha1.
  - eapply served_after; [done|]. by apply Hserved.
Qed.

(** A star of any number of nodes, in which every node but the hub starts
    with no address but the hub's, converges if the hub alone writes, under
    one clock: once no more is written, as soon as the hub has served every
    other node, all hold for every key the last write, and keep it.  And the
    hub can always serve all the nodes it knows, without further writes. *)
Theorem single_writer_star_converges hub acts0 c0 c :
  execution acts0 c0 c -> one_clock 0 acts0 -> Forall (written_at hub) acts0 ->
  (forall x n, nodes c0 !! x = Some n -> gossip_addr_of (mgr_config (node_mgr n)) = x) ->
  (forall x pid p, in_table c0 x pid p -> spoke_link hub x (gossip_addr p)) ->
  (forall acts acts' c1 c2,
     Forall no_set acts -> run acts c = Some c1 ->
     (forall x n, nodes c !! x = Some n -> x <> hub -> served acts c c1 hub x) ->
     Forall no_set acts' -> run acts' c1 = Some c2 ->
     converged (history acts0 c0) c2
     /\ forall x n m, nodes c2 !! x = Some n -> nodes c2 !! hub = Some m -> node_state n = node_state m)
  /\ (forall nh, nodes c !! hub = Some nh -> (0 < gossip_fanout (mgr_config (node_mgr nh)))%N ->
     (forall x n, nodes c !! x = Some n -> x <> hub ->
        exists pid p, dm_get (node_peers nh) pid = Some p /\ gossip_addr p = x) ->
     exists acts c1, Forall no_set acts /\ run acts c = Some c1
       /\ forall x n, nodes c !! x = Some n -> x <> hub -> served acts c c1 hub x).
Proof.
  intros Hx Hc Hw Haddr Htab. split.
  - intros acts acts' c1 c2 Hns Hr Hserved Hns' Hr'. by apply (star_converges hub acts0 acts acts' c0 c c1 c2).
  - intros nh Hnh Hf Hall.
    destruct (can_serve_all c hub nh (filter (fun x => x <> hub) (map_to_list (nodes c)).*1) Hnh Hf)
      as (acts & c1 & Hns & Hr & Hs).
    + intros x [Hne ([? n] & -> & Hn%elem_of_map_to_list)%list_elem_of_fmap]%list_elem_of_filter.
      split; [by exists n|by eapply Hall].
    + exists acts, c1. split; [done|]. split; [done|]. intros x n Hn Hne. apply Hs, list_elem_of_filter.
      split; [done|]. apply list_elem_of_fmap. exists (x, n). split; [done|]. by apply elem_of_map_to_list.
Qed.
End one_clock.
