(* ===== verification/Starved.v ===== *)
(** A node that no gossip will bring the value of a key.  In a star, a spoke
    gets its values from the hub alone; when every cursor for the spoke is
    past the value's timestamp and the hub knows the spoke's identifier, the
    value is never sent again: [starved] describes this and is preserved by
    every step, writes to other keys included. *)
From S2P Require Import Prelude Crdt Replica Broadcast Store Config DashMap Peer Protocol.
From S2P Require Import Manager Cluster ClusterLemmas ClusterSafety ClusterSync Topology OneClock.

(** The step does not write the key. *)
Definition leaves (k : string) (act : action) : Prop :=
  match act with ASet _ _ key _ => key <> k | _ => True end.

#[export] Instance leaves_dec k act : Decision (leaves k act).
Proof. destruct act; simpl; apply _. Defined.

Section starved.
Context `{BroadcastLib StateEvent, DashMapLib PeerInfo, !DashMapLaws PeerInfo}.
Context (hub spoke : string) (Hhs : hub <> spoke) (k : string) (v : LwwValue).
Implicit Types (c : Cluster) (n : Node) (f : flight).

(** Whoever has a value for the key has [v]; it is not on its way to the
    spoke, and every cursor for the spoke is past it. *)
Record sent_past c : Prop := {
  sp_value x n w : nodes c !! x = Some n -> node_state n !! k = Some w -> w = v;
  sp_flight i f w : flights c !! i = Some f -> (k, w) ∈ fl_deltas f ->
    (fl_phase f = Sending -> fl_dst f <> spoke) /\ w = v;
  sp_cursor x pid p : x <> spoke -> in_table c x pid p -> gossip_addr p = spoke ->
    (timestamp v <= last_sync_ts p)%N;
  sp_round x n gen ts pid info : x <> spoke -> nodes c !! x = Some n ->
    node_round n = Some (gen, ts) -> (pid, info) ∈ ts -> gossip_addr info = spoke ->
    (timestamp v <= last_sync_ts info)%N;
  (** the hub has registered the spoke *)
  sp_known n : nodes c !! spoke = Some n -> exists p, in_table c hub (node_id_of n) p;
}.

(** The spoke lacks the value for which the others take it to have it. *)
Record starved c : Prop := {
  sv_linked : linked (spoke_link hub) c;
  sv_past : sent_past c;
  sv_lacks n : nodes c !! spoke = Some n -> node_state n !! k = None;
}.

Lemma sv_store c x n w :
  starved c -> nodes c !! x = Some n -> node_state n !! k = Some w -> x <> spoke /\ w = v.
Proof.
  intros Hs Hn Hw. split; [|by eapply sp_value; [apply Hs|..]].
  intros ->. rewrite (sv_lacks _ Hs _ Hn) in Hw. done.
Qed.

Lemma sv_store_exec act c c' x n' w :
  starved c -> leaves k act -> exec act c = Some c' ->
  nodes c' !! x = Some n' -> node_state n' !! k = Some w -> x <> spoke /\ w = v.
Proof.
  intros Hs Hl E%exec_effect Hn' Hw.
  assert (forall y m m', nodes c !! y = Some m -> node_state m' !! k = node_state m !! k ->
    <[y := m']> (nodes c) !! x = Some n' -> x <> spoke /\ w = v) as Hsame.
  { intros y m m' Hm Heq Hx. destruct (decide (y = x)) as [->|Hne].
    - rewrite lookup_insert_eq in Hx. simplify_eq. rewrite Heq in Hw. by eapply sv_store.
    - rewrite lookup_insert_ne in Hx by done. by eapply sv_store. }
  destruct act; cbn [effect] in E; split_hyps; subst c'; simpl in Hn';
    try (eapply Hsame; [eassumption| |exact Hn']; reflexivity); try (by eapply sv_store).
  - eapply Hsame; [eassumption| |exact Hn'].
    destruct (set_Done _ _ _ _ _ _ H2) as (t & _ & Hst & _).
    unfold node_state, node_store, with_store. cbn [node_mgr mgr_store].
    by rewrite Hst, lookup_absorb, decide_False by done.
  - destruct (decide (fl_dst x0 = x)) as [Hd|Hne].
    2: { rewrite lookup_insert_ne in Hn' by done. by eapply sv_store. }
    rewrite Hd, lookup_insert_eq in Hn'. injection Hn' as <-.
    unfold node_state, node_store, with_store in Hw. cbn [node_mgr mgr_store] in Hw.
    rewrite merge_delta_state in Hw. apply absorb_all_source in Hw as [Hw|Hw].
    + rewrite Hd in H3. by eapply sv_store.
    + destruct (sp_flight _ (sv_past _ Hs) _ _ _ H1 Hw) as [Hne ->]. rewrite <-Hd. auto.
Qed.

(** A flight that is being sent was, or is new. *)
Lemma exec_sending act c c' i f' :
  exec act c = Some c' -> flights c' !! i = Some f' -> fl_phase f' = Sending ->
  (exists f, flights c !! i = Some f /\ fl_phase f = Sending /\ fl_task f' = fl_task f)
  \/ flights c !! i = None.
Proof.
  intros E%exec_effect Hf' Hp.
  destruct act; cbn [effect] in E; destruct E as (x & E); split_hyps; subst c';
    unfold put_flight in Hf'; simpl in Hf'; try (left; by exists f').
  { apply lookup_app_Some in Hf' as [?|[Hlen _]]; [left; by exists f'|right].
    by apply lookup_ge_None. }
  all: destruct (decide (i0 = i)) as [->|Hne];
    [|rewrite list_lookup_insert_ne in Hf' by done; left; by exists f'].
  all: apply list_lookup_insert_Some in Hf' as [(_ & <- & _)|[? _]]; [|done].
  all: try done. left. exists x. done.
Qed.

Lemma sv_new_flight c a n gen pid info ts it task w :
  starved c -> nodes c !! a = Some n -> node_round n = Some (gen, (pid, info) :: ts) ->
  round_target it (node_store n) (mgr_config (node_mgr n)) gen (pid, info) = Some task ->
  (k, w) ∈ deltas (task_msg task) -> task_peer_addr task <> spoke /\ w = v.
Proof.
  intros Hs Hn Hr Ht Hw. destruct (round_target_Some _ _ _ _ _ _ _ Ht) as (_ & Ha & Hd & _).
  rewrite Hd in Hw. apply elem_of_delta_since_map in Hw as [Hk Hlt].
  destruct (sv_store _ _ _ _ Hs Hn Hk) as [Hx ->]. split; [|done]. rewrite Ha. intros Hsp.
  assert (timestamp v <= last_sync_ts info)%N; [|lia].
  eapply (sp_round _ (sv_past _ Hs) a); [done|done|done|left|done].
Qed.

Lemma sv_flight_exec act c c' i f' w :
  starved c -> exec act c = Some c' -> flights c' !! i = Some f' -> (k, w) ∈ fl_deltas f' ->
  (fl_phase f' = Sending -> fl_dst f' <> spoke) /\ w = v.
Proof.
  intros Hs E Hf' Hw.
  destruct (exec_flights _ _ _ _ _ E Hf') as [Hf|[(f & Hf & _ & Htask & _)|Hnew]].
  - by eapply sp_flight; [apply Hs|..].
  - unfold fl_deltas, fl_dst in *. rewrite Htask in *. split; [|by eapply sp_flight; [apply Hs|..]].
    intros Hp. destruct (exec_sending _ _ _ _ _ E Hf' Hp) as [(g & Hg & Hpg & _)|?]; [|congruence].
    assert (g = f) as -> by congruence. by apply (sp_flight _ (sv_past _ Hs) _ _ _ Hf Hw).
  - destruct Hnew as (a & it & n & gen & [pid info] & ts & task & _ & Hn & Hr & Ht & ->).
    destruct (sv_new_flight _ _ _ _ _ _ _ _ _ _ Hs Hn Hr Ht Hw). by split.
Qed.

Lemma sv_cursor_exec act c c' x pid p' :
  table_inv c -> starved c -> exec act c = Some c' -> x <> spoke -> in_table c' x pid p' ->
  gossip_addr p' = spoke -> (timestamp v <= last_sync_ts p')%N.
Proof.
  intros Hi Hs E Hx (n' & Hn' & Hp') Ha.
  destruct (exec_peers _ _ _ _ _ _ _ Hi E Hn' Hp') as [(_ & Hnew)|(n & p & Hn & Hp & Hap & Hc)].
  - destruct Hnew as (i & now & f & n & _ & Hf & Hdst & Hid & Hn & Hnone & Hfrom). exfalso.
    destruct (ln_flight _ _ (sv_linked _ Hs) _ _ Hf) as (Hlink & Hg & ns & Hns & Hnid).
    assert (fl_src f = spoke) as Hsrc by congruence.
    rewrite Hsrc in Hns. destruct (sp_known _ (sv_past _ Hs) _ Hns) as (p & nh & Hnh & Hp).
    destruct Hlink as [Hl|Hl].
    + congruence.
    + assert (x = hub) as -> by congruence. congruence.
  - assert (timestamp v <= last_sync_ts p)%N.
    { eapply (sp_cursor _ (sv_past _ Hs) x pid); [done|by exists n|congruence]. }
    destruct Hc as [->|(i & f & ack & _ & _ & _ & _ & _ & ->)]; lia.
Qed.

Lemma sent_past_exec act c c' :
  table_inv c -> starved c -> leaves k act -> exec act c = Some c' -> sent_past c'.
Proof.
  intros Hi Hs Hl E. split.
  - intros x n w Hn Hw. by destruct (sv_store_exec _ _ _ _ _ _ Hs Hl E Hn Hw).
  - intros i f w. by eapply sv_flight_exec.
  - intros x pid p Hx. by eapply sv_cursor_exec.
  - intros x n' gen ts pid info Hx Hn' Hr Hin Ha.
    destruct (exec_round_side _ _ _ E _ _ Hn' _ _ _ _ Hr Hin) as [(n & g0 & t0 & ? & ? & ?)|Htab].
    + by eapply (sp_round _ (sv_past _ Hs)).
    + by apply (sp_cursor _ (sv_past _ Hs) x pid).
  - intros n' Hn'. pose proof (exec_le _ _ _ E) as Hle.
    destruct (cluster_le_node_inv _ _ _ _ Hle Hn') as (n & Hn & _ & _ & ->).
    destruct (sp_known _ (sv_past _ Hs) _ Hn) as (p & nh & Hnh & Hp).
    destruct (cluster_le_node _ _ _ _ Hle Hnh) as (nh' & Hnh' & _ & Hpl & _).
    destruct (Hpl _ _ Hp) as (p' & Hp' & _). by exists p', nh'.
Qed.

Lemma starved_exec act c c' :
  table_inv c -> starved c -> leaves k act -> exec act c = Some c' -> starved c'.
Proof.
  intros Hi Hs Hl E. split.
  - eapply linked_exec; [|done|apply Hs|done]. intros x y [?|?]; [by right|by left].
  - by eapply sent_past_exec.
  - intros n Hn. destruct (node_state n !! k) as [w|] eqn:Hw; [|done].
    by destruct (sv_store_exec _ _ _ _ _ _ Hs Hl E Hn Hw).
Qed.

Lemma starved_run acts c c' :
  table_inv c -> starved c -> Forall (leaves k) acts -> run acts c = Some c' -> starved c'.
Proof.
  revert c. induction acts as [|act acts IH]; intros c Hi Hs Hl Hr; cbn [run] in Hr; [congruence|].
  unfold mbind, option_bind in Hr. destruct (exec act c) as [c1|] eqn:E; [|done].
  apply Forall_cons in Hl as [Hl1 Hl].
  apply (IH c1); [by eapply table_inv_exec|by eapply starved_exec|done|done].
Qed.

(** The spoke never has a value for the key. *)
Lemma starved_spoke acts c c' n :
  table_inv c -> starved c -> Forall (leaves k) acts -> run acts c = Some c' ->
  nodes c' !! spoke = Some n -> get (node_store n) k = None.
Proof.
  intros Hi Hs Hl Hr Hn. destruct (get (node_store n) k) as [w|] eqn:Hw; [|done].
  by destruct (sv_store _ _ _ _ (starved_run _ _ _ Hi Hs Hl Hr) Hn Hw).
Qed.

(** ** Deciding it *)

Definition sending (p : phase) : bool := match p with Sending => true | _ => false end.

Definition sent_pastb c : bool :=
  forallb (fun xn =>
    match node_state xn.2 !! k with Some w => bool_decide (w = v) | None => true end
    && (bool_decide (xn.1 = spoke)
        || forallb (fun ip => negb (bool_decide (gossip_addr ip.2 = spoke))
                              || (timestamp v <=? last_sync_ts ip.2)%N)
             (dm_iter (node_peers xn.2) ++ match node_round xn.2 with Some (_, ts) => ts | None => [] end)))
    (map_to_list (nodes c))
  && forallb (fun f => forallb (fun kw => negb (bool_decide (kw.1 = k))
       || (negb (sending (fl_phase f)) || bool_decide (fl_dst f <> spoke)) && bool_decide (kw.2 = v)) (fl_deltas f)) (flights c)
  && match nodes c !! spoke, nodes c !! hub with
     | Some n, Some nh => bool_decide (is_Some (dm_get (node_peers nh) (node_id_of n)))
     | None, _ => true
     | _, None => false
     end.

Lemma sent_pastb_sound c : sent_pastb c = true -> sent_past c.
Proof.
  unfold sent_pastb. intros [[Hn Hf]%andb_true_iff Hk]%andb_true_iff.
  rewrite !forallb_forall in Hn, Hf.
  assert (forall x n, nodes c !! x = Some n ->
    (forall w, node_state n !! k = Some w -> w = v)
    /\ (x <> spoke -> forall ip, ip ∈ dm_iter (node_peers n)
          ++ match node_round n with Some (_, ts) => ts | None => [] end ->
        gossip_addr ip.2 = spoke -> (timestamp v <= last_sync_ts ip.2)%N)) as Hnode.
  { intros x n Hx. apply elem_of_map_to_list, list_elem_of_In, Hn in Hx.
    cbn [fst snd] in Hx. apply andb_true_iff in Hx as [Hs Hc]. split.
    - intros w Hw. rewrite Hw in Hs. by apply bool_decide_eq_true in Hs.
    - intros Hx ip Hip Ha. rewrite bool_decide_eq_false_2 in Hc by done. cbn [orb] in Hc.
      rewrite forallb_forall in Hc.
      apply list_elem_of_In, Hc in Hip. rewrite bool_decide_eq_true_2 in Hip by done. by apply N.leb_le. }
  split.
  - intros x n w Hx Hw. by apply (Hnode _ _ Hx).
  - intros i f w Hi Hw. apply list_elem_of_lookup_2, list_elem_of_In, Hf in Hi.
    rewrite forallb_forall in Hi. apply list_elem_of_In, Hi in Hw. cbn [fst snd] in Hw.
    rewrite bool_decide_eq_true_2 in Hw by done.
    apply andb_true_iff in Hw as [Hp ->%bool_decide_eq_true]. split; [|done].
    intros Hs. rewrite Hs in Hp. by apply bool_decide_eq_true in Hp.
  - intros x pid p Hx (n & Hxn & Hp) Ha.
    apply (proj2 (Hnode _ _ Hxn) Hx (pid, p)); [|done]. apply elem_of_app. left. by apply dm_iter_get.
  - intros x n gen ts pid info Hx Hxn Hr Hin Ha.
    apply (proj2 (Hnode _ _ Hxn) Hx (pid, info)); [|done]. rewrite Hr. apply elem_of_app. by right.
  - intros n Hs. rewrite Hs in Hk. destruct (nodes c !! hub) as [nh|] eqn:Hh; [|done].
    apply bool_decide_eq_true in Hk as [p Hp]. by exists p, nh.
Qed.

Definition starvedb c : bool :=
  sent_pastb c
  && match nodes c !! spoke with
     | Some n => bool_decide (node_state n !! k = None)
     | None => true
     end.

Lemma starvedb_sound c : linked (spoke_link hub) c -> starvedb c = true -> starved c.
Proof.
  unfold starvedb. intros Hl [Hp%sent_pastb_sound Hk]%andb_true_iff. split; [done|done|].
  intros n Hn. rewrite Hn in Hk. by apply bool_decide_eq_true in Hk.
Qed.
End starved.
