(* ===== verification/Restart.v ===== *)
(** A node that is stopped and started again at its address.  Its store and
    its peer table lived in memory and start empty; the other nodes keep what
    they recorded of it, under its identifier.  If the identifier is
    configured, and so the same as before, what they had pushed to it is
    never pushed again; with a new one, which is drawn unless one is
    configured, the node is a new peer and gets everything. *)
From S2P Require Import Prelude Crdt Replica Broadcast Store Config DashMap Peer Protocol.
From S2P Require Import Manager Cluster ClusterLemmas ClusterSafety ClusterSync Topology.
From S2P Require Import Convergence OneClock Starved.

Section restart.
Context `{BroadcastLib StateEvent, DashMapLib PeerInfo}.
Implicit Types (c : Cluster) (n : Node) (f : flight).

(** What [main] builds before it waits. *)
Definition main_node (uuid : string) (now : string -> N) (config : Config) : outcome Node :=
  store ← StateStore_new (resolved_node_id uuid config) (event_channel_capacity config);
  Done (start_node now config store).

(** The tasks of the process at [addr] are gone: nobody waits for what it was
    sending, and what it had merged it will not acknowledge.  A message to it
    that nobody has read may still reach the new process. *)
Definition crash_flight (addr : string) (f : flight) : flight :=
  mk_flight (fl_src f) (fl_task f)
    (match fl_phase f with
     | Merged ack => if decide (fl_dst f = addr) then Lost else Merged ack
     | p => p
     end)
    (if decide (fl_src f = addr) then false else fl_waiting f).

Definition restart (uuid : string) (now : string -> N) (config : Config) (addr : string) c
  : outcome Cluster :=
  n ← main_node uuid now config;
  Done (mk_cluster (<[addr := n]> (nodes c)) (crash_flight addr <$> flights c)).

Lemma main_node_Done uuid now config n :
  main_node uuid now config = Done n ->
  exists store, n = start_node now config store /\ state store = ∅
                /\ store_node_id store = resolved_node_id uuid config.
Proof.
  unfold main_node, StateStore_new, mbind, outcome_bind. destruct (bc_channel _); [|done].
  intros [= <-]. by eexists.
Qed.

Lemma restart_Done uuid now config addr c c' :
  restart uuid now config addr c = Done c' ->
  exists n, main_node uuid now config = Done n
    /\ c' = mk_cluster (<[addr := n]> (nodes c)) (crash_flight addr <$> flights c).
Proof.
  unfold restart, mbind, outcome_bind. destruct (main_node _ _ _) as [n|]; [|done].
  intros [= <-]. by exists n.
Qed.

Context `{!DashMapLaws PeerInfo}.

Lemma start_node_table now config store pid p :
  dm_get (node_peers (start_node now config store)) pid = Some p ->
  p = mk_peer pid (now pid) 0 0 /\ pid ∈ seed_peers config.
Proof.
  unfold node_peers, start_node. cbn [node_mgr]. rewrite manager_new_registers_seeds, dm_get_new.
  case_decide as Hs; [|done]. intros [= <-]. by destruct Hs.
Qed.

Lemma start_node_seed now config store pid :
  pid <> "" -> pid ∈ seed_peers config ->
  dm_get (node_peers (start_node now config store)) pid = Some (mk_peer pid (now pid) 0 0).
Proof.
  intros. unfold node_peers, start_node. cbn [node_mgr].
  by rewrite manager_new_registers_seeds, dm_get_new, decide_True.
Qed.

(** What a restart keeps of the invariants. *)
Section same.
Context (hub spoke : string) (k : string) (v : LwwValue).
Context (uuid : string) (now : string -> N) (config : Config) (c c' : Cluster) (n : Node).
Context (Hrestart : restart uuid now config spoke c = Done c').
Context (Hn : nodes c !! spoke = Some n) (Hid : resolved_node_id uuid config = node_id_of n).
Context (Haddr : gossip_addr_of config = spoke).
Context (Hseeds : forall a, a ∈ seed_peers config -> spoke_link hub spoke a).

Lemma restart_nodes x n' :
  nodes c' !! x = Some n' ->
  (x <> spoke /\ nodes c !! x = Some n')
  \/ (x = spoke /\ exists store, n' = start_node now config store /\ state store = ∅
        /\ node_id_of n' = node_id_of n).
Proof.
  destruct (restart_Done _ _ _ _ _ _ Hrestart) as (m & Hm & ->). cbn [nodes].
  intros [[<- <-]|[Hne Hx]]%lookup_insert_Some; [right|by left]. split; [done|].
  destruct (main_node_Done _ _ _ _ Hm) as (store & -> & Hs & Hi). exists store.
  split; [done|]. split; [done|]. rewrite <-Hid. exact Hi.
Qed.

Lemma restart_flights i f' :
  flights c' !! i = Some f' -> exists f, flights c !! i = Some f /\ f' = crash_flight spoke f.
Proof.
  destruct (restart_Done _ _ _ _ _ _ Hrestart) as (m & _ & ->). cbn [flights].
  rewrite list_lookup_fmap. destruct (flights c !! i) as [f|]; [|done]. intros [= <-]. by exists f.
Qed.

(** A node that is still there knows what it knew. *)
Lemma restart_known x pid addr t :
  x <> spoke -> known c x pid addr t -> known c' x pid addr t.
Proof.
  intros Hx (m & p & Hm & Hrest). destruct (restart_Done _ _ _ _ _ _ Hrestart) as (m' & _ & ->).
  exists m, p. split; [|done]. cbn [nodes]. by rewrite lookup_insert_ne.
Qed.

Lemma restart_tables : table_inv c -> table_inv c'.
Proof.
  intros [Hr Hw]. split.
  - intros x m gen ts pid info [[Hx Hm]|(-> & store & -> & _)]%restart_nodes Hrd Hin; [|done].
    apply restart_known; [done|]. by eapply Hr.
  - intros i f' (f & Hf & ->)%restart_flights. cbn [fl_waiting crash_flight].
    case_decide as Hsrc; [done|]. intros Hwt. apply restart_known; [done|]. exact (Hw _ _ Hf Hwt).
Qed.

Lemma restart_starved :
  hub <> spoke -> linked (spoke_link hub) c -> sent_past hub spoke k v c -> starved hub spoke k v c'.
Proof.
  intros Hne [La Lt Lr Lf] [Sv Sf Sc Sr Sk]. split; [split|split|].
  - intros x m [[_ Hm]|(-> & store & -> & _)]%restart_nodes; [by apply La|done].
  - intros x pid p (m & [[Hx Hm]|(-> & store & -> & _)]%restart_nodes & Hp).
    + apply (Lt x pid). by exists m.
    + apply start_node_table in Hp as [-> Hs]. by apply Hseeds.
  - intros x m gen ts pid info [[_ Hm]|(-> & store & -> & _)]%restart_nodes Hr; [by eapply Lr|done].
  - intros i f' (f & Hf & ->)%restart_flights. destruct (Lf _ _ Hf) as (? & ? & m & Hm & Hmid).
    split; [done|]. split; [done|]. cbn [fl_src crash_flight fl_task].
    destruct (decide (fl_src f = spoke)) as [Hs|Hs].
    + destruct (restart_Done _ _ _ _ _ _ Hrestart) as (m' & Hm' & ->). rewrite Hs. cbn [nodes].
      exists m'. split; [apply lookup_insert_eq|].
      destruct (main_node_Done _ _ _ _ Hm') as (store & -> & _ & Hsid).
      rewrite Hs, Hn in Hm. injection Hm as <-. rewrite Hmid, <-Hid. symmetry. exact Hsid.
    + destruct (restart_Done _ _ _ _ _ _ Hrestart) as (m' & _ & ->). exists m. split; [|done].
      cbn [nodes]. by rewrite lookup_insert_ne.
  - intros x m w [[_ Hm]|(-> & store & -> & Hs & _)]%restart_nodes Hw; [by eapply Sv|].
    unfold node_state, node_store in Hw. cbn in Hw. by rewrite Hs, lookup_empty in Hw.
  - intros i f' w (f & Hf & ->)%restart_flights Hw. destruct (Sf _ _ _ Hf Hw) as [Hp ->].
    split; [|done]. cbn [fl_phase crash_flight]. intros Hph. apply Hp. destruct (fl_phase f); try done. by case_decide.
  - intros x pid p Hx (m & [[_ Hm]|[? _]]%restart_nodes & Hp); [|done]. apply (Sc x pid); [done|by exists m].
  - intros x m gen ts pid info Hx [[_ Hm]|[? _]]%restart_nodes; [|done]. by eapply Sr.
  - intros m [[? _]|(_ & store & _ & _ & Hmid)]%restart_nodes; [done|]. rewrite Hmid.
    destruct (Sk _ Hn) as (p & nh & Hnh & Hp). exists p, nh. split; [|done].
    destruct (restart_Done _ _ _ _ _ _ Hrestart) as (m' & _ & ->). cbn [nodes]. by rewrite lookup_insert_ne.
  - intros m [[? _]|(_ & store & -> & Hs & _)]%restart_nodes; [done|].
    unfold node_state, node_store. cbn. by rewrite Hs, lookup_empty.
Qed.
End same.

(** ** An introduction *)

(** A node that has never exchanged with a peer of its table can introduce
    itself there: the peer then has it in its table, or had. *)
Lemma can_introduce c a b n d pid p :
  a <> b -> nodes c !! a = Some n -> node_round n = None -> nodes c !! b = Some d ->
  dm_get (node_peers n) pid = Some p -> gossip_addr p = b -> exchange_count p = 0%N ->
  (0 < gossip_fanout (mgr_config (node_mgr n)))%N ->
  gossip_addr_of (mgr_config (node_mgr n)) = a -> dm_get (node_peers d) (node_id_of n) = None ->
  exists acts c' d' q, Forall no_set acts /\ run acts c = Some c' /\ nodes c' !! b = Some d'
    /\ dm_get (node_peers d') (node_id_of n) = Some q /\ gossip_addr q = a /\ last_sync_ts q = 0%N.
Proof.
  intros Hab Hn Hidle Hd Hp Hb Hx Hf Ha Hnone.
  destruct (serve_first_target c a n pid p) as (c2 & Hr2 & Hfl & Hoth); try done.
  destruct (round_target _ _ _ _ _) as [task|] eqn:Ht.
  2: { apply round_target_None in Ht as [? _]. lia. }
  destruct (round_target_Some _ _ _ _ _ _ _ Ht) as (_ & Hdst & _ & Hfrom & Hg & _).
  assert (Forall no_set [ARoundStart a (front_shuffler (pid, p)); ARoundTarget a canonical_iter]) as Hns
    by by repeat constructor.
  set (f := mk_flight a task Sending true) in *.
  assert (flights c2 !! length (flights c) = Some f) as Hf2 by (rewrite Hfl; by apply list_lookup_middle).
  assert (nodes c2 !! b = Some d) as Hd2 by by rewrite Hoth.
  assert (fl_dst f = b) as Hfd by (unfold fl_dst; cbn; congruence).
  destruct (merge_delta (node_store d) (fl_deltas f)) as [s u] eqn:Hm.
  set (i := length (flights c)) in *. set (f1 := set_phase f (Merged (ack_of s u)) true).
  set (c3 := put_flight (put_node c2 b (with_store d s)) i f1).
  assert (exec (AMerge i) c2 = Some c3) as E3.
  { cbn [exec]. unfold mbind, option_bind. by rewrite Hf2, Hfd, Hd2, Hm. }
  assert (flights c3 !! i = Some f1) as Hf3.
  { apply list_lookup_insert_eq. by eapply lookup_lt_Some. }
  assert (nodes c3 !! b = Some (with_store d s)) as Hd3 by apply lookup_insert_eq.
  set (d4 := with_peers (with_store d s) (register_sender 0 (node_peers d) (task_msg task))).
  assert (exec (ARegister i 0) c3 = Some (put_flight (put_node c3 b d4) i (set_phase f1 (AckSent (ack_of s u)) true)))
    as E4.
  { cbn [exec]. unfold mbind, option_bind. rewrite Hf3. cbn [fl_phase f1 set_phase].
    change (fl_dst f1) with (fl_dst f). by rewrite Hfd, Hd3. }
  eexists (_ ++ [AMerge i; ARegister i 0]), _, d4, (mk_peer a 0 0 1).
  split; [apply Forall_app; split; [exact Hns|by repeat constructor]|].
  split; [rewrite run_app, Hr2; cbn [mbind option_bind run]; rewrite E3; cbn [mbind option_bind]; by rewrite E4|].
  split; [apply lookup_insert_eq|]. split; [|done].
  change (node_peers d4) with (register_sender 0 (node_peers d) (task_msg task)).
  by rewrite register_sender_get, decide_True, Hnone, Hg, Ha.
Qed.

(** ** Properties *)

(** C21: A node that restarts under its configured identifier does not get its data
    back.  In a star, let the value [v] of a key be acknowledged by a spoke:
    every cursor for the spoke is past it, and it is not on its way there.  If
    the spoke restarts with the same identifier and address, then no gossip,
    and no write of other keys, ever brings the key back to it: it is
    missing there until somebody writes it again. *)
Theorem restart_same_id_never_recovers hub spoke k v acts0 c0 c n uuid now config c' :
  execution acts0 c0 c -> hub <> spoke ->
  (forall x m, nodes c0 !! x = Some m -> gossip_addr_of (mgr_config (node_mgr m)) = x) ->
  (forall x pid p, in_table c0 x pid p -> spoke_link hub x (gossip_addr p)) ->
  nodes c !! spoke = Some n -> sent_past hub spoke k v c ->
  restart uuid now config spoke c = Done c' ->
  resolved_node_id uuid config = node_id_of n -> gossip_addr_of config = spoke ->
  (forall a, a ∈ seed_peers config -> a = hub) ->
  forall acts c'' n'', Forall (leaves k) acts -> run acts c' = Some c'' ->
    nodes c'' !! spoke = Some n'' -> get (node_store n'') k = None.
Proof.
  intros [Hi Hr] Hne Haddr Htab Hn Hpast Hrs Hid Ha Hseeds acts c'' n'' Hl Hr'' Hn''.
  assert (linked (spoke_link hub) c) as Hlink.
  { eapply linked_run; [|by eapply struct_table, struct_inv_initial|by apply linked_initial|done].
    intros x y [?|?]; [by right|by left]. }
  apply (starved_spoke hub spoke Hne k v acts c' c'' n''); [| |done..].
  - eapply (restart_tables spoke uuid now config c c' n); try done. by eapply struct_table, struct_inv_run.
  - eapply (restart_starved hub spoke k v uuid now config c c' n); try done.
    intros a Hin. right. by apply Hseeds.
Qed.

(** C26: A node that restarts under an identifier its seed does not know gets
    everything back: from any state, without further writes, it can
    introduce itself to the seed, and the seed's next push brings it all the
    seed holds, the timestamps of 0 excepted. *)
Theorem restart_new_id_recovers hub spoke c nh uuid now config c' :
  hub <> spoke -> hub <> "" -> nodes c !! hub = Some nh ->
  restart uuid now config spoke c = Done c' ->
  gossip_addr_of config = spoke -> hub ∈ seed_peers config ->
  (0 < gossip_fanout config)%N -> (0 < gossip_fanout (mgr_config (node_mgr nh)))%N ->
  dm_get (node_peers nh) (resolved_node_id uuid config) = None ->
  exists acts c'', Forall no_set acts /\ run acts c' = Some c''
    /\ forall k v, node_state nh !! k = Some v -> (0 < timestamp v)%N -> dom_at c'' spoke (k, v).
Proof.
  intros Hne Hhub Hnh (n & Hn & ->)%restart_Done Ha Hseed Hf Hfh Hnew.
  destruct (main_node_Done _ _ _ _ Hn) as (store & -> & Hs & Hid). set (c1 := mk_cluster _ _).
  assert (nodes c1 !! hub = Some nh) as Hnh1 by (by unfold c1; cbn; rewrite lookup_insert_ne).
  destruct (can_introduce c1 spoke hub (start_node now config store) nh hub (mk_peer hub (now hub) 0 0))
    as (acts1 & c2 & nh2 & q & Hns1 & Hr1 & Hnh2 & Hq & Hqa & Hqt); try done.
  { apply lookup_insert_eq. }
  { by apply start_node_seed. }
  { unfold node_id_of, node_store. cbn. by rewrite Hid. }
  destruct (can_finish_round c2 hub nh2 Hnh2) as (acts2 & c3 & nh3 & Hns2 & Hr2 & Hnh3 & Hidle & Hm).
  assert (run (acts1 ++ acts2) c1 = Some c3) as Hr12 by by rewrite run_app, Hr1.
  destruct (run_node _ _ _ _ _ Hr12 Hnh1) as (nh3' & Hnh3' & (Hle & _) & Hc).
  assert (nh3' = nh3) as -> by congruence.
  destruct (run_node _ _ _ spoke _ Hr12 (lookup_insert_eq _ _ _)) as (d & Hd & _).
  destruct (push_reaches_peer c3 hub nh3 (node_id_of (start_node now config store)) q d)
    as (acts3 & c4 & Hns3 & Hr3 & Hdom); try done.
  { unfold node_peers. by rewrite Hm. }
  { by rewrite Hc. }
  { by rewrite Hqa. }
  exists ((acts1 ++ acts2) ++ acts3), c4. split; [by repeat (apply Forall_app; split)|].
  split; [by rewrite run_app, Hr12|]. intros k v Hk Hpos.
  destruct (Hle _ _ Hk) as (w & Hw & L). pose proof (lww_le_timestamp _ _ L) as Ht. cbn in Ht.
  destruct (Hdom k w Hw) as (d' & e & Hd' & He & L'); [lia|].
  exists d'. split; [congruence|]. exists e. split; [done|]. by transitivity w.
Qed.
End restart.
