(* ===== verification/RestartRuns.v ===== *)
(** Executions in which nodes stop, start again and join.  A process keeps its
    store in memory, so that what it wrote may be left to others, or to
    nobody.  As long as every process runs under an identifier of its own, as
    it does unless one is configured, the nodes still agree on the values they
    share; two processes under one identifier can stamp different values
    alike, and then the nodes do not agree. *)
From S2P Require Import Prelude Crdt Replica Broadcast Store Config DashMap Peer Protocol.
From S2P Require Import Manager Cluster ClusterLemmas Restart.

(** [Start]: a process starts at an address, where a former one, if there is
    one, is gone. *)
Inductive live_action :=
| Step (act : action)
| Start (addr uuid : string) (now : string -> N) (config : Config).

Section restarts.
Context `{BroadcastLib StateEvent, DashMapLib PeerInfo}.
Implicit Types (c : Cluster) (n : Node).

Definition live_exec (e : live_action) c : option Cluster :=
  match e with
  | Step act => exec act c
  | Start addr uuid now config =>
      if decide (gossip_addr_of config = addr) then
        match restart uuid now config addr c with Done c' => Some c' | Panic _ => None end
      else None
  end.

Fixpoint live_run (es : list live_action) c : option Cluster :=
  match es with
  | [] => Some c
  | e :: es' => c' ← live_exec e c; live_run es' c'
  end.

Definition live_written (e : live_action) c : StateDelta :=
  match e with Step act => written act c | Start _ _ _ _ => [] end.

Fixpoint live_history (es : list live_action) c : StateDelta :=
  match es with
  | [] => []
  | e :: es' => live_written e c ++ match live_exec e c with Some c' => live_history es' c' | None => [] end
  end.

(** The identifiers of processes that are gone. *)
Definition gone_by (gone : gset string) (e : live_action) c : gset string :=
  match e with
  | Start addr _ _ _ => match nodes c !! addr with Some n => {[node_id_of n]} ∪ gone | None => gone end
  | Step _ => gone
  end.

(** Every process that starts has an identifier that no process has had. *)
Fixpoint own_ids (gone : gset string) (es : list live_action) c : Prop :=
  match es with
  | [] => True
  | e :: es' =>
      match e with
      | Start addr uuid _ config =>
          (resolved_node_id uuid config ∉ gone)
          /\ map_Forall (fun _ m => node_id_of m <> resolved_node_id uuid config) (nodes c)
      | Step _ => True
      end
      /\ match live_exec e c with Some c' => own_ids (gone_by gone e c) es' c' | None => True end
  end.

#[export] Instance own_ids_dec gone es c : Decision (own_ids gone es c).
Proof.
  revert gone c. induction es as [|e es IH]; intros gone c; cbn [own_ids]; [apply _|].
  apply and_dec; [destruct e; apply _|]. destruct (live_exec e c); apply _.
Defined.

Context `{!DashMapLaws PeerInfo}.

(** A start forgets a store and brings an empty one. *)
Lemma past_inv_start gone h c addr uuid now config c' :
  past_inv gone h c -> restart uuid now config addr c = Done c' ->
  resolved_node_id uuid config ∉ gone ->
  map_Forall (fun _ m => node_id_of m <> resolved_node_id uuid config) (nodes c) ->
  past_inv (gone_by gone (Start addr uuid now config) c) h c'.
Proof.
  intros [Hst Hfl Ho Hi Hc Hg] (n & Hn & ->)%restart_Done Hnew Hfresh.
  destruct (main_node_Done _ _ _ _ Hn) as (store & -> & Hempty & Hid).
  assert (forall a m, <[addr := start_node now config store]> (nodes c) !! a = Some m ->
    (a = addr /\ m = start_node now config store) \/ (a <> addr /\ nodes c !! a = Some m)) as Hnodes.
  { intros a m [[<- <-]|[Hne Hm]]%lookup_insert_Some; [by left|right]. by split. }
  assert (node_id_of (start_node now config store) = resolved_node_id uuid config) as Hnid by exact Hid.
  split; cbn [nodes flights]; try done.
  - intros a m k v [[-> ->]|[_ Hm]]%Hnodes; [|by apply (Hst a)].
    unfold node_state, node_store. cbn. by rewrite Hempty, lookup_empty.
  - intros i f kv. rewrite list_lookup_fmap. destruct (flights c !! i) as [f0|] eqn:Hf; [|done].
    intros [= <-]. by apply (Hfl i f0).
  - intros kv Hkv. cbn [gone_by]. destruct (Ho _ Hkv) as [Hgone|(a & m & Hm & Hmid & Hd)].
    { left. destruct (nodes c !! addr); set_solver. }
    destruct (decide (a = addr)) as [->|Hne]; [left; rewrite Hm; set_solver|].
    right. exists a, m. by rewrite lookup_insert_ne.
  - intros a b m1 m2 [[-> ->]|[Ha Hm1]]%Hnodes [[-> ->]|[Hb Hm2]]%Hnodes E; [done|..|by eapply Hi].
    + destruct (Hfresh _ _ Hm2). by rewrite <-Hnid.
    + destruct (Hfresh _ _ Hm1). by rewrite <-Hnid.
  - intros a m. cbn [gone_by]. intros [[-> ->]|[Ha Hm]]%Hnodes.
    + rewrite Hnid. destruct (nodes c !! addr) as [old|] eqn:Hold; [|done].
      intros [Heq%elem_of_singleton|?]%elem_of_union; [by destruct (Hfresh _ _ Hold)|done].
    + pose proof (Hg _ _ Hm). destruct (nodes c !! addr) as [old|] eqn:Hold; [|done].
      intros [Heq%elem_of_singleton|?]%elem_of_union; [|done]. destruct Ha. by eapply Hi.
Qed.

Lemma past_inv_live_exec gone h c e c' :
  past_inv gone h c -> live_exec e c = Some c' -> own_ids gone [e] c ->
  past_inv (gone_by gone e c) (h ++ live_written e c) c'.
Proof.
  intros Hp He [Hids _]. destruct e as [act|addr uuid now config]; cbn [live_exec gone_by live_written] in *.
  - by apply past_inv_exec.
  - case_decide; [|done]. destruct (restart uuid now config addr c) as [c1|] eqn:Hr; [|done].
    injection He as ->. rewrite app_nil_r. destruct Hids. by eapply past_inv_start.
Qed.

Lemma past_inv_live gone h es c c' :
  past_inv gone h c -> live_run es c = Some c' -> own_ids gone es c ->
  exists gone', past_inv gone' (h ++ live_history es c) c'.
Proof.
  revert gone h c. induction es as [|e es IH]; intros gone h c Hp; cbn [live_run live_history own_ids].
  - intros [= <-] _. exists gone. by rewrite app_nil_r.
  - unfold mbind, option_bind. destruct (live_exec e c) as [c1|] eqn:He; [|done]. intros Hr [Hid Hids].
    rewrite app_assoc. eapply IH; [|done|exact Hids]. apply past_inv_live_exec; [done|done|].
    split; [exact Hid|]. by rewrite He.
Qed.

(** ** Properties *)

(** C8: Agreement survives restarts.  Let processes stop, start again and join in
    any number, each under an identifier no process has had, among any writes
    and any gossip.  Then every value that a node stores was written by a
    [set] of some process, different values of a key are never tied, and a
    node never falls below what it wrote itself; two nodes, each of which has
    for every key a value no smaller than the other's, hold the same map. *)
Theorem restarts_keep_agreement es c0 c :
  initial c0 -> live_run es c0 = Some c -> own_ids ∅ es c0 ->
  let h := live_history es c0 in
  (forall a n k v, nodes c !! a = Some n -> node_state n !! k = Some v -> (k, v) ∈ h)
  /\ coherent h
  /\ (forall a n kv, nodes c !! a = Some n -> kv ∈ h -> node_id kv.2 = node_id_of n -> dominates (node_state n) kv)
  /\ (forall a b n m, nodes c !! a = Some n -> nodes c !! b = Some m ->
       mle (node_state n) (node_state m) -> mle (node_state m) (node_state n) -> node_state n = node_state m).
Proof.
  intros Hi Hr Hids. cbv zeta.
  destruct (past_inv_live ∅ [] es c0 c (hist_inv_initial _ Hi) Hr Hids) as (gone & [Hst _ Ho Hu Hc Hg]).
  cbn [app] in *. split_and!; try done.
  - intros a n kv Hn Hkv Hid. destruct (Ho _ Hkv) as [Hgone|(b & m & Hm & Hmid & Hd)].
    + by destruct (Hg _ _ Hn); rewrite <-Hid.
    + assert (a = b) as <- by (eapply Hu; [done..|congruence]). by assert (n = m) as -> by congruence.
  - intros a b n m Hn Hm Hnm Hmn. apply (mle_antisymm _ _ _ Hc); [by eauto using Hst..|done|done].
Qed.
End restarts.
