(* ===== verification/ConvergenceTests.v ===== *)
(** The integration tests of tests/convergence.rs: the nodes they start, what
    they write and what they wait for.  The sources run each once and give it
    a few seconds; here the question is which executions of the cluster reach
    what a test waits for.  The polling is in Polling.v. *)
From S2P Require Import Prelude Crdt Replica Broadcast Store Config DashMap Peer Protocol.
From S2P Require Import Manager Cluster ClusterLemmas ClusterSafety ClusterSync Topology.
From S2P Require Import Convergence OneClock.

(** ** The harness *)

(** The [n] pairs of ports from [base], the value of the counter; the ports
    are computed in [u16], with overflow checks in a test. *)
Fixpoint alloc_ports (base : N) (n : nat) : outcome (list (N * N)) :=
  match n with
  | O => Done []
  | S n' =>
      if (base + 1 <? 65536)%N then
        ports ← alloc_ports (base + 2) n';
        Done ((base, base + 1)%N :: ports)
      else Panic "attempt to add with overflow"
  end.

Definition test_config (node_id : string) (rpc_port gossip_port : N) (seeds : list string) : Config := {|
  host := "127.0.0.1";
  rpc_port := rpc_port;
  gossip_port := gossip_port;
  cfg_node_id := Some node_id;
  seed_peers := seeds;
  gossip_interval_ms := 100;
  gossip_fanout := 3;
  event_channel_capacity := 256;
|}.

Definition test_addr (gossip_port : N) : string := socket_addr "127.0.0.1" gossip_port.

Section tests.
Context `{BroadcastLib StateEvent, DashMapLib PeerInfo}.
Implicit Types (c : Cluster) (n : Node).

Definition TestNode_start (now : string -> N) (node_id : string) (rpc_port gossip_port : N)
    (seeds : list string) : outcome Node :=
  store ← StateStore_new node_id 256;
  Done (start_node now (test_config node_id rpc_port gossip_port seeds) store).

Fixpoint start_all (now : string -> N) (seeds : list string) (l : list (string * (N * N)))
  : outcome (gmap string Node) :=
  match l with
  | [] => Done ∅
  | (id, (rpc_port, gossip_port)) :: l' =>
      n ← TestNode_start now id rpc_port gossip_port seeds;
      ns ← start_all now seeds l';
      Done (<[test_addr gossip_port := n]> ns)
  end.

(** The clusters of all tests: the first node has no seed and is the seed of
    the others. *)
Definition test_cluster (now : string -> N) (base : N) (ids : list string) : outcome Cluster :=
  ports ← alloc_ports base (length ids);
  match zip ids ports with
  | [] => Done (mk_cluster ∅ [])
  | (id, (rpc_port, gossip_port)) :: rest =>
      hub ← TestNode_start now id rpc_port gossip_port [];
      ns ← start_all now [test_addr gossip_port] rest;
      Done (mk_cluster (<[test_addr gossip_port := hub]> ns) [])
  end.

(** The address of the [i]-th node. *)
Definition nth_addr (base : N) (i : nat) : string := test_addr (base + 2 * N.of_nat i + 1).

(** [node.store.get(key).map(|v| v.value == expected).unwrap_or(false)]. *)
Definition holds c (x key expected : string) : bool :=
  match nodes c !! x with
  | Some n => match get (node_store n) key with
              | Some v => bool_decide (value v = expected)
              | None => false
              end
  | None => false
  end.

(** ** The clusters of the tests *)

Lemma alloc_ports_lookup base len ports i rp gp :
  alloc_ports base len = Done ports -> ports !! i = Some (rp, gp) ->
  gp = (base + 2 * N.of_nat i + 1)%N.
Proof.
  revert base ports i. induction len as [|len IH]; intros base ports i; cbn [alloc_ports].
  - by intros [= <-].
  - destruct (base + 1 <? 65536)%N; [|done]. unfold mbind, outcome_bind.
    destruct (alloc_ports _ len) as [ps|] eqn:E; [|done]. intros [= <-].
    destruct i as [|i]; [intros [= <- <-]; lia|]. intros Hi. rewrite (IH _ _ _ E Hi). lia.
Qed.

Lemma TestNode_start_Done now id rp gp seeds n :
  TestNode_start now id rp gp seeds = Done n ->
  exists store, n = start_node now (test_config id rp gp seeds) store /\ state store = ∅
                /\ store_node_id store = id.
Proof.
  unfold TestNode_start, StateStore_new, mbind, outcome_bind. destruct (bc_channel 256); [|done].
  intros [= <-]. by eexists.
Qed.

Lemma start_all_lookup now seeds l ns x n :
  start_all now seeds l = Done ns -> ns !! x = Some n ->
  exists i id rp gp, l !! i = Some (id, (rp, gp)) /\ x = test_addr gp
    /\ TestNode_start now id rp gp seeds = Done n.
Proof.
  revert ns. induction l as [|[id [rp gp]] l IH]; intros ns; cbn [start_all].
  - by intros [= <-].
  - unfold mbind, outcome_bind. destruct (TestNode_start _ _ _ _ _) as [m|] eqn:Hm; [|done].
    destruct (start_all now seeds l) as [ms|]; [|done]. intros [= <-].
    intros [[<- <-]|[_ Hx]]%lookup_insert_Some; [by exists 0, id, rp, gp|].
    destruct (IH _ eq_refl Hx) as (i & Hi). by exists (S i).
Qed.

(** Every node of a test cluster: its position, address, identifier and seeds. *)
Lemma test_cluster_lookup now base ids c x n :
  test_cluster now base ids = Done c -> nodes c !! x = Some n ->
  exists i id rp seeds, ids !! i = Some id /\ x = nth_addr base i
    /\ TestNode_start now id rp (base + 2 * N.of_nat i + 1)%N seeds = Done n
    /\ (seeds = [] \/ seeds = [nth_addr base 0]) /\ (i = 0 -> seeds = []).
Proof.
  unfold test_cluster, mbind, outcome_bind.
  destruct (alloc_ports base (length ids)) as [ports|] eqn:Hports; [|done].
  assert (forall i id rp gp, zip ids ports !! i = Some (id, (rp, gp)) ->
    ids !! i = Some id /\ gp = (base + 2 * N.of_nat i + 1)%N) as Hzip.
  { intros i id rp gp (? & [? ?] & [= -> -> ->] & Hi & Hp)%lookup_zip_with_Some. split; [done|].
    by eapply alloc_ports_lookup. }
  destruct (zip ids ports) as [|[id [rp gp]] rest]; [by intros [= <-]|].
  destruct (Hzip 0 id rp gp eq_refl) as [Hid ->].
  destruct (TestNode_start _ _ _ _ _) as [hub|] eqn:Hhub; [|done].
  destruct (start_all _ _ _) as [ns|] eqn:Hns; [|done]. intros [= <-]. cbn [nodes].
  intros [[<- <-]|[_ Hx]]%lookup_insert_Some.
  - exists 0, id, rp, []. split_and!; try done. by left.
  - destruct (start_all_lookup _ _ _ _ _ _ Hns Hx) as (i & id' & rp' & gp' & Hi & -> & Hn).
    destruct (Hzip (S i) id' rp' gp' Hi) as [Hid' ->].
    exists (S i), id', rp', [nth_addr base 0]. split_and!; try done. by right.
Qed.

Context `{!DashMapLaws PeerInfo}.

Lemma nth_addr_inj base i j : nth_addr base i = nth_addr base j -> i = j.
Proof. unfold nth_addr, test_addr. intros ?%socket_addr_inj. lia. Qed.

Lemma test_table now id rp gp seeds n pid p :
  TestNode_start now id rp gp seeds = Done n -> dm_get (node_peers n) pid = Some p ->
  pid ∈ seeds /\ gossip_addr p = pid /\ last_sync_ts p = 0%N.
Proof.
  intros (store & -> & _)%TestNode_start_Done Hp. unfold node_peers, start_node in Hp.
  cbn [node_mgr] in Hp. rewrite manager_new_registers_seeds, dm_get_new in Hp.
  case_decide as Hs; [|done]. injection Hp as <-. by destruct Hs.
Qed.

Section started.
Context (now : string -> N) (base : N) (ids : list string) (Hids : NoDup ids) (c0 : Cluster).
Context (Hstart : test_cluster now base ids = Done c0).

Lemma test_announced x n : nodes c0 !! x = Some n -> gossip_addr_of (mgr_config (node_mgr n)) = x.
Proof.
  intros Hn. destruct (test_cluster_lookup _ _ _ _ _ _ Hstart Hn)
    as (i & id & rp & seeds & _ & -> & (store & -> & _)%TestNode_start_Done & _). done.
Qed.

Lemma test_links x pid p : in_table c0 x pid p -> spoke_link (nth_addr base 0) x (gossip_addr p).
Proof.
  intros (n & Hn & Hp). destruct (test_cluster_lookup _ _ _ _ _ _ Hstart Hn)
    as (i & id & rp & seeds & _ & -> & Hs & Hseeds & _).
  destruct (test_table _ _ _ _ _ _ _ _ Hs Hp) as (Hin & -> & _).
  destruct Hseeds as [-> | ->]; [by apply not_elem_of_nil in Hin|].
  apply list_elem_of_singleton in Hin. by right.
Qed.

Lemma test_initial : initial c0.
Proof.
  assert (forall x n, nodes c0 !! x = Some n -> exists i id rp seeds, ids !! i = Some id
    /\ x = nth_addr base i /\ TestNode_start now id rp (base + 2 * N.of_nat i + 1)%N seeds = Done n) as Hl.
  { intros x n Hn. destruct (test_cluster_lookup _ _ _ _ _ _ Hstart Hn)
      as (i & id & rp & seeds & ? & ? & ? & _). by exists i, id, rp, seeds. }
  split.
  - revert Hstart. unfold test_cluster, mbind, outcome_bind.
    destruct (alloc_ports _ _); [|done]. destruct (zip _ _) as [|[? [? ?]] ?]; [by intros [= <-]|].
    destruct (TestNode_start _ _ _ _ _); [|done]. destruct (start_all _ _ _); [|done]. by intros [= <-].
  - intros x n Hn. by destruct (Hl _ _ Hn) as (i & id & rp & seeds & _ & _ & (st & -> & ? & _)%TestNode_start_Done).
  - intros x n Hn. by destruct (Hl _ _ Hn) as (i & id & rp & seeds & _ & _ & (st & -> & _)%TestNode_start_Done).
  - intros x n pid p Hn Hp. destruct (Hl _ _ Hn) as (i & id & rp & seeds & _ & _ & Hs).
    by destruct (test_table _ _ _ _ _ _ _ _ Hs Hp) as (_ & _ & ?).
  - intros x y n m Hn Hm. destruct (Hl _ _ Hn) as (i & id & rp & seeds & Hi & -> & (st & -> & _ & <-)%TestNode_start_Done).
    destruct (Hl _ _ Hm) as (j & id' & rp' & seeds' & Hj & -> & (st' & -> & _ & <-)%TestNode_start_Done).
    intros Heq. f_equal. eapply NoDup_lookup; [exact Hids|exact Hi|].
    rewrite Hj. f_equal. symmetry. exact Heq.
Qed.

Lemma test_pair x n : length ids = 2 -> nodes c0 !! x = Some n -> x = nth_addr base 0 \/ x = nth_addr base 1.
Proof.
  intros Hlen Hn. destruct (test_cluster_lookup _ _ _ _ _ _ Hstart Hn) as (i & id & rp & seeds & Hi & -> & _).
  apply lookup_lt_Some in Hi. destruct i as [|[|i]]; [by left|by right|lia].
Qed.

Lemma start_all_is_Some seeds l ns i id rp gp :
  start_all now seeds l = Done ns -> l !! i = Some (id, (rp, gp)) -> is_Some (ns !! test_addr gp).
Proof.
  revert ns i. induction l as [|[id' [rp' gp']] l IH]; intros ns i; cbn [start_all]; [done|].
  unfold mbind, outcome_bind. destruct (TestNode_start _ _ _ _ _) as [m|]; [|done].
  destruct (start_all now seeds l) as [ms|]; [|done]. intros [= <-]. rewrite lookup_insert_is_Some'.
  destruct i as [|i]; [intros [= -> -> ->]; by left|]. intros Hi. right. by eapply IH.
Qed.

Lemma test_node_at i : i < length ids -> is_Some (nodes c0 !! nth_addr base i).
Proof.
  intros Hi. revert Hstart. unfold test_cluster, mbind, outcome_bind.
  destruct (alloc_ports base (length ids)) as [ports|] eqn:Hports; [|done].
  assert (length ports = length ids) as Hlen.
  { clear -Hports. revert base ports Hports. generalize (length ids) as len.
    induction len as [|len IH]; intros base ports; cbn [alloc_ports]; [by intros [= <-]|].
    destruct (base + 1 <? 65536)%N; [|done]. unfold mbind, outcome_bind.
    destruct (alloc_ports _ len) as [ps|] eqn:E; [|done]. intros [= <-]. simpl. by rewrite (IH _ _ E). }
  destruct (lookup_lt_is_Some_2 ids i Hi) as [id Hid].
  destruct (lookup_lt_is_Some_2 ports i) as [[rp gp] Hp]; [lia|].
  assert (gp = (base + 2 * N.of_nat i + 1)%N) as Hgp by by eapply alloc_ports_lookup.
  assert (zip ids ports !! i = Some (id, (rp, gp))) as Hz by (apply lookup_zip_with_Some; eauto).
  unfold nth_addr. rewrite <-Hgp. destruct (zip ids ports) as [|[hid [hr hg]] rest]; [done|].
  destruct (TestNode_start _ _ _ _ _); [|done]. destruct (start_all _ _ _) as [ns|] eqn:Hns; [|done].
  intros [= <-]. cbn [nodes]. rewrite lookup_insert_is_Some'.
  destruct i as [|i]; [injection Hz as -> -> ->; by left|right]. by eapply start_all_is_Some.
Qed.

Lemma reached_node_at acts c i :
  run acts c0 = Some c -> i < length ids -> is_Some (nodes c !! nth_addr base i).
Proof.
  intros Hr [n Hn]%test_node_at.
  destruct (cluster_le_node _ _ _ _ (run_le _ _ _ Hr) Hn) as (n' & Hn' & _). by exists n'.
Qed.

(** ** The histories of the tests *)

Lemma history_one_write pre x clock key val c :
  Forall no_set pre -> run (pre ++ [ASet x clock key val]) c0 = Some c ->
  exists w, history (pre ++ [ASet x clock key val]) c0 = [(key, w)] /\ value w = val
            /\ now_micros clock = Done (timestamp w).
Proof.
  intros Hns. rewrite run_app. unfold mbind, option_bind.
  destruct (run pre c0) as [c1|] eqn:Hr; [|done]. cbn [run]. unfold mbind, option_bind.
  destruct (exec _ c1) as [c2|] eqn:E; [|done]. intros _.
  pose proof (hist_inv_run _ _ _ test_initial Hr) as Hh. rewrite history_no_set in Hh by done.
  rewrite (history_app _ _ _ _ Hr), history_no_set by done. cbn [history app].
  rewrite E, app_nil_r. apply exec_effect in E as (n & s & w & Hn & Hset & _).
  cbn [written]. rewrite Hn, Hset. exists w.
  destruct (set_Done _ _ _ _ _ _ Hset) as (t & Ht & _ & -> & _).
  destruct (state (node_store n) !! key) as [e|] eqn:He; [|done].
  by apply (hi_store _ _ _ Hh x n key e) in He as ?%not_elem_of_nil.
Qed.

(** Two writes of one key, the second at a later reading. *)
Lemma history_two_writes acts1 acts2 x y clock clock' key val val' t t' c :
  Forall no_set acts1 -> Forall no_set acts2 ->
  now_micros clock = Done t -> now_micros clock' = Done t' -> (t < t')%N ->
  run ((acts1 ++ [ASet x clock key val]) ++ acts2 ++ [ASet y clock' key val']) c0 = Some c ->
  exists w w', history ((acts1 ++ [ASet x clock key val]) ++ acts2 ++ [ASet y clock' key val']) c0
               = [(key, w); (key, w')] /\ value w' = val' /\ ~ rle w' w.
Proof.
  intros Hns1 Hns2 Ht Ht' Hlt. rewrite run_app. unfold mbind, option_bind.
  destruct (run (acts1 ++ _) c0) as [c1|] eqn:Hr1; [|done].
  destruct (history_one_write _ _ _ _ _ _ Hns1 Hr1) as (w & Hh1 & _ & Hw).
  rewrite (history_app _ _ _ _ Hr1), Hh1.
  pose proof (hist_inv_run _ _ _ test_initial Hr1) as Hh. rewrite Hh1 in Hh.
  rewrite run_app. unfold mbind, option_bind. destruct (run acts2 c1) as [c2|] eqn:Hr2; [|done].
  rewrite (history_app _ _ _ _ Hr2), (history_no_set acts2) by done.
  pose proof (past_inv_steps _ _ _ _ _ Hh Hr2) as Hh2. rewrite history_no_set, app_nil_r in Hh2 by done.
  cbn [run app history]. unfold mbind, option_bind. destruct (exec _ c2) as [c3|] eqn:E; [|done].
  intros _. apply exec_effect in E as (n & s & w' & Hn & Hset & _).
  cbn [written]. rewrite Hn, Hset. exists w, w'. rewrite app_nil_r. split; [done|].
  destruct (set_Done _ _ _ _ _ _ Hset) as (u & Hu & _ & -> & _).
  assert (timestamp w = t /\ u = t') as [Htw ->] by (split; congruence).
  assert (forall e, e = w -> join_value (Some e) (mk_lww val' t' (store_node_id (node_store n)))
    = mk_lww val' t' (store_node_id (node_store n))) as Hjoin.
  { intros e ->. cbn [join_value]. rewrite rmerge_r; [done|]. intros L%lww_le_timestamp. cbn in L. lia. }
  assert (join_value (state (node_store n) !! key) (mk_lww val' t' (store_node_id (node_store n)))
    = mk_lww val' t' (store_node_id (node_store n))) as ->.
  { destruct (state (node_store n) !! key) as [e|] eqn:He; [|done]. apply Hjoin.
    by apply (hi_store _ _ _ Hh2 y n key e) in He as [= ->]%list_elem_of_singleton. }
  split; [done|]. intros L%lww_le_timestamp. cbn in L. lia.
Qed.

Lemma converged_holds h c x key w :
  converged h c -> is_Some (nodes c !! x) -> (key, w) ∈ h ->
  (forall u, (key, u) ∈ h -> u = w \/ ~ rle w u) -> holds c x key (value w) = true.
Proof.
  intros Hc [n Hn] Hw Hmax. unfold holds. rewrite Hn. pose proof (Hc _ _ Hn key) as Hr.
  unfold get. change (state (node_store n)) with (node_state n).
  destruct (node_state n !! key) as [u|]; [|by destruct (Hr w)].
  destruct Hr as [Hu Hge]. apply bool_decide_eq_true. destruct (Hmax _ Hu) as [->|Hn']; [done|].
  destruct Hn'. by apply Hge.
Qed.
End started.

(** ** Properties *)

(** The tests two_node_write_propagates, three_node_star_convergence and
    five_node_hub_convergence, for any number of nodes, any key and value,
    and any gossip before and after the write: once the first node has served
    every other, the value is found at every node, and stays.  The reading
    of the clock must not be the epoch. *)
Theorem hub_write_propagates now base ids c0 acts0 clock key val t acts acts' c c1 c2 :
  NoDup ids -> test_cluster now base ids = Done c0 ->
  Forall no_set acts0 -> run (acts0 ++ [ASet (nth_addr base 0) clock key val]) c0 = Some c ->
  now_micros clock = Done t -> (0 < t)%N ->
  Forall no_set acts -> run acts c = Some c1 ->
  (forall i, 0 < i < length ids -> served acts c c1 (nth_addr base 0) (nth_addr base i)) ->
  Forall no_set acts' -> run acts' c1 = Some c2 ->
  forall i, i < length ids -> holds c2 (nth_addr base i) key val = true.
Proof.
  intros Hids Hstart Hns0 Hr0 Ht Hpos Hns Hr Hserved Hns' Hr' i Hi.
  destruct (history_one_write now base ids Hids c0 Hstart _ _ _ _ _ _ Hns0 Hr0) as (w & Hh & <- & _).
  destruct (star_converges (nth_addr base 0)
    (acts0 ++ [ASet (nth_addr base 0) clock key (value w)]) acts acts' c0 c c1 c2) as [Hc _]; try done.
  - split; [by eapply test_initial|done].
  - apply one_clock_skip; [done|]. cbn [one_clock]. by rewrite Ht.
  - apply Forall_app. split; [|by repeat constructor]. eapply Forall_impl; [exact Hns0|]. by intros [].
  - by eapply test_announced.
  - by eapply test_links.
  - intros x n Hn Hx. destruct (cluster_le_node_inv _ _ _ _ (run_le _ _ _ Hr0) Hn) as (n0 & Hn0 & _).
    destruct (test_cluster_lookup _ _ _ _ _ _ Hstart Hn0) as (j & id & rp & seeds & Hj & -> & _).
    apply Hserved. apply lookup_lt_Some in Hj. destruct j; [done|lia].
  - rewrite Hh in Hc. eapply converged_holds; [done| |left|].
    + eapply (reached_node_at now base ids c0 Hstart (_ ++ acts ++ acts')); [|done].
      by rewrite run_app, Hr0; cbn [mbind option_bind]; rewrite run_app, Hr.
    + intros u [= ->]%list_elem_of_singleton. by left.
Qed.

(** The tests crdt_last_write_wins_on_conflict and
    crdt_merge_never_regresses_state, for
    writes at either node and any gossip before, between and after them: if
    the second write takes a later reading of the clock, then once the two
    nodes have served each other both have its value, and keep it. *)
Theorem later_write_wins now base ida idb c0 acts1 acts2 x y clock clock' key val val' t t'
    acts acts' c c1 c2 :
  ida <> idb -> test_cluster now base [ida; idb] = Done c0 ->
  Forall no_set acts1 -> Forall no_set acts2 ->
  run ((acts1 ++ [ASet x clock key val]) ++ acts2 ++ [ASet y clock' key val']) c0 = Some c ->
  now_micros clock = Done t -> now_micros clock' = Done t' -> (0 < t < t')%N ->
  Forall no_set acts -> run acts c = Some c1 ->
  served acts c c1 (nth_addr base 0) (nth_addr base 1) ->
  served acts c c1 (nth_addr base 1) (nth_addr base 0) ->
  Forall no_set acts' -> run acts' c1 = Some c2 ->
  holds c2 (nth_addr base 0) key val' = true /\ holds c2 (nth_addr base 1) key val' = true.
Proof.
  intros Hne Hstart Hns1 Hns2 Hr0 Ht Ht' [Hpos Hlt] Hns Hr Hab Hba Hns' Hr'.
  assert (NoDup [ida; idb]) as Hids.
  { apply NoDup_cons. split; [by intros ?%list_elem_of_singleton|apply NoDup_singleton]. }
  destruct (history_two_writes now base _ Hids c0 Hstart _ _ _ _ _ _ _ _ _ _ _ _ Hns1 Hns2 Ht Ht' Hlt Hr0)
    as (w & w' & Hh & <- & Hnle).
  destruct (pair_converges (nth_addr base 0) (nth_addr base 1) _ acts acts' c0 c c1 c2
    (conj (test_initial _ _ _ Hids _ Hstart) Hr0)) as [Hc _]; try done.
  - rewrite <-app_assoc. apply one_clock_skip; [done|]. cbn [app one_clock]. rewrite Ht.
    split; [done|]. apply one_clock_skip; [done|]. cbn [one_clock]. by rewrite Ht'.
  - intros z n. by eapply test_pair.
  - rewrite Hh in Hc.
    assert (forall i, i < 2 -> holds c2 (nth_addr base i) key (value w') = true) as Hall; [|split; apply Hall; lia].
    intros i Hi. eapply converged_holds; [done| |right; left|].
    + eapply (reached_node_at now base _ c0 Hstart (_ ++ acts ++ acts')); [|done].
      by rewrite run_app, Hr0; cbn [mbind option_bind]; rewrite run_app, Hr.
    + intros u [[= ->]|[= ->]%list_elem_of_singleton]%elem_of_cons; [by right|by left].
Qed.
End tests.
