(* ===== verification/Polling.v ===== *)
(** The tests of tests/convergence.rs as they run: they write, and then poll
    for a condition, asleep in between while the nodes gossip, until it holds
    or the time is up.  How long each sleep took and what happened meanwhile
    is given. *)
From S2P Require Import Prelude Crdt Replica Broadcast Store Config DashMap Peer Protocol.
From S2P Require Import Manager Cluster ClusterLemmas ClusterSync Topology Convergence ConvergenceTests.

Section polling.
Context `{BroadcastLib StateEvent, DashMapLib PeerInfo}.
Implicit Types (c : Cluster) (sleeps : list (N * list action)).

(** [converge_within], [elapsed] after its start: [None] is a test that
    still sleeps.  The message of the panic also prints the time limit. *)
Fixpoint converge_within (predicate : Cluster -> bool) (timeout elapsed : N) sleeps c
  : option (outcome (N * Cluster)) :=
  if predicate c then Some (Done (elapsed, c))
  else if (elapsed <? timeout)%N then
    match sleeps with
    | [] => None
    | (d, acts) :: sleeps' =>
        c' ← run acts c; converge_within predicate timeout (elapsed + d)%N sleeps' c'
    end
  else Some (Panic "convergence timed out").

Definition slept sleeps : N := foldr (fun s t => s.1 + t)%N 0%N sleeps.
Definition meanwhile sleeps : list action := sleeps ≫= snd.

(** What the tests of a hub poll for: every other node has the value. *)
Definition all_hold (base : N) (n : nat) (key expected : string) c : bool :=
  forallb (fun i => holds c (nth_addr base i) key expected) (seq 1 (n - 1)).

(** ** Lemmas *)

Lemma slept_cons s sleeps : slept (s :: sleeps) = (s.1 + slept sleeps)%N.
Proof. done. Qed.

Lemma run_meanwhile s sleeps c c' :
  run (meanwhile (s :: sleeps)) c = Some c' ->
  exists c1, run s.2 c = Some c1 /\ run (meanwhile sleeps) c1 = Some c'.
Proof.
  unfold meanwhile; cbn [mbind list_bind]; rewrite run_app.
  unfold mbind, option_bind; destruct (run s.2 c) as [c1|]; [by exists c1 | done].
Qed.

(** A condition that holds after some sleeps, the last of which began in
    time, is noticed. *)
Lemma converge_within_in_time predicate timeout elapsed pre post c c1 :
  run (meanwhile pre) c = Some c1 -> predicate c1 = true ->
  (forall pre' s, pre = pre' ++ [s] -> elapsed + slept pre' < timeout)%N ->
  exists e c', converge_within predicate timeout elapsed (pre ++ post) c = Some (Done (e, c')).
Proof.
  revert elapsed c; induction pre as [|[d acts] pre IH]; intros elapsed c Hr Hp Hin.
  - injection Hr as ->. destruct post as [|[??]]; cbn; rewrite Hp; eauto.
  - apply run_meanwhile in Hr as (c2 & Hr & Hr2); cbn.
    destruct (predicate c); [eauto|].
    assert (elapsed < timeout)%N as Hlt.
    { destruct (exists_last (l := (d, acts) :: pre)) as (pre' & s & E); [done|].
      specialize (Hin pre' s E). lia. }
    rewrite (proj2 (N.ltb_lt _ _) Hlt); cbn [mbind option_bind]; simpl in Hr; rewrite Hr.
    apply IH; [done..|]; intros pre' s ->.
    specialize (Hin ((d, acts) :: pre') s eq_refl); rewrite slept_cons in Hin; simpl in Hin; lia.
Qed.

(** ** Properties *)

(** A test ends: when every sleep takes at least [poll_ms], which is not zero,
    it has an outcome after as many as make up the time limit. *)
Theorem converge_within_terminates predicate timeout poll_ms sleeps c c' :
  (0 < poll_ms)%N -> Forall (fun s => poll_ms <= s.1)%N sleeps ->
  (timeout <= N.of_nat (length sleeps) * poll_ms)%N -> run (meanwhile sleeps) c = Some c' ->
  is_Some (converge_within predicate timeout 0 sleeps c).
Proof.
  intros Hpos Hs Hlen. assert (timeout <= 0 + N.of_nat (length sleeps) * poll_ms)%N as Ht by lia.
  clear Hlen; revert Ht c; generalize 0%N as elapsed.
  induction Hs as [|[d acts] sleeps Hd Hs IH]; intros elapsed Ht c Hr; cbn.
  - destruct (predicate c); [done|]. rewrite (proj2 (N.ltb_ge _ _)); [done | by rewrite N.mul_0_l, N.add_0_r in Ht].
  - destruct (predicate c); [done|]; case_match; [|done].
    apply run_meanwhile in Hr as (c1 & Hr & Hr1); simpl in Hr; rewrite Hr; cbn [mbind option_bind].
    apply IH; [|done]. cbn [length fst] in *; rewrite Nat2N.inj_succ, N.mul_succ_l in Ht; lia.
Qed.

(** What the outcome of a test says: it returns at a moment when the
    condition holds, which may be after the time limit; it times out only if
    the limit has passed and the condition did not hold at any poll. *)
Theorem converge_within_outcome predicate timeout elapsed sleeps c o :
  converge_within predicate timeout elapsed sleeps c = Some o ->
  exists pre post c', sleeps = pre ++ post /\ run (meanwhile pre) c = Some c' /\
    match o with
    | Done (e, c1) => c1 = c' /\ e = (elapsed + slept pre)%N /\ predicate c' = true
    | Panic _ => (timeout <= elapsed + slept pre)%N /\
        forall pre1 pre2, pre = pre1 ++ pre2 ->
          exists c1, run (meanwhile pre1) c = Some c1 /\ predicate c1 = false
    end.
Proof.
  revert elapsed c; induction sleeps as [|[d acts] sleeps IH]; intros elapsed c; cbn;
    (destruct (predicate c) eqn:Hp; [|destruct (N.ltb_spec elapsed timeout)]).
  1, 4: intros [= <-]; eexists [], _, c; split_and!; try done; unfold slept; simpl; lia.
  2, 4: intros [= <-]; eexists [], _, c; split_and!; try done; [unfold slept; simpl; lia|];
    intros [] []; try done; intros _; by exists c.
  - done.
  - unfold mbind, option_bind; destruct (run acts c) as [c1|] eqn:Hr; [|done].
    intros (pre & post & c' & -> & Hr' & Ho)%IH; exists ((d, acts) :: pre), post, c'.
    assert (forall pre, run (meanwhile ((d, acts) :: pre)) c = run (meanwhile pre) c1) as Hstep.
    { intros pre'; unfold meanwhile; cbn [mbind list_bind]; by rewrite run_app; cbn; rewrite Hr. }
    rewrite Hstep; split_and!; [done..|]; destruct o as [[e c2]|]; rewrite slept_cons; cbn [fst].
    + destruct Ho as (-> & -> & ?); split_and!; [done | lia | done].
    + destruct Ho as [? Ho]; split; [lia|].
      intros [|s pre1] pre2; [intros _; by exists c|]; intros [= <- ->].
      destruct (Ho pre1 pre2 eq_refl) as (c2 & ? & ?); exists c2; by rewrite Hstep.
Qed.

Context `{!DashMapLaws PeerInfo}.

(** The tests two_node_write_propagates, three_node_star_convergence and
    five_node_hub_convergence pass, for any number of nodes: if the first
    node has served every other by the end of a sleep that began in time, the
    polling returns. *)
Theorem hub_test_passes now base names c0 acts0 clock key val t pre post timeout c c1 :
  NoDup names -> test_cluster now base names = Done c0 ->
  Forall no_set acts0 -> run (acts0 ++ [ASet (nth_addr base 0) clock key val]) c0 = Some c ->
  now_micros clock = Done t -> (0 < t)%N ->
  Forall no_set (meanwhile pre) -> run (meanwhile pre) c = Some c1 ->
  (forall i, 0 < i < length names -> served (meanwhile pre) c c1 (nth_addr base 0) (nth_addr base i)) ->
  (forall pre' s, pre = pre' ++ [s] -> slept pre' < timeout)%N ->
  exists e c', converge_within (all_hold base (length names) key val) timeout 0 (pre ++ post) c = Some (Done (e, c')).
Proof.
  intros Hids Hstart Hns0 Hr0 Ht Hpos Hns Hr Hserved Hin.
  apply (converge_within_in_time _ _ _ _ _ _ c1); [done| |by intros pre' s E; rewrite N.add_0_l; apply (Hin pre' s)].
  apply forallb_forall; intros i Hi%in_seq.
  apply (hub_write_propagates now base names c0 acts0 clock key val t (meanwhile pre) [] c c1 c1);
    try done; lia.
Qed.
End polling.
