(* ===== verification/Demo.v ===== *)
(** Concrete clusters for the examples: two nodes, at "A:7071" and "B:7071",
    over the example instances of the channel and of the peer table. *)
From S2P Require Import Prelude Crdt Replica Broadcast Store StoreConc Config DashMap Peer.
From S2P Require Import Protocol Manager Cluster ClusterLemmas.

Definition addr_a : string := "A:7071".
Definition addr_b : string := "B:7071".

Definition demo_config (host : string) (seeds : list string) : Config :=
  mk_config host 7070 7071 None seeds 1000 3 4096.

Definition demo_node (id host : string) (seeds : list string) : Node :=
  start_node (fun _ => 0%N) (demo_config host seeds) (demo_store id ∅).

(** Node "node-b" is seeded with the address of "node-a". *)
Definition demo_cluster : Cluster :=
  mk_cluster (<[addr_a := demo_node "node-a" "A" []]>
             (<[addr_b := demo_node "node-b" "B" [addr_a]]> ∅)) [].

(** A complete exchange: one round of [addr], whose only push is flight [i]. *)
Definition full_push (addr : string) (i : nat) (now : N) : list action :=
  [ARoundStart addr no_shuffle; ARoundTarget addr canonical_iter;
   AMerge i; ARegister i now; AAck i now; ARoundEnd addr].

Lemma demo_nodes a n :
  nodes demo_cluster !! a = Some n ->
  (a = addr_a /\ n = demo_node "node-a" "A" []) \/ (a = addr_b /\ n = demo_node "node-b" "B" [addr_a]).
Proof.
  unfold demo_cluster. cbn [nodes]. rewrite !lookup_insert.
  case_decide; [intros [= <-]; by left|]. case_decide; [intros [= <-]; by right|].
  by rewrite lookup_empty.
Qed.

Lemma demo_initial : initial demo_cluster.
Proof.
  split; [done|..].
  - by intros a n [[_ ->]|[_ ->]]%demo_nodes.
  - by intros a n [[_ ->]|[_ ->]]%demo_nodes.
  - intros a n pid p Hn. destruct (demo_nodes _ _ Hn) as [[_ ->]|[_ ->]]; intros Hp;
      unfold demo_node, start_node, node_peers in Hp; cbn [node_mgr] in Hp;
      unfold GossipManager_new in Hp; cbn [mgr_peers] in Hp; rewrite register_seeds_get in Hp;
      rewrite dm_get_new in Hp; case_decide; by simplify_eq.
  - intros a b n m Hn Hm. destruct (demo_nodes _ _ Hn) as [[-> ->]|[-> ->]],
      (demo_nodes _ _ Hm) as [[-> ->]|[-> ->]]; done.
Qed.
