(* ===== verification/SharedIdentifier.v ===== *)
(** Two processes under one identifier.  A node that starts again under its
    configured identifier knows nothing of what it wrote before, and nothing
    keeps it from stamping another value of a key with the reading of the
    clock and the identifier of the former one, if its clock was set back in
    between.  Neither value then wins over the other. *)
From S2P Require Import Prelude Crdt Replica Broadcast Store StoreConc Config DashMap Peer.
From S2P Require Import Protocol Manager Cluster ClusterLemmas ClusterSync Starved Restart RestartRuns Demo.

Section tied.
Context `{BroadcastLib StateEvent, DashMapLib PeerInfo}.
Context (k : string) (st : N * string).
Implicit Types (c : Cluster) (n : Node).

(** All values of the key, stored or on their way, have one stamp. *)
Definition one_stamp c : Prop :=
  (forall a n w, nodes c !! a = Some n -> node_state n !! k = Some w -> stamp w = st)
  /\ (forall i f w, flights c !! i = Some f -> (k, w) ∈ fl_deltas f -> stamp w = st).

Definition keeps (n n' : Node) : Prop :=
  forall w, node_state n !! k = Some w -> node_state n' !! k = Some w.

(** Values that do not win change nothing. *)
Lemma absorb_all_keep (m : StateMap) d w :
  m !! k = Some w -> (forall u, (k, u) ∈ d -> rle u w) -> absorb_all m d !! k = Some w.
Proof.
  revert m. induction d as [|[k' u] d IH]; intros m Hm Hd; [done|].
  change (absorb_all (absorb m (k', u)) d !! k = Some w).
  apply IH; [|intros u' Hu'; apply Hd; by right].
  rewrite lookup_absorb. case_decide as Hk; [subst k'|done]. unfold join_value. rewrite Hm.
  rewrite rmerge_l; [done|]. apply Hd. by left.
Qed.

(** One node changes, to one that has what it had and nothing of another
    stamp. *)
Lemma one_stamp_node c b m m' a n :
  one_stamp c -> nodes c !! b = Some m -> keeps m m' ->
  (forall w, node_state m' !! k = Some w -> stamp w = st) -> nodes c !! a = Some n ->
  exists n', <[b := m']> (nodes c) !! a = Some n' /\ keeps n n'
    /\ forall w, node_state n' !! k = Some w -> stamp w = st.
Proof.
  intros [Hn _] Hb Hk Hw Ha. destruct (decide (b = a)) as [->|Hne].
  - exists m'. rewrite lookup_insert_eq. assert (n = m) as -> by congruence. by split_and!.
  - exists n. rewrite lookup_insert_ne by done. split_and!; [done|by intros w|]. intros w. by apply (Hn a).
Qed.

Lemma one_stamp_exec c act c' a n :
  one_stamp c -> leaves k act -> exec act c = Some c' -> nodes c !! a = Some n ->
  exists n', nodes c' !! a = Some n' /\ keeps n n' /\ forall w, node_state n' !! k = Some w -> stamp w = st.
Proof.
  intros Hs Hl E%exec_effect Ha. pose proof Hs as [Hn Hf].
  assert (forall b m m', nodes c !! b = Some m -> node_state m' !! k = node_state m !! k ->
    exists n', <[b := m']> (nodes c) !! a = Some n' /\ keeps n n'
      /\ forall w, node_state n' !! k = Some w -> stamp w = st) as Hsame.
  { intros b m m' Hb Heq. apply (one_stamp_node c b m m'); try done.
    - intros w. by rewrite Heq.
    - intros w. rewrite Heq. by apply (Hn b). }
  destruct act; cbn [effect] in E; split_hyps; subst c'; cbn [nodes put_node put_flight];
    try (by eapply Hsame); try (exists n; split_and!; [done|by intros w|intros w; by apply (Hn a)]).
  - eapply Hsame; [eassumption|]. destruct (set_Done _ _ _ _ _ _ H2) as (t & _ & Hst & _).
    unfold node_state, node_store, with_store. cbn [node_mgr mgr_store].
    by rewrite Hst, lookup_absorb, decide_False by done.
  - apply (one_stamp_node c _ x0); [done|done| |  |done].
    + intros w Hw. unfold node_state, node_store, with_store. cbn [node_mgr mgr_store].
      rewrite merge_delta_state. apply absorb_all_keep; [done|]. intros u Hu.
      apply lww_le_stamp. by rewrite (Hf _ _ _ H1 Hu), (Hn _ _ _ H3 Hw).
    + intros w. unfold node_state, node_store, with_store. cbn [node_mgr mgr_store].
      rewrite merge_delta_state. intros [Hw|Hw]%absorb_all_source; [by apply (Hn _ _ _ H3)|by apply (Hf _ _ _ H1)].
Qed.

Context `{!DashMapLaws PeerInfo}.

Lemma one_stamp_flights c act c' i f w :
  one_stamp c -> exec act c = Some c' -> flights c' !! i = Some f -> (k, w) ∈ fl_deltas f -> stamp w = st.
Proof.
  intros [Hn Hf] E Hi Hw. destruct (exec_flights _ _ _ _ _ E Hi) as [Hold|[(g & Hg & _ & Ht & _)|Hnew]].
  - by eapply Hf.
  - unfold fl_deltas in Hw. rewrite Ht in Hw. by eapply Hf.
  - destruct Hnew as (a & it & n & gen & [pid info] & ts & task & _ & Ha & _ & Ht & ->).
    destruct (round_target_Some _ _ _ _ _ _ _ Ht) as (_ & _ & Hd & _). unfold fl_deltas in Hw. cbn [fl_task] in Hw.
    rewrite Hd in Hw. apply elem_of_delta_since_map in Hw as [Hw _]. by apply (Hn a n).
Qed.

(** Whatever gossip follows, every node keeps the value it has. *)
Lemma one_stamp_run acts c c' a n w :
  one_stamp c -> Forall (leaves k) acts -> run acts c = Some c' ->
  nodes c !! a = Some n -> node_state n !! k = Some w ->
  exists n', nodes c' !! a = Some n' /\ node_state n' !! k = Some w.
Proof.
  revert c n. induction acts as [|act acts IH]; intros c n Hs; cbn [run].
  - intros _ [= <-] Ha Hw. by exists n.
  - intros [Hl Hls]%Forall_cons. unfold mbind, option_bind. destruct (exec act c) as [c1|] eqn:E; [|done].
    intros Hr Ha Hw. destruct (one_stamp_exec _ _ _ _ _ Hs Hl E Ha) as (n1 & Ha1 & Hk1 & _).
    apply (IH c1 n1); [|done|done|done|by apply Hk1]. split.
    + intros b m1 u Hb. destruct (cluster_le_node_inv _ _ _ _ (exec_le _ _ _ E) Hb) as (m & Hm & _).
      destruct (one_stamp_exec _ _ _ _ _ Hs Hl E Hm) as (m1' & Hm1' & _ & Hst).
      assert (m1' = m1) as -> by congruence. apply Hst.
    + intros i f u. by eapply one_stamp_flights.
Qed.

(** Deciding [one_stamp]. *)
Definition one_stampb c : bool :=
  forallb (fun an => match node_state an.2 !! k with Some w => bool_decide (stamp w = st) | None => true end)
    (map_to_list (nodes c))
  && forallb (fun f => forallb (fun kv => negb (bool_decide (kv.1 = k)) || bool_decide (stamp kv.2 = st)) (fl_deltas f))
       (flights c).

Lemma one_stampb_sound c : one_stampb c = true -> one_stamp c.
Proof.
  unfold one_stampb. intros [Hn Hf]%andb_true_iff. rewrite forallb_forall in Hn, Hf. split.
  - intros a n w Ha Hw. specialize (Hn (a, n)). cbn in Hn. rewrite Hw in Hn.
    apply (bool_decide_eq_true_1 _). apply Hn, list_elem_of_In. by apply elem_of_map_to_list.
  - intros i f w Hi Hw. specialize (Hf f). rewrite forallb_forall in Hf.
    apply list_elem_of_lookup_2, list_elem_of_In in Hi. specialize (Hf Hi (k, w)).
    rewrite <-list_elem_of_In in Hf. specialize (Hf Hw). cbn in Hf. rewrite bool_decide_eq_true_2 in Hf by done.
    by apply (bool_decide_eq_true_1 _) in Hf.
Qed.
End tied.

(** ** The execution *)

(** The configuration "node-b" is started again with. *)
Definition same_id : Config := mk_config "B" 7070 7071 (Some "node-b") [addr_a] 1000 3 4096.

(** "node-b" writes and pushes to "node-a"; it starts again, and writes at the
    same reading of the clock; both push. *)
Definition tied_run : list live_action :=
  (Step <$> (ASet addr_b 100000 "k" "first" :: full_push addr_b 0 1))
  ++ [Start addr_b "uuid" (fun _ => 0%N) same_id]
  ++ (Step <$> (ASet addr_b 100000 "k" "second" :: full_push addr_b 1 2)).

Definition tied_end : Cluster := default demo_cluster (live_run tied_run demo_cluster).

Lemma tied_runs : live_run tied_run demo_cluster = Some tied_end.
Proof.
  unfold tied_end.
  assert (match live_run tied_run demo_cluster with Some _ => true | None => false end = true) as Hs
    by by vm_compute.
  by destruct (live_run tied_run demo_cluster).
Qed.

(** C11: Identifiers that are used again break the agreement.  In this execution the
    two values of "k" carry one stamp, so that neither wins; everything was
    pushed and acknowledged, and yet the nodes hold different values, and will,
    whatever gossip and whatever writes of other keys follow. *)
Theorem shared_identifier_disagrees :
  initial demo_cluster /\ live_run tied_run demo_cluster = Some tied_end
  /\ fl_phase <$> flights tied_end = [Closed; Closed]
  /\ ~ coherent (live_history tied_run demo_cluster)
  /\ forall acts c a b, Forall (leaves "k") acts -> run acts tied_end = Some c ->
       nodes c !! addr_a = Some a -> nodes c !! addr_b = Some b ->
       get (node_store a) "k" = Some (mk_lww "first" 100 "node-b")
       /\ get (node_store b) "k" = Some (mk_lww "second" 100 "node-b").
Proof.
  split; [exact demo_initial|]. split; [exact tied_runs|]. split; [by vm_compute|]. split.
  { intros Hc. assert (mk_lww "first" 100 "node-b" = mk_lww "second" 100 "node-b"); [|done].
    assert (live_history tied_run demo_cluster
      = [("k", mk_lww "first" 100 "node-b"); ("k", mk_lww "second" 100 "node-b")]) as E by by vm_compute.
    rewrite E in Hc. apply (Hc "k"); [by left|by right; left|by apply lww_le_stamp|by apply lww_le_stamp]. }
  intros acts c a b Hl Hr Ha Hb.
  assert (one_stamp "k" (100%N, "node-b") tied_end) as Hs by (apply one_stampb_sound; by vm_compute).
  assert (forall x v, match nodes tied_end !! x with
                      | Some n => bool_decide (node_state n !! "k" = Some v) | None => false end = true ->
          forall n, nodes c !! x = Some n -> get (node_store n) "k" = Some v) as Hx.
  { intros x v Hx n Hn. destruct (nodes tied_end !! x) as [n0|] eqn:Hn0; [|done].
    apply bool_decide_eq_true in Hx.
    destruct (one_stamp_run _ _ _ _ _ _ _ _ Hs Hl Hr Hn0 Hx) as (n' & Hn' & Hv). by assert (n' = n) as <- by congruence. }
  split; [apply (Hx addr_a); [by vm_compute|exact Ha]|apply (Hx addr_b); [by vm_compute|exact Hb]].
Qed.
