(* ===== verification/StarDivergence.v ===== *)
(** The execution on which three_node_concurrent_writes_all_converge, of
    tests/convergence.rs, never ends: three nodes with one clock, the first
    the seed of the others, each writing a key of its own.  The hub relays
    the last write before it hears of the second, which it then takes for
    old. *)
From S2P Require Import Prelude Crdt Replica Broadcast Store StoreConc Config DashMap Peer.
From S2P Require Import Protocol Manager Cluster ClusterLemmas ClusterSafety ClusterSync Topology.
From S2P Require Import Convergence OneClock Starved ConvergenceTests Polling Demo.

Definition star_ids : list string := ["node-a"; "node-b"; "node-c"].
Definition star_start : Cluster :=
  match test_cluster (fun _ => 0%N) 19000 star_ids with Done c => c | Panic _ => demo_cluster end.

Definition hub_a : string := nth_addr 19000 0.
Definition spoke_b : string := nth_addr 19000 1.
Definition spoke_c : string := nth_addr 19000 2.

(** Flight [i] is received, registered and acknowledged. *)
Definition delivery (i : nat) : list action := [AMerge i; ARegister i 5; AAck i 5].

(** The spokes introduce themselves; the three writes, 100 microseconds apart;
    "node-c" pushes, the hub pushes to both, "node-b" pushes (twice, to the
    seed address and to the identifier it has learnt since). *)
Definition star_run : list action :=
  full_push spoke_b 0 1 ++ full_push spoke_c 1 2
  ++ [ASet hub_a 100000 "key-a" "val-a"; ASet spoke_b 200000 "key-b" "val-b";
      ASet spoke_c 300000 "key-c" "val-c"]
  ++ full_push spoke_c 2 3
  ++ ARoundStart hub_a no_shuffle :: ARoundTarget hub_a canonical_iter :: ARoundTarget hub_a canonical_iter
     :: delivery 3 ++ delivery 4 ++ [ARoundEnd hub_a]
  ++ ARoundStart spoke_b no_shuffle :: ARoundTarget spoke_b canonical_iter
     :: ARoundTarget spoke_b canonical_iter :: delivery 5 ++ delivery 6 ++ [ARoundEnd spoke_b].

Definition star_end : Cluster := default star_start (run star_run star_start).
Definition value_b : LwwValue := mk_lww "val-b" 200 "node-b".

Lemma star_started : test_cluster (fun _ => 0%N) 19000 star_ids = Done star_start.
Proof.
  unfold star_start.
  assert (match test_cluster (fun _ => 0%N) 19000 star_ids with Done _ => true | Panic _ => false end = true)
    as Hs by by vm_compute.
  by destruct (test_cluster _ _ _).
Qed.

Lemma star_runs : run star_run star_start = Some star_end.
Proof.
  unfold star_end.
  assert (match run star_run star_start with Some _ => true | None => false end = true) as Hs
    by by vm_compute.
  by destruct (run star_run star_start).
Qed.

Lemma star_nodup : NoDup star_ids.
Proof. by apply (bool_decide_unpack (NoDup star_ids)); vm_compute. Qed.

Lemma star_tables : table_inv star_end.
Proof. eapply struct_table, struct_inv_run; [|exact star_runs]. eapply test_initial; [exact star_nodup|exact star_started]. Qed.

Lemma star_starved : starved hub_a spoke_c "key-b" value_b star_end.
Proof.
  apply starvedb_sound; [|by vm_compute].
  pose proof (test_initial _ _ _ star_nodup _ star_started) as Hi.
  eapply linked_run; [|by eapply struct_table, struct_inv_initial| |exact star_runs].
  - intros x y [?|?]; [by right|by left].
  - apply linked_initial; [done|by eapply test_announced, star_started|by eapply test_links, star_started].
Qed.

Lemma star_lacks_b acts c :
  Forall (leaves "key-b") acts -> run acts star_end = Some c -> holds c spoke_c "key-b" "val-b" = false.
Proof.
  intros Hl Hr. unfold holds. destruct (nodes c !! spoke_c) as [n|] eqn:Hn; [|done].
  by rewrite (starved_spoke hub_a spoke_c (ltac:(by vm_compute)) "key-b" value_b acts star_end c n
    star_tables star_starved Hl Hr Hn).
Qed.

(** What the test polls for. *)
Definition all_three (c : Cluster) : bool :=
  forallb (fun x => holds c x "key-a" "val-a" && holds c x "key-b" "val-b" && holds c x "key-c" "val-c")
    [hub_a; spoke_b; spoke_c].

(** C10: Three nodes can diverge for ever under one clock.  In the cluster of the
    test three_node_concurrent_writes_all_converge, with its three writes
    stamped in order by one clock, there is an execution after which every
    push has been acknowledged, the first two nodes have all three values,
    and the third lacks "key-b"; no gossip, and no write of other keys, ever
    brings it to the third node: the test never returns, whatever its time
    limit, and it ends only by timing out. *)
Theorem concurrent_writes_can_diverge :
  test_cluster (fun _ => 0%N) 19000 star_ids = Done star_start
  /\ run star_run star_start = Some star_end /\ one_clock 0 star_run
  /\ fl_phase <$> flights star_end = replicate 7 Closed
  /\ forallb (fun x => holds star_end x "key-a" "val-a" && holds star_end x "key-b" "val-b"
                       && holds star_end x "key-c" "val-c") [hub_a; spoke_b] = true
  /\ (forall acts c, Forall (leaves "key-b") acts -> run acts star_end = Some c ->
        holds c spoke_c "key-b" "val-b" = false)
  /\ forall timeout sleeps e c, Forall (leaves "key-b") (meanwhile sleeps) ->
       converge_within all_three timeout 0 sleeps star_end <> Some (Done (e, c)).
Proof.
  split; [exact star_started|]. split; [exact star_runs|]. split; [by repeat split|].
  split; [by vm_compute|]. split; [by vm_compute|]. split; [exact star_lacks_b|].
  intros timeout sleeps e c Hl (pre & post & c' & -> & Hr & _ & _ & Hall)%converge_within_outcome.
  unfold meanwhile in Hl; rewrite bind_app in Hl; apply Forall_app in Hl as [Hl _].
  pose proof (star_lacks_b _ _ Hl Hr) as Hb.
  unfold all_three in Hall; cbn [forallb] in Hall; rewrite Hb, !andb_true_r, !andb_false_r in Hall; done.
Qed.
