(* ===== verification/Divergence.v ===== *)
(** What the condition of ClusterSync.v excludes.  Once a node's cursors for
    a peer have passed the timestamp of an entry that the peer lacks, no
    further gossip brings it: [stuck] describes such a pair of nodes and is
    preserved by every step but a write.  The concrete execution that leads
    there needs only two nodes whose clocks disagree. *)
From S2P Require Import Prelude Crdt Replica Broadcast Store StoreConc Config DashMap Peer.
From S2P Require Import Protocol Manager Cluster ClusterLemmas ClusterSafety ClusterSync Demo.

Section stuck.
Context `{BroadcastLib StateEvent, DashMapLib PeerInfo, !DashMapLaws PeerInfo}.
Context (a b : string) (Hab : a <> b) (id_b : string) (ma mb : StateMap) (t : N).
Context (Hold : forall k v, ma !! k = Some v -> (timestamp v <= t)%N) (Hmb : mle mb ma).
Implicit Types (c : Cluster) (n : Node) (f : flight).

(** Node [a] holds [ma] and node [b] holds [mb]; all that is in flight is
    known to both; every cursor of [a], all of them for [b], is past [ma]. *)
Record stuck c : Prop := {
  sk_node x n : nodes c !! x = Some n ->
    (x = a /\ node_state n = ma) \/ (x = b /\ node_state n = mb /\ node_id_of n = id_b);
  sk_known : exists p, in_table c a id_b p;
  sk_peers pid p : in_table c a pid p -> gossip_addr p = b /\ (t <= last_sync_ts p)%N;
  sk_round n gen ts pid info :
    nodes c !! a = Some n -> node_round n = Some (gen, ts) -> (pid, info) ∈ ts ->
    gossip_addr info = b /\ (t <= last_sync_ts info)%N;
  sk_flight i f : flights c !! i = Some f ->
    (forall kv, kv ∈ fl_deltas f -> dominates ma kv /\ dominates mb kv)
    /\ (fl_dst f = a -> from_node_id (task_msg (fl_task f)) = id_b);
}.

Lemma stuck_state act c c' x n' :
  stuck c -> no_set act -> exec act c = Some c' -> nodes c' !! x = Some n' ->
  exists n, nodes c !! x = Some n /\ node_state n' = node_state n /\ node_id_of n' = node_id_of n.
Proof.
  intros Hs Hns E%exec_effect Hn'.
  assert (forall y m m', nodes c !! y = Some m -> node_state m' = node_state m ->
    node_id_of m' = node_id_of m -> <[y := m']> (nodes c) !! x = Some n' ->
    exists n, nodes c !! x = Some n /\ node_state n' = node_state n /\ node_id_of n' = node_id_of n)
    as Hsame.
  { intros y m m' Hm Hst Hid Hx. destruct (decide (y = x)) as [->|Hne].
    - rewrite lookup_insert_eq in Hx. simplify_eq. eauto.
    - rewrite lookup_insert_ne in Hx by done. eauto. }
  destruct act; cbn [effect] in E; try done; split_hyps; subst c'; simpl in Hn'; eauto;
    (eapply Hsame; [eassumption| | |exact Hn']; try done).
  - unfold node_state, node_store, with_store. simpl. rewrite merge_delta_state.
    apply absorb_all_dominated. intros kv Hkv.
    destruct (sk_flight _ Hs _ _ H1) as [Hd _]. destruct (Hd _ Hkv).
    change (dominates (node_state x1) kv).
    by destruct (sk_node _ Hs _ _ H3) as [[_ ->]|(_ & -> & _)].
  - unfold node_id_of, node_store, with_store. simpl. apply merge_delta_node_id.
Qed.

Lemma stuck_peers act c c' pid p' :
  struct_inv c -> stuck c -> exec act c = Some c' -> in_table c' a pid p' ->
  gossip_addr p' = b /\ (t <= last_sync_ts p')%N.
Proof.
  intros Hi Hs E (n' & Hn' & Hp').
  destruct (exec_peers _ _ _ _ _ _ _ (struct_table _ Hi) E Hn' Hp') as [(_ & Hnew)|(n & p & Hn & Hp & -> & Hc)].
  - destruct Hnew as (i & now & f & n & _ & Hf & Hdst & Hid & Hn & Hnone & _). exfalso.
    destruct (sk_flight _ Hs _ _ Hf) as [_ Hfrom]. rewrite (Hfrom Hdst) in Hid. subst pid.
    destruct (sk_known _ Hs) as (p & n0 & Hn0 & Hp). congruence.
  - destruct (sk_peers _ Hs pid p) as [? ?]; [by exists n|]. split; [done|].
    destruct Hc as [->|(i & f & ack & _ & _ & _ & _ & _ & ->)]; lia.
Qed.

Lemma stuck_new_flight c x n gen tgt ts it task :
  struct_inv c -> stuck c -> nodes c !! x = Some n -> node_round n = Some (gen, tgt :: ts) ->
  round_target it (node_store n) (mgr_config (node_mgr n)) gen tgt = Some task ->
  let f := mk_flight x task Sending true in
  (forall kv, kv ∈ fl_deltas f -> dominates ma kv /\ dominates mb kv)
  /\ (fl_dst f = a -> from_node_id (task_msg (fl_task f)) = id_b).
Proof.
  intros Hi Hs Hn Hr Ht. destruct tgt as [pid info]. cbv zeta. unfold fl_deltas, fl_dst. simpl.
  destruct (round_target_Some _ _ _ _ _ _ _ Ht) as (_ & -> & -> & -> & _).
  destruct (sk_node _ Hs _ _ Hn) as [[-> Hst]|(-> & Hst & Hid)].
  - destruct (sk_round _ Hs _ _ _ pid info Hn Hr) as [-> Hc]; [left|]. split; [|done].
    intros [k v] [Hk Hlt]%elem_of_delta_since_map. exfalso.
    change (node_state n !! k = Some v) in Hk. rewrite Hst in Hk. apply Hold in Hk. lia.
  - split; [|done]. intros [k v] [Hk _]%elem_of_delta_since_map.
    change (node_state n !! k = Some v) in Hk. rewrite Hst in Hk.
    split; [by apply Hmb|]. exists v. split; [done|reflexivity].
Qed.

Lemma stuck_exec act c c' :
  struct_inv c -> stuck c -> no_set act -> exec act c = Some c' -> stuck c'.
Proof.
  intros Hi Hs Hns E. split.
  - intros x n' Hn'. destruct (stuck_state _ _ _ _ _ Hs Hns E Hn') as (n & Hn & -> & ->).
    by apply (sk_node _ Hs).
  - destruct (sk_known _ Hs) as (p & n & Hn & Hp).
    destruct (cluster_le_node _ _ _ _ (exec_le _ _ _ E) Hn) as (n' & Hn' & _ & Hle & _).
    destruct (Hle _ _ Hp) as (p' & Hp' & _). by exists p', n'.
  - intros pid p'. by eapply stuck_peers.
  - intros n' gen ts pid info Hn' Hr Hin.
    destruct (exec_round_side _ _ _ E _ _ Hn' _ _ _ _ Hr Hin) as [(n & g0 & t0 & ? & ? & ?)|Htab].
    + by eapply sk_round.
    + by apply (sk_peers _ Hs pid).
  - intros i f' Hf'.
    destruct (exec_flights _ _ _ _ _ E Hf') as [Hf|[(f & Hf & _ & Htask & _)|Hnew]].
    + by eapply sk_flight.
    + unfold fl_deltas, fl_dst. rewrite Htask. by apply (sk_flight _ Hs i f).
    + destruct Hnew as (x & it & n & gen & tgt & ts & task & _ & Hn & Hr & Ht & ->).
      by eapply stuck_new_flight.
Qed.

Lemma stuck_run acts c c' :
  struct_inv c -> stuck c -> Forall no_set acts -> run acts c = Some c' -> stuck c'.
Proof.
  revert c. induction acts as [|act acts IH]; intros c Hi Hs Hns Hr; cbn [run] in Hr.
  - congruence.
  - unfold mbind, option_bind in Hr. destruct (exec act c) as [c1|] eqn:E; [|done].
    apply Forall_cons in Hns as [Hn Hns].
    apply (IH c1); [by eapply struct_inv_exec|by eapply stuck_exec|done|done].
Qed.
End stuck.

(** ** The execution *)

Definition entry1 : LwwValue := mk_lww "v1" 100 "node-b".
Definition entry2 : LwwValue := mk_lww "v2" 50 "node-a".

(** The clock of "node-b" is 50 microseconds ahead of that of "node-a".  Node
    "node-b" writes k1 and pushes it to "node-a"; "node-a" learns the address
    of "node-b" from that message and pushes all it has, k1, back; then
    "node-a" writes k2. *)
Definition skewed : list action :=
  ASet addr_b 100000 "k1" "v1" :: full_push addr_b 0 1 ++ full_push addr_a 1 2
  ++ [ASet addr_a 50000 "k2" "v2"].

Definition peer_b : PeerInfo := mk_peer addr_b 2 100 2.

Definition skewed_end : Cluster := default demo_cluster (run skewed demo_cluster).
Definition node_at (c : Cluster) (addr : string) : Node :=
  default (demo_node "" "" []) (nodes c !! addr).

Lemma skewed_run : run skewed demo_cluster = Some skewed_end.
Proof.
  unfold skewed_end.
  assert (match run skewed demo_cluster with Some _ => true | None => false end = true) as Hs
    by by vm_compute.
  by destruct (run skewed demo_cluster).
Qed.

Definition map_a : StateMap := {["k1" := entry1; "k2" := entry2]}.
Definition map_b : StateMap := {["k1" := entry1]}.

Lemma skewed_values :
  node_state (node_at skewed_end addr_a) = map_a
  /\ node_state (node_at skewed_end addr_b) = map_b
  /\ node_id_of (node_at skewed_end addr_b) = "node-b"
  /\ dm_iter (node_peers (node_at skewed_end addr_a)) = [("node-b", peer_b)]
  /\ node_round (node_at skewed_end addr_a) = None
  /\ (fun f => (fl_deltas f, fl_dst f, from_node_id (task_msg (fl_task f)))) <$> flights skewed_end
     = [([("k1", entry1)], addr_a, "node-b"); ([("k1", entry1)], addr_b, "node-a")].
Proof. by repeat split; vm_compute. Qed.

Lemma skewed_lookup x n :
  nodes skewed_end !! x = Some n ->
  (x = addr_a /\ n = node_at skewed_end addr_a) \/ (x = addr_b /\ n = node_at skewed_end addr_b).
Proof.
  intros Hn. assert (n = node_at skewed_end x) as -> by (unfold node_at; by rewrite Hn).
  destruct (cluster_le_node_inv _ _ _ _ (run_le _ _ _ skewed_run) Hn) as (m & Hm & _).
  apply demo_nodes in Hm as [[-> _]|[-> _]]; auto.
Qed.

Lemma skewed_node addr :
  addr = addr_a \/ addr = addr_b -> nodes skewed_end !! addr = Some (node_at skewed_end addr).
Proof.
  intros Haddr. assert (exists m, nodes demo_cluster !! addr = Some m) as [m Hm]
    by (destruct Haddr as [-> | ->]; eexists; reflexivity).
  destruct (cluster_le_node _ _ _ _ (run_le _ _ _ skewed_run) Hm) as (n & Hn & _).
  unfold node_at. by rewrite Hn.
Qed.

(** Two nodes in this situation are stuck, whatever the cluster. *)
Lemma two_nodes_stuck (c : Cluster) na nb :
  nodes c !! addr_a = Some na ->
  (forall x n, nodes c !! x = Some n -> (x = addr_a /\ n = na) \/ (x = addr_b /\ n = nb)) ->
  node_state na = map_a -> node_state nb = map_b -> node_id_of nb = "node-b" ->
  dm_iter (node_peers na) = [("node-b", peer_b)] -> node_round na = None ->
  (fun f => (fl_deltas f, fl_dst f, from_node_id (task_msg (fl_task f)))) <$> flights c
    = [([("k1", entry1)], addr_a, "node-b"); ([("k1", entry1)], addr_b, "node-a")] ->
  stuck addr_a addr_b "node-b" map_a map_b 100 c.
Proof.
  intros Hna Hnodes Ha Hb Hid Hp Hr Hf.
  assert (forall pid p, dm_get (node_peers na) pid = Some p <-> pid = "node-b" /\ p = peer_b)
    as Hpeers.
  { intros pid p. rewrite <-dm_iter_get, Hp, list_elem_of_singleton.
    split; [by intros [= -> ->]|by intros [-> ->]]. }
  split.
  - intros x n [[-> ->]|[-> ->]]%Hnodes; auto.
  - exists peer_b, na. split; [done|by apply Hpeers].
  - intros pid p (n & Hn & Hp'). destruct (Hnodes _ _ Hn) as [[_ ->]|[? _]]; [|done].
    by apply Hpeers in Hp' as [_ ->].
  - intros n gen ts pid info [[_ ->]|[? _]]%Hnodes; [|done]. by rewrite Hr.
  - intros i f Hi. apply (list_lookup_fmap_Some_2
      (fun f => (fl_deltas f, fl_dst f, from_node_id (task_msg (fl_task f))))) in Hi.
    rewrite Hf in Hi. destruct i as [|[|i]]; simpl in Hi; [| |done]; injection Hi as Hd Hdst Hfr;
      rewrite <-Hd, <-Hdst, <-Hfr; (split; [|done]); intros kv ->%list_elem_of_singleton;
      split; exists entry1; by split.
Qed.

Lemma skewed_stuck : stuck addr_a addr_b "node-b" map_a map_b 100 skewed_end.
Proof.
  destruct skewed_values as (Ha & Hb & Hid & Hp & Hr & Hf).
  apply (two_nodes_stuck _ _ _ (skewed_node _ (or_introl eq_refl)) skewed_lookup Ha Hb Hid Hp Hr Hf).
Qed.

Lemma skewed_closed : Forall (fun f => fl_phase f = Closed) (flights skewed_end).
Proof.
  assert (fl_phase <$> flights skewed_end = [Closed; Closed]) as Hp by by vm_compute.
  generalize (flights skewed_end), Hp. clear Hp. intros l Hp.
  apply Forall_forall. intros f Hf%(list_elem_of_fmap_2 fl_phase). rewrite Hp in Hf.
  do 2 (apply elem_of_cons in Hf as [?|Hf]; [done|]). by apply not_elem_of_nil in Hf.
Qed.

Lemma map_a_old k v : map_a !! k = Some v -> (timestamp v <= 100)%N.
Proof.
  unfold map_a. intros [[_ <-]|[_ [_ <-]%lookup_singleton_Some]]%lookup_insert_Some; done.
Qed.

Lemma map_b_le : mle map_b map_a.
Proof.
  unfold map_b. intros k v [<- <-]%lookup_singleton_Some. exists entry1. by split.
Qed.

(** C27: a write can be lost to a peer for good.  Two connected nodes whose
    clocks differ by 50 microseconds reach a state where every push has been
    acknowledged, the two know each other, and the first holds a write the
    second lacks; from there no sequence of gossip steps, however long,
    brings it to the second node. *)
Theorem clock_skew_diverges_forever :
  initial demo_cluster /\ run skewed demo_cluster = Some skewed_end
  /\ Forall (fun f => fl_phase f = Closed) (flights skewed_end)
  /\ get (node_store (node_at skewed_end addr_a)) "k2" = Some entry2
  /\ (exists p, dm_get (node_peers (node_at skewed_end addr_a)) "node-b" = Some p /\ gossip_addr p = addr_b)
  /\ (exists p, dm_get (node_peers (node_at skewed_end addr_b)) "node-a" = Some p /\ gossip_addr p = addr_a)
  /\ (forall acts c n, Forall no_set acts -> run acts skewed_end = Some c ->
        nodes c !! addr_b = Some n -> get (node_store n) "k2" = None).
Proof.
  split; [apply demo_initial|]. split; [apply skewed_run|].
  split; [apply skewed_closed|]. split; [by vm_compute|].
  split; [exists peer_b; split; [by vm_compute|done]|].
  split; [eexists; split; [by vm_compute|done]|].
  intros acts c n Hns Hr Hn.
  assert (stuck addr_a addr_b "node-b" map_a map_b 100 c) as Hs.
  { refine (stuck_run _ _ _ _ _ _ _ map_a_old map_b_le acts skewed_end c _ skewed_stuck Hns Hr);
      [done|].
    apply (struct_inv_run _ _ _ demo_initial skewed_run). }
  destruct (sk_node _ _ _ _ _ _ _ Hs _ _ Hn) as [[? _]|(_ & Hst & _)]; [done|].
  unfold get. change (node_state n !! "k2" = None). rewrite Hst. done.
Qed.
