(* ===== verification/ClusterExamples.v ===== *)
(** The properties of the cluster along a concrete execution: "node-b" writes
    and pushes to its seed "node-a", which then writes a later value and
    pushes back.  The condition of ClusterSync.v is checked by evaluation. *)
From S2P Require Import Prelude Crdt Replica Broadcast Store StoreConc Config DashMap Peer.
From S2P Require Import Protocol Manager Cluster ClusterLemmas ClusterSafety ClusterSync Demo.
From S2P Require Import Divergence ClusterSpec ClusterTypes PeerRecords.

(** ** Deciding [fresh_run] *)

Section fresh_check.
Context `{BroadcastLib StateEvent, DashMapLib PeerInfo, !DashMapLaws PeerInfo}.

Definition dom_atb (c : Cluster) (a : string) (kv : string * LwwValue) : bool :=
  match nodes c !! a with
  | Some n => bool_decide (dominates (node_state n) kv)
  | None => false
  end.

Lemma dom_atb_sound c a kv : dom_atb c a kv = true -> dom_at c a kv.
Proof.
  unfold dom_atb. destruct (nodes c !! a) as [n|] eqn:Hn; [|done].
  intros Hd%bool_decide_eq_true. by exists n.
Qed.

Definition fresh_atb (c c' : Cluster) (a : string) (kv : string * LwwValue) : bool :=
  match nodes c !! a with
  | Some n => forallb (fun kp => (last_sync_ts kp.2 <? timestamp kv.2)%N
                                 || dom_atb c' (gossip_addr kp.2) kv) (dm_iter (node_peers n))
  | None => true
  end
  && forallb (fun f => negb (bool_decide (fl_src f = a)) || negb (fl_waiting f)
                       || ((task_max_sent_ts (fl_task f) <? timestamp kv.2)%N
                           || dom_atb c' (fl_dst f) kv)) (flights c).

Lemma fresh_atb_sound c c' a kv : fresh_atb c c' a kv = true -> fresh_at c c' a kv.
Proof.
  unfold fresh_atb. intros [Hp Hf]%andb_true_iff. split.
  - intros n pid p Hn Hk%dm_iter_get. rewrite Hn in Hp.
    rewrite forallb_forall in Hp. apply list_elem_of_In, Hp, orb_true_iff in Hk.
    destruct Hk as [?%N.ltb_lt|?%dom_atb_sound]; [by left|by right].
  - intros i f Hi Hs Hw. rewrite forallb_forall in Hf.
    apply list_elem_of_lookup_2, list_elem_of_In, Hf in Hi.
    rewrite Hw, bool_decide_eq_true_2 in Hi by done. cbn [negb orb] in Hi.
    apply orb_true_iff in Hi as [?%N.ltb_lt|?%dom_atb_sound]; [by left|by right; right].
Qed.

Definition fresh_stepb (act : action) (c c' : Cluster) : bool :=
  match act with
  | ASet a clock key value =>
      match nodes c !! a with
      | Some n => match set clock (node_store n) key value with
                  | Done (_, w) => fresh_atb c c' a (key, w)
                  | Panic _ => true
                  end
      | None => true
      end
  | AMerge i =>
      match flights c !! i with
      | Some f =>
          match nodes c !! fl_dst f with
          | Some n => forallb (fun kv => bool_decide (dominates (node_state n) kv)
                                         || fresh_atb c c' (fl_dst f) kv) (fl_deltas f)
          | None => true
          end
      | None => true
      end
  | _ => true
  end.

Lemma fresh_stepb_sound act c c' : fresh_stepb act c c' = true -> fresh_step act c c'.
Proof.
  destruct act; simpl; try done.
  - intros Hb n s w Hn Hs _. rewrite Hn, Hs in Hb. by apply fresh_atb_sound.
  - intros Hb f n k v Hf Hn Hkv Hnd. rewrite Hf, Hn in Hb. rewrite forallb_forall in Hb.
    apply list_elem_of_In, Hb, orb_true_iff in Hkv as [Hd%bool_decide_eq_true|Ha]; [done|].
    by apply fresh_atb_sound.
Qed.

Fixpoint fresh_runb (acts : list action) (c : Cluster) : bool :=
  match acts with
  | [] => true
  | act :: acts' =>
      match exec act c with
      | Some c' => fresh_stepb act c c' && fresh_runb acts' c'
      | None => true
      end
  end.

Lemma fresh_runb_sound acts c : fresh_runb acts c = true -> fresh_run acts c.
Proof.
  revert c. induction acts as [|act acts IH]; intros c; [done|].
  cbn [fresh_runb fresh_run]. destruct (exec act c) as [c'|]; [|done].
  intros [Hs Hr]%andb_true_iff. split; [by apply fresh_stepb_sound|by apply IH].
Qed.

Lemma run_default acts c :
  match run acts c with Some _ => true | None => false end = true ->
  run acts c = Some (default c (run acts c)).
Proof. by destruct (run acts c). Qed.
End fresh_check.

(** ** The execution *)

Definition synced : list action :=
  ASet addr_b 100000 "k1" "v1" :: full_push addr_b 0 1
  ++ ASet addr_a 200000 "k2" "v2" :: full_push addr_a 1 2.

(** The same with a last round, which brings nothing new: the cursors of both nodes cover all. *)
Definition covered : list action :=
  synced ++ [ARoundStart addr_b no_shuffle; ARoundTarget addr_b canonical_iter;
             ARoundTarget addr_b canonical_iter; AMerge 2; ARegister 2 3; AAck 2 3;
             AMerge 3; ARegister 3 3; AAck 3 3; ARoundEnd addr_b].

(** Up to the acknowledgement of the first push. *)
Definition pushed : list action :=
  [ASet addr_b 100000 "k1" "v1"; ARoundStart addr_b no_shuffle; ARoundTarget addr_b canonical_iter;
   AMerge 0; ARegister 0 1].

Definition synced_end : Cluster := default demo_cluster (run synced demo_cluster).
Definition covered_end : Cluster := default demo_cluster (run covered demo_cluster).
Definition pushed_end : Cluster := default demo_cluster (run pushed demo_cluster).

Lemma synced_run : run synced demo_cluster = Some synced_end.
Proof. apply run_default. by vm_compute. Qed.
Lemma covered_run : run covered demo_cluster = Some covered_end.
Proof. apply run_default. by vm_compute. Qed.
Lemma pushed_run : run pushed demo_cluster = Some pushed_end.
Proof. apply run_default. by vm_compute. Qed.
Lemma synced_fresh : fresh_run synced demo_cluster.
Proof. apply fresh_runb_sound. by vm_compute. Qed.
Lemma covered_fresh : fresh_run covered demo_cluster.
Proof. apply fresh_runb_sound. by vm_compute. Qed.
Lemma skewed_not_fresh : fresh_runb skewed demo_cluster = false.
Proof. by vm_compute. Qed.

(** Only evaluation looks into the final states. *)
#[local] Opaque synced_end covered_end pushed_end.

(** The node at an address of a cluster reached from the example. *)
Lemma reached_node acts c addr :
  run acts demo_cluster = Some c -> addr = addr_a \/ addr = addr_b ->
  nodes c !! addr = Some (node_at c addr).
Proof.
  intros Hr Haddr. assert (exists m, nodes demo_cluster !! addr = Some m) as [m Hm]
    by (destruct Haddr as [-> | ->]; eexists; reflexivity).
  destruct (cluster_le_node _ _ _ _ (run_le _ _ _ Hr) Hm) as (n & Hn & _).
  unfold node_at. by rewrite Hn.
Qed.

Definition synced_a := reached_node _ _ _ synced_run (or_introl eq_refl).
Definition synced_b := reached_node _ _ _ synced_run (or_intror eq_refl).
Definition covered_a := reached_node _ _ _ covered_run (or_introl eq_refl).
Definition covered_b := reached_node _ _ _ covered_run (or_intror eq_refl).

Definition written1 : LwwValue := mk_lww "v1" 100 "node-b".
Definition written2 : LwwValue := mk_lww "v2" 200 "node-a".

(** The example node "node-b" ends with two entries for "node-a": the seed
    address, registered at start, and the identifier, registered when the
    push arrived.  Every later round of "node-b" can pick both. *)
Lemma seed_listed_twice :
  dm_get (node_peers (node_at synced_end addr_b)) addr_a = Some (mk_peer addr_a 1 100 1)
  /\ dm_get (node_peers (node_at synced_end addr_b)) "node-a" = Some (mk_peer addr_a 2 0 1).
Proof. by split; vm_compute. Qed.

(** ** The properties there *)

Lemma reachable_values_untied_witness :
  node_state (node_at synced_end addr_a) !! "k1" = Some written1
  /\ node_state (node_at synced_end addr_b) !! "k1" = Some written1
  /\ (stamp written1 = stamp written1 -> written1 = written1) /\ merge written1 written1 = merge written1 written1.
Proof.
  split; [by vm_compute|]. split; [by vm_compute|].
  apply (reachable_values_untied synced demo_cluster synced_end addr_a addr_b _ _ "k1"
    written1 written1 (conj demo_initial synced_run) synced_a synced_b); by vm_compute.
Defined.

Lemma stored_values_authored_witness :
  exists b clock m, ASet b clock "k2" "v2" ∈ synced /\ now_micros clock = Done 200%N
    /\ nodes synced_end !! b = Some m /\ node_id_of m = "node-a".
Proof.
  apply (stored_values_authored synced demo_cluster synced_end addr_b _ "k2" written2
    (conj demo_initial synced_run) synced_b). by vm_compute.
Defined.

Lemma synced_history : history synced demo_cluster = [("k1", written1); ("k2", written2)].
Proof. by vm_compute. Qed.

Lemma synced_complete addr kv :
  addr = addr_a \/ addr = addr_b -> kv ∈ history synced demo_cluster ->
  dominates (node_state (node_at synced_end addr)) kv.
Proof.
  intros Haddr. rewrite synced_history. intros Hkv.
  apply elem_of_cons in Hkv as [->|Hkv%list_elem_of_singleton]; [exists written1|subst; exists written2];
    destruct Haddr as [-> | ->]; (split; [by vm_compute|reflexivity]).
Qed.

Lemma complete_replicas_equal_witness :
  repr (history synced demo_cluster) (node_state (node_at synced_end addr_a))
  /\ node_state (node_at synced_end addr_a) = node_state (node_at synced_end addr_b).
Proof.
  apply (complete_replicas_equal synced demo_cluster synced_end addr_a addr_b _ _
    (conj demo_initial synced_run) synced_a synced_b); intros kv; apply synced_complete; auto.
Defined.

Lemma cursor_backed_by_peer_witness :
  exists d k v, nodes synced_end !! addr_b = Some d /\ node_state d !! k = Some v
                /\ (200 <= timestamp v)%N.
Proof.
  apply (cursor_backed_by_peer synced demo_cluster synced_end addr_a _ "node-b"
    (mk_peer addr_b 2 200 2) (conj demo_initial synced_run) synced_a); by vm_compute.
Defined.

(** The push of "node-b" as it stands when its acknowledgement is written. *)
Definition pushed_flight : flight :=
  mk_flight addr_b (mk_send_task addr_a addr_a (mk_msg "node-b" addr_b [("k1", written1)] 0) 100)
    (AckSent (mk_ack "node-a" 1)) true.

Lemma acknowledged_push_received_witness :
  exists d e, nodes pushed_end !! addr_a = Some d /\ node_state d !! "k1" = Some e /\ lww_le written1 e.
Proof.
  apply (acknowledged_push_received pushed [] demo_cluster pushed_end pushed_end 0 pushed_flight
    "k1" written1 (conj demo_initial pushed_run) eq_refl); [by vm_compute|done|].
  by apply list_elem_of_singleton.
Defined.

Lemma fresh_cursor_covers_witness :
  exists d e, nodes synced_end !! addr_b = Some d /\ node_state d !! "k1" = Some e /\ lww_le written1 e.
Proof.
  apply (fresh_cursor_covers synced demo_cluster synced_end addr_a _ "node-b" (mk_peer addr_b 2 200 2)
    "k1" written1 demo_initial synced_fresh synced_run synced_a); [by vm_compute..|].
  split; by vm_compute.
Defined.

Lemma covered_states :
  node_state (node_at covered_end addr_a) = {["k1" := written1; "k2" := written2]}
  /\ node_state (node_at covered_end addr_b) = {["k1" := written1; "k2" := written2]}.
Proof. split; by vm_compute. Qed.

(** All of the two entries is at most 200 microseconds old. *)
Lemma covered_old (m : StateMap) k v :
  m = {["k1" := written1; "k2" := written2]} -> m !! k = Some v -> (0 < timestamp v <= 200)%N.
Proof. intros ->. intros [[_ <-]|[_ [_ <-]%lookup_singleton_Some]]%lookup_insert_Some; done. Qed.

Lemma fresh_covered_pair_equal_witness :
  node_state (node_at covered_end addr_a) = node_state (node_at covered_end addr_b).
Proof.
  apply (fresh_covered_pair_equal covered demo_cluster covered_end addr_a addr_b _ _ addr_a "node-b"
    (mk_peer addr_a 3 200 2) (mk_peer addr_b 3 200 4)
    demo_initial covered_fresh covered_run covered_a covered_b); try by vm_compute.
  - intros k v. apply covered_old, covered_states.
  - intros k v. apply covered_old, covered_states.
Defined.

Lemma push_reaches_peer_witness :
  exists acts c', Forall no_set acts /\ run acts synced_end = Some c'
    /\ forall k v, node_state (node_at synced_end addr_b) !! k = Some v -> (100 < timestamp v)%N ->
         exists d' e, nodes c' !! addr_a = Some d' /\ node_state d' !! k = Some e /\ lww_le v e.
Proof.
  apply (push_reaches_peer synced_end addr_b _ addr_a (mk_peer addr_a 1 100 1)
    (node_at synced_end addr_a) synced_b); [by vm_compute..|exact synced_a].
Defined.

(** A push of "node-a" to "node-b" by cursor and in full. *)
Lemma delta_push_equals_full_push_witness :
  state (merge_delta (node_store (node_at synced_end addr_b))
           (delta_since canonical_iter (node_store (node_at synced_end addr_a)) 200)).1
  = state (merge_delta (node_store (node_at synced_end addr_b))
             (snapshot reversed_iter (node_store (node_at synced_end addr_a)))).1.
Proof.
  apply (delta_push_equals_full_push synced demo_cluster synced_end addr_a _ "node-b" (mk_peer addr_b 2 200 2)
    _ canonical_iter reversed_iter demo_initial synced_fresh synced_run synced_a); [by vm_compute|apply synced_b|].
  assert (node_state (node_at synced_end addr_a) = {["k1" := written1; "k2" := written2]}) as Hm by by vm_compute.
  intros k v Hk. by apply (covered_old _ _ _ Hm) in Hk as [? _].
Defined.

Lemma cluster_refines_replicated_set_witness :
  exists k, spec_run (ids_of demo_cluster) 14 (spec_start demo_cluster) k /\ simulates k synced_end.
Proof.
  destruct (cluster_refines_replicated_set synced demo_cluster synced_end demo_initial synced_run)
    as (k & Hrun & Hsim & _). by exists k.
Defined.

Lemma clusters_well_typed_witness : cluster_typed synced_end.
Proof.
  apply (clusters_well_typed synced demo_cluster synced_end); [|reflexivity|apply synced_run].
  intros a n [[_ ->]|[_ ->]]%demo_nodes; eexists _, _, _; (split; [reflexivity|done]).
Defined.

