(* ===== verification/ConvergenceExamples.v ===== *)
(** The convergence and restart theorems at executions: the two nodes of
    Demo.v, and the three of the integration tests with one writer. *)
From S2P Require Import Prelude Crdt Replica Broadcast Store StoreConc Config DashMap Peer.
From S2P Require Import Protocol Manager Cluster ClusterLemmas ClusterSafety ClusterSync Topology.
From S2P Require Import Convergence OneClock Starved Restart ConvergenceTests Polling Demo StarDivergence.
From S2P Require Import Divergence ClusterExamples RestartRuns SharedIdentifier.

(** ** Deciding [served] *)

Section served_check.
Context `{BroadcastLib StateEvent, DashMapLib PeerInfo}.

Definition deliveredb (p : phase) : bool :=
  match p with Merged _ | AckSent _ | Closed => true | _ => false end.

Definition servedb (acts1 : list action) (it : hash_iter LwwValue) (c c' : Cluster) (a b : string) : bool :=
  match run acts1 c with
  | Some c1 =>
      match nodes c1 !! a with
      | Some n =>
          match node_round n with
          | Some (gen, (pid, info) :: _) =>
              bool_decide (gossip_addr info = b)
              && match round_target it (node_store n) (mgr_config (node_mgr n)) gen (pid, info) with
                 | Some _ => match flights c' !! length (flights c1) with
                             | Some f => deliveredb (fl_phase f)
                             | None => false
                             end
                 | None => true
                 end
          | _ => false
          end
      | None => false
      end
  | None => false
  end.

Lemma servedb_sound acts1 it acts2 c c' a b :
  servedb acts1 it c c' a b = true -> served (acts1 ++ ARoundTarget a it :: acts2) c c' a b.
Proof.
  unfold servedb. destruct (run acts1 c) as [c1|] eqn:Hr; [|done].
  destruct (nodes c1 !! a) as [n|] eqn:Hn; [|done].
  destruct (node_round n) as [[gen [|[pid info] ts]]|] eqn:Hrd; try done.
  intros [Ha%bool_decide_eq_true Hp]%andb_true_iff.
  exists acts1, it, acts2, c1, n, gen, pid, info, ts. do 5 (split; [done|]).
  destruct (round_target _ _ _ _ _); [|done].
  destruct (flights c' !! _) as [f|]; [|done]. exists f. split; [done|]. by destruct (fl_phase f).
Qed.
End served_check.

(** ** Two nodes *)

(** [covered] up to its second and last write, and after it. *)
Definition two_written : list action :=
  ASet addr_b 100000 "k1" "v1" :: full_push addr_b 0 1 ++ [ASet addr_a 200000 "k2" "v2"].
Definition two_gossip : list action :=
  full_push addr_a 1 2
  ++ [ARoundStart addr_b no_shuffle; ARoundTarget addr_b canonical_iter;
      ARoundTarget addr_b canonical_iter; AMerge 2; ARegister 2 3; AAck 2 3;
      AMerge 3; ARegister 3 3; AAck 3 3; ARoundEnd addr_b].

Definition two_mid : Cluster := default demo_cluster (run two_written demo_cluster).

Lemma two_written_run : run two_written demo_cluster = Some two_mid.
Proof. apply run_default. by vm_compute. Qed.

Lemma two_gossip_run : run two_gossip two_mid = Some covered_end.
Proof.
  pose proof covered_run as Hr. change covered with (two_written ++ two_gossip) in Hr.
  by rewrite run_app, two_written_run in Hr.
Qed.

Lemma served_a_b : served two_gossip two_mid covered_end addr_a addr_b.
Proof. by apply (servedb_sound [ARoundStart addr_a no_shuffle] canonical_iter (drop 2 two_gossip)); vm_compute. Qed.

Lemma served_b_a : served two_gossip two_mid covered_end addr_b addr_a.
Proof. by apply (servedb_sound (take 7 two_gossip) canonical_iter (drop 8 two_gossip)); vm_compute. Qed.

Lemma demo_pair : pair_of addr_a addr_b demo_cluster.
Proof. intros x n [[-> _]|[-> _]]%demo_nodes; auto. Qed.

Lemma no_set_ok acts : forallb (fun act => match act with ASet _ _ _ _ => false | _ => true end) acts = true ->
  Forall no_set acts.
Proof.
  intros Hb. apply Forall_forall. intros act Hin%list_elem_of_In. rewrite forallb_forall in Hb.
  apply Hb in Hin. by destruct act.
Qed.

#[local] Opaque two_mid covered_end.

Lemma two_nodes_converge_witness :
  node_state (node_at covered_end addr_a) = node_state (node_at covered_end addr_b)
  /\ (exists acts c1, Forall no_set acts /\ run acts two_mid = Some c1).
Proof.
  destruct (two_nodes_converge addr_a addr_b two_written demo_cluster two_mid
    (conj demo_initial two_written_run) (ltac:(by repeat split)) demo_pair) as [Hc Hl].
  split; [|by exists two_gossip, covered_end; split; [by apply no_set_ok|apply two_gossip_run]].
  apply (Hc two_gossip [] covered_end covered_end); [by apply no_set_ok|apply two_gossip_run|
    apply served_a_b|apply served_b_a|done|done|apply covered_a|apply covered_b].
Defined.

Lemma gossip_converges_witness :
  node_state (node_at covered_end addr_a) = node_state (node_at covered_end addr_b).
Proof.
  apply (gossip_converges two_written two_gossip [] demo_cluster two_mid covered_end covered_end
    demo_initial two_written_run covered_fresh) with (x := addr_a) (y := addr_b);
    [|by apply no_set_ok|apply two_gossip_run| |done|done|apply covered_a|apply covered_b].
  - assert (history two_written demo_cluster = [("k1", written1); ("k2", written2)]) as -> by by vm_compute.
    by intros kv [->| ->%list_elem_of_singleton]%elem_of_cons.
  - intros a b n m Hn Hm Hne _.
    destruct (cluster_le_node_inv _ _ _ _ (run_le _ _ _ two_written_run) Hn) as (n0 & Hn0 & _).
    destruct (cluster_le_node_inv _ _ _ _ (run_le _ _ _ two_written_run) Hm) as (m0 & Hm0 & _).
    destruct (demo_pair _ _ Hn0) as [-> | ->], (demo_pair _ _ Hm0) as [-> | ->];
      [destruct Hne; reflexivity|apply served_a_b|apply served_b_a|destruct Hne; reflexivity].
Defined.

(** ** A star with one writer *)

Definition solo_written : list action :=
  full_push spoke_b 0 1 ++ full_push spoke_c 1 2 ++ [ASet hub_a 100000 "key-a" "val-a"].
Definition solo_gossip : list action :=
  ARoundStart hub_a no_shuffle :: ARoundTarget hub_a canonical_iter :: ARoundTarget hub_a canonical_iter
  :: delivery 2 ++ delivery 3 ++ [ARoundEnd hub_a].

Definition solo_mid : Cluster := default star_start (run solo_written star_start).
Definition solo_end : Cluster := default solo_mid (run solo_gossip solo_mid).

Lemma solo_written_run : run solo_written star_start = Some solo_mid.
Proof. apply run_default. by vm_compute. Qed.
Lemma solo_gossip_run : run solo_gossip solo_mid = Some solo_end.
Proof. apply run_default. by vm_compute. Qed.

Lemma star_initial : initial star_start.
Proof. exact (test_initial _ _ _ star_nodup _ star_started). Qed.

(** The spokes of a cluster reached from the test's. *)
Lemma star_spoke acts (c : Cluster) x n :
  run acts star_start = Some c -> nodes c !! x = Some n -> x <> hub_a -> x = spoke_b \/ x = spoke_c.
Proof.
  intros Hr Hn Hx. destruct (cluster_le_node_inv _ _ _ _ (run_le _ _ _ Hr) Hn) as (n0 & Hn0 & _).
  destruct (test_cluster_lookup _ _ _ _ _ _ star_started Hn0) as (i & id & rp & seeds & Hi & -> & _).
  destruct i as [|[|[|i]]]; [by destruct Hx|by left|by right|done].
Qed.

Lemma solo_served x : x = spoke_b \/ x = spoke_c -> served solo_gossip solo_mid solo_end hub_a x.
Proof.
  intros [-> | ->]; revgoals.
  - by apply (servedb_sound [ARoundStart hub_a no_shuffle] canonical_iter (drop 2 solo_gossip)); vm_compute.
  - by apply (servedb_sound (take 2 solo_gossip) canonical_iter (drop 3 solo_gossip)); vm_compute.
Qed.

Lemma solo_node x :
  x = hub_a \/ x = spoke_b \/ x = spoke_c -> nodes solo_end !! x = Some (node_at solo_end x).
Proof.
  intros Hx. assert (exists i, i < length star_ids /\ x = nth_addr 19000 i) as (i & Hi & ->).
  { destruct Hx as [-> |[-> | ->]]; [exists 0|exists 1|exists 2]; (split; [cbn; lia|reflexivity]). }
  destruct (reached_node_at _ _ _ _ star_started (solo_written ++ solo_gossip) solo_end i) as [n Hn];
    [by rewrite run_app, solo_written_run; apply solo_gossip_run|exact Hi|].
  unfold node_at. by rewrite Hn.
Qed.

#[local] Opaque solo_mid solo_end star_start.

(** The test three_node_star_convergence: it polls at once, sleeps through
    nothing, sleeps through the gossip, and returns. *)
Definition solo_sleeps : list (N * list action) := [(20, []); (20, solo_gossip)]%N.

Lemma hub_test_passes_witness :
  exists e c, converge_within (all_hold 19000 3 "key-a" "val-a") 6000 0 solo_sleeps solo_mid = Some (Done (e, c)).
Proof.
  apply (hub_test_passes (fun _ => 0%N) 19000 star_ids star_start (full_push spoke_b 0 1 ++ full_push spoke_c 1 2)
    100000 "key-a" "val-a" 100 solo_sleeps [] 6000 solo_mid solo_end star_nodup star_started).
  - by apply no_set_ok.
  - exact solo_written_run.
  - done.
  - done.
  - by apply no_set_ok.
  - exact solo_gossip_run.
  - intros i Hi; apply solo_served; destruct i as [|[|[|i]]]; [lia|by left|by right|cbn in Hi; lia].
  - intros [|[d acts] [|s' [|? ?]]] s E; injection E; intros; subst; by vm_compute || done.
Defined.

Lemma single_writer_star_converges_witness :
  node_state (node_at solo_end spoke_b) = node_state (node_at solo_end hub_a).
Proof.
  destruct (single_writer_star_converges hub_a solo_written star_start solo_mid
    (conj star_initial solo_written_run)) as [Hc _].
  - by repeat split.
  - by repeat constructor.
  - exact (test_announced _ _ _ _ star_started).
  - exact (test_links _ _ _ _ star_started).
  - apply (Hc solo_gossip [] solo_end solo_end) with (x := spoke_b);
      [by apply no_set_ok|exact solo_gossip_run| |done|done|apply solo_node; auto|apply solo_node; auto].
    intros x n Hn Hx. apply solo_served. by apply (star_spoke _ _ _ _ solo_written_run Hn).
Defined.

(** ** Restarts *)

(** "node-b" is started again with its identifier configured ([same_id]), or with
    none. *)
Definition no_id : Config := mk_config "B" 7070 7071 None [addr_a] 1000 3 4096.

Definition restarted (config : Config) : Cluster :=
  match restart "uuid" (fun _ => 0%N) config addr_b covered_end with Done c => c | Panic _ => covered_end end.

Lemma restarted_Done config :
  match restart "uuid" (fun _ => 0%N) config addr_b covered_end with Done _ => true | Panic _ => false end = true ->
  restart "uuid" (fun _ => 0%N) config addr_b covered_end = Done (restarted config).
Proof. unfold restarted. by destruct (restart _ _ _ _ _). Qed.

Lemma demo_announced x n :
  nodes demo_cluster !! x = Some n -> gossip_addr_of (mgr_config (node_mgr n)) = x.
Proof. by intros [[-> ->]|[-> ->]]%demo_nodes; vm_compute. Qed.

Lemma demo_links x pid p : in_table demo_cluster x pid p -> spoke_link addr_a x (gossip_addr p).
Proof.
  intros (n & [[-> ->]|[-> ->]]%demo_nodes & Hp); [by left|right].
  apply start_node_table in Hp as [-> Hp]. by apply list_elem_of_singleton in Hp as ->.
Qed.

(** After its restart "node-b" introduces itself to "node-a", which then comes
    to it in a round and finds nothing to send. *)
Definition after_restart : list action :=
  [ARoundStart addr_b no_shuffle; ARoundTarget addr_b canonical_iter; AMerge 4; ARegister 4 9;
   AAck 4 9; ARoundEnd addr_b;
   ARoundStart addr_a no_shuffle; ARoundTarget addr_a canonical_iter; ARoundEnd addr_a].

Definition after_end : Cluster :=
  default (restarted same_id) (run after_restart (restarted same_id)).

Lemma after_run : run after_restart (restarted same_id) = Some after_end.
Proof. apply run_default. by vm_compute. Qed.

Lemma restart_same_id_never_recovers_witness :
  get (node_store (node_at after_end addr_a)) "k1" = Some written1
  /\ get (node_store (node_at after_end addr_b)) "k1" = None.
Proof.
  split; [by vm_compute|].
  apply (restart_same_id_never_recovers addr_a addr_b "k1" written1 covered demo_cluster covered_end
    (node_at covered_end addr_b) "uuid" (fun _ => 0%N) same_id (restarted same_id)
    (conj demo_initial covered_run)) with (acts := after_restart) (c'' := after_end).
  - by vm_compute.
  - exact demo_announced.
  - exact demo_links.
  - exact covered_b.
  - apply sent_pastb_sound. by vm_compute.
  - apply restarted_Done. by vm_compute.
  - by vm_compute.
  - by vm_compute.
  - by intros a ->%list_elem_of_singleton.
  - by repeat constructor.
  - exact after_run.
  - assert (match nodes after_end !! addr_b with Some _ => true | None => false end = true) as Hs
      by by vm_compute.
    unfold node_at. by destruct (nodes after_end !! addr_b).
Defined.

Lemma restart_new_id_recovers_witness :
  exists acts c'', Forall no_set acts /\ run acts (restarted no_id) = Some c''
    /\ forall k v, node_state (node_at covered_end addr_a) !! k = Some v -> (0 < timestamp v)%N ->
         dom_at c'' addr_b (k, v).
Proof.
  apply (restart_new_id_recovers addr_a addr_b covered_end (node_at covered_end addr_a) "uuid"
    (fun _ => 0%N) no_id (restarted no_id)).
  - by vm_compute.
  - by vm_compute.
  - exact covered_a.
  - apply restarted_Done. by vm_compute.
  - by vm_compute.
  - by apply list_elem_of_singleton.
  - by vm_compute.
  - by vm_compute.
  - by vm_compute.
Defined.

(** ** Restarts within an execution *)

(** As in SharedIdentifier.v, but "node-b" comes back with a new identifier. *)
Definition lived_run : list live_action :=
  (Step <$> (ASet addr_b 100000 "k" "first" :: full_push addr_b 0 1))
  ++ [Start addr_b "uuid" (fun _ => 0%N) no_id]
  ++ (Step <$> (ASet addr_b 100000 "k" "second" :: full_push addr_b 1 2)).

Definition lived_end : Cluster := default demo_cluster (live_run lived_run demo_cluster).

Lemma lived_runs : live_run lived_run demo_cluster = Some lived_end.
Proof.
  unfold lived_end.
  assert (match live_run lived_run demo_cluster with Some _ => true | None => false end = true) as Hs
    by by vm_compute.
  by destruct (live_run lived_run demo_cluster).
Qed.

Lemma lived_ids : own_ids ∅ lived_run demo_cluster.
Proof. apply (bool_decide_unpack _). by vm_compute. Qed.

Lemma lived_states :
  node_state (node_at lived_end addr_a) = {["k" := mk_lww "second" 100 "uuid"]}
  /\ node_state (node_at lived_end addr_b) = {["k" := mk_lww "second" 100 "uuid"]}.
Proof. split; by vm_compute. Qed.

Lemma lived_found x :
  match nodes lived_end !! x with Some _ => true | None => false end = true ->
  nodes lived_end !! x = Some (node_at lived_end x).
Proof. unfold node_at. by destruct (nodes lived_end !! x). Qed.

#[local] Opaque lived_end.

Lemma restarts_keep_agreement_witness :
  coherent (live_history lived_run demo_cluster)
  /\ node_state (node_at lived_end addr_a) = node_state (node_at lived_end addr_b).
Proof.
  destruct (restarts_keep_agreement lived_run demo_cluster lived_end demo_initial lived_runs lived_ids)
    as (_ & Hc & _ & He).
  split; [exact Hc|]. destruct lived_states as [Sa Sb].
  apply (He addr_a addr_b); [apply lived_found; by vm_compute|apply lived_found; by vm_compute|..];
    rewrite Sa, Sb; reflexivity.
Defined.
