(* ===== verification/RpcTypes.v ===== *)
(** The JSON-RPC objects of src/rpc/types.rs.  [serde_json] and the derived
    [Serialize] and [Deserialize] implementations are dependencies: the text
    of an object, and the request a text denotes, are operations of the
    classes [ToJson] and [RequestParser]. *)
From S2P Require Import Prelude Crdt.

(** ** [serde_json::Value] *)

(** A number is a [u64], a negative [i64] or a float (its bits). *)
Inductive Number := PosInt (n : N) | NegInt (z : Z) | Float (bits : N).

Inductive Value :=
| Null
| Bool (b : bool)
| Num (n : Number)
| Str (s : string)
| Array (l : list Value)
| Object (fields : list (string * Value)).

(** [Value::get] with a string index. *)
Definition value_get (field : string) (v : Value) : option Value :=
  match v with
  | Object fields => snd <$> find (fun kv => bool_decide (kv.1 = field)) fields
  | _ => None
  end.

Definition as_str (v : Value) : option string :=
  match v with Str s => Some s | _ => None end.

Definition as_u64 (v : Value) : option N :=
  match v with Num (PosInt n) => Some n | _ => None end.

(** What [json!] makes of the types the engine puts in it. *)
Definition json_u64 (n : N) : Value := Num (PosInt n).
Definition json_option (o : option string) : Value :=
  match o with Some s => Str s | None => Null end.

(** ** Incoming *)

(** [rpc_id] is [None] for a notification. *)
Record RpcRequest := mk_request {
  rpc_jsonrpc : string;
  method : string;
  params : Value;
  rpc_id : option Value;
}.

Class RequestParser := from_str : string -> result string RpcRequest.

(** ** Outgoing *)

Record RpcResponse := mk_response {
  res_jsonrpc : string;
  res_result : Value;
  res_id : Value;
}.

Record RpcErrorBody := mk_error_body {
  code : Z;
  message : string;
  data : option Value;
}.

Record RpcError := mk_error {
  err_jsonrpc : string;
  error : RpcErrorBody;
  err_id : Value;
}.

Record RpcNotification := mk_notification {
  ntf_jsonrpc : string;
  ntf_method : string;
  ntf_params : Value;
}.

Class ToJson (T : Type) := to_string : T -> result string string.

Definition PARSE_ERROR : Z := -32700.
Definition INVALID_REQUEST : Z := -32600.
Definition METHOD_NOT_FOUND : Z := -32601.
Definition INVALID_PARAMS : Z := -32602.
Definition INTERNAL_ERROR : Z := -32603.

Definition RpcResponse_ok (result id : Value) : RpcResponse :=
  {| res_jsonrpc := "2.0"; res_result := result; res_id := id |}.

Definition RpcError_new (code : Z) (message : string) (id : Value) : RpcError :=
  {| err_jsonrpc := "2.0";
     error := {| code := code; message := message; data := None |};
     err_id := id |}.

(** Push a state-change event to a subscriber. *)
Definition state_update (key : string) (val : LwwValue) : RpcNotification :=
  {| ntf_jsonrpc := "2.0";
     ntf_method := "state.update";
     ntf_params := Object [("key", Str key); ("value", Str (value val));
                           ("timestamp", json_u64 (timestamp val)); ("node_id", Str (node_id val))] |}.

(** Inform a slow subscriber that it missed [dropped] events. *)
Definition lag (dropped : N) : RpcNotification :=
  {| ntf_jsonrpc := "2.0"; ntf_method := "state.lag";
     ntf_params := Object [("dropped", json_u64 dropped)] |}.

(** ** Reading entries back *)

(** The object that [state.get], [sync.delta] and [state.update] make of an
    entry. *)
Definition entry_json (key : string) (v : LwwValue) : Value :=
  Object [("key", Str key); ("value", Str (value v));
          ("timestamp", json_u64 (timestamp v)); ("node_id", Str (node_id v))].

(** The entry a client reads in such an object. *)
Definition entry_of_json (j : Value) : option (string * LwwValue) :=
  key ← value_get "key" j ≫= as_str;
  val ← value_get "value" j ≫= as_str;
  ts ← value_get "timestamp" j ≫= as_u64;
  id ← value_get "node_id" j ≫= as_str;
  Some (key, mk_lww val ts id).

Lemma entry_of_entry_json key v : entry_of_json (entry_json key v) = Some (key, v).
Proof. by destruct v. Qed.

Lemma mapM_entry_json (l : list (string * LwwValue)) :
  mapM entry_of_json ((fun kv => entry_json kv.1 kv.2) <$> l) = Some l.
Proof.
  apply mapM_Some, Forall2_fmap_l, Forall_Forall2_diag, Forall_forall.
  intros [k v] _. apply entry_of_entry_json.
Qed.

(** A notification never mistaken for the other kind. *)
Lemma state_update_not_lag key v n : state_update key v <> lag n.
Proof. done. Qed.

Lemma state_update_inj key key' v v' : state_update key v = state_update key' v' -> key = key' /\ v = v'.
Proof. destruct v, v'. unfold state_update, json_u64. simpl. intros [= -> -> -> ->]. done. Qed.
