(* ===== verification/RpcHandler.v ===== *)
(** Method dispatch, src/rpc/handler.rs: one request line in, the effect on
    the store and what the connection should do out. *)
From S2P Require Import Prelude Crdt Replica Broadcast Store DashMap Peer RpcTypes.

(** The double quote. *)
Definition dq : string := String.String (Ascii.ascii_of_N 34) EmptyString.

(** A text with its apostrophes read as double quotes. *)
Fixpoint quoted (s : string) : string :=
  match s with
  | EmptyString => EmptyString
  | String.String c s' =>
      String.String (if Ascii.eqb c (Ascii.ascii_of_N 39) then Ascii.ascii_of_N 34 else c) (quoted s')
  end.

Definition internal_error_text : string :=
  quoted "{'jsonrpc':'2.0','error':{'code':-32603,'message':'Internal serialization error'},'id':null}".

Definition to_json `{ToJson T} (v : T) : string :=
  match to_string v with Ok s => s | Err _ => internal_error_text end.

Definition required_str `{ToJson RpcError} (params : Value) (field : string) (id : Value)
  : result string string :=
  match value_get field params ≫= as_str with
  | Some s => Ok s
  | None => Err (to_json (RpcError_new INVALID_PARAMS
                            ("Missing required param: " +:+ dq +:+ field +:+ dq) id))
  end.

(** What one dispatch reads from its environment: the wall clock, the
    monotonic clock and the traversal order of the map. *)
Record request_env := mk_env {
  env_clock : Z;
  env_now : N;
  env_iter : hash_iter LwwValue;
}.

Section handler.
Context `{BroadcastLib StateEvent, DashMapLib PeerInfo}.
Context `{RequestParser, ToJson RpcResponse, ToJson RpcError}.

Record RpcHandler := mk_handler {
  rpc_store : StateStore;
  rpc_peers : DashMap;
}.

Inductive DispatchResult :=
| Response (json : string)
| Subscribed (initial_response : string) (receiver : Receiver) (prefix : option string)
| Notification.

Definition with_rpc_store (h : RpcHandler) (s : StateStore) : RpcHandler :=
  mk_handler s (rpc_peers h).

Definition handle_state_get (h : RpcHandler) (params id : Value) : string :=
  match required_str params "key" id with
  | Err e => e
  | Ok key =>
      let result := match get (rpc_store h) key with
                    | Some v => entry_json key v
                    | None => Null
                    end in
      to_json (RpcResponse_ok result id)
  end.

Definition handle_state_set (clock : Z) (h : RpcHandler) (params id : Value)
  : outcome (RpcHandler * string) :=
  match required_str params "key" id with
  | Err e => Done (h, e)
  | Ok key =>
      match required_str params "value" id with
      | Err e => Done (h, e)
      | Ok value =>
          sw ← set clock (rpc_store h) key value;
          let '(s, lww) := sw in
          Done (with_rpc_store h s,
                to_json (RpcResponse_ok
                  (Object [("timestamp", json_u64 (timestamp lww)); ("node_id", Str (node_id lww))]) id))
      end
  end.

Definition handle_subscribe (h : RpcHandler) (params id : Value) : RpcHandler * DispatchResult :=
  let prefix := value_get "prefix" params ≫= as_str in
  let '(s, receiver) := subscribe (rpc_store h) in
  let initial_response :=
    to_json (RpcResponse_ok
      (Object [("status", Str "subscribed"); ("prefix", json_option prefix)]) id) in
  (with_rpc_store h s, Subscribed initial_response receiver prefix).

Definition handle_state_keys (it : hash_iter LwwValue) (h : RpcHandler) (id : Value) : string :=
  let keys := (snapshot it (rpc_store h)).*1 in
  to_json (RpcResponse_ok
    (Object [("keys", Array (Str <$> keys)); ("count", json_u64 (N.of_nat (length keys)))]) id).

Definition peer_json (now : N) (e : string * PeerInfo) : Value :=
  Object [("id", Str e.1); ("addr", Str (gossip_addr e.2));
          ("last_seen_secs", json_u64 (elapsed_secs now (last_seen e.2)));
          ("exchange_count", json_u64 (exchange_count e.2));
          ("last_sync_ts", json_u64 (last_sync_ts e.2))].

Definition handle_node_peers (now : N) (h : RpcHandler) (id : Value) : string :=
  let peers := peer_json now <$> dm_iter (rpc_peers h) in
  to_json (RpcResponse_ok
    (Object [("peers", Array peers); ("count", json_u64 (N.of_nat (length peers)))]) id).

Definition handle_sync_status (it : hash_iter LwwValue) (h : RpcHandler) (id : Value) : string :=
  to_json (RpcResponse_ok
    (Object [("node_id", Str (store_node_id (rpc_store h)));
             ("state_size", json_u64 (len (rpc_store h)));
             ("max_timestamp", json_u64 (max_timestamp it (rpc_store h)));
             ("peer_count", json_u64 (dm_len (rpc_peers h)))]) id).

Definition handle_sync_delta (it : hash_iter LwwValue) (h : RpcHandler) (params id : Value) : string :=
  let since := default 0%N (value_get "since" params ≫= as_u64) in
  let delta := delta_since it (rpc_store h) since in
  let entries := (fun kv => entry_json kv.1 kv.2) <$> delta in
  let count := length entries in
  to_json (RpcResponse_ok
    (Object [("entries", Array entries); ("count", json_u64 (N.of_nat count))]) id).

(** The methods that answer with a text: the new handler and the text. *)
Definition dispatch_method (env : request_env) (h : RpcHandler) (req : RpcRequest) (id : Value)
  : outcome (RpcHandler * string) :=
  if bool_decide (method req = "state.get") then Done (h, handle_state_get h (params req) id)
  else if bool_decide (method req = "state.set") then handle_state_set (env_clock env) h (params req) id
  else if bool_decide (method req = "state.keys") then Done (h, handle_state_keys (env_iter env) h id)
  else if bool_decide (method req = "node.peers") then Done (h, handle_node_peers (env_now env) h id)
  else if bool_decide (method req = "sync.status") then Done (h, handle_sync_status (env_iter env) h id)
  else if bool_decide (method req = "sync.delta")
       then Done (h, handle_sync_delta (env_iter env) h (params req) id)
  else Done (h, to_json (RpcError_new METHOD_NOT_FOUND ("Method not found: " +:+ method req) id)).

Definition dispatch (env : request_env) (h : RpcHandler) (raw : string)
  : outcome (RpcHandler * DispatchResult) :=
  match from_str raw with
  | Err e => Done (h, Response (to_json (RpcError_new PARSE_ERROR e Null)))
  | Ok req =>
      let is_notification := bool_decide (rpc_id req = None) in
      let id := default Null (rpc_id req) in
      if bool_decide (method req = "state.subscribe") then Done (handle_subscribe h (params req) id)
      else
        hr ← dispatch_method env h req id;
        let '(h, response_json) := hr in
        Done (h, if is_notification then Notification else Response response_json)
  end.
End handler.

Arguments RpcHandler {_ _}.
Arguments DispatchResult {_}.

(** ** Lemmas *)

Section handler_lemmas.
Context `{BroadcastLib StateEvent, DashMapLib PeerInfo}.
Context `{RequestParser, ToJson RpcResponse, ToJson RpcError}.
Implicit Types (h : RpcHandler) (env : request_env).

(** A text that answers the request [id]. *)
Definition answers (id : Value) (s : string) : Prop :=
  (exists v, s = to_json (RpcResponse_ok v id)) \/ (exists c m, s = to_json (RpcError_new c m id)).

Lemma required_str_cases params field id :
  match required_str params field id with
  | Ok s => value_get field params = Some (Str s)
  | Err e => value_get field params ≫= as_str = None
             /\ e = to_json (RpcError_new INVALID_PARAMS
                               ("Missing required param: " +:+ dq +:+ field +:+ dq) id)
  end.
Proof.
  unfold required_str. destruct (value_get field params) as [v|]; simpl; [|done].
  by destruct v.
Qed.

Lemma required_str_Ok params field id s :
  value_get field params = Some (Str s) -> required_str params field id = Ok s.
Proof. unfold required_str. by intros ->. Qed.

Lemma required_str_Err params field id :
  value_get field params ≫= as_str = None ->
  required_str params field id = Err (to_json (RpcError_new INVALID_PARAMS
                               ("Missing required param: " +:+ dq +:+ field +:+ dq) id)).
Proof. unfold required_str. by intros ->. Qed.

Lemma handle_state_get_answers h params id : answers id (handle_state_get h params id).
Proof.
  unfold handle_state_get. pose proof (required_str_cases params "key" id) as Hk.
  destruct (required_str params "key" id) as [key|e].
  - left. by eexists.
  - right. destruct Hk as [_ ->]. by do 2 eexists.
Qed.

Lemma handle_state_set_Done clock h params id h' s :
  handle_state_set clock h params id = Done (h', s) ->
  (h' = h /\ (exists m, s = to_json (RpcError_new INVALID_PARAMS m id))
   /\ (value_get "key" params ≫= as_str = None \/ value_get "value" params ≫= as_str = None))
  \/ (exists key value st w,
        value_get "key" params = Some (Str key) /\ value_get "value" params = Some (Str value)
        /\ set clock (rpc_store h) key value = Done (st, w) /\ h' = with_rpc_store h st
        /\ s = to_json (RpcResponse_ok
                 (Object [("timestamp", json_u64 (timestamp w)); ("node_id", Str (node_id w))]) id)).
Proof.
  unfold handle_state_set. pose proof (required_str_cases params "key" id) as Hk.
  destruct (required_str params "key" id) as [key|e].
  2: { intros [= <- <-]. left. destruct Hk as [? ->]. eauto. }
  pose proof (required_str_cases params "value" id) as Hv.
  destruct (required_str params "value" id) as [value|e].
  2: { intros [= <- <-]. left. destruct Hv as [? ->]. eauto. }
  unfold mbind, outcome_bind. destruct (set clock (rpc_store h) key value) as [[st w]|] eqn:E; [|done].
  intros [= <- <-]. right. by exists key, value, st, w.
Qed.

Lemma dispatch_method_answers env h req id h' s :
  dispatch_method env h req id = Done (h', s) -> answers id s.
Proof.
  unfold dispatch_method. repeat case_bool_decide.
  2: { intros [[_ [(m & ->) _]]|(key & value & st & w & _ & _ & _ & _ & ->)]%handle_state_set_Done;
         [right|left]; eauto. }
  all: intros [= <- <-];
    first [apply handle_state_get_answers | left; by eexists | right; by do 2 eexists].
Qed.

(** Every method but [state.set] leaves the handler as it is. *)
Lemma dispatch_method_pure env h req id :
  method req <> "state.set" -> exists s, dispatch_method env h req id = Done (h, s).
Proof. intros Hm. unfold dispatch_method. repeat case_bool_decide; try done; eauto. Qed.

Lemma dispatch_method_set env h req id :
  method req = "state.set" ->
  dispatch_method env h req id = handle_state_set (env_clock env) h (params req) id.
Proof. intros Hm. unfold dispatch_method. by rewrite Hm. Qed.

Lemma dispatch_answered env h raw req :
  from_str raw = Ok req -> method req <> "state.subscribe" ->
  dispatch env h raw =
  (hr ← dispatch_method env h req (default Null (rpc_id req));
   Done (hr.1, if bool_decide (rpc_id req = None) then Notification else Response hr.2)).
Proof.
  intros Hr Hm. unfold dispatch. rewrite Hr. rewrite (bool_decide_eq_false_2 _ Hm).
  unfold mbind, outcome_bind. by destruct (dispatch_method _ _ _ _) as [[]|].
Qed.
End handler_lemmas.

(** ** Properties *)

Section handler_properties.
Context `{BroadcastLib StateEvent, DashMapLib PeerInfo}.
Context `{RequestParser, ToJson RpcResponse, ToJson RpcError}.
Implicit Types (h : RpcHandler) (env : request_env).

(** C38: what a request line is answered.  A line that does not parse gets an
    error with a null id.  Otherwise a request with an id gets one text, a
    result or an error with that same id; a request without an id gets none,
    unless its method is [state.subscribe], which is always answered. *)
Theorem dispatch_replies env h raw h' r :
  dispatch env h raw = Done (h', r) ->
  match from_str raw, r with
  | Err e, _ => h' = h /\ r = Response (to_json (RpcError_new PARSE_ERROR e Null))
  | Ok req, Response s => method req <> "state.subscribe" /\ exists id, rpc_id req = Some id /\ answers id s
  | Ok req, Notification => method req <> "state.subscribe" /\ rpc_id req = None
  | Ok req, Subscribed s _ _ => method req = "state.subscribe" /\ answers (default Null (rpc_id req)) s
  end.
Proof.
  destruct (from_str raw) as [req|e] eqn:Hr.
  2: { unfold dispatch. rewrite Hr. by intros [= <- <-]. }
  destruct (decide (method req = "state.subscribe")) as [Hm|Hm].
  - unfold dispatch. rewrite Hr, bool_decide_eq_true_2 by done. unfold handle_subscribe.
    destruct (subscribe (rpc_store h)) as [s rx]. intros [= <- <-]. split; [done|left; eauto].
  - rewrite (dispatch_answered _ _ _ req) by done. unfold mbind, outcome_bind.
    destruct (dispatch_method _ _ _ _) as [[h1 s]|] eqn:Hd; [|done]. apply dispatch_method_answers in Hd.
    destruct (rpc_id req) as [id|]; simpl; intros [= <- <-]; eauto.
Qed.

(** Requests are isolated.  Only [state.set] changes the store; every
    other method leaves the whole handler alone, except that
    [state.subscribe] registers a receiver; no method touches the peer
    table; and only [state.set], with the clock before the epoch, panics. *)
Theorem dispatch_effects env h raw :
  (forall h' r, dispatch env h raw = Done (h', r) ->
     rpc_peers h' = rpc_peers h /\ store_node_id (rpc_store h') = store_node_id (rpc_store h)
     /\ (h' = h
         \/ (exists req, from_str raw = Ok req /\ method req = "state.subscribe"
               /\ rpc_store h' = (subscribe (rpc_store h)).1 /\ state (rpc_store h') = state (rpc_store h))
         \/ (exists req key value w, from_str raw = Ok req /\ method req = "state.set"
               /\ set (env_clock env) (rpc_store h) key value = Done (rpc_store h', w))))
  /\ (forall msg, dispatch env h raw = Panic msg ->
        now_micros (env_clock env) = Panic msg
        /\ exists req, from_str raw = Ok req /\ method req = "state.set").
Proof.
  destruct (from_str raw) as [req|e] eqn:Hr.
  2: { unfold dispatch. rewrite Hr. split; [|done]. intros h' r [= <- <-]. auto. }
  destruct (decide (method req = "state.subscribe")) as [Hm|Hm].
  { unfold dispatch. rewrite Hr, bool_decide_eq_true_2 by done. split; [|done]. intros h' r.
    unfold handle_subscribe, subscribe. destruct (bc_subscribe _) as [tx rx]. intros [= <- <-].
    split; [done|]. split; [done|]. right; left. by exists req. }
  rewrite (dispatch_answered _ _ _ req) by done.
  destruct (decide (method req = "state.set")) as [Hs|Hs].
  2: { destruct (dispatch_method_pure env h req (default Null (rpc_id req)) Hs) as [s ->].
       split; [|done]. intros h' r [= <- <-]. auto. }
  rewrite dispatch_method_set by done. split.
  - intros h' r. unfold mbind, outcome_bind.
    destruct (handle_state_set _ _ _ _) as [[h1 s]|] eqn:Hd; [|done]. intros [= <- <-].
    apply handle_state_set_Done in Hd as [[-> _]|(k & v & st & w & _ & _ & Hset & -> & _)]; [by auto|].
    simpl. split; [done|]. pose proof Hset as (t & _ & _ & _ & Hid & _)%set_Done.
    split; [done|]. right; right. by exists req, k, v, w.
  - intros msg. unfold handle_state_set, mbind, outcome_bind.
    destruct (required_str _ _ _); [|done]. destruct (required_str _ _ _); [|done].
    destruct (set _ _ _ _) as [[]|m] eqn:Hset; [done|]. intros [= <-].
    apply set_Panic in Hset. eauto.
Qed.

(** C39: invalid calls.  An unknown method, a [state.get] or [state.set]
    without a string under "key", and a [state.set] with a key but without a
    string under "value" are answered with the error code of the case and a
    message that names the culprit; the handler stays as it is. *)
Theorem dispatch_errors env h raw req id :
  from_str raw = Ok req -> rpc_id req = Some id ->
  let error c m := dispatch env h raw = Done (h, Response (to_json (RpcError_new c m id))) in
  let no_str field := value_get field (params req) ≫= as_str = None in
  let missing field := error INVALID_PARAMS ("Missing required param: " +:+ dq +:+ field +:+ dq) in
  (method req ∉ ["state.subscribe"; "state.get"; "state.set"; "state.keys"; "node.peers";
                 "sync.status"; "sync.delta"] ->
     error METHOD_NOT_FOUND ("Method not found: " +:+ method req))
  /\ (method req = "state.get" -> no_str "key" -> missing "key")
  /\ (method req = "state.set" -> no_str "key" -> missing "key")
  /\ (method req = "state.set" -> ~ no_str "key" -> no_str "value" -> missing "value").
Proof.
  intros Hr Hid. cbv zeta.
  assert (forall m, method req <> "state.subscribe" ->
            dispatch_method env h req id = Done (h, m) -> dispatch env h raw = Done (h, Response m)) as Hd.
  { intros m Hm E. rewrite (dispatch_answered _ _ _ req), Hid by done. simpl. by rewrite E. }
  split; [|split; [|split]].
  - intros Hm. rewrite !not_elem_of_cons in Hm. destruct Hm as (? & ? & ? & ? & ? & ? & ? & _).
    apply Hd; [done|]. unfold dispatch_method. by rewrite !bool_decide_eq_false_2.
  - intros Hm Hk. apply Hd; [by rewrite Hm|]. unfold dispatch_method. rewrite Hm. simpl.
    unfold handle_state_get. by rewrite required_str_Err.
  - intros Hm Hk. apply Hd; [by rewrite Hm|]. rewrite dispatch_method_set by done.
    unfold handle_state_set. by rewrite required_str_Err.
  - intros Hm Hk Hv. apply Hd; [by rewrite Hm|]. rewrite dispatch_method_set by done.
    unfold handle_state_set. pose proof (required_str_cases (params req) "key" id) as Hc.
    destruct (required_str (params req) "key" id); [|by destruct Hc]. by rewrite required_str_Err.
Qed.

(** A write is visible to the next read.  A well-formed [state.set] is
    answered with the stamp of the value the store now holds for the key,
    the greater of the one it held and the one written; a [state.get] of the
    key that follows is answered with that value. *)
Theorem set_then_get env env' h h1 raw raw' req req' id id' key value r :
  from_str raw = Ok req -> method req = "state.set" -> rpc_id req = Some id ->
  value_get "key" (params req) = Some (Str key) ->
  value_get "value" (params req) = Some (Str value) ->
  from_str raw' = Ok req' -> method req' = "state.get" -> rpc_id req' = Some id' ->
  value_get "key" (params req') = Some (Str key) ->
  dispatch env h raw = Done (h1, r) ->
  exists t w, now_micros (env_clock env) = Done t
    /\ w = join_value (get (rpc_store h) key) (mk_lww value t (store_node_id (rpc_store h)))
    /\ r = Response (to_json (RpcResponse_ok
             (Object [("timestamp", json_u64 (timestamp w)); ("node_id", Str (node_id w))]) id))
    /\ dispatch env' h1 raw' = Done (h1, Response (to_json (RpcResponse_ok (entry_json key w) id'))).
Proof.
  intros Hr Hm Hid Hk Hv Hr' Hm' Hid' Hk'.
  rewrite (dispatch_answered _ _ _ req), Hid by (done || by rewrite Hm). cbn [default from_option].
  rewrite dispatch_method_set by done. unfold handle_state_set.
  rewrite (required_str_Ok _ _ _ key), (required_str_Ok _ _ _ value) by done.
  unfold mbind, outcome_bind. destruct (set _ _ _ _) as [[st w]|] eqn:Hs; [|done].
  apply set_Done in Hs as (t & Ht & Hst & Hw & Hn & _). intros [= <- <-]. exists t, w.
  split; [done|]. split; [done|]. split; [done|].
  rewrite (dispatch_answered _ _ _ req'), Hid' by (done || by rewrite Hm').
  cbn [default from_option]. unfold dispatch_method, mbind, outcome_bind. rewrite Hm'. simpl.
  unfold handle_state_get. rewrite (required_str_Ok _ _ _ key) by done. unfold get. simpl.
  by rewrite Hst, lookup_absorb, decide_True, Hw.
Qed.

(** What [sync.delta] hands out.  The answer lists, in some order and
    with their number, exactly the entries newer than "since" (0 when it is
    missing or not an unsigned integer), each readable back; a node that
    merges what it reads from an answer for 0 holds the same map, provided
    no timestamp is 0. *)
Theorem sync_delta_transfers env h raw req id :
  from_str raw = Ok req -> method req = "sync.delta" -> rpc_id req = Some id ->
  let since := default 0%N (value_get "since" (params req) ≫= as_u64) in
  exists entries delta,
    dispatch env h raw = Done (h, Response (to_json (RpcResponse_ok
      (Object [("entries", Array entries); ("count", json_u64 (N.of_nat (length entries)))]) id)))
    /\ mapM entry_of_json entries = Some delta
    /\ (forall key v, (key, v) ∈ delta <-> get (rpc_store h) key = Some v /\ (since < timestamp v)%N)
    /\ (since = 0%N -> (forall key v, get (rpc_store h) key = Some v -> (0 < timestamp v)%N) ->
        forall s, state s = ∅ -> state (merge_delta s delta).1 = state (rpc_store h)).
Proof.
  intros Hr Hm Hid. cbv zeta. set (since := default 0%N _).
  set (delta := delta_since (env_iter env) (rpc_store h) since).
  exists ((fun kv => entry_json kv.1 kv.2) <$> delta), delta. split; [|split; [|split]].
  - rewrite (dispatch_answered _ _ _ req), Hid by (done || by rewrite Hm).
    cbn [default from_option]. unfold dispatch_method. by rewrite Hm.
  - apply mapM_entry_json.
  - intros key v. apply elem_of_delta_since_map.
  - intros Hz Hpos s Hs. rewrite merge_delta_state, Hs. apply absorb_all_entries.
    intros [k v]. unfold delta, delta_since. rewrite elem_of_delta_since_map, Hz.
    split; [by intros [? _]|]. intros Hk. split; [done|]. by apply (Hpos k).
Qed.

(** The queries report the store.  [state.keys] lists every key once,
    with their number; [sync.status] reports the identifier, the number of
    keys, a bound on the timestamps that is reached unless the store is
    empty, and the size of the peer table; [node.peers] lists the table. *)
Theorem queries_report env h raw req id :
  from_str raw = Ok req -> rpc_id req = Some id ->
  let answer v := dispatch env h raw = Done (h, Response (to_json (RpcResponse_ok (Object v) id))) in
  (method req = "state.keys" -> exists keys,
     answer [("keys", Array (Str <$> keys)); ("count", json_u64 (len (rpc_store h)))]
     /\ NoDup keys /\ forall key, key ∈ keys <-> exists v, get (rpc_store h) key = Some v)
  /\ (method req = "sync.status" -> exists ts,
     answer [("node_id", Str (store_node_id (rpc_store h))); ("state_size", json_u64 (len (rpc_store h)));
             ("max_timestamp", json_u64 ts); ("peer_count", json_u64 (dm_len (rpc_peers h)))]
     /\ (forall key v, get (rpc_store h) key = Some v -> (timestamp v <= ts)%N)
     /\ (is_empty (rpc_store h) = false -> exists key v, get (rpc_store h) key = Some v /\ timestamp v = ts))
  /\ (method req = "node.peers" ->
     answer [("peers", Array (peer_json (env_now env) <$> dm_iter (rpc_peers h)));
             ("count", json_u64 (N.of_nat (length (dm_iter (rpc_peers h)))))]).
Proof.
  intros Hr Hid. cbv zeta. split; [|split]; intros Hm;
    rewrite (dispatch_answered _ _ _ req), Hid by (done || by rewrite Hm);
    cbn [default from_option]; unfold dispatch_method; rewrite Hm; simpl.
  - exists (snapshot (env_iter env) (rpc_store h)).*1. split; [|split].
    + unfold handle_state_keys. by rewrite length_fmap, snapshot_length.
    + apply hash_run_NoDup_fst.
    + intros key. rewrite list_elem_of_fmap. split.
      * intros ([k v] & -> & Hin). exists v. by apply elem_of_hash_run in Hin.
      * intros [v Hv]. exists (key, v). split; [done|]. by apply elem_of_hash_run.
  - exists (max_timestamp (env_iter env) (rpc_store h)). split; [done|]. split.
    + intros key v. apply max_timestamp_ub.
    + intros Hne. apply max_timestamp_reached. rewrite <-is_empty_spec. by rewrite Hne.
  - unfold handle_node_peers. by rewrite length_fmap.
Qed.
End handler_properties.
