(* ===== verification/RpcServer.v ===== *)
(** One client connection, src/rpc/server.rs: the loop over the next request
    line, the next event of the subscription and the shutdown signal.  Each
    turn of the loop is a step; the arm that [select!] picks, and what an
    abandoned read leaves behind, are given to the step. *)
From S2P Require Import Prelude Crdt Replica Broadcast Store DashMap Peer Protocol RpcTypes.
From S2P Require Import RpcHandler.

(** ** [str::trim] *)

(** The characters of the Unicode property White_Space, in UTF-8. *)
Definition white1 (b : N) : bool := ((9 <=? b) && (b <=? 13) || (b =? 32))%N.
Definition white2 (b1 b2 : N) : bool := ((b1 =? 194) && ((b2 =? 133) || (b2 =? 160)))%N.
Definition white3 (b1 b2 b3 : N) : bool :=
  ((b1 =? 225) && (b2 =? 154) && (b3 =? 128)
   || (b1 =? 226) && (b2 =? 128) && ((128 <=? b3) && (b3 <=? 138)
                                     || (b3 =? 168) || (b3 =? 169) || (b3 =? 175))
   || (b1 =? 226) && (b2 =? 129) && (b3 =? 159)
   || (b1 =? 227) && (b2 =? 128) && (b3 =? 128))%N.

Fixpoint trim_start (l : list byte) : list byte :=
  match l with
  | b1 :: r1 =>
      if white1 (Byte.to_N b1) then trim_start r1
      else match r1 with
           | b2 :: r2 =>
               if white2 (Byte.to_N b1) (Byte.to_N b2) then trim_start r2
               else match r2 with
                    | b3 :: r3 =>
                        if white3 (Byte.to_N b1) (Byte.to_N b2) (Byte.to_N b3) then trim_start r3
                        else l
                    | [] => l
                    end
           | [] => l
           end
  | [] => []
  end.

(** On the reversed bytes. *)
Fixpoint trim_end_rev (l : list byte) : list byte :=
  match l with
  | b1 :: r1 =>
      if white1 (Byte.to_N b1) then trim_end_rev r1
      else match r1 with
           | b2 :: r2 =>
               if white2 (Byte.to_N b2) (Byte.to_N b1) then trim_end_rev r2
               else match r2 with
                    | b3 :: r3 =>
                        if white3 (Byte.to_N b3) (Byte.to_N b2) (Byte.to_N b1) then trim_end_rev r3
                        else l
                    | [] => l
                    end
           | [] => l
           end
  | [] => []
  end.

Definition trim (s : string) : string :=
  String.string_of_list_byte
    (reverse (trim_end_rev (reverse (trim_start (String.list_byte_of_string s))))).

(** ** Lines *)

Definition newline : Ascii.ascii := Ascii.ascii_of_N 10.

(** Up to and including the next line feed, or all that is left. *)
Fixpoint take_line (s : string) : string * string :=
  match s with
  | EmptyString => (EmptyString, EmptyString)
  | String.String c s' =>
      if Ascii.eqb c newline then (String.String c EmptyString, s')
      else let '(l, r) := take_line s' in (String.String c l, r)
  end.

Fixpoint has_newline (s : string) : bool :=
  match s with
  | EmptyString => false
  | String.String c s' => Ascii.eqb c newline || has_newline s'
  end.

Fixpoint str_drop (n : nat) (s : string) : string :=
  match n, s with
  | S n', String.String _ s' => str_drop n' s'
  | _, _ => s
  end.

Definition write_line (w : writer) (line : string) : result string unit * writer :=
  match write_all (String.list_byte_of_string line) w with
  | (Err e, w) => (Err e, w)
  | (Ok _, w) => write_all [x0a] w
  end.

(** ** The connection *)

(** How a turn of the loop ends: the next turn, [break], or [?]. *)
Inductive flow := Continue | Break | Fail (e : string).

Inductive SubPoll := SubEvent (ev : StateEvent) | SubLagged (n : N) | SubIdle.

(** The arm that completes.  [ArmEvent taken kept]: a request was being read
    when the event won; [taken] is what the abandoned [read_line] had already
    taken from the stream, and [kept] what it leaves in [line].  The
    documentation of [read_line] promises nothing about [kept]. *)
Inductive arm :=
| ArmLine
| ArmEof
| ArmReadError
| ArmEvent (taken kept : string)
| ArmCancelled.

Section server.
Context `{BroadcastLib StateEvent, DashMapLib PeerInfo}.
Context `{RequestParser, ToJson RpcResponse, ToJson RpcError, ToJson RpcNotification}.

(** [input]: the bytes the client sends that have not been read. *)
Record client := mk_client {
  input : string;
  line : string;
  subscription : option Receiver;
  sub_prefix : option string;
  out : writer;
}.

Definition clear_line (c : client) : client :=
  mk_client (input c) EmptyString (subscription c) (sub_prefix c) (out c).
Definition with_out (c : client) (w : writer) : client :=
  mk_client (input c) (line c) (subscription c) (sub_prefix c) w.
Definition with_subscription (c : client) (rx : option Receiver) (prefix : option string) : client :=
  mk_client (input c) (line c) rx prefix (out c).

Definition with_event_tx (h : RpcHandler) (tx : Sender) : RpcHandler :=
  with_rpc_store h {| state := state (rpc_store h); event_tx := tx;
                      store_node_id := store_node_id (rpc_store h) |}.

(** [None]: the future does not resolve. *)
Definition poll_subscription (tx : Sender) (sub : option Receiver)
  : option (SubPoll * (Sender * option Receiver)) :=
  match sub with
  | None => None
  | Some rx =>
      match bc_recv tx rx with
      | (RecvOk ev, (tx, rx)) => Some (SubEvent ev, (tx, Some rx))
      | (RecvLagged n, (tx, rx)) => Some (SubLagged n, (tx, Some rx))
      | (RecvClosed, (tx, _)) => Some (SubIdle, (tx, None))
      | (RecvPending, _) => None
      end
  end.

(** [sub_prefix.as_deref().is_none_or(|p| ev.key.starts_with(p))]. *)
Definition key_matches (prefix : option string) (key : string) : bool :=
  match prefix with None => true | Some p => String.prefix p key end.

(** The notification an event gives rise to, if any. *)
Definition event_notification (prefix : option string) (ev : SubPoll) : option RpcNotification :=
  match ev with
  | SubEvent ev =>
      if key_matches prefix (ev_key ev) then Some (state_update (ev_key ev) (ev_value ev)) else None
  | SubLagged n => Some (lag n)
  | SubIdle => None
  end.

(** A complete line is in [line]. *)
Definition serve_line (env : request_env) (h : RpcHandler) (c : client)
  : outcome (RpcHandler * client * flow) :=
  let trimmed := trim (line c) in
  if bool_decide (trimmed = EmptyString) then Done (h, clear_line c, Continue)
  else
    hd ← dispatch env h trimmed;
    let '(h, d) := hd in
    let finish c resp :=
      match write_line (out c) resp with
      | (Ok _, w) => (h, clear_line (with_out c w), Continue)
      | (Err e, w) => (h, with_out c w, Fail e)
      end in
    Done match d with
         | Response resp => finish c resp
         | Subscribed initial_response rx prefix =>
             finish (with_subscription c (Some rx) prefix) initial_response
         | Notification => (h, clear_line c, Continue)
         end.

Definition serve_event (ev : SubPoll) (h : RpcHandler) (c : client) : RpcHandler * client * flow :=
  match event_notification (sub_prefix c) ev with
  | None => (h, c, Continue)
  | Some n =>
      match to_string n with
      | Err e => (h, c, Fail e)
      | Ok json =>
          match write_line (out c) json with
          | (Ok _, w) => (h, with_out c w, Continue)
          | (Err e, w) => (h, with_out c w, Fail e)
          end
      end
  end.

(** One turn; [None] when the arm cannot complete. *)
Definition conn_step (env : request_env) (a : arm) (h : RpcHandler) (c : client)
  : option (outcome (RpcHandler * client * flow)) :=
  match a with
  | ArmLine =>
      if bool_decide (input c = EmptyString) then None
      else
        let '(l, rest) := take_line (input c) in
        Some (serve_line env h
                (mk_client rest (line c +:+ l) (subscription c) (sub_prefix c) (out c)))
  | ArmEof =>
      if bool_decide (input c = EmptyString) then Some (Done (h, c, Break)) else None
  | ArmReadError => Some (Done (h, c, Break))
  | ArmEvent taken kept =>
      if String.prefix taken (input c) && negb (has_newline taken)
         && bool_decide (taken = EmptyString -> kept = line c)
      then
        '(ev, (tx, sub)) ← poll_subscription (event_tx (rpc_store h)) (subscription c);
        Some (Done (serve_event ev (with_event_tx h tx)
                (mk_client (str_drop (String.length taken) (input c)) kept sub (sub_prefix c) (out c))))
      else None
  | ArmCancelled => Some (Done (h, c, Break))
  end.
End server.

Arguments client {_}.

(** The texts a dispatch result has written. *)
Definition reply_lines `{BroadcastLib StateEvent} (d : DispatchResult) : list string :=
  match d with
  | Response s | Subscribed s _ _ => [s]
  | Notification => []
  end.

Definition line_bytes (s : string) : list byte := String.list_byte_of_string s ++ [x0a].

Lemma write_line_ok w s :
  room w = None -> write_line w s = (Ok tt, mk_writer (written w ++ line_bytes s) None (write_error w)).
Proof.
  intros Hr. unfold write_line, write_all. rewrite Hr. simpl. unfold line_bytes. by rewrite app_assoc.
Qed.

Lemma take_line_app l rest :
  has_newline l = false ->
  take_line (l +:+ String.String newline rest) = (l +:+ String.String newline EmptyString, rest).
Proof.
  induction l as [|a l IH]; [done|]. cbn [has_newline]. intros [Ha Hl]%orb_false_iff.
  change (take_line ((String.String a l) +:+ String.String newline rest))
    with (take_line (String.String a (l +:+ String.String newline rest))).
  cbn [take_line]. by rewrite Ha, IH.
Qed.

Lemma has_newline_app l1 l2 : has_newline (l1 +:+ l2) = has_newline l1 || has_newline l2.
Proof. induction l1 as [|a l1 IH]; simpl; [done|]. by rewrite IH, orb_assoc. Qed.

Lemma str_drop_app l1 l2 : str_drop (String.length l1) (l1 +:+ l2) = l2.
Proof. induction l1; simpl; [by destruct l2|done]. Qed.

Lemma str_app_assoc s1 s2 s3 : (s1 +:+ s2) +:+ s3 = s1 +:+ (s2 +:+ s3).
Proof. induction s1 as [|a s1 IH]; [done|]. exact (f_equal (String.String a) IH). Qed.

Lemma str_app_nonempty l a r : l +:+ String.String a r <> EmptyString.
Proof. by destruct l. Qed.

(** ** A connection among the other tasks of the node *)

Section serving.
Context `{BroadcastLib StateEvent, DashMapLib PeerInfo}.
Context `{RequestParser, ToJson RpcResponse, ToJson RpcError, ToJson RpcNotification}.
Implicit Types (h : RpcHandler) (c : client).

(** The request the next [ArmLine] serves. *)
Definition next_request c : string := trim (line c +:+ (take_line (input c)).1).

Definition is_subscribe (raw : string) : bool :=
  match from_str raw with Ok req => bool_decide (method req = "state.subscribe") | Err _ => false end.

(** The events a dispatch sends. *)
Definition dispatch_events (env : request_env) h (raw : string) : list StateEvent :=
  match from_str raw with
  | Ok req =>
      if bool_decide (method req = "state.set") then
        match value_get "key" (params req) ≫= as_str, value_get "value" (params req) ≫= as_str with
        | Some key, Some value =>
            match set (env_clock env) (rpc_store h) key value with
            | Done (_, w) => [mk_event key w]
            | Panic _ => []
            end
        | _, _ => []
        end
      else []
  | Err _ => []
  end.

Definition line_events (env : request_env) h c : list StateEvent :=
  if bool_decide (next_request c = EmptyString) then [] else dispatch_events env h (next_request c).

(** The notification the next [ArmEvent] writes. *)
Definition next_push h c : list RpcNotification :=
  match poll_subscription (event_tx (rpc_store h)) (subscription c) with
  | Some (ev, _) => option_list (event_notification (sub_prefix c) ev)
  | None => []
  end.

(** A step of the connection that keeps it open and does not subscribe anew,
    or a step of another task of the node; with the events that enter the
    channel and the notifications written to the client. *)
Inductive sstep : RpcHandler * client -> list StateEvent -> list RpcNotification ->
                  RpcHandler * client -> Prop :=
| s_line env h c h' c' :
    conn_step env ArmLine h c = Some (Done (h', c', Continue)) ->
    is_subscribe (next_request c) = false ->
    sstep (h, c) (line_events env h c) [] (h', c')
| s_event env taken kept h c h' c' :
    conn_step env (ArmEvent taken kept) h c = Some (Done (h', c', Continue)) ->
    sstep (h, c) [] (next_push h c) (h', c')
| s_send h c ev :
    sstep (h, c) [ev] [] (with_rpc_store h (send_event (rpc_store h) ev), c)
| s_other h c m peers :
    sstep (h, c) [] [] (mk_handler (with_state (rpc_store h) m) peers, c)
| s_subscribe h c :
    sstep (h, c) [] [] (with_rpc_store h (subscribe (rpc_store h)).1, c)
| s_recv h c r :
    bc_live (event_tx (rpc_store h)) r -> subscription c <> Some r ->
    sstep (h, c) [] [] (with_event_tx h (bc_recv (event_tx (rpc_store h)) r).2.1, c).

Inductive serves : RpcHandler * client -> list StateEvent -> list RpcNotification ->
                   RpcHandler * client -> Prop :=
| serves_refl s : serves s [] [] s
| serves_step s1 evs1 ps1 s2 evs2 ps2 s3 :
    sstep s1 evs1 ps1 s2 -> serves s2 evs2 ps2 s3 ->
    serves s1 (evs1 ++ evs2) (ps1 ++ ps2) s3.

Definition send_all (h : RpcHandler) (evs : list StateEvent) : RpcHandler :=
  foldl (fun h ev => with_rpc_store h (send_event (rpc_store h) ev)) h evs.

(** What the subscription has gone through: events it was given, and runs of
    events it was told it missed. *)
Inductive item := ItEvent (ev : StateEvent) | ItMissed (evs : list StateEvent).

Definition item_events (it : item) : list StateEvent :=
  match it with ItEvent ev => [ev] | ItMissed evs => evs end.

Definition item_push (prefix : option string) (it : item) : list RpcNotification :=
  match it with
  | ItEvent ev => option_list (event_notification prefix (SubEvent ev))
  | ItMissed evs => [lag (N.of_nat (length evs))]
  end.

(** ** Lemmas *)

Lemma serves_sends h c evs : serves (h, c) evs [] (send_all h evs, c).
Proof.
  revert h. induction evs as [|ev evs IH]; intros h; [constructor|].
  apply (serves_step _ [ev] [] (with_rpc_store h (send_event (rpc_store h) ev), c)); [constructor|apply IH].
Qed.

Lemma serves_app s1 evs1 ps1 s2 evs2 ps2 s3 :
  serves s1 evs1 ps1 s2 -> serves s2 evs2 ps2 s3 -> serves s1 (evs1 ++ evs2) (ps1 ++ ps2) s3.
Proof.
  intros Hs. revert evs2 ps2 s3.
  induction Hs as [s|s1 e1 p1 s2 e2 p2 s3 Hst _ IH]; intros e3 p3 s4 Hs3; [done|].
  rewrite <-!app_assoc. eapply serves_step; [exact Hst|by apply IH].
Qed.

(** What a turn does to the state shared with other tasks: the map absorbs
    what is announced; the peer table and the identifier stay. *)
Definition shared_effect h (evs : list StateEvent) h' : Prop :=
  rpc_peers h' = rpc_peers h
  /\ store_node_id (rpc_store h') = store_node_id (rpc_store h)
  /\ state (rpc_store h') = absorb_all (state (rpc_store h)) (ev_pair <$> evs).

(** What a turn does to the channel and to the subscription. *)
Inductive channel_effect h c : list StateEvent -> RpcHandler -> client -> Prop :=
| ce_sends evs h' c' :
    event_tx (rpc_store h') = foldl bc_send (event_tx (rpc_store h)) evs ->
    subscription c' = subscription c -> sub_prefix c' = sub_prefix c -> channel_effect h c evs h' c'
| ce_subscribed h' c' :
    event_tx (rpc_store h') = (bc_subscribe (event_tx (rpc_store h))).1 ->
    subscription c' = Some (bc_subscribe (event_tx (rpc_store h))).2 -> channel_effect h c [] h' c'
| ce_polled ev h' c' :
    poll_subscription (event_tx (rpc_store h)) (subscription c)
      = Some (ev, (event_tx (rpc_store h'), subscription c')) ->
    sub_prefix c' = sub_prefix c -> channel_effect h c [] h' c'.

Lemma absorb_winner (m : StateMap) key (v : LwwValue) :
  absorb m (key, join_value (m !! key) v) = absorb m (key, v).
Proof.
  unfold absorb. simpl. f_equal. destruct (m !! key) as [e|]; simpl; [|done].
  by rewrite rmerge_assoc, rmerge_idem.
Qed.

Lemma dispatch_effect env h raw h' d :
  dispatch env h raw = Done (h', d) ->
  shared_effect h (dispatch_events env h raw) h'
  /\ if is_subscribe raw
     then event_tx (rpc_store h') = (bc_subscribe (event_tx (rpc_store h))).1
          /\ dispatch_events env h raw = []
          /\ exists s prefix, d = Subscribed s (bc_subscribe (event_tx (rpc_store h))).2 prefix
     else event_tx (rpc_store h') = foldl bc_send (event_tx (rpc_store h)) (dispatch_events env h raw)
          /\ forall s rx prefix, d <> Subscribed s rx prefix.
Proof.
  unfold is_subscribe, dispatch_events. destruct (from_str raw) as [req|e] eqn:Hr.
  2: { unfold dispatch. rewrite Hr. intros [= <- <-]. split; [by repeat split|by split]. }
  destruct (decide (method req = "state.subscribe")) as [Hm|Hm].
  { unfold dispatch. rewrite Hr, (bool_decide_eq_true_2 _ Hm). unfold handle_subscribe, subscribe.
    destruct (bc_subscribe _) as [tx rx]. intros [= <- <-]. rewrite Hm.
    rewrite (bool_decide_eq_false_2 ("state.subscribe" = "state.set")) by done.
    split; [by repeat split|]. split; [done|]. split; [done|]. by eexists _, _. }
  intros Hd. rewrite (bool_decide_eq_false_2 _ Hm). rewrite (dispatch_answered _ _ _ req) in Hd by done. unfold mbind at 1, outcome_bind in Hd.
  destruct (dispatch_method env h req _) as [[h1 s]|] eqn:E; [|done]. injection Hd as <- <-.
  assert (forall s0 rx p, (if bool_decide (rpc_id req = None) then Notification else Response s)
            <> Subscribed s0 rx p) as Hno by (by case_match).
  cbn [fst]. destruct (decide (method req = "state.set")) as [Hs|Hs];
    [rewrite (bool_decide_eq_true_2 _ Hs)|rewrite (bool_decide_eq_false_2 _ Hs)].
  - rewrite dispatch_method_set in E by done.
    apply handle_state_set_Done in E as [(-> & _ & Hn)|(key & value & st & w & Hk & Hv & Hset & -> & _)].
    + by destruct Hn as [-> | ->]; [|destruct (value_get "key" (params req) ≫= as_str)].
    + rewrite Hk, Hv. simpl. rewrite Hset. apply set_Done in Hset as (t & _ & Hst & -> & Hid & Htx).
      split; [|done]. split; [done|]. split; [done|]. simpl. unfold ev_pair. simpl.
      by rewrite absorb_winner.
  - destruct (dispatch_method_pure env h req (default Null (rpc_id req)) Hs) as [s' E'].
    rewrite E' in E. injection E as <- _. split; [by repeat split|done].
Qed.

(** The events of a turn. *)
Definition turn_events (env : request_env) (a : arm) h c : list StateEvent :=
  match a with ArmLine => if bool_decide (input c = EmptyString) then [] else line_events env h c
             | _ => [] end.

Definition is_sub_turn (a : arm) c : bool :=
  match a with ArmLine => is_subscribe (next_request c) | _ => false end.

Lemma serve_line_effect env h c h' c' fl :
  serve_line env h c = Done (h', c', fl) ->
  let evs := if bool_decide (trim (line c) = EmptyString) then [] else dispatch_events env h (trim (line c)) in
  shared_effect h evs h' /\ channel_effect h c evs h' c'
  /\ (is_subscribe (trim (line c)) = false ->
      event_tx (rpc_store h') = foldl bc_send (event_tx (rpc_store h)) evs
      /\ subscription c' = subscription c /\ sub_prefix c' = sub_prefix c).
Proof.
  unfold serve_line. intros Hs. case_bool_decide.
  { injection Hs as <- <- <-. split; [by repeat split|]. split; [by constructor|done]. }
  unfold mbind, outcome_bind in Hs. destruct (dispatch env h _) as [[h1 d]|] eqn:Hd; [|done].
  apply dispatch_effect in Hd as [Hsh Hch]. destruct (is_subscribe _) eqn:Hsub.
  - destruct Hch as (Htx & Hev & s & prefix & ->). rewrite Hev in *. destruct (write_line _ s) as [[|] w];
      injection Hs as <- <- <-; (split; [done|]; split; [by apply ce_subscribed|done]).
  - destruct Hch as [Htx Hno]. destruct d as [resp|i rx p|]; [|by destruct (Hno i rx p)|].
    + destruct (write_line (out c) resp) as [[|] w]; injection Hs as <- <- <-;
        (split; [done|]; split; [by constructor|done]).
    + injection Hs as <- <- <-. split; [done|]. split; [by constructor|done].
Qed.

Lemma serve_event_client ev h c h' c' fl :
  serve_event ev h c = (h', c', fl) ->
  h' = h /\ subscription c' = subscription c /\ sub_prefix c' = sub_prefix c /\ input c' = input c
  /\ line c' = line c.
Proof.
  unfold serve_event. destruct (event_notification _ _) as [n|]; [|by intros [= <- <- <-]].
  destruct (to_string n) as [j|e]; [|by intros [= <- <- <-]].
  destruct (write_line (out c) j) as [[|] w]; by intros [= <- <- <-].
Qed.

Lemma conn_step_effect env a h c h' c' fl :
  conn_step env a h c = Some (Done (h', c', fl)) ->
  shared_effect h (turn_events env a h c) h' /\ channel_effect h c (turn_events env a h c) h' c'
  /\ (is_sub_turn a c = false -> (forall taken kept, a <> ArmEvent taken kept) ->
      event_tx (rpc_store h') = foldl bc_send (event_tx (rpc_store h)) (turn_events env a h c)
      /\ subscription c' = subscription c /\ sub_prefix c' = sub_prefix c).
Proof.
  intros Hc. destruct a as [| | |taken kept|]; unfold conn_step in Hc; cbn [turn_events is_sub_turn].
  - unfold line_events, next_request. case_bool_decide as Hin; [done|].
    destruct (take_line (input c)) as [l rest] eqn:El. injection Hc as Hc. cbn [fst].
    apply serve_line_effect in Hc as (Hsh & Hch & Hq). cbn [line] in *. split; [done|]. split.
    + by destruct Hch; econstructor.
    + intros Hsub _. by apply Hq.
  - case_bool_decide; [|done]. injection Hc as <- <- <-. split; [by repeat split|]. split; [by constructor|done].
  - injection Hc as <- <- <-. split; [by repeat split|]. split; [by constructor|done].
  - case_match; [|done]. unfold mbind, option_bind in Hc.
    destruct (poll_subscription _ _) as [[ev [tx sub]]|] eqn:Hp; [|done]. injection Hc as Hc.
    apply serve_event_client in Hc as (-> & Hs & Hpre & _). cbn [subscription sub_prefix] in *.
    split; [by repeat split|]. split; [|intros _ Hne; by destruct (Hne taken kept)].
    apply (ce_polled _ _ ev); [by rewrite Hs|done].
  - injection Hc as <- <- <-. split; [by repeat split|]. split; [by constructor|done].
Qed.

Context `{!BroadcastLaws StateEvent}.

Lemma bc_sends tx rx evs :
  bc_live tx rx ->
  bc_live (foldl bc_send tx evs) rx
  /\ bc_view (foldl bc_send tx evs) rx = bc_view tx rx ++ evs
  /\ bc_cap (foldl bc_send tx evs) = bc_cap tx.
Proof.
  revert tx. induction evs as [|ev evs IH]; intros tx Hl; simpl; [by rewrite app_nil_r|].
  destruct (bc_send_view tx rx ev Hl) as [Hl' Hv]. destruct (IH _ Hl') as (? & -> & ->).
  split; [done|]. rewrite Hv, <-app_assoc. split; [done|apply bc_send_cap].
Qed.

(** A poll takes one item off the view. *)
Lemma poll_item tx rx ev tx' sub :
  bc_live tx rx -> poll_subscription tx (Some rx) = Some (ev, (tx', sub)) ->
  exists rx' it, sub = Some rx' /\ bc_live tx' rx' /\ bc_cap tx' = bc_cap tx
    /\ bc_view tx rx = item_events it ++ bc_view tx' rx'
    /\ (forall prefix, option_list (event_notification prefix ev) = item_push prefix it)
    /\ (forall evs, it = ItMissed evs -> evs <> [] /\ (bc_cap tx < N.of_nat (length (bc_view tx rx)))%N).
Proof.
  intros Hl Hp. unfold poll_subscription in Hp.
  pose proof (bc_recv_live tx rx Hl) as [Hl' Hc].
  pose proof (bc_recv_empty tx rx Hl) as He. pose proof (bc_recv_value tx rx) as Hv.
  pose proof (fun n => bc_recv_lagged tx rx n Hl) as Hg.
  destruct (bc_recv tx rx) as [p [tx1 rx1]]. simpl in *.
  destruct (bc_view tx rx) as [|e l] eqn:E; [by destruct (He eq_refl) as [-> _]|].
  destruct (decide (N.of_nat (length (e :: l)) <= bc_cap tx)%N) as [Hle|Hgt].
  - destruct (Hv e l Hl eq_refl Hle) as [-> Hv']. injection Hp as <- <- <-.
    exists rx1, (ItEvent e). rewrite Hv'. by repeat (split; [done|]).
  - destruct (Hg (N.of_nat (length (e :: l)) - bc_cap tx)%N) as [-> Hv']; [lia..|].
    injection Hp as <- <- <-. set (n := N.to_nat (N.of_nat (length (e :: l)) - bc_cap tx)) in *.
    exists rx1, (ItMissed (take n (e :: l))). rewrite Hv'. split; [done|]. split; [done|].
    split; [done|]. split; [symmetry; apply take_drop|].
    assert (n <= length (e :: l)) as Hn by (unfold n; lia). split.
    + intros prefix. cbn [option_list event_notification item_push].
      rewrite length_take_le by done. unfold n. by rewrite N2Nat.id.
    + intros evs [= <-]. split; [|lia]. intros Hnil%(f_equal length).
      change (length (take n (e :: l)) = 0) in Hnil.
      rewrite length_take_le in Hnil by done. unfold n in Hnil. lia.
Qed.

Abbreviation view h rx := (bc_view (event_tx (rpc_store h)) rx).
Abbreviation cap h := (bc_cap (event_tx (rpc_store h))).

(** The account of a subscription over part of a run: [rx] at the start,
    [rx'] at the end. *)
Definition accounted h c rx evs pushes h' c' rx' (items : list item) : Prop :=
  subscription c' = Some rx' /\ bc_live (event_tx (rpc_store h')) rx'
  /\ sub_prefix c' = sub_prefix c /\ cap h' = cap h
  /\ view h rx ++ evs = (items ≫= item_events) ++ view h' rx'
  /\ pushes = items ≫= item_push (sub_prefix c)
  /\ (forall missed, ItMissed missed ∈ items ->
        missed <> [] /\ (cap h < N.of_nat (length (view h rx ++ evs)))%N).

(** Nothing was taken off the channel. *)
Lemma accounted_quiet h c rx evs h' c' :
  subscription c' = Some rx -> sub_prefix c' = sub_prefix c ->
  bc_live (event_tx (rpc_store h')) rx -> cap h' = cap h -> view h' rx = view h rx ++ evs ->
  accounted h c rx evs [] h' c' rx [].
Proof.
  intros. unfold accounted. split_and!; try done. by intros missed ?%not_elem_of_nil.
Qed.

Lemma sstep_accounted s1 evs ps s2 rx :
  sstep s1 evs ps s2 ->
  subscription s1.2 = Some rx -> bc_live (event_tx (rpc_store s1.1)) rx ->
  exists rx' items, accounted s1.1 s1.2 rx evs ps s2.1 s2.2 rx' items.
Proof.
  intros Hs Hsub Hl.
  destruct Hs as [env h c h' c' Hc Hn|env taken kept h c h' c' Hc|h c ev|h c m d|h c|h c r Hr Hne];
    cbn [fst snd] in *.
  - pose proof (conn_step_effect _ _ _ _ _ _ _ Hc) as (_ & _ & Hq).
    destruct (Hq Hn) as (Htx & Hs & Hp); [done|]. clear Hq.
    assert (turn_events env ArmLine h c = line_events env h c) as Hev.
    { cbn [turn_events]. rewrite bool_decide_eq_false_2; [done|]. intros Hin.
      unfold conn_step in Hc. by rewrite bool_decide_eq_true_2 in Hc. }
    rewrite Hev in Htx. exists rx, [].
    destruct (bc_sends (event_tx (rpc_store h)) rx (line_events env h c) Hl) as (? & ? & ?).
    apply accounted_quiet; rewrite ?Htx; congruence || done.
  - unfold conn_step in Hc. case_match; [|done]. unfold next_push. rewrite Hsub in *.
    unfold mbind, option_bind in Hc.
    destruct (poll_subscription _ _) as [[ev [tx sub]]|] eqn:Hp; [|done]. injection Hc as Hc.
    destruct (poll_item _ _ _ _ _ Hl Hp) as (rx' & it & -> & Hl' & Hcap & Hv & Hpush & Hm).
    apply serve_event_client in Hc as (-> & Hs & Hpre & _). exists rx', [it].
    split; [done|]. split; [done|]. split; [done|]. split; [done|]. rewrite app_nil_r.
    cbn [mbind list_bind]. rewrite !app_nil_r. split; [done|]. split; [apply Hpush|].
    intros missed <-%list_elem_of_singleton. by apply Hm.
  - exists rx, []. destruct (bc_send_view _ _ ev Hl) as [Hl' Hv].
    apply accounted_quiet; try done. apply bc_send_cap.
  - exists rx, []. apply accounted_quiet; try done. by rewrite app_nil_r.
  - exists rx, []. destruct (bc_subscribe_other _ _ Hl) as [Hl' Hv].
    destruct (bc_subscribe_new (event_tx (rpc_store h))) as (_ & _ & Hcap).
    unfold subscribe. destruct (bc_subscribe (event_tx (rpc_store h))) as [tx rx'].
    apply accounted_quiet; try done. by rewrite app_nil_r.
  - exists rx, []. destruct (bc_recv_other _ r rx Hr Hl) as (Hl' & Hv & _); [congruence|].
    destruct (bc_recv_live _ _ Hr) as [_ Hcap].
    apply accounted_quiet; try done. by rewrite app_nil_r.
Qed.

Lemma serves_accounted s1 evs ps s2 rx :
  serves s1 evs ps s2 ->
  subscription s1.2 = Some rx -> bc_live (event_tx (rpc_store s1.1)) rx ->
  exists rx' items, accounted s1.1 s1.2 rx evs ps s2.1 s2.2 rx' items.
Proof.
  intros Hs. revert rx. induction Hs as [s|s1 evs1 ps1 s2 evs2 ps2 s3 Hstep Hs IH]; intros rx Hsub Hl.
  { exists rx, []. apply accounted_quiet; try done. by rewrite app_nil_r. }
  destruct (sstep_accounted _ _ _ _ _ Hstep Hsub Hl)
    as (rx2 & is1 & Hsub2 & Hl2 & Hp2 & Hc2 & Hv2 & -> & Hm2).
  destruct (IH rx2 Hsub2 Hl2) as (rx3 & is2 & Hsub3 & Hl3 & Hp3 & Hc3 & Hv3 & -> & Hm3).
  exists rx3, (is1 ++ is2). split; [done|]. split; [done|]. split; [congruence|]. split; [congruence|].
  assert (view s1.1 rx ++ evs1 ++ evs2
          = (is1 ≫= item_events) ++ view s2.1 rx2 ++ evs2) as Heq by (by rewrite !app_assoc, Hv2).
  split; [by rewrite Heq, Hv3, bind_app, app_assoc|]. split; [by rewrite bind_app, Hp2|].
  intros missed [Hin|Hin]%elem_of_app.
  - destruct (Hm2 _ Hin) as [? Hlt]. split; [done|]. rewrite !length_app in *. lia.
  - destruct (Hm3 _ Hin) as [? Hlt]. split; [done|]. rewrite Heq. rewrite !length_app in *. lia.
Qed.

(** Without a [state.lag], the notifications are the updates of the matching
    keys among the events. *)
Lemma items_complete prefix (items : list item) :
  (forall n, lag n ∉ items ≫= item_push prefix) ->
  items ≫= item_push prefix
  = (fun ev => state_update (ev_key ev) (ev_value ev))
      <$> filter (fun ev => key_matches prefix (ev_key ev)) (items ≫= item_events).
Proof.
  induction items as [|it items IH]; intros Hno; [done|].
  cbn [mbind list_bind] in *. rewrite filter_app, fmap_app, <-IH.
  2: { intros n Hn. apply (Hno n). apply elem_of_app. by right. }
  f_equal. destruct it as [ev|missed].
  - unfold item_push, event_notification. cbn [item_events].
    rewrite filter_cons, filter_nil. by destruct (key_matches _ _).
  - destruct (Hno (N.of_nat (length missed))). apply elem_of_app. left. by apply list_elem_of_singleton.
Qed.

Lemma no_lag prefix (items : list item) :
  (forall missed, ItMissed missed ∉ items) -> forall n, lag n ∉ items ≫= item_push prefix.
Proof.
  intros Hm n (it & Hn & Hit)%list_elem_of_bind. destruct it as [ev|missed].
  - unfold item_push, event_notification in Hn.
    destruct (key_matches _ _); [|by apply not_elem_of_nil in Hn].
    by apply list_elem_of_singleton in Hn.
  - by destruct (Hm missed).
Qed.
End serving.

(** ** Properties *)

Section server_properties.
Context `{BroadcastLib StateEvent, DashMapLib PeerInfo, !BroadcastLaws StateEvent}.
Context `{RequestParser, ToJson RpcResponse, ToJson RpcError, ToJson RpcNotification}.

(** A subscriber never loses an event silently.  While a subscription is
    served, among any activity of the rest of the node, the events that were
    waiting and those sent since are, in order: given to the connection, one
    [state.update] each if the key matches the prefix and nothing otherwise;
    or reported missed, in runs, each by one [state.lag] with the length of
    the run; or still waiting.  Nothing is missed unless more events than the
    capacity of the channel were waiting or sent. *)
Theorem no_silent_loss h c rx evs pushes h' c' :
  subscription c = Some rx -> bc_live (event_tx (rpc_store h)) rx ->
  serves (h, c) evs pushes (h', c') ->
  exists rx' items,
    subscription c' = Some rx'
    /\ bc_view (event_tx (rpc_store h)) rx ++ evs
       = (items ≫= item_events) ++ bc_view (event_tx (rpc_store h')) rx'
    /\ pushes = items ≫= item_push (sub_prefix c)
    /\ (forall missed, ItMissed missed ∈ items -> missed <> []
         /\ (bc_cap (event_tx (rpc_store h))
             < N.of_nat (length (bc_view (event_tx (rpc_store h)) rx ++ evs)))%N).
Proof.
  intros Hsub Hl Hs. destruct (serves_accounted _ _ _ _ rx Hs Hsub Hl)
    as (rx' & items & Hsub' & _ & _ & _ & Hv & Hp & Hm). by exists rx', items.
Qed.

(** A subscriber that keeps up sees everything.  If no [state.lag] was
    written and nothing is waiting, the notifications are exactly the
    updates of the matching keys, in the order of the channel; and when the
    channel can hold all that was sent, there is no [state.lag]. *)
Theorem in_step_subscriber_complete h c rx evs pushes h' c' rx' :
  subscription c = Some rx -> bc_live (event_tx (rpc_store h)) rx ->
  serves (h, c) evs pushes (h', c') ->
  let pending := bc_view (event_tx (rpc_store h)) rx ++ evs in
  ((forall n, lag n ∉ pushes) ->
   subscription c' = Some rx' -> bc_view (event_tx (rpc_store h')) rx' = [] ->
   pushes = (fun ev => state_update (ev_key ev) (ev_value ev))
              <$> filter (fun ev => key_matches (sub_prefix c) (ev_key ev)) pending)
  /\ ((N.of_nat (length pending) <= bc_cap (event_tx (rpc_store h)))%N -> forall n, lag n ∉ pushes).
Proof.
  intros Hsub Hl Hs. cbv zeta.
  destruct (serves_accounted _ _ _ _ rx Hs Hsub Hl)
    as (rx2 & items & Hsub2 & _ & _ & _ & Hv & -> & Hm). cbn [fst snd] in *. split.
  - intros Hno Hs' Hnil. rewrite Hsub2 in Hs'. injection Hs' as ->.
    rewrite Hv, Hnil, app_nil_r. by apply items_complete.
  - intros Hle. apply no_lag. intros missed Hin. destruct (Hm _ Hin). lia.
Qed.

(** What a turn of the loop writes, on a connection that accepts what is
    written.  A request line gets the lines of its dispatch, a blank one
    none, and the loop goes on; an event gets the text of its notification,
    or none when the key does not match; end of file, a read error and the
    shutdown signal write nothing, change nothing and end the loop. *)
Theorem conn_step_output env a h c h' c' fl :
  room (out c) = None -> conn_step env a h c = Some (Done (h', c', fl)) ->
  exists lines,
    written (out c') = written (out c) ++ (lines ≫= line_bytes)
    /\ match a with
       | ArmLine =>
           fl = Continue /\ line c' = EmptyString /\ input c' = (take_line (input c)).2
           /\ if bool_decide (next_request c = EmptyString) then h' = h /\ lines = []
              else exists d, dispatch env h (next_request c) = Done (h', d) /\ lines = reply_lines d
       | ArmEvent _ _ =>
           (fl = Continue /\ Forall2 (fun n s => to_string n = Ok s) (next_push h c) lines)
           \/ (exists n e, fl = Fail e /\ next_push h c = [n] /\ to_string n = Err e /\ lines = [])
       | _ => fl = Break /\ lines = [] /\ h' = h /\ c' = c
       end.
Proof.
  intros Hroom Hc. destruct a as [| | |taken kept|]; unfold conn_step in Hc.
  - case_bool_decide; [done|]. unfold next_request.
    destruct (take_line (input c)) as [l rest]. injection Hc as Hc. cbn [fst snd].
    unfold serve_line in Hc. cbn [line out] in Hc. case_bool_decide as Hb.
    + injection Hc as <- <- <-. exists []. by rewrite app_nil_r.
    + unfold mbind, outcome_bind in Hc. destruct (dispatch env h _) as [[h1 d]|]; [|done].
      destruct d as [s|s rx p|]; cbn [out with_subscription] in Hc;
        rewrite ?(write_line_ok _ s Hroom) in Hc; injection Hc as <- <- <-.
      * exists [s]. simpl. rewrite app_nil_r. split_and!; eauto.
      * exists [s]. simpl. rewrite app_nil_r. split_and!; eauto.
      * exists []. simpl. rewrite app_nil_r. split_and!; eauto.
  - case_bool_decide; [|done]. injection Hc as <- <- <-. exists []. by rewrite app_nil_r.
  - injection Hc as <- <- <-. exists []. by rewrite app_nil_r.
  - case_match; [|done]. unfold next_push, mbind, option_bind in *.
    destruct (poll_subscription _ _) as [[ev [tx sub]]|]; [|done]. injection Hc as Hc.
    unfold serve_event in Hc. cbn [sub_prefix out] in Hc.
    destruct (event_notification (sub_prefix c) ev) as [n|]; cbn [option_list].
    2: { injection Hc as <- <- <-. exists []. rewrite app_nil_r. split; [done|]. left. by split. }
    destruct (to_string n) as [json|e] eqn:Hn.
    + rewrite write_line_ok in Hc by done. injection Hc as <- <- <-. exists [json]. simpl.
      rewrite app_nil_r. split; [done|]. left. split; [done|]. by repeat constructor.
    + injection Hc as <- <- <-. exists []. rewrite app_nil_r. split; [done|]. right. by exists n, e.
  - injection Hc as <- <- <-. exists []. by rewrite app_nil_r.
Qed.

(** C40: what becomes of a request line.  Read in one piece it is served as it
    was sent.  If an event is served after a part [l1] of it has been read,
    what is served in its place is whatever the abandoned read kept, followed
    by the rest of the line; if all but the line feed had been read and
    nothing was kept, the request is dropped without an answer. *)
Theorem request_line_survival env env' h c l1 l2 rest kept h1 c1 :
  line c = EmptyString -> has_newline (l1 +:+ l2) = false ->
  input c = l1 +:+ l2 +:+ String.String newline rest ->
  let nl := String.String newline EmptyString in
  let served h c s := serve_line env' h (mk_client rest s (subscription c) (sub_prefix c) (out c)) in
  conn_step env' ArmLine h c = Some (served h c (l1 +:+ l2 +:+ nl))
  /\ (conn_step env (ArmEvent l1 kept) h c = Some (Done (h1, c1, Continue)) ->
      conn_step env' ArmLine h1 c1 = Some (served h1 c1 (kept +:+ l2 +:+ nl))
      /\ (l2 = EmptyString -> kept = EmptyString ->
          conn_step env' ArmLine h1 c1
          = Some (Done (h1, mk_client rest EmptyString (subscription c1) (sub_prefix c1) (out c1), Continue)))).
Proof.
  intros Hline Hl Hin. cbv zeta. pose proof Hl as Hl2. rewrite has_newline_app in Hl2.
  apply orb_false_iff in Hl2 as [_ Hl2]. split.
  - unfold conn_step. rewrite Hin, bool_decide_eq_false_2 by (rewrite <-str_app_assoc; apply str_app_nonempty).
    rewrite <-str_app_assoc, take_line_app, Hline, str_app_assoc by done. done.
  - intros Hc. unfold conn_step in Hc. case_match; [|done]. unfold mbind, option_bind in Hc.
    destruct (poll_subscription _ _) as [[ev [tx sub]]|]; [|done]. injection Hc as Hc.
    apply serve_event_client in Hc as (_ & _ & _ & Hi & Hk). cbn [input line] in *.
    rewrite Hin, str_drop_app in Hi.
    assert (conn_step env' ArmLine h1 c1 = Some (serve_line env' h1
      (mk_client rest (kept +:+ l2 +:+ String.String newline EmptyString)
         (subscription c1) (sub_prefix c1) (out c1)))) as Hstep.
    { unfold conn_step. rewrite Hi, bool_decide_eq_false_2 by apply str_app_nonempty.
      by rewrite take_line_app, Hk by done. }
    split; [done|]. intros -> ->. rewrite Hstep. done.
Qed.
End server_properties.
