(* ===== verification/Process.v ===== *)
(** The process of one node, src/main.rs: the tasks that [main], the RPC
    server (src/rpc/server.rs, [run]) and the gossip manager
    (src/gossip/manager.rs, [run], [run_listener], [run_scheduler]) spawn,
    around the store and the peer table they share and the cancellation
    token.  A [paction] is one step of one task with the choices of the
    environment; [pexec] performs it. *)
From S2P Require Import Prelude Crdt Replica Broadcast Store Config DashMap Peer Protocol Manager.
From S2P Require Import RpcTypes RpcHandler RpcServer.

(** ** The states of the tasks *)

(** A task that binds a listener, accepts until it is cancelled, and ends. *)
Inductive listen_state := Binding | Accepting | Stopped.

(** The scheduler: [interval] not created, waiting for the ticker or the
    token, in [gossip_round] with targets to serve, ended, panicked. *)
Inductive sched_state :=
| SchedSpawned
| Ticking
| Serving (gen : N) (targets : list (string * PeerInfo))
| SchedStopped
| SchedPanicked (msg : string).

Inductive main_state := AwaitCtrlC | Joining | Returned | MainFailed (e : string).

Inductive conn_state := ConnOpen | ConnClosed | ConnFailed (e : string) | ConnPanicked (msg : string).

(** One [handle_inbound]: before it reads, after the merge, after the
    registration of the sender, ended. *)
Inductive inbound_state :=
| InRead (r : reader) (w : writer)
| InMerged (msg : GossipMessage) (ack : GossipAck) (w : writer)
| InRegistered (ack : GossipAck) (w : writer)
| InDone (res : result string unit) (w : writer).

Inductive send_state := SendRunning (task : SendTask) | SendDone (res : result string GossipAck).

Inductive paction :=
| PCtrlC (res : result string unit)                        (* main *)
| PJoin
| PRpcBind (res : result string unit)                      (* rpc::server::run *)
| PRpcAccept (conn : result string (string * writer))
| PRpcCancel
| PTurn (i : nat) (env : request_env) (a : arm)            (* handle_connection *)
| PGossipStart (now : string -> N)                         (* GossipManager::new, run *)
| PListenBind (res : result string unit)                   (* run_listener *)
| PListenAccept (conn : result string (reader * writer))
| PListenCancel
| PInbound (i : nat) (now : N)                             (* handle_inbound *)
| PSchedStart                                              (* run_scheduler *)
| PTick (sh : shuffler)
| PTarget (it : hash_iter LwwValue)
| PSchedCancel
| PSendEnd (i : nat) (now : N) (conn : connect_outcome).   (* the spawned send task *)

Section process.
Context `{BroadcastLib StateEvent, DashMapLib PeerInfo}.
Context `{Codec GossipMessage, Codec GossipAck}.
Context `{RequestParser, ToJson RpcResponse, ToJson RpcError, ToJson RpcNotification}.

Record rpc_conn := mk_rpc_conn { conn_client : client; conn_status : conn_state }.

(** [pr_gossip]: the gossip manager has been created. *)
Record Proc := mk_proc {
  pr_config : Config;
  pr_store : StateStore;
  pr_peers : DashMap;
  pr_generation : N;
  pr_cancelled : bool;
  pr_main : main_state;
  pr_rpc : listen_state;
  pr_conns : list rpc_conn;
  pr_gossip : bool;
  pr_listener : listen_state;
  pr_inbound : list inbound_state;
  pr_sched : sched_state;
  pr_sends : list send_state;
}.

(** [main] up to the point where it waits for Ctrl-C. *)
Definition main_start (uuid : string) (config : Config) : outcome Proc :=
  store ← StateStore_new (resolved_node_id uuid config) (event_channel_capacity config);
  Done {| pr_config := config; pr_store := store; pr_peers := dm_new; pr_generation := 0;
          pr_cancelled := false; pr_main := AwaitCtrlC; pr_rpc := Binding; pr_conns := [];
          pr_gossip := false; pr_listener := Binding; pr_inbound := [];
          pr_sched := SchedSpawned; pr_sends := [] |}.

(** ** Updates *)

Definition with_main (p : Proc) (m : main_state) (cancelled : bool) : Proc :=
  mk_proc (pr_config p) (pr_store p) (pr_peers p) (pr_generation p) cancelled m (pr_rpc p) (pr_conns p)
    (pr_gossip p) (pr_listener p) (pr_inbound p) (pr_sched p) (pr_sends p).
Definition with_rpc (p : Proc) (l : listen_state) (conns : list rpc_conn) : Proc :=
  mk_proc (pr_config p) (pr_store p) (pr_peers p) (pr_generation p) (pr_cancelled p) (pr_main p) l conns
    (pr_gossip p) (pr_listener p) (pr_inbound p) (pr_sched p) (pr_sends p).
Definition with_shared (p : Proc) (store : StateStore) (peers : DashMap) : Proc :=
  mk_proc (pr_config p) store peers (pr_generation p) (pr_cancelled p) (pr_main p) (pr_rpc p)
    (pr_conns p) (pr_gossip p) (pr_listener p) (pr_inbound p) (pr_sched p) (pr_sends p).
Definition with_listener (p : Proc) (gossip : bool) (l : listen_state) (inb : list inbound_state) : Proc :=
  mk_proc (pr_config p) (pr_store p) (pr_peers p) (pr_generation p) (pr_cancelled p) (pr_main p)
    (pr_rpc p) (pr_conns p) gossip l inb (pr_sched p) (pr_sends p).
Definition with_sched (p : Proc) (gen : N) (s : sched_state) (sends : list send_state) : Proc :=
  mk_proc (pr_config p) (pr_store p) (pr_peers p) gen (pr_cancelled p) (pr_main p)
    (pr_rpc p) (pr_conns p) (pr_gossip p) (pr_listener p) (pr_inbound p) s sends.

Definition handler_of (p : Proc) : RpcHandler := mk_handler (pr_store p) (pr_peers p).
Definition manager_of (p : Proc) : GossipManager :=
  mk_manager (pr_config p) (pr_store p) (pr_peers p) (pr_generation p).

(** ** The steps *)

(** The result of a turn of connection [i]. *)
Definition end_turn (p : Proc) (i : nat) (c : client) (o : outcome (RpcHandler * client * flow)) : Proc :=
  match o with
  | Done (h, c, fl) =>
      let st := match fl with Continue => ConnOpen | Break => ConnClosed | Fail e => ConnFailed e end in
      with_rpc (with_shared p (rpc_store h) (rpc_peers h)) (pr_rpc p) (<[i := mk_rpc_conn c st]> (pr_conns p))
  | Panic msg => with_rpc p (pr_rpc p) (<[i := mk_rpc_conn c (ConnPanicked msg)]> (pr_conns p))
  end.

Definition inbound_step (now : N) (p : Proc) (i : nat) (s : inbound_state) : option Proc :=
  let put p s := with_listener p (pr_gossip p) (pr_listener p) (<[i := s]> (pr_inbound p)) in
  match s with
  | InRead r w =>
      match read_message r with
      | (Err e, _) => Some (put p (InDone (Err e) w))
      | (Ok msg, _) =>
          let '(store, updated) := merge_delta (pr_store p) (deltas msg) in
          Some (put (with_shared p store (pr_peers p)) (InMerged msg (ack_of store updated) w))
      end
  | InMerged msg ack w =>
      Some (put (with_shared p (pr_store p) (register_sender now (pr_peers p) msg)) (InRegistered ack w))
  | InRegistered ack w =>
      let '(res, w) := write_message w ack in Some (put p (InDone res w))
  | InDone _ _ => None
  end.

Definition sched_ended (s : sched_state) : bool :=
  match s with SchedStopped | SchedPanicked _ => true | _ => false end.

Definition is_stopped (l : listen_state) : bool := match l with Stopped => true | _ => false end.

(** [tokio::join!(rpc_handle, gossip_handle)] can return. *)
Definition joined (p : Proc) : bool :=
  is_stopped (pr_rpc p) && (pr_gossip p && (is_stopped (pr_listener p) && sched_ended (pr_sched p))).

Definition accept_result (l : listen_state) (res : result string unit) : listen_state :=
  match res with Ok _ => Accepting | Err _ => Stopped end.

Definition pexec_main (a : paction) (p : Proc) : option Proc :=
  match a, pr_main p with
  | PCtrlC (Ok _), AwaitCtrlC => Some (with_main p Joining true)
  | PCtrlC (Err e), AwaitCtrlC => Some (with_main p (MainFailed e) (pr_cancelled p))
  | PJoin, Joining => if joined p then Some (with_main p Returned (pr_cancelled p)) else None
  | _, _ => None
  end.

Definition pexec_rpc (a : paction) (p : Proc) : option Proc :=
  match a, pr_rpc p with
  | PRpcBind res, Binding => Some (with_rpc p (accept_result (pr_rpc p) res) (pr_conns p))
  | PRpcAccept (Ok (input, w)), Accepting =>
      let c := mk_client input EmptyString None None w in
      Some (with_rpc p Accepting (pr_conns p ++ [mk_rpc_conn c ConnOpen]))
  | PRpcAccept (Err _), Accepting => Some p
  | PRpcCancel, Accepting =>
      if pr_cancelled p then Some (with_rpc p Stopped (pr_conns p)) else None
  | PTurn i env a, _ =>
      rc ← pr_conns p !! i;
      match conn_status rc with
      | ConnOpen =>
          if (match a with ArmCancelled => pr_cancelled p | _ => true end) then
            o ← conn_step env a (handler_of p) (conn_client rc);
            Some (end_turn p i (conn_client rc) o)
          else None
      | _ => None
      end
  | _, _ => None
  end.

(** [GossipManager::new(..).run(..)]: the seeds are registered, the listener
    and the scheduler are spawned. *)
Definition gossip_start (now : string -> N) (p : Proc) : Proc :=
  let m := GossipManager_new now (pr_config p) (pr_store p) (pr_peers p) in
  let p := with_shared p (mgr_store m) (mgr_peers m) in
  with_listener p true (pr_listener p) (pr_inbound p).

Definition pexec_listener (a : paction) (p : Proc) : option Proc :=
  if pr_gossip p then
    match a, pr_listener p with
    | PListenBind res, Binding =>
        Some (with_listener p true (accept_result (pr_listener p) res) (pr_inbound p))
    | PListenAccept (Ok (r, w)), Accepting =>
        Some (with_listener p true Accepting (pr_inbound p ++ [InRead r w]))
    | PListenAccept (Err _), Accepting => Some p
    | PListenCancel, Accepting =>
        if pr_cancelled p then Some (with_listener p true Stopped (pr_inbound p)) else None
    | PInbound i now, _ => s ← pr_inbound p !! i; inbound_step now p i s
    | _, _ => None
    end
  else
    match a with
    | PGossipStart now => Some (gossip_start now p)
    | _ => None
    end.

Definition pexec_sched (a : paction) (p : Proc) : option Proc :=
  if pr_gossip p then
    match a, pr_sched p with
    | PSchedStart, SchedSpawned =>
        let s := if (gossip_interval_ms (pr_config p) =? 0)%N
                 then SchedPanicked "`period` must be non-zero." else Ticking in
        Some (with_sched p (pr_generation p) s (pr_sends p))
    | PTick sh, Ticking =>
        match select_targets sh (pr_peers p) (pr_config p) with
        | [] => Some p
        | targets =>
            let '(gen, m) := fetch_add_generation (manager_of p) in
            Some (with_sched p (mgr_generation m) (Serving gen targets) (pr_sends p))
        end
    | PTarget it, Serving gen (t :: ts) =>
        let new := match round_target it (pr_store p) (pr_config p) gen t with
                   | Some task => [SendRunning task]
                   | None => []
                   end in
        let s := match ts with [] => Ticking | _ => Serving gen ts end in
        Some (with_sched p (pr_generation p) s (pr_sends p ++ new))
    | PSchedCancel, Ticking =>
        if pr_cancelled p then Some (with_sched p (pr_generation p) SchedStopped (pr_sends p)) else None
    | PSendEnd i now conn, _ =>
        s ← pr_sends p !! i;
        match s with
        | SendRunning task =>
            res ← send_and_ack conn (task_peer_addr task) (task_msg task);
            let p := with_shared p (pr_store p) (finish_task now (pr_peers p) task res) in
            Some (with_sched p (pr_generation p) (pr_sched p) (<[i := SendDone res]> (pr_sends p)))
        | SendDone _ => None
        end
    | _, _ => None
    end
  else None.

(** When [main] has returned the runtime is gone, and every task with it. *)
Definition main_alive (p : Proc) : bool :=
  match pr_main p with AwaitCtrlC | Joining => true | _ => false end.

Definition pexec (a : paction) (p : Proc) : option Proc :=
  if main_alive p then
    match a with
    | PCtrlC _ | PJoin => pexec_main a p
    | PRpcBind _ | PRpcAccept _ | PRpcCancel | PTurn _ _ _ => pexec_rpc a p
    | PGossipStart _ | PListenBind _ | PListenAccept _ | PListenCancel | PInbound _ _ => pexec_listener a p
    | PSchedStart | PTick _ | PTarget _ | PSchedCancel | PSendEnd _ _ _ => pexec_sched a p
    end
  else None.

Fixpoint prun (acts : list paction) (p : Proc) : option Proc :=
  match acts with
  | [] => Some p
  | a :: acts' => p' ← pexec a p; prun acts' p'
  end.
End process.

Arguments Proc {_ _}.
Arguments rpc_conn {_}.
