(* ===== verification/ProcessLemmas.v ===== *)
(** The steps of Process.v as a relation, one constructor per way a step can
    go, and the invariants of every run: what the loops of the process are
    in, what the store has absorbed, and that the subscriptions of different
    connections are different receivers. *)
From S2P Require Import Prelude Crdt Replica Broadcast Store Config DashMap Peer Protocol Manager.
From S2P Require Import RpcTypes RpcHandler RpcServer Process.

Section steps.
Context `{BroadcastLib StateEvent, DashMapLib PeerInfo}.
Context `{Codec GossipMessage, Codec GossipAck}.
Context `{RequestParser, ToJson RpcResponse, ToJson RpcError, ToJson RpcNotification}.
Implicit Types p : Proc.

Definition put_inbound p (i : nat) (s : inbound_state) : Proc :=
  with_listener p (pr_gossip p) (pr_listener p) (<[i := s]> (pr_inbound p)).

Inductive pstep p : paction -> Proc -> Prop :=
| ps_ctrl_c u : pr_main p = AwaitCtrlC -> pstep p (PCtrlC (Ok u)) (with_main p Joining true)
| ps_ctrl_c_err e :
    pr_main p = AwaitCtrlC -> pstep p (PCtrlC (Err e)) (with_main p (MainFailed e) (pr_cancelled p))
| ps_join :
    pr_main p = Joining -> joined p = true -> pstep p PJoin (with_main p Returned (pr_cancelled p))
| ps_rpc_bind res :
    pr_rpc p = Binding ->
    pstep p (PRpcBind res) (with_rpc p (accept_result Binding res) (pr_conns p))
| ps_rpc_accept input w :
    pr_rpc p = Accepting ->
    pstep p (PRpcAccept (Ok (input, w)))
      (with_rpc p Accepting
         (pr_conns p ++ [mk_rpc_conn (mk_client input EmptyString None None w) ConnOpen]))
| ps_rpc_accept_err e : pr_rpc p = Accepting -> pstep p (PRpcAccept (Err e)) p
| ps_rpc_cancel :
    pr_rpc p = Accepting -> pr_cancelled p = true ->
    pstep p PRpcCancel (with_rpc p Stopped (pr_conns p))
| ps_turn i env a c o :
    pr_conns p !! i = Some (mk_rpc_conn c ConnOpen) ->
    (a = ArmCancelled -> pr_cancelled p = true) ->
    conn_step env a (handler_of p) c = Some o ->
    pstep p (PTurn i env a) (end_turn p i c o)
| ps_gossip_start now :
    pr_gossip p = false ->
    pstep p (PGossipStart now)
      (with_listener
         (with_shared p (pr_store p)
            (mgr_peers (GossipManager_new now (pr_config p) (pr_store p) (pr_peers p))))
         true (pr_listener p) (pr_inbound p))
| ps_listen_bind res :
    pr_gossip p = true -> pr_listener p = Binding ->
    pstep p (PListenBind res) (with_listener p true (accept_result Binding res) (pr_inbound p))
| ps_listen_accept r w :
    pr_gossip p = true -> pr_listener p = Accepting ->
    pstep p (PListenAccept (Ok (r, w))) (with_listener p true Accepting (pr_inbound p ++ [InRead r w]))
| ps_listen_accept_err e :
    pr_gossip p = true -> pr_listener p = Accepting -> pstep p (PListenAccept (Err e)) p
| ps_listen_cancel :
    pr_gossip p = true -> pr_listener p = Accepting -> pr_cancelled p = true ->
    pstep p PListenCancel (with_listener p true Stopped (pr_inbound p))
| ps_in_error i now r w e r' :
    pr_gossip p = true -> pr_inbound p !! i = Some (InRead r w) ->
    read_message (T := GossipMessage) r = (Err e, r') ->
    pstep p (PInbound i now) (put_inbound p i (InDone (Err e) w))
| ps_in_merge i now r w msg r' store updated :
    pr_gossip p = true -> pr_inbound p !! i = Some (InRead r w) -> read_message r = (Ok msg, r') ->
    merge_delta (pr_store p) (deltas msg) = (store, updated) ->
    pstep p (PInbound i now)
      (put_inbound (with_shared p store (pr_peers p)) i (InMerged msg (ack_of store updated) w))
| ps_in_register i now msg ack w :
    pr_gossip p = true -> pr_inbound p !! i = Some (InMerged msg ack w) ->
    pstep p (PInbound i now)
      (put_inbound (with_shared p (pr_store p) (register_sender now (pr_peers p) msg)) i (InRegistered ack w))
| ps_in_ack i now ack w res w' :
    pr_gossip p = true -> pr_inbound p !! i = Some (InRegistered ack w) ->
    write_message w ack = (res, w') ->
    pstep p (PInbound i now) (put_inbound p i (InDone res w'))
| ps_sched_start :
    pr_gossip p = true -> pr_sched p = SchedSpawned ->
    pstep p PSchedStart
      (with_sched p (pr_generation p)
         (if (gossip_interval_ms (pr_config p) =? 0)%N
          then SchedPanicked "`period` must be non-zero." else Ticking) (pr_sends p))
| ps_tick_none (sh : shuffler) :
    pr_gossip p = true -> pr_sched p = Ticking ->
    select_targets sh (pr_peers p) (pr_config p) = [] -> pstep p (PTick sh) p
| ps_tick (sh : shuffler) t ts :
    pr_gossip p = true -> pr_sched p = Ticking ->
    select_targets sh (pr_peers p) (pr_config p) = t :: ts ->
    pstep p (PTick sh)
      (with_sched p (wrap64 (pr_generation p + 1)) (Serving (pr_generation p) (t :: ts)) (pr_sends p))
| ps_target it gen t ts :
    pr_gossip p = true -> pr_sched p = Serving gen (t :: ts) ->
    pstep p (PTarget it)
      (with_sched p (pr_generation p) (match ts with [] => Ticking | _ => Serving gen ts end)
         (pr_sends p ++ match round_target it (pr_store p) (pr_config p) gen t with
                        | Some task => [SendRunning task] | None => [] end))
| ps_sched_cancel :
    pr_gossip p = true -> pr_sched p = Ticking -> pr_cancelled p = true ->
    pstep p PSchedCancel (with_sched p (pr_generation p) SchedStopped (pr_sends p))
| ps_send_end i now conn task res :
    pr_gossip p = true -> pr_sends p !! i = Some (SendRunning task) ->
    send_and_ack conn (task_peer_addr task) (task_msg task) = Some res ->
    pstep p (PSendEnd i now conn)
      (with_sched (with_shared p (pr_store p) (finish_task now (pr_peers p) task res))
         (pr_generation p) (pr_sched p) (<[i := SendDone res]> (pr_sends p))).

(** The relation is the function. *)
Lemma pexec_pstep a p p' : pexec a p = Some p' -> main_alive p = true /\ pstep p a p'.
Proof.
  unfold pexec. destruct (main_alive p) eqn:Halive; [|done]. intros E. split; [done|].
  destruct a; unfold pexec_main, pexec_rpc, pexec_listener, pexec_sched, mbind, option_bind in E.
  - destruct res, (pr_main p) eqn:Hm; simplify_eq; by constructor.
  - destruct (pr_main p) eqn:Hm; try done. destruct (joined p) eqn:Hj; simplify_eq. by constructor.
  - destruct (pr_rpc p) eqn:Hl; simplify_eq. by constructor.
  - destruct conn as [[]|], (pr_rpc p) eqn:Hl; simplify_eq; by constructor.
  - destruct (pr_rpc p) eqn:Hl; try done. destruct (pr_cancelled p) eqn:Hc; simplify_eq. by constructor.
  - destruct (pr_conns p !! i) as [[c st]|] eqn:Hi; [|done]. cbn [conn_status conn_client] in E.
    destruct st; try done. case_match eqn:Ha; [|done].
    destruct (conn_step _ _ _ _) as [o|] eqn:Ho; [|done]. injection E as <-.
    constructor; try done. by intros ->.
  - destruct (pr_gossip p) eqn:Hg; [by destruct (pr_listener p)|]. injection E as <-. by constructor.
  - destruct (pr_gossip p) eqn:Hg; [|done]. destruct (pr_listener p) eqn:Hl; simplify_eq. by constructor.
  - destruct (pr_gossip p) eqn:Hg; [|done].
    destruct conn as [[]|], (pr_listener p) eqn:Hl; simplify_eq; by constructor.
  - destruct (pr_gossip p) eqn:Hg; [|done]. destruct (pr_listener p) eqn:Hl; try done.
    destruct (pr_cancelled p) eqn:Hc; simplify_eq. by constructor.
  - destruct (pr_gossip p) eqn:Hg; [|done]. destruct (pr_inbound p !! i) as [s|] eqn:Hi; [|done].
    destruct s as [r w|msg ack w|ack w|]; cbn [inbound_step] in E; [| | |done].
    + destruct (read_message r) as [[msg|e] r'] eqn:Hr.
      * destruct (merge_delta _ _) as [st upd] eqn:Hm. injection E as <-. eapply ps_in_merge; eassumption.
      * injection E as <-. eapply ps_in_error; eassumption.
    + injection E as <-. eapply ps_in_register; eassumption.
    + destruct (write_message w ack) as [res w'] eqn:Hw. injection E as <-. eapply ps_in_ack; eassumption.
  - destruct (pr_gossip p) eqn:Hg; [|done]. destruct (pr_sched p) eqn:Hs; simplify_eq. by constructor.
  - destruct (pr_gossip p) eqn:Hg; [|done]. destruct (pr_sched p) eqn:Hs; try done.
    destruct (select_targets _ _ _) as [|t ts] eqn:Ht; injection E as <-; by constructor.
  - destruct (pr_gossip p) eqn:Hg; [|done]. destruct (pr_sched p) as [| |gen [|t ts]| |] eqn:Hs; try done.
    injection E as <-. by constructor.
  - destruct (pr_gossip p) eqn:Hg; [|done]. destruct (pr_sched p) eqn:Hs; try done.
    destruct (pr_cancelled p) eqn:Hc; simplify_eq. by constructor.
  - destruct (pr_gossip p) eqn:Hg; [|done]. destruct (pr_sends p !! i) as [[task|]|] eqn:Hi; [|done..].
    destruct (send_and_ack _ _ _) as [res|] eqn:Hr; [|done]. injection E as <-. by constructor.
Qed.

(** Induction over the runs of a process. *)
Lemma prun_ind (P : list paction -> Proc -> Prop) acts p p' :
  P [] p ->
  (forall pre p1 a p2, prun pre p = Some p1 -> P pre p1 -> pexec a p1 = Some p2 -> P (pre ++ [a]) p2) ->
  prun acts p = Some p' -> P acts p'.
Proof.
  intros Hnil HS. enough (forall suf pre p1, prun pre p = Some p1 -> P pre p1 -> prun suf p1 = Some p' ->
    P (pre ++ suf) p') as Hx by (intros; by apply (Hx acts [] p)).
  assert (forall pre p1 a p2, prun pre p = Some p1 -> pexec a p1 = Some p2 ->
            prun (pre ++ [a]) p = Some p2) as Hsnoc.
  { clear. intros pre. revert p. induction pre as [|b pre IH]; intros p p1 a p2 Hr Ha; simpl in *.
    - simplify_eq. unfold mbind, option_bind. by rewrite Ha.
    - unfold mbind, option_bind in *. destruct (pexec b p); [|done]. by eapply IH. }
  induction suf as [|a suf IH]; intros pre p1 Hr HP Hs; simpl in Hs.
  - simplify_eq. by rewrite app_nil_r.
  - unfold mbind, option_bind in Hs. destruct (pexec a p1) as [p2|] eqn:Ha; [|done].
    rewrite cons_middle, app_assoc. apply (IH _ p2); eauto.
Qed.

Lemma prun_app acts1 acts2 p :
  prun (acts1 ++ acts2) p = match prun acts1 p with Some p1 => prun acts2 p1 | None => None end.
Proof.
  revert p. induction acts1 as [|a acts1 IH]; intros p; simpl; [done|].
  unfold mbind, option_bind. by destruct (pexec a p).
Qed.
End steps.

(** ** The loops *)

Section loops.
Context `{BroadcastLib StateEvent, DashMapLib PeerInfo}.
Context `{Codec GossipMessage, Codec GossipAck}.
Context `{RequestParser, ToJson RpcResponse, ToJson RpcError, ToJson RpcNotification}.
Implicit Types p : Proc.

Record loop_inv p : Prop := {
  li_cancelled : pr_main p = Joining \/ pr_main p = Returned -> pr_cancelled p = true;
  li_returned : pr_main p = Returned -> joined p = true;
  li_serving gen ts : pr_sched p = Serving gen ts -> ts <> [];
}.

(** The components that only the loops change. *)
Definition loops_of p :=
  (pr_config p, pr_main p, pr_cancelled p, pr_rpc p, pr_gossip p, pr_listener p, pr_sched p).

Lemma joined_loops p p' : loops_of p' = loops_of p -> joined p' = joined p.
Proof. unfold loops_of, joined. by intros [= _ _ _ -> -> -> ->]. Qed.

Lemma loop_inv_same p p' : loops_of p' = loops_of p -> loop_inv p -> loop_inv p'.
Proof.
  intros Heq. pose proof (joined_loops _ _ Heq) as Hj. unfold loops_of in Heq.
  injection Heq as _ Hm Hc _ _ _ Hs. intros [H1' H2' H3']. split; rewrite ?Hm, ?Hc, ?Hs, ?Hj; auto.
Qed.

Lemma end_turn_loops p i c o : loops_of (end_turn p i c o) = loops_of p.
Proof. by destruct o as [[[h' c'] fl]|]. Qed.

Lemma loop_inv_step p a p' : main_alive p = true -> pstep p a p' -> loop_inv p -> loop_inv p'.
Proof.
  intros Ha Hs Hi. pose proof Hi as [Hc Hr Hv].
  assert (pr_main p <> Returned) as Hnr by (intros E; unfold main_alive in Ha; by rewrite E in Ha).
  destruct Hs; try (by apply (loop_inv_same p)); try (apply (loop_inv_same p); [by apply end_turn_loops|done]);
    split; simpl; try done; try (by intros [?|?]); auto.
  - case_match; [done|]. done.
  - intros g ts' [= _ <-]. done.
  - by destruct ts; intros ? ? [= _ <-].
Qed.

Lemma loop_inv_start uuid config p : main_start uuid config = Done p -> loop_inv p.
Proof.
  unfold main_start, mbind, outcome_bind. destruct (StateStore_new _ _); [|done]. intros [= <-].
  split; simpl; [by intros [?|?]|done|done].
Qed.

Lemma loop_inv_run acts p p' : loop_inv p -> prun acts p = Some p' -> loop_inv p'.
Proof.
  intros Hi. apply (prun_ind (fun _ => loop_inv)); [done|].
  intros _ p1 a p2 _ Hp1 [Ha Hs]%pexec_pstep. by eapply loop_inv_step.
Qed.
End loops.

(** ** The store *)

Section shared.
Context `{BroadcastLib StateEvent, DashMapLib PeerInfo}.
Context `{Codec GossipMessage, Codec GossipAck}.
Context `{RequestParser, ToJson RpcResponse, ToJson RpcError, ToJson RpcNotification}.
Implicit Types p : Proc.

(** The entry a request asks the store to take: a valid [state.set], stamped
    with the clock and the identifier of the node. *)
Definition request_entries (env : request_env) (h : RpcHandler) (raw : string) : StateDelta :=
  match from_str raw with
  | Ok req =>
      if bool_decide (method req = "state.set") then
        match value_get "key" (params req) ≫= as_str, value_get "value" (params req) ≫= as_str,
              now_micros (env_clock env) with
        | Some key, Some value, Done t => [(key, mk_lww value t (store_node_id (rpc_store h)))]
        | _, _, _ => []
        end
      else []
  | Err _ => []
  end.

Definition line_entries (env : request_env) (h : RpcHandler) (c : client) : StateDelta :=
  if bool_decide (next_request c = EmptyString) then [] else request_entries env h (next_request c).

Definition turn_entries (env : request_env) (a : arm) (h : RpcHandler) (c : client) : StateDelta :=
  match a with ArmLine => line_entries env h c | _ => [] end.

(** The entries a step brings to the store: that of a request line, or the
    delta of a gossip message. *)
Definition accepted (a : paction) p : StateDelta :=
  match a with
  | PTurn i env a =>
      match pr_conns p !! i with
      | Some rc => turn_entries env a (handler_of p) (conn_client rc)
      | None => []
      end
  | PInbound i _ =>
      match pr_inbound p !! i with
      | Some (InRead r _) => match read_message r with (Ok msg, _) => deltas msg | _ => [] end
      | _ => []
      end
  | _ => []
  end.

(** The events a step sends. *)
Definition announced (a : paction) p : list StateEvent :=
  match a with
  | PTurn i env a =>
      match pr_conns p !! i with
      | Some rc => turn_events env a (handler_of p) (conn_client rc)
      | None => []
      end
  | PInbound i _ =>
      match pr_inbound p !! i with
      | Some (InRead r _) =>
          match read_message r with
          | (Ok msg, _) =>
              let '(store, updated) := merge_delta (pr_store p) (deltas msg) in
              updated ≫= final_event (state store)
          | _ => []
          end
      | _ => []
      end
  | _ => []
  end.

(** The same over a run. *)
Fixpoint over_run {A} (f : paction -> Proc -> list A) (acts : list paction) p : list A :=
  match acts with
  | [] => []
  | a :: acts' => f a p ++ match pexec a p with Some p' => over_run f acts' p' | None => [] end
  end.

Lemma over_run_snoc {A} (f : paction -> Proc -> list A) acts a p p1 :
  prun acts p = Some p1 -> over_run f (acts ++ [a]) p = over_run f acts p ++ f a p1.
Proof.
  revert p. induction acts as [|b acts IH]; intros p; simpl.
  - intros [= ->]. destruct (pexec a p1); by rewrite !app_nil_r.
  - unfold mbind, option_bind. destruct (pexec b p) as [p'|]; [|done]. intros Hr.
    by rewrite (IH p') , app_assoc.
Qed.

(** A turn that panics announces nothing. *)
Lemma turn_events_panic env a h c msg :
  conn_step env a h c = Some (Panic msg) -> turn_events env a h c = [].
Proof.
  destruct a; unfold conn_step; cbn [turn_events]; try done; [].
  case_bool_decide; [done|]. unfold line_events, next_request.
    destruct (take_line (input c)) as [l rest]. cbn [fst]. intros [= Hs].
    unfold serve_line in Hs. cbn [line] in Hs. case_bool_decide; [done|].
    unfold mbind, outcome_bind in Hs. destruct (dispatch env h _) as [[h1 []]|m] eqn:Hd; [| | |].
    1-3: repeat case_match; done.
    unfold dispatch in Hd. unfold dispatch_events. destruct (from_str _) as [req|]; [|done].
    destruct (decide (method req = "state.set")) as [Hm|Hm]; [|by rewrite bool_decide_eq_false_2].
    rewrite (bool_decide_eq_true_2 _ Hm). rewrite bool_decide_eq_false_2 in Hd by (by rewrite Hm).
    rewrite dispatch_method_set in Hd by done. unfold handle_state_set, mbind, outcome_bind in Hd.
    pose proof (required_str_cases (params req) "key" (default Null (rpc_id req))) as Hk.
    destruct (required_str (params req) "key" _); [|done].
    pose proof (required_str_cases (params req) "value" (default Null (rpc_id req))) as Hv.
    destruct (required_str (params req) "value" _); [|done]. rewrite Hk, Hv. simpl.
    by destruct (set _ _ _ _) as [[]|].
Qed.

(** What is announced of a request is what the store then holds. *)
Lemma request_entries_announced env h raw :
  absorb_all (state (rpc_store h)) (ev_pair <$> dispatch_events env h raw)
  = absorb_all (state (rpc_store h)) (request_entries env h raw).
Proof.
  unfold dispatch_events, request_entries. destruct (from_str raw) as [req|]; [|done].
  case_bool_decide; [|done]. destruct (value_get "key" _ ≫= _) as [k|]; [|done].
  destruct (value_get "value" _ ≫= _) as [v|]; [|done].
  destruct (set _ _ k v) as [[s w]|msg] eqn:Hset.
  - apply set_Done in Hset as (t & -> & _ & -> & _). apply absorb_winner.
  - apply set_Panic in Hset as ->. done.
Qed.

Lemma turn_state p i env a c o :
  conn_step env a (handler_of p) c = Some o ->
  state (pr_store (end_turn p i c o))
  = absorb_all (state (pr_store p)) (turn_entries env a (handler_of p) c).
Proof.
  intros Ho. transitivity (absorb_all (state (pr_store p)) (ev_pair <$> turn_events env a (handler_of p) c)).
  - destruct o as [[[h' c'] fl]|msg].
    + apply conn_step_effect in Ho as [(_ & _ & Hst) _]. exact Hst.
    + by rewrite (turn_events_panic _ _ _ _ _ Ho).
  - destruct a; try done. cbn [turn_events turn_entries]. unfold conn_step in Ho.
    case_bool_decide; [done|]. unfold line_events, line_entries. case_bool_decide; [done|].
    apply (request_entries_announced env (handler_of p)).
Qed.

Lemma pstep_state p a p' :
  pstep p a p' -> state (pr_store p') = absorb_all (state (pr_store p)) (accepted a p).
Proof.
  destruct 1 as [| | | | | | |i env a c o Hi _ Ho| | | | | |i now r w e r' _ Hi Hr
    |i now r w msg r' store updated _ Hi Hr Hm|i now msg ack w _ Hi|i now ack w res w' _ Hi _| | | | | |];
    try done; cbn [accepted]; rewrite ?Hi, ?Hr; try done.
  - by apply turn_state.
  - cbn. pose proof (merge_delta_state (pr_store p) (deltas msg)) as Hst. by rewrite Hm in Hst.
Qed.

Lemma prun_state acts p p' :
  prun acts p = Some p' ->
  state (pr_store p') = absorb_all (state (pr_store p)) (over_run accepted acts p).
Proof.
  apply (prun_ind (fun acts p' => state (pr_store p') = absorb_all (state (pr_store p))
                                                        (over_run accepted acts p))); [done|].
  intros pre p1 a p2 Hr IH [_ Hs]%pexec_pstep.
  by rewrite (over_run_snoc _ _ _ _ _ Hr), absorb_all_app, <-IH, (pstep_state _ _ _ Hs).
Qed.

Lemma main_start_state uuid config p :
  main_start uuid config = Done p ->
  state (pr_store p) = ∅ /\ pr_conns p = [] /\ pr_config p = config /\ pr_sends p = []
  /\ store_node_id (pr_store p) = resolved_node_id uuid config.
Proof.
  unfold main_start, StateStore_new, mbind, outcome_bind.
  destruct (bc_channel _); [|done]. by intros [= <-].
Qed.

Lemma prun_config acts p p' : prun acts p = Some p' -> pr_config p' = pr_config p.
Proof.
  apply (prun_ind (fun _ p' => pr_config p' = pr_config p)); [done|].
  intros _ p1 a p2 _ IH [_ Hs]%pexec_pstep. rewrite <-IH.
  destruct Hs as [| | | | | | |i env a c o _ _ _| | | | | | | | | | | | | | |]; try done.
  by destruct o as [[[h' c'] fl]|].
Qed.

(** C23: the store of a running process is the history of what it was given:
    for every key it holds a greatest entry of those that the [state.set]
    requests of all connections and the gossip messages of all peers brought,
    in the order of the steps; nothing else changes it, and no step of the
    shutdown takes anything away. *)
Theorem process_store_history uuid config p0 acts p :
  main_start uuid config = Done p0 -> prun acts p0 = Some p ->
  repr (over_run accepted acts p0) (state (pr_store p)).
Proof.
  intros Hs Hr. rewrite (prun_state _ _ _ Hr). apply main_start_state in Hs as [-> _].
  apply (repr_absorb_all [] ∅), repr_nil.
Qed.
End shared.
