(* ===== verification/Shutdown.v ===== *)
(** Shutdown and degenerate configurations of the process: when [main] may
    return, that it does return whatever clients and peers do, what it leaves
    behind, and what a zero in the configuration does. *)
From S2P Require Import Prelude Crdt Replica Broadcast Store Config DashMap Peer Protocol Manager.
From S2P Require Import RpcTypes RpcHandler RpcServer Process ProcessLemmas.

Section shutdown.
Context `{BroadcastLib StateEvent, DashMapLib PeerInfo}.
Context `{Codec GossipMessage, Codec GossipAck}.
Context `{RequestParser, ToJson RpcResponse, ToJson RpcError, ToJson RpcNotification}.
Implicit Types p : Proc.

(** ** Steps that wind the process down *)

(** Those of the loops and of [main]; a tick starts a new round and an accept
    stays in its loop. *)
Definition winding (a : paction) : bool :=
  match a with
  | PRpcBind _ | PRpcCancel | PGossipStart _ | PListenBind _ | PListenCancel
  | PSchedStart | PTarget _ | PSchedCancel | PJoin => true
  | _ => false
  end.

Definition is_tick (a : paction) : bool := match a with PTick _ => true | _ => false end.

Definition left_listen (l : listen_state) : nat :=
  match l with Binding => 2 | Accepting => 1 | Stopped => 0 end.

Definition left_sched (s : sched_state) : nat :=
  match s with
  | SchedSpawned => 2
  | Ticking => 1
  | Serving _ ts => 1 + length ts
  | SchedStopped | SchedPanicked _ => 0
  end.

Definition left_main (m : main_state) : nat :=
  match m with AwaitCtrlC | Joining => 1 | Returned | MainFailed _ => 0 end.

(** The winding steps the process still has to take. *)
Definition left p : nat :=
  left_main (pr_main p) + left_listen (pr_rpc p) + (if pr_gossip p then 0 else 1)
  + left_listen (pr_listener p) + left_sched (pr_sched p).

(** The winding step that is due, with the choices of the environment. *)
Definition next_winding (res : result string unit) (now : string -> N) (it : hash_iter LwwValue) p : paction :=
  match pr_rpc p with
  | Binding => PRpcBind res
  | Accepting => PRpcCancel
  | Stopped =>
      if pr_gossip p then
        match pr_listener p with
        | Binding => PListenBind res
        | Accepting => PListenCancel
        | Stopped =>
            match pr_sched p with
            | SchedSpawned => PSchedStart
            | Ticking => PSchedCancel
            | Serving _ _ => PTarget it
            | SchedStopped | SchedPanicked _ => PJoin
            end
        end
      else PGossipStart now
  end.

(** The winding steps one after the other. *)
Fixpoint wind_down (res : result string unit) (now : string -> N) (it : hash_iter LwwValue)
    (fuel : nat) p : list paction :=
  match fuel with
  | 0 => []
  | S fuel' =>
      let a := next_winding res now it p in
      match pexec a p with Some p' => a :: wind_down res now it fuel' p' | None => [] end
  end.

Lemma select_targets_length (sh : shuffler) peers config :
  length (select_targets sh peers config) <= N.to_nat (gossip_fanout config).
Proof. unfold select_targets. rewrite length_take. lia. Qed.

Lemma left_same p p' : loops_of p' = loops_of p -> left p' = left p.
Proof. unfold loops_of, left. by intros [= _ -> _ -> -> -> ->]. Qed.

(** Every winding step takes one off; only a tick adds, at most the fanout. *)
Lemma pstep_left p a p' :
  pstep p a p' ->
  Nat.b2n (winding a) + left p'
  <= left p + Nat.b2n (is_tick a) * N.to_nat (gossip_fanout (pr_config p)).
Proof.
  intros Hs. destruct Hs as [u Hm|e Hm|Hm|res Hl|input w Hl| |Hl|i env a c o _ _ _|now Hg|res Hg Hl|r w Hg Hl| |Hg Hl| | | |
    |Hg Hl| |sh t ts Hg Hl Ht|it gen t ts Hg Hl|Hg Hl|]; unfold left.
  all: try (cbn; rewrite ?Hm, ?Hl, ?Hg; cbn; lia).
  all: try (destruct res; cbn; rewrite ?Hl, ?Hg; cbn; lia).
  - destruct o as [[[h' c'] fl]|], a; cbn; lia.
  - destruct (gossip_interval_ms (pr_config p) =? 0)%N; cbn; rewrite Hl; cbn; lia.
  - pose proof (select_targets_length sh (pr_peers p) (pr_config p)) as Hle. rewrite Ht in Hle.
    cbn in *. rewrite Hl. cbn. lia.
  - cbn. rewrite Hl. destruct ts; cbn; lia.
Qed.

Definition count (f : paction -> bool) (acts : list paction) : nat := length (List.filter f acts).

Lemma count_snoc f acts a : count f (acts ++ [a]) = count f acts + Nat.b2n (f a).
Proof. unfold count. rewrite List.filter_app, length_app. simpl. by destruct (f a). Qed.

Lemma prun_left acts p p' :
  prun acts p = Some p' ->
  count winding acts + left p'
  <= left p + count is_tick acts * N.to_nat (gossip_fanout (pr_config p)).
Proof.
  intros Hr. enough (pr_config p' = pr_config p /\ count winding acts + left p'
    <= left p + count is_tick acts * N.to_nat (gossip_fanout (pr_config p))) by tauto.
  revert Hr. apply (prun_ind (fun acts p' => pr_config p' = pr_config p
    /\ count winding acts + left p' <= left p
         + count is_tick acts * N.to_nat (gossip_fanout (pr_config p)))).
  { split; [done|]. cbn. lia. }
  intros pre p1 a p2 Hpre [Hcfg IH] Ha.
  assert (prun (pre ++ [a]) p = Some p2) as Hr
    by (rewrite prun_app, Hpre; cbn; unfold mbind, option_bind; by rewrite Ha).
  split; [by eapply prun_config|]. apply pexec_pstep in Ha as [_ Hs%pstep_left]. rewrite Hcfg in Hs.
  rewrite !count_snoc. lia.
Qed.

(** While [main] is joining, the winding step that is due can be taken,
    and nothing in flight is touched by it. *)
Lemma next_winding_enabled res now it p :
  loop_inv p -> pr_main p = Joining ->
  exists p', pexec (next_winding res now it p) p = Some p'
    /\ winding (next_winding res now it p) = true
    /\ pr_conns p' = pr_conns p /\ pr_inbound p' = pr_inbound p /\ pr_store p' = pr_store p
    /\ pr_sends p `prefix_of` pr_sends p'
    /\ (pr_main p' = Joining \/ pr_main p' = Returned).
Proof.
  intros [Hc _ Hv] Hm. rewrite Hm in Hc. specialize (Hc (or_introl eq_refl)).
  unfold next_winding, pexec, main_alive. rewrite Hm.
  destruct (pr_rpc p) eqn:Hl1; cbn [pexec_rpc pexec_listener].
  1,2: rewrite Hl1, ?Hc; by eexists; split_and!; auto.
  destruct (pr_gossip p) eqn:Hg.
  2: { unfold pexec_listener. rewrite Hg. by eexists; split_and!; auto. }
  destruct (pr_listener p) eqn:Hl2; unfold pexec_listener, pexec_sched, pexec_main.
  1,2: rewrite Hg, Hl2, ?Hc; by eexists; split_and!; auto.
  destruct (pr_sched p) as [| |gen [|t ts]| |] eqn:Hl3; try rewrite Hg; rewrite ?Hl3, ?Hm, ?Hc.
  - by eexists; split_and!; auto.
  - by eexists; split_and!; auto.
  - by destruct (Hv gen []).
  - eexists; split_and!; auto. cbn. by eexists.
  - unfold joined. rewrite Hl1, Hg, Hl2, Hl3. by eexists; split_and!; auto.
  - unfold joined. rewrite Hl1, Hg, Hl2, Hl3. by eexists; split_and!; auto.
Qed.

(** What the winding steps leave as it was. *)
Definition kept p p' : Prop :=
  pr_conns p' = pr_conns p /\ pr_inbound p' = pr_inbound p /\ pr_store p' = pr_store p
  /\ pr_sends p `prefix_of` pr_sends p'.

#[export] Instance kept_preorder : PreOrder kept.
Proof.
  split; [by intros p; split_and!|]. intros p1 p2 p3 (E1 & E2 & E3 & P1) (F1 & F2 & F3 & P2).
  unfold kept. rewrite F1, F2, F3. split_and!; try done. by etransitivity.
Qed.

Lemma wind_down_returns res now it n p :
  loop_inv p -> pr_main p = Joining -> left p <= n ->
  exists p', prun (wind_down res now it n p) p = Some p' /\ pr_main p' = Returned /\ kept p p'
    /\ Forall (fun a => winding a = true) (wind_down res now it n p)
    /\ length (wind_down res now it n p) <= n.
Proof.
  revert p. induction n as [|n IH]; intros p Hi Hm Hn.
  { unfold left in Hn. rewrite Hm in Hn. cbn in Hn. lia. }
  destruct (next_winding_enabled res now it p Hi Hm) as (p1 & Ha & Hw & Hc & Hb & Hs & Hp & Hm1).
  cbn [wind_down]. rewrite Ha. cbn [prun length]. unfold mbind, option_bind. rewrite Ha.
  assert (kept p p1) as Hk by by split_and!. apply pexec_pstep in Ha as [Halive Hst].
  destruct Hm1 as [Hm1|Hm1].
  - assert (left p1 <= n) as Hn1.
    { apply pstep_left in Hst. rewrite Hw in Hst.
      replace (is_tick (next_winding res now it p)) with false in Hst
        by (by destruct (next_winding res now it p)). cbn in Hst. lia. }
    destruct (IH p1) as (p' & Hr & Hm' & Hk' & Hf & Hl); [by eapply loop_inv_step|done|done|].
    exists p'. split; [done|]. split; [done|]. split; [by etransitivity|]. split; [by constructor|lia].
  - assert (wind_down res now it n p1 = []) as ->
      by (destruct n; [done|]; cbn; unfold pexec, main_alive; by rewrite Hm1).
    exists p1. split_and!; auto. cbn. lia.
Qed.

(** [main] leaves [AwaitCtrlC] by a Ctrl-C only, and the loops end by the
    token only, or because their socket could not be bound. *)
Definition signalled (acts : list paction) : Prop := exists u, PCtrlC (Ok u) ∈ acts.

Record stop_inv (acts : list paction) p : Prop := {
  st_main : pr_main p = AwaitCtrlC \/ exists res, PCtrlC res ∈ acts;
  st_cancelled : pr_cancelled p = true -> signalled acts;
  st_rpc : pr_rpc p = Stopped -> pr_cancelled p = true \/ exists e, PRpcBind (Err e) ∈ acts;
  st_listener : pr_listener p = Stopped -> pr_cancelled p = true \/ exists e, PListenBind (Err e) ∈ acts;
  st_sched : pr_sched p = SchedStopped -> pr_cancelled p = true;
}.

Lemma ex_snoc {A} (f : A -> paction) acts b : (exists x, f x ∈ acts) -> exists x, f x ∈ acts ++ [b].
Proof. intros [x Hx]. exists x. apply elem_of_app. by left. Qed.

Lemma ex_last {A} (f : A -> paction) acts x : exists y, f y ∈ acts ++ [f x].
Proof. exists x. apply elem_of_app. right. by left. Qed.

Lemma stop_inv_snoc acts a p : stop_inv acts p -> stop_inv (acts ++ [a]) p.
Proof.
  intros [Hm Hc Hr Hl Hs]. split; try done.
  - destruct Hm; [by left|right]. by apply ex_snoc.
  - intros E. by apply (ex_snoc (fun u => PCtrlC (Ok u))), Hc.
  - intros E. destruct (Hr E); [by left|right]. by apply (ex_snoc (fun e => PRpcBind (Err e))).
  - intros E. destruct (Hl E); [by left|right]. by apply (ex_snoc (fun e => PListenBind (Err e))).
Qed.

Lemma stop_inv_same acts p p' : loops_of p' = loops_of p -> stop_inv acts p -> stop_inv acts p'.
Proof.
  unfold loops_of. intros [= _ Hm Hc Hr _ Hl Hs] []. split; by rewrite ?Hm, ?Hc, ?Hr, ?Hl, ?Hs.
Qed.

Lemma stop_inv_step acts p a p' : pstep p a p' -> stop_inv acts p -> stop_inv (acts ++ [a]) p'.
Proof.
  intros Hs Hi. apply (stop_inv_snoc _ a) in Hi.
  destruct Hs as [u Hm0|e Hm0|Hm0|[u|e] _| | | |i env a c o _ _ _| |[u|e]| | | | | | | |Hg Hl|sh Hg Hl Ht|sh t ts Hg Hl Ht
    |it gen t ts Hg Hl|Hg Hl|]; try (by apply (stop_inv_same _ p));
    try (apply (stop_inv_same _ p); [by apply end_turn_loops|done]);
    destruct Hi as [Hm Hc Hr Hl' Hs]; split; cbn; try done; auto.
  - right. apply (ex_last PCtrlC).
  - intros _. apply (ex_last (fun u => PCtrlC (Ok u))).
  - right. apply (ex_last PCtrlC).
  - right. by destruct Hm as [E|]; [rewrite E in Hm0|].
  - intros _. right. apply (ex_last (fun e => PRpcBind (Err e))).
  - intros _. right. apply (ex_last (fun e => PListenBind (Err e))).
  - by case_match.
  - by destruct ts.
Qed.

Lemma stop_inv_run uuid config acts p p' :
  main_start uuid config = Done p -> prun acts p = Some p' -> stop_inv acts p'.
Proof.
  intros Hst. apply (prun_ind stop_inv).
  - unfold main_start, mbind, outcome_bind in Hst. destruct (StateStore_new _ _); [|done].
    injection Hst as <-. split; cbn; try done. by left.
  - intros pre p1 a p2 _ Hi [_ Hs]%pexec_pstep. by eapply stop_inv_step.
Qed.

(** ** Configurations with a zero *)

(** A zero interval makes the scheduler panic, a zero fanout leaves every
    round without targets. *)
Record idle p : Prop := {
  id_sends : pr_sends p = [];
  id_generation : pr_generation p = 0%N;
  id_sched gen ts : pr_sched p <> Serving gen ts;
  id_ticking : gossip_interval_ms (pr_config p) = 0%N -> pr_sched p <> Ticking;
}.

Lemma idle_step p a p' :
  gossip_interval_ms (pr_config p) = 0%N \/ gossip_fanout (pr_config p) = 0%N ->
  pstep p a p' -> idle p -> idle p'.
Proof.
  intros Hz Hs Hi. assert (pr_config p' = pr_config p /\ pr_sched p' = pr_sched p
    /\ pr_sends p' = pr_sends p /\ pr_generation p' = pr_generation p -> idle p') as Hsame.
  { intros (E1 & E2 & E3 & E4). destruct Hi. split; by rewrite ?E1, ?E2, ?E3, ?E4. }
  destruct Hs as [| | | | | | |i env a c o _ _ _| | | | | | | | | |Hg Hl|sh Hg Hl Ht|sh t ts Hg Hl Ht
    |it gen t ts Hg Hl|Hg Hl|i now conn task res Hg Hl]; try (by apply Hsame).
  - apply Hsame. by destruct o as [[[h' c'] fl]|].
  - destruct Hi as [Hi1 Hi2 Hi3 Hi4]. split; cbn; try done; try intros; case_match eqn:E; try done.
    by apply N.eqb_neq in E.
  - destruct Hi as [Hi1 Hi2 Hi3 Hi4]. exfalso. destruct Hz as [Hz|Hz]; [by apply Hi4|].
    pose proof (select_targets_length sh (pr_peers p) (pr_config p)) as Hle.
    rewrite Ht, Hz in Hle. cbn in Hle. lia.
  - destruct Hi as [Hi1 Hi2 Hi3 Hi4]. by destruct (Hi3 _ _ Hl).
  - destruct Hi as [Hi1 Hi2 Hi3 Hi4]. by split.
  - destruct Hi as [Hi1 Hi2 Hi3 Hi4]. by rewrite Hi1 in Hl.
Qed.

Lemma idle_run uuid config acts p p' :
  gossip_interval_ms config = 0%N \/ gossip_fanout config = 0%N ->
  main_start uuid config = Done p -> prun acts p = Some p' -> idle p'.
Proof.
  intros Hz Hst. pose proof (main_start_state _ _ _ Hst) as (_ & _ & Hcfg & _).
  apply (prun_ind (fun _ => idle)).
  - unfold main_start, mbind, outcome_bind in Hst. destruct (StateStore_new _ _); [|done].
    injection Hst as <-. by split.
  - intros pre p1 a p2 Hpre Hi [_ Hs]%pexec_pstep. eapply idle_step; [|exact Hs|done].
    apply prun_config in Hpre. by rewrite Hpre, Hcfg.
Qed.

(** ** Properties *)

(** C32: [main] returns only after a Ctrl-C, with the token cancelled and every
    loop ended: the RPC accept loop, the gossip accept loop and the
    scheduler; after that nothing runs any more.  And as long as no Ctrl-C
    has come, [main] waits, the token is not cancelled, the scheduler has not
    stopped, and an accept loop is over only if its socket could not be
    bound. *)
Theorem shutdown_safe uuid config p0 acts p :
  main_start uuid config = Done p0 -> prun acts p0 = Some p ->
  (pr_main p = Returned ->
     signalled acts /\ pr_cancelled p = true /\ pr_rpc p = Stopped /\ pr_gossip p = true
     /\ pr_listener p = Stopped /\ sched_ended (pr_sched p) = true /\ forall a, pexec a p = None)
  /\ ((forall res, PCtrlC res ∉ acts) ->
     pr_main p = AwaitCtrlC /\ pr_cancelled p = false /\ pr_sched p <> SchedStopped
     /\ (pr_rpc p = Stopped -> exists e, PRpcBind (Err e) ∈ acts)
     /\ (pr_listener p = Stopped -> exists e, PListenBind (Err e) ∈ acts)).
Proof.
  intros Hst Hr. pose proof (stop_inv_run _ _ _ _ _ Hst Hr) as [Hm Hc Hrpc Hl Hs].
  pose proof (loop_inv_run _ _ _ (loop_inv_start _ _ _ Hst) Hr) as [Hjc Hj _]. split.
  - intros Hret. specialize (Hj Hret). specialize (Hjc (or_intror Hret)). unfold joined in Hj.
    apply andb_true_iff in Hj as [Hj1 [Hj2 [Hj3 Hj4]%andb_true_iff]%andb_true_iff].
    destruct (pr_rpc p), (pr_listener p); try done. split_and!; auto.
    intros a. unfold pexec, main_alive. by rewrite Hret.
  - intros Hno. assert (pr_cancelled p = false) as Hnc.
    { destruct (pr_cancelled p); [|done]. destruct (Hc eq_refl) as [u Hu]. by destruct (Hno (Ok u)). }
    rewrite Hnc in *. split_and!.
    + by destruct Hm as [|[res Hres]]; [|destruct (Hno res)].
    + done.
    + by intros E%Hs.
    + intros E. by destruct (Hrpc E).
    + intros E. by destruct (Hl E).
Qed.

(** C17: shutdown terminates, whatever clients and peers do.  From the moment
    [main] joins the loops, at most [left p] steps of the loops are to come,
    and those of the rounds that ticks may still start, at most the fanout
    each; and the loops can take them at once, with any results of binding,
    any clock and any traversal order: after at most [left p] steps, none of
    them of a client, a peer or a task that serves one, [main] has
    returned.  What these had in hand is left as it was: connections, inbound
    exchanges and pushes are not waited for. *)
Theorem shutdown_terminates uuid config p0 acts0 p :
  main_start uuid config = Done p0 -> prun acts0 p0 = Some p -> pr_main p = Joining ->
  (forall acts p', prun acts p = Some p' ->
     count winding acts <= left p + count is_tick acts * N.to_nat (gossip_fanout config))
  /\ (forall res now it, let acts := wind_down res now it (left p) p in
     exists p', prun acts p = Some p' /\ pr_main p' = Returned /\ kept p p'
       /\ Forall (fun a => winding a = true) acts /\ length acts <= left p).
Proof.
  intros Hst Hr Hm. split.
  - intros acts p' Hr'%prun_left. apply prun_config in Hr.
    apply main_start_state in Hst as (_ & _ & Hcfg & _). rewrite Hr, Hcfg in Hr'. lia.
  - intros res now it. apply wind_down_returns; [|done|done].
    eapply loop_inv_run, Hr. by eapply loop_inv_start.
Qed.

Context `{!BroadcastLaws StateEvent}.

(** Zeros in the configuration, which nothing checks.  The process starts
    exactly when the event channel capacity is between 1 and 2^63 - 1, and
    panics otherwise; with a zero gossip interval or a zero fanout it starts
    and runs, but never sends anything to a peer. *)
Theorem zero_configuration uuid config :
  ((exists p, main_start uuid config = Done p)
   <-> (0 < event_channel_capacity config < 9223372036854775808)%N)
  /\ (gossip_interval_ms config = 0%N \/ gossip_fanout config = 0%N ->
      forall p0 acts p, main_start uuid config = Done p0 -> prun acts p0 = Some p -> pr_sends p = []).
Proof.
  split.
  - unfold main_start, StateStore_new, mbind, outcome_bind. set (n := event_channel_capacity config).
    destruct (decide (0 < n < 9223372036854775808)%N) as [Hn|Hn].
    + destruct (bc_channel_ok n Hn) as (c & -> & _). by split; eauto.
    + destruct (bc_channel_panic n) as [msg ->]; [lia|]. by split; [intros [p ?]|].
  - intros Hz p0 acts p Hst Hr. by apply (idle_run uuid config acts p0).
Qed.
End shutdown.
