(* ===== verification/Subscribers.v ===== *)
(** A connection among the tasks of the process.  Every run of Process.v,
    seen from one connection that stays open, is a run of the relation
    [serves] of RpcServer.v: the turns of other connections, the merges of
    gossip deltas and the rest of the node are its environment steps.  The
    account of a subscription, proved there for one connection, then holds
    for all the connections of the process at once. *)
From S2P Require Import Prelude Crdt Replica Broadcast Store Config DashMap Peer Protocol Manager.
From S2P Require Import RpcTypes RpcHandler RpcServer Process ProcessLemmas.

Section subscribers.
Context `{BroadcastLib StateEvent, DashMapLib PeerInfo, !BroadcastLaws StateEvent}.
Context `{Codec GossipMessage, Codec GossipAck}.
Context `{RequestParser, ToJson RpcResponse, ToJson RpcError, ToJson RpcNotification}.
Implicit Types (p : Proc) (h : RpcHandler) (c : client).

Definition conn_at p (i : nat) c : Prop := pr_conns p !! i = Some (mk_rpc_conn c ConnOpen).

(** The notifications that a step writes to connection [i]. *)
Definition pushed (i : nat) (a : paction) p : list RpcNotification :=
  match a with
  | PTurn j _ (ArmEvent _ _) =>
      if bool_decide (j = i) then
        match pr_conns p !! i with Some rc => next_push (handler_of p) (conn_client rc) | None => [] end
      else []
  | _ => []
  end.

(** The request lines that a step serves on connection [i]. *)
Definition requests (i : nat) (a : paction) p : list string :=
  match a with
  | PTurn j _ ArmLine =>
      if bool_decide (j = i) then
        match pr_conns p !! i with Some rc => [next_request (conn_client rc)] | None => [] end
      else []
  | _ => []
  end.

Definition not_subscribing (raw : string) : Prop := is_subscribe raw = false.

(** ** Environment steps *)

Lemma serves_one s1 evs ps s2 : sstep s1 evs ps s2 -> serves s1 evs ps s2.
Proof.
  intros Hs. rewrite <-(app_nil_r evs), <-(app_nil_r ps).
  by eapply serves_step; [exact Hs|constructor].
Qed.

(** What another task may do to the map and to the peer table is not seen. *)
Lemma serves_hidden s1 evs ps h h' c :
  serves s1 evs ps (h, c) ->
  event_tx (rpc_store h') = event_tx (rpc_store h) ->
  store_node_id (rpc_store h') = store_node_id (rpc_store h) ->
  serves s1 evs ps (h', c).
Proof.
  intros Hs Htx Hid. rewrite <-(app_nil_r evs), <-(app_nil_r ps). eapply serves_app; [exact Hs|].
  apply serves_one. destruct h as [[m tx id] d], h' as [[m' tx' id'] d']. simpl in *. subst.
  apply (s_other (mk_handler (mk_store m tx id) d) c m' d').
Qed.

Lemma send_all_tx h evs : event_tx (rpc_store (send_all h evs)) = foldl bc_send (event_tx (rpc_store h)) evs.
Proof. revert h. induction evs as [|ev evs IH]; intros h; [done|]. apply IH. Qed.

Lemma send_all_id h evs : store_node_id (rpc_store (send_all h evs)) = store_node_id (rpc_store h).
Proof.
  revert h. induction evs as [|ev evs IH]; intros h; [done|]. etransitivity; [apply IH|done].
Qed.

(** Another task sends [evs]. *)
Lemma serves_others_send h evs h' c :
  event_tx (rpc_store h') = foldl bc_send (event_tx (rpc_store h)) evs ->
  store_node_id (rpc_store h') = store_node_id (rpc_store h) ->
  serves (h, c) evs [] (h', c).
Proof.
  intros Htx Hid. apply (serves_hidden _ _ _ (send_all h evs)); [apply serves_sends| |].
  - by rewrite send_all_tx.
  - by rewrite send_all_id.
Qed.

Lemma poll_recv tx rx ev tx' sub :
  poll_subscription tx (Some rx) = Some (ev, (tx', sub)) ->
  tx' = (bc_recv tx rx).2.1 /\ (forall rx', sub = Some rx' -> rx' = (bc_recv tx rx).2.2).
Proof.
  unfold poll_subscription. destruct (bc_recv tx rx) as [[] [tx1 rx1]]; intros E; simplify_eq; simpl;
    (split; [done|]); by intros ? [= ->].
Qed.

(** Another connection [c1] takes a turn. *)
Lemma serves_other_turn h c c1 evs h' c1' :
  (forall r, subscription c1 = Some r -> bc_live (event_tx (rpc_store h)) r /\ subscription c <> Some r) ->
  shared_effect h evs h' -> channel_effect h c1 evs h' c1' -> serves (h, c) evs [] (h', c).
Proof.
  intros Hr (_ & Hid & _) Hch.
  destruct Hch as [evs h' c1' Htx _ _|h' c1' Htx _|ev h' c1' Hp _].
  - by apply serves_others_send.
  - apply (serves_hidden _ _ _ (with_rpc_store h (subscribe (rpc_store h)).1)).
    + by apply serves_one, s_subscribe.
    + rewrite Htx. simpl. unfold subscribe. by destruct (bc_subscribe _).
    + rewrite Hid. simpl. unfold subscribe. by destruct (bc_subscribe _).
  - destruct (subscription c1) as [r|]; [|done]. destruct (Hr r eq_refl) as [Hl Hne].
    apply poll_recv in Hp as [Htx _].
    by apply (serves_hidden _ _ _ (with_event_tx h (bc_recv (event_tx (rpc_store h)) r).2.1));
      [by apply serves_one, s_recv|..].
Qed.

(** ** The subscriptions of the process *)

Abbreviation tx_of p := (event_tx (pr_store p)).

Record sub_inv p : Prop := {
  si_live i c r : conn_at p i c -> subscription c = Some r -> bc_live (tx_of p) r;
  si_distinct i j c1 c2 r : conn_at p i c1 -> conn_at p j c2 -> i <> j ->
    subscription c1 = Some r -> subscription c2 <> Some r;
  si_cap : (event_channel_capacity (pr_config p) <= bc_cap (tx_of p))%N;
}.

Lemma sends_cap tx evs : bc_cap (foldl bc_send tx evs) = bc_cap tx.
Proof. revert tx. induction evs as [|ev evs IH]; intros tx; simpl; [done|]. by rewrite IH, bc_send_cap. Qed.

(** The effect of a turn on the turning connection and on the receivers of
    the others. *)
Lemma channel_effect_inv h c evs h' c' :
  (forall r, subscription c = Some r -> bc_live (event_tx (rpc_store h)) r) ->
  channel_effect h c evs h' c' ->
  (forall r, subscription c' = Some r -> bc_live (event_tx (rpc_store h')) r)
  /\ (forall r, bc_live (event_tx (rpc_store h)) r -> subscription c <> Some r ->
        bc_live (event_tx (rpc_store h')) r /\ subscription c' <> Some r)
  /\ bc_cap (event_tx (rpc_store h')) = bc_cap (event_tx (rpc_store h)).
Proof.
  intros Hc Hch. set (tx := event_tx (rpc_store h)) in *.
  destruct Hch as [evs h' c' Htx Hs _|h' c' Htx Hs|ev h' c' Hp _];
    [fold tx in Htx|fold tx in Htx, Hs|fold tx in Hp].
  - rewrite Htx, Hs. split_and!.
    + intros r Hr. by apply bc_sends, Hc.
    + intros r Hl Hne. split; [by apply bc_sends|done].
    + apply sends_cap.
  - rewrite Htx, Hs. destruct (bc_subscribe_new tx) as (? & _ & ?). split_and!; [by intros r [= <-]| |done].
    intros r Hl _. split; [by apply bc_subscribe_other|]. intros [= E]. by apply (bc_subscribe_fresh tx r).
  - destruct (subscription c) as [r0|]; [|done]. apply poll_recv in Hp as [-> Hs].
    pose proof (Hc _ eq_refl) as Hl0. destruct (bc_recv_live _ _ Hl0) as [? ?]. split_and!; [| |done].
    + by intros r ->%Hs.
    + intros r Hl Hne. destruct (bc_recv_other tx r0 r Hl0 Hl) as (? & _ & Hneq); [congruence|].
      split; [done|]. by intros ->%Hs.
Qed.


Lemma sub_inv_sends p p' evs :
  pr_config p' = pr_config p -> pr_conns p' = pr_conns p -> tx_of p' = foldl bc_send (tx_of p) evs ->
  sub_inv p -> sub_inv p'.
Proof.
  intros Hcfg Hconns Htx [Hl Hd Hc]. unfold conn_at in *.
  split; unfold conn_at; rewrite ?Hcfg, ?Hconns, ?Htx, ?sends_cap; eauto.
  intros i c r Hi Hs. by eapply bc_sends, Hl.
Qed.

Lemma end_turn_open p i c o j cj :
  conn_at p i c -> conn_at (end_turn p i c o) j cj ->
  if decide (j = i) then exists h', o = Done (h', cj, Continue) else conn_at p j cj.
Proof.
  unfold conn_at. intros Hi Hj. pose proof (lookup_lt_Some _ _ _ Hi) as Hlt.
  case_decide as Hji; [subst j|].
  - destruct o as [[[h' c'] []]|]; cbn in Hj; rewrite list_lookup_insert_eq in Hj by done; simplify_eq.
    by exists h'.
  - destruct o as [[[h' c'] fl]|]; cbn in Hj; by rewrite list_lookup_insert_ne in Hj.
Qed.

Lemma end_turn_tx p i c h' c' fl : tx_of (end_turn p i c (Done (h', c', fl))) = event_tx (rpc_store h').
Proof. done. Qed.

Lemma emit_updates_sends (s : StateStore) keys :
  event_tx (emit_updates s keys) = foldl bc_send (event_tx s) (keys ≫= final_event (state s)).
Proof.
  revert s. induction keys as [|k keys IH]; intros s; [done|]. cbn [mbind list_bind].
  rewrite foldl_app. unfold emit_updates, get, final_event at 1. cbn [foldl].
  destruct (state s !! k) as [v|]; etransitivity; [apply IH|done|apply IH|done].
Qed.

Lemma merge_delta_sends (s s' : StateStore) delta updated :
  merge_delta s delta = (s', updated) ->
  event_tx s' = foldl bc_send (event_tx s) (updated ≫= final_event (state s'))
  /\ store_node_id s' = store_node_id s.
Proof.
  unfold merge_delta. destruct (merge_locked _ _) as [m upd]. intros [= <- <-].
  rewrite emit_updates_sends, emit_updates_state, emit_updates_node_id. done.
Qed.

Lemma sub_inv_step p a p' : pstep p a p' -> sub_inv p -> sub_inv p'.
Proof.
  intros Hs Hi.
  destruct Hs as [| | | |input w _| | |i env a c o Hc _ Ho| | | | | |
    |i now r w msg r' store updated _ _ _ Hm| | | | | | | |];
    try (by apply (sub_inv_sends p _ []));
    [|destruct o as [[[h' c'] fl]|]|]; destruct Hi as [Hl Hd Hcap].
  - split; [| |done]; unfold conn_at; cbn; intros i.
    + intros c r [?|[_ [_ [= <-]]%list_lookup_singleton_Some]]%lookup_app_Some; [by eapply Hl|]. cbn. discriminate.
    + intros j c1 c2 r [?|[? [? [= <-]]%list_lookup_singleton_Some]]%lookup_app_Some
        [?|[? [? [= <-]]%list_lookup_singleton_Some]]%lookup_app_Some Hij; cbn; try discriminate. by eapply Hd.
  - apply conn_step_effect in Ho as (_ & Hch & _).
    apply channel_effect_inv in Hch as (Hown & Hoth & Hc'); [|intros r; by apply (Hl i c)].
    split; [| |by rewrite end_turn_tx, Hc'].
    + intros j cj r Hj Hr. pose proof (end_turn_open _ _ _ _ _ _ Hc Hj) as Hx.
      rewrite end_turn_tx. case_decide; [destruct Hx as [h'' [= -> -> _]]; by apply Hown|].
      apply Hoth; [eapply Hl; eassumption|]. intros Hr'. by eapply (Hd i j).
    + intros j k c1 c2 r Hj Hk Hjk Hr1 Hr2. pose proof (end_turn_open _ _ _ _ _ _ Hc Hj) as Hx.
      pose proof (end_turn_open _ _ _ _ _ _ Hc Hk) as Hy. repeat case_decide; subst; [done|..].
      * destruct Hy as [h'' [= -> -> _]]. apply (Hoth r); [eapply Hl; eassumption|..|done].
        intros Hr'. by eapply (Hd i j).
      * destruct Hx as [h'' [= -> -> _]]. apply (Hoth r); [eapply Hl; eassumption|..|done].
        intros Hr'. by eapply (Hd i k).
      * by eapply (Hd j k).
  - assert (forall j cj, conn_at (end_turn p i c (Panic msg)) j cj -> conn_at p j cj) as Hx.
    { intros j cj Hj. pose proof (end_turn_open _ _ _ _ _ _ Hc Hj) as Hx.
      case_decide; [by destruct Hx|done]. }
    split; [intros ??? ?%Hx; eapply Hl; eassumption|intros ????? ?%Hx ?%Hx; eapply Hd; eassumption|done].
  - apply merge_delta_sends in Hm as [Hm _]. eapply (sub_inv_sends p); [done|done|exact Hm|by split].
Qed.

Lemma sub_inv_start uuid config p : main_start uuid config = Done p -> sub_inv p.
Proof.
  unfold main_start, StateStore_new, mbind, outcome_bind.
  destruct (bc_channel _) as [tx|] eqn:Htx; [|done]. intros [= <-]. split; [done..|]. cbn.
  set (n := event_channel_capacity config) in *.
  destruct (decide (0 < n < 9223372036854775808)%N) as [Hn|Hn].
  - destruct (bc_channel_ok n Hn) as (c & Hc & Hle). by rewrite Htx in Hc; injection Hc as <-.
  - destruct (bc_channel_panic n) as [msg Hc]; [lia|]. by rewrite Htx in Hc.
Qed.

Lemma sub_inv_run acts p p' : sub_inv p -> prun acts p = Some p' -> sub_inv p'.
Proof.
  intros Hi. apply (prun_ind (fun _ => sub_inv)); [done|].
  intros _ p1 a p2 _ Hp1 [_ Hs]%pexec_pstep. by eapply sub_inv_step.
Qed.

(** ** The projection *)

(** A connection that is open was open before. *)
Lemma pstep_open p a p' i c' :
  pstep p a p' -> (i < length (pr_conns p))%nat -> conn_at p' i c' -> exists c, conn_at p i c.
Proof.
  intros Hs Hlt. unfold conn_at.
  destruct Hs as [| | | | | | |j env a c o Hj _ Ho| | | | | | | | | | | | | | |]; eauto.
  - cbn. rewrite lookup_app_l by done. eauto.
  - intros Hi. pose proof (end_turn_open _ _ _ _ _ _ Hj Hi) as Hx. case_decide; [subst; eauto|by eexists].
Qed.

Lemma pstep_length p a p' : pstep p a p' -> (length (pr_conns p) <= length (pr_conns p'))%nat.
Proof.
  destruct 1; cbn; try done; [rewrite length_app; lia|].
  destruct o as [[[h' c'] fl]|]; cbn; by rewrite length_insert.
Qed.

Lemma turn_own p i env a c h' c' :
  conn_at p i c -> conn_step env a (handler_of p) c = Some (Done (h', c', Continue)) ->
  Forall not_subscribing (requests i (PTurn i env a) p) ->
  serves (handler_of p, c) (announced (PTurn i env a) p) (pushed i (PTurn i env a) p) (h', c').
Proof.
  intros Hi Hc. unfold requests, announced, pushed. rewrite (bool_decide_eq_true_2 (i = i)) by done.
  unfold conn_at in Hi. rewrite Hi. cbn [conn_client]. destruct a as [| | |taken kept|]; intros Hq.
  - apply Forall_cons in Hq as [Hq _]. assert (input c <> EmptyString) as Hin.
    { intros E. unfold conn_step in Hc. by rewrite (bool_decide_eq_true_2 _ E) in Hc. }
    cbn [turn_events]. rewrite (bool_decide_eq_false_2 _ Hin). apply serves_one, s_line; [exact Hc|exact Hq].
  - unfold conn_step in Hc. by case_bool_decide.
  - by unfold conn_step in Hc.
  - eapply serves_one, s_event. exact Hc.
  - by unfold conn_step in Hc.
Qed.

Lemma pstep_serves p a p' i c c' :
  sub_inv p -> pstep p a p' -> conn_at p i c -> conn_at p' i c' ->
  Forall not_subscribing (requests i a p) ->
  serves (handler_of p, c) (announced a p) (pushed i a p) (handler_of p', c').
Proof.
  intros Hinv Hs Hi Hi' Hq.
  assert (announced a p = [] -> pushed i a p = [] -> pr_conns p' !! i = pr_conns p !! i ->
    tx_of p' = tx_of p -> store_node_id (pr_store p') = store_node_id (pr_store p) ->
    serves (handler_of p, c) (announced a p) (pushed i a p) (handler_of p', c')) as Hquiet.
  { intros -> -> E Htx Hid. unfold conn_at in *. assert (c' = c) as -> by congruence.
    by apply (serves_hidden _ _ _ (handler_of p)); [constructor|..]. }
  destruct Hs as [| | | |input w _| | |j env a c1 o Hj _ Ho| | | | | |k now r w e r' _ Hk Hr
    |k now r w msg r' store updated _ Hk Hr Hm|k now msg ack w _ Hk|k now ack w res w' _ Hk _| | | | | |];
    try (by apply Hquiet); try (apply Hquiet; try done; cbn [announced]; by rewrite Hk, ?Hr).
  - apply Hquiet; try done. cbn. by rewrite lookup_app_l by (by eapply lookup_lt_Some).
  - pose proof (end_turn_open _ _ _ _ _ _ Hj Hi') as Hx. case_decide as Hji; [subst j|].
    + destruct Hx as [h' ->]. assert (c1 = c) as -> by (unfold conn_at in *; congruence).
      pose proof (turn_own p i env a c h' c' Hi Ho Hq) as Ht. by destruct h'.
    + assert (pushed i (PTurn j env a) p = []) as ->
        by (destruct a; cbn; by rewrite ?bool_decide_eq_false_2 by done).
      assert (c' = c) as -> by (unfold conn_at in *; congruence). cbn [announced]. rewrite Hj. cbn [conn_client].
      destruct o as [[[h' c1'] fl]|msg].
      * apply conn_step_effect in Ho as (Hsh & Hch & _).
        apply (serves_other_turn (handler_of p) c c1 _ h' c1') in Hsh; [by destruct h'| |done].
        intros r Hr. split; [by apply (si_live p Hinv j c1)|]. by apply (si_distinct p Hinv j i c1 c).
      * rewrite (turn_events_panic _ _ _ _ _ Ho). constructor.
  - cbn [announced pushed]. rewrite Hk, Hr, Hm. apply merge_delta_sends in Hm as [Htx Hid].
    assert (c' = c) as -> by (unfold conn_at in *; cbn in Hi'; congruence). by apply serves_others_send.
Qed.

Lemma prun_serves acts p p' i c c' :
  sub_inv p -> prun acts p = Some p' -> conn_at p i c -> conn_at p' i c' ->
  Forall not_subscribing (over_run (requests i) acts p) ->
  serves (handler_of p, c) (over_run announced acts p) (over_run (pushed i) acts p) (handler_of p', c').
Proof.
  intros Hinv Hr Hi Hi' Hq. set (P := fun acts p' => (i < length (pr_conns p'))%nat /\ forall c',
    conn_at p' i c' -> Forall not_subscribing (over_run (requests i) acts p) ->
    serves (handler_of p, c) (over_run announced acts p) (over_run (pushed i) acts p) (handler_of p', c')).
  enough (P acts p') as [_ Hx] by eauto. clear c' Hi' Hq. revert Hr. apply (prun_ind P).
  - split; [by eapply lookup_lt_Some|]. intros c' Hi' _. unfold conn_at in *.
    assert (c' = c) as -> by congruence. constructor.
  - intros pre p1 a p2 Hpre [Hlt IH] [_ Hs]%pexec_pstep. split; [apply pstep_length in Hs; lia|].
    intros c2 Hc2. rewrite !(over_run_snoc _ _ _ _ _ Hpre). intros [Hq1 Hq2]%Forall_app.
    destruct (pstep_open _ _ _ _ _ Hs Hlt Hc2) as [c1 Hc1].
    eapply serves_app; [by apply IH|]. eapply pstep_serves; try eassumption. by eapply sub_inv_run.
Qed.

Lemma connection_account uuid config p0 acts0 p acts p' i c c' rx :
  main_start uuid config = Done p0 -> prun acts0 p0 = Some p -> prun acts p = Some p' ->
  conn_at p i c -> subscription c = Some rx -> conn_at p' i c' ->
  Forall not_subscribing (over_run (requests i) acts p) ->
  exists rx' items,
    subscription c' = Some rx'
    /\ bc_view (tx_of p) rx ++ over_run announced acts p
       = (items ≫= item_events) ++ bc_view (tx_of p') rx'
    /\ over_run (pushed i) acts p = items ≫= item_push (sub_prefix c)
    /\ (forall missed, ItMissed missed ∈ items -> missed <> []
         /\ (event_channel_capacity config
             < N.of_nat (length (bc_view (tx_of p) rx ++ over_run announced acts p)))%N).
Proof.
  intros Hst Hr0 Hr Hi Hsub Hi' Hq.
  assert (sub_inv p) as Hinv by (eapply sub_inv_run, Hr0; by eapply sub_inv_start).
  pose proof (prun_serves _ _ _ _ _ _ Hinv Hr Hi Hi' Hq) as Hs.
  destruct (serves_accounted _ _ _ _ rx Hs Hsub (si_live p Hinv i c rx Hi Hsub))
    as (rx' & items & Hsub' & _ & _ & _ & Hv & Hp & Hm).
  exists rx', items. split; [done|]. split; [done|]. split; [done|]. intros missed Hin.
  destruct (Hm _ Hin) as [? Hlt]. split; [done|]. pose proof (si_cap p Hinv) as Hcap.
  apply prun_config in Hr0. apply main_start_state in Hst as (_ & _ & Hcfg & _).
  rewrite Hr0, Hcfg in Hcap. cbn [fst snd] in *. cbn [rpc_store handler_of] in Hlt. lia.
Qed.

(** ** Properties *)

(** C15: no connection of the process loses an event silently.  Take any run
    of a started node and a connection that is open and subscribed at some
    point of it, stays open and does not subscribe again.  The events waiting
    for it and those announced since, by the requests of all connections and
    the merges of all gossip messages, are in order: given to it, one
    [state.update] each if the key matches its prefix; reported missed, in
    runs, each by one [state.lag] with its length; or still waiting.
    Something is missed only if more events than the configured capacity
    were waiting or announced. *)
Theorem every_subscription_accounted uuid config p0 acts0 p acts p' i c c' rx :
  main_start uuid config = Done p0 -> prun acts0 p0 = Some p -> prun acts p = Some p' ->
  conn_at p i c -> subscription c = Some rx -> conn_at p' i c' ->
  Forall not_subscribing (over_run (requests i) acts p) ->
  exists rx' items,
    subscription c' = Some rx'
    /\ bc_view (tx_of p) rx ++ over_run announced acts p
       = (items ≫= item_events) ++ bc_view (tx_of p') rx'
    /\ over_run (pushed i) acts p = items ≫= item_push (sub_prefix c)
    /\ (forall missed, ItMissed missed ∈ items -> missed <> []
         /\ (event_channel_capacity config
             < N.of_nat (length (bc_view (tx_of p) rx ++ over_run announced acts p)))%N).
Proof.
  apply connection_account.
Qed.

(** A connection that keeps up sees every change of the node.  Under the
    same conditions, when the events waiting and announced fit the configured
    capacity and none is waiting at the end, what was written to it is exactly
    the [state.update] of every event with a matching key, in order. *)
Theorem subscriber_in_step_sees_all uuid config p0 acts0 p acts p' i c c' rx rx' :
  main_start uuid config = Done p0 -> prun acts0 p0 = Some p -> prun acts p = Some p' ->
  conn_at p i c -> subscription c = Some rx -> conn_at p' i c' -> subscription c' = Some rx' ->
  Forall not_subscribing (over_run (requests i) acts p) ->
  (N.of_nat (length (bc_view (tx_of p) rx ++ over_run announced acts p))
   <= event_channel_capacity config)%N ->
  bc_view (tx_of p') rx' = [] ->
  over_run (pushed i) acts p
  = (fun ev => state_update (ev_key ev) (ev_value ev))
      <$> filter (fun ev => key_matches (sub_prefix c) (ev_key ev))
            (bc_view (tx_of p) rx ++ over_run announced acts p).
Proof.
  intros Hst Hr0 Hr Hi Hsub Hi' Hsub' Hq Hle Hnil.
  destruct (connection_account _ _ _ _ _ _ _ _ _ _ _ Hst Hr0 Hr Hi Hsub Hi' Hq)
    as (rx2 & items & Hsub2 & Hv & -> & Hm).
  assert (rx2 = rx') as -> by congruence. rewrite Hv, Hnil, app_nil_r.
  apply items_complete, no_lag. intros missed Hin. destruct (Hm _ Hin). lia.
Qed.
End subscribers.
