(* ===== verification/Transcript.v ===== *)
(** What a client that stays connected has been written, and what became of
    what it sent: the requests are taken off its input in order, each once,
    and the output is the answers to them, in that order, with the
    notifications of its subscription in between. *)
From S2P Require Import Prelude Crdt Replica Broadcast Store Config DashMap Peer Protocol Manager.
From S2P Require Import RpcTypes RpcHandler RpcServer Process ProcessLemmas Subscribers.

Section transcript.
Context `{BroadcastLib StateEvent, DashMapLib PeerInfo, !BroadcastLaws StateEvent}.
Context `{Codec GossipMessage, Codec GossipAck}.
Context `{RequestParser, ToJson RpcResponse, ToJson RpcError, ToJson RpcNotification}.
Implicit Types (p : Proc) (h : RpcHandler) (c : client).

(** ** Lines in and out *)

Definition cat (l : list string) : string := foldr String.append EmptyString l.

Lemma cat_app l1 l2 : cat (l1 ++ l2) = cat l1 +:+ cat l2.
Proof. induction l1 as [|s l1 IH]; [done|]. simpl. by rewrite IH, str_app_assoc. Qed.

(** A text without a line feed but at its end. *)
Definition line_shaped (s : string) : Prop :=
  exists l, has_newline l = false /\ (s = l \/ s = l +:+ String.String newline EmptyString).

(** The texts that a turn writes. *)
Definition turn_lines (env : request_env) (a : arm) h c : list string :=
  match a with
  | ArmLine =>
      if bool_decide (next_request c = EmptyString) then []
      else match dispatch env h (next_request c) with
           | Done (_, d) => reply_lines d
           | Panic _ => []
           end
  | ArmEvent _ _ => omap (fun n => match to_string n with Ok s => Some s | Err _ => None end) (next_push h c)
  | _ => []
  end.

Definition on_connection {A} (f : request_env -> arm -> RpcHandler -> client -> list A)
    (i : nat) (a : paction) p : list A :=
  match a with
  | PTurn j env arm =>
      if bool_decide (j = i) then
        match pr_conns p !! i with Some rc => f env arm (handler_of p) (conn_client rc) | None => [] end
      else []
  | _ => []
  end.

(** The texts that a step writes on connection [i]. *)
Definition transcript : nat -> paction -> Proc -> list string := on_connection turn_lines.

(** The lines, untrimmed, that a step takes off the input of connection [i]. *)
Definition lines_read : nat -> paction -> Proc -> list string :=
  on_connection (fun _ arm _ c => match arm with ArmLine => [line c +:+ (take_line (input c)).1] | _ => [] end).

(** The abandoned reads of connection [i] that do not keep exactly what they
    have read. *)
Definition mangled : nat -> paction -> Proc -> list string :=
  on_connection (fun _ arm _ c =>
    match arm with
    | ArmEvent taken kept => if bool_decide (kept = line c +:+ taken) then [] else [kept]
    | _ => []
    end).

Lemma take_line_split s : (take_line s).1 +:+ (take_line s).2 = s.
Proof.
  induction s as [|a s IH]; [done|]. cbn [take_line]. destruct (Ascii.eqb a newline); [done|].
  destruct (take_line s) as [l r]. exact (f_equal (String.String a) IH).
Qed.

Lemma take_line_shaped l s : has_newline l = false -> line_shaped (l +:+ (take_line s).1).
Proof.
  revert l. induction s as [|a s IH]; intros l Hl; cbn [take_line].
  - exists l. split; [done|left]. clear. induction l as [|b l IH]; [done|]. exact (f_equal (String.String b) IH).
  - destruct (Ascii.eqb a newline) eqn:Ha.
    + apply Ascii.eqb_eq in Ha as ->. exists l. split; [done|by right].
    + destruct (take_line s) as [l' r] eqn:E. cbn [fst] in *.
      destruct (IH (l +:+ String.String a EmptyString)) as (l0 & Hno & Hl0).
      { rewrite has_newline_app, Hl. cbn [has_newline orb]. by rewrite Ha. }
      exists l0. split; [done|]. by rewrite str_app_assoc in Hl0.
Qed.

Lemma prefix_split t s : String.prefix t s = true -> t +:+ str_drop (String.length t) s = s.
Proof.
  revert s. induction t as [|a t IH]; intros [|b s]; try done. cbn [String.prefix].
  destruct (Ascii.ascii_dec a b) as [->|]; [|done]. intros Hp.
  exact (f_equal (String.String b) (IH s Hp)).
Qed.

(** ** One turn *)

Lemma conn_step_room env a h c h' c' fl :
  room (out c) = None -> conn_step env a h c = Some (Done (h', c', fl)) -> room (out c') = None.
Proof.
  intros Hroom Hc. destruct a as [| | |taken kept|]; unfold conn_step in Hc;
    try (by simplify_option_eq); try (by injection Hc as _ <- _).
  - case_bool_decide; [done|]. destruct (take_line (input c)) as [l rest]. injection Hc as Hc.
    unfold serve_line in Hc. cbn [line out] in Hc. case_bool_decide; [by injection Hc as _ <- _|].
    unfold mbind, outcome_bind in Hc. destruct (dispatch env h _) as [[h1 d]|]; [|done].
    destruct d as [s|s rx p|]; cbn [out with_subscription] in Hc;
      rewrite ?(write_line_ok _ s Hroom) in Hc; by injection Hc as _ <- _.
  - case_match; [|done]. unfold mbind, option_bind in Hc.
    destruct (poll_subscription _ _) as [[ev [tx sub]]|]; [|done]. injection Hc as Hc.
    unfold serve_event in Hc. cbn [sub_prefix out] in Hc.
    destruct (event_notification (sub_prefix c) ev) as [n|]; [|by injection Hc as _ <- _].
    destruct (to_string n) as [json|e]; [|by injection Hc as _ <- _].
    rewrite write_line_ok in Hc by done. by injection Hc as _ <- _.
Qed.

Lemma turn_output env a h c h' c' :
  room (out c) = None -> conn_step env a h c = Some (Done (h', c', Continue)) ->
  written (out c') = written (out c) ++ (turn_lines env a h c ≫= line_bytes).
Proof.
  intros Hroom Hc. destruct (conn_step_output _ _ _ _ _ _ _ Hroom Hc) as (lines & -> & Ha).
  do 2 f_equal. destruct a as [| | |taken kept|]; cbn [turn_lines].
  - destruct Ha as (_ & _ & _ & Ha). case_bool_decide; [by destruct Ha as [_ ->]|].
    by destruct Ha as (d & -> & ->).
  - by destruct Ha as (_ & -> & _).
  - by destruct Ha as (_ & -> & _).
  - destruct Ha as [[_ Ha]|(n & e & ? & _)]; [|done].
    induction Ha as [|n s ns ss Hn _ IH]; [done|]. cbn. by rewrite Hn, IH.
  - by destruct Ha as (_ & -> & _).
Qed.

Lemma turn_input env a h c h' c' :
  room (out c) = None -> has_newline (line c) = false ->
  conn_step env a h c = Some (Done (h', c', Continue)) ->
  match a with
  | ArmLine => line c +:+ input c = (line c +:+ (take_line (input c)).1) +:+ (line c' +:+ input c')
               /\ line c' = EmptyString
  | ArmEvent taken kept => kept = line c +:+ taken ->
               line c +:+ input c = line c' +:+ input c' /\ has_newline (line c') = false
  | _ => line c' = line c /\ input c' = input c
  end.
Proof.
  intros Hroom Hl Hc. pose proof (conn_step_output _ _ _ _ _ _ _ Hroom Hc) as (lines & _ & Ha).
  destruct a as [| | |taken kept|]; try by destruct Ha as (_ & _ & _ & ->).
  - destruct Ha as (_ & -> & -> & _). split; [|done].
    by rewrite str_app_assoc, take_line_split.
  - intros ->. unfold conn_step in Hc. case_match eqn:Hcond; [|done].
    apply andb_true_iff in Hcond as [[Hp Hno%negb_true_iff]%andb_true_iff _].
    unfold mbind, option_bind in Hc. destruct (poll_subscription _ _) as [[ev [tx sub]]|]; [|done].
    injection Hc as Hc. apply serve_event_client in Hc as (_ & _ & _ & -> & ->). cbn [input line].
    split; [by rewrite str_app_assoc, prefix_split|]. by rewrite has_newline_app, Hl, Hno.
Qed.

(** ** The connection among the other tasks *)

Lemma pstep_own_turn p a p' i c c' :
  pstep p a p' -> conn_at p i c -> conn_at p' i c' ->
  (exists env arm h', a = PTurn i env arm
     /\ conn_step env arm (handler_of p) c = Some (Done (h', c', Continue)))
  \/ (forall env arm, a <> PTurn i env arm) /\ c' = c.
Proof.
  intros Hs Hi Hi'.
  assert (pr_conns p' !! i = pr_conns p !! i -> c' = c) as Hsame
    by (intros E; unfold conn_at in *; congruence).
  destruct Hs as [| | | | | | |j env a c1 o Hj _ Ho| | | | | | | | | | | | | | |];
    try (right; split; [done|]; by apply Hsame).
  - right. split; [done|]. apply Hsame. cbn. by rewrite lookup_app_l by (by eapply lookup_lt_Some).
  - pose proof (end_turn_open _ _ _ _ _ _ Hj Hi') as Hx. case_decide as Hji; [subst j|].
    + left. destruct Hx as [h' ->]. assert (c1 = c) as -> by (unfold conn_at in *; congruence).
      by exists env, a, h'.
    + right. split; [by intros ?? [= ? _ _]|]. unfold conn_at in *. congruence.
Qed.

(** What holds of connection [i] after [acts], from [c] in [p] to [c'], if no
    abandoned read has mangled its input. *)
Record account (i : nat) (acts : list paction) p c c' : Prop := {
  ac_room : room (out c') = None;
  ac_written : written (out c') = written (out c) ++ (over_run (transcript i) acts p ≫= line_bytes);
  ac_line : has_newline (line c') = false;
  ac_input : line c +:+ input c = cat (over_run (lines_read i) acts p) +:+ (line c' +:+ input c');
  ac_shaped : Forall line_shaped (over_run (lines_read i) acts p);
  ac_requests : over_run (requests i) acts p = trim <$> over_run (lines_read i) acts p;
}.

(** The turn of the connection itself. *)
Lemma account_turn i env a pre p p1 h' c c1 c' :
  prun pre p = Some p1 -> account i pre p c c1 -> conn_at p1 i c1 ->
  conn_step env a (handler_of p1) c1 = Some (Done (h', c', Continue)) ->
  mangled i (PTurn i env a) p1 = [] -> account i (pre ++ [PTurn i env a]) p c c'.
Proof.
  intros Hpre [Hroom Hw Hl Hin Hsh Hq] Hi Hc. unfold conn_at in Hi.
  pose proof (turn_output _ _ _ _ _ _ Hroom Hc) as Hout.
  pose proof (turn_input _ _ _ _ _ _ Hroom Hl Hc) as Hturn.
  pose proof (conn_step_room _ _ _ _ _ _ _ Hroom Hc) as Hroom'.
  unfold mangled, on_connection. rewrite bool_decide_eq_true_2, Hi by done. cbn [conn_client].
  assert (forall A (f : request_env -> arm -> RpcHandler -> client -> list A),
    over_run (on_connection f i) (pre ++ [PTurn i env a]) p
    = over_run (on_connection f i) pre p ++ f env a (handler_of p1) c1) as Hon.
  { intros A f. rewrite (over_run_snoc _ _ _ _ _ Hpre). unfold on_connection at 2.
    by rewrite bool_decide_eq_true_2, Hi. }
  intros Hm. split; try done; unfold transcript, lines_read in *; rewrite ?Hon.
  - by rewrite bind_app, app_assoc, <-Hw.
  - destruct a as [| | |taken kept|]; try by destruct Hturn as [-> _].
    + by destruct Hturn as [_ ->].
    + case_bool_decide as Hk; [|done]. by apply Hturn.
  - rewrite Hin, cat_app, str_app_assoc. f_equal.
    destruct a as [| | |taken kept|]; cbn [cat foldr]; try by destruct Hturn as [-> ->].
    + destruct Hturn as [-> _]. by rewrite !str_app_assoc.
    + case_bool_decide as Hk; [|done]. by destruct (Hturn Hk) as [-> _].
  - apply Forall_app. split; [done|]. destruct a; try done.
    apply Forall_singleton. by apply take_line_shaped.
  - rewrite (over_run_snoc _ _ _ _ _ Hpre), Hq, fmap_app. f_equal. unfold requests.
    destruct a; try done. by rewrite bool_decide_eq_true_2, Hi.
Qed.

(** A step of another task. *)
Lemma account_other i act pre p p1 c c1 :
  prun pre p = Some p1 -> account i pre p c c1 ->
  (forall env a, act <> PTurn i env a) -> account i (pre ++ [act]) p c c1.
Proof.
  intros Hpre [Hroom Hw Hl Hin Hsh Hq] Hact.
  assert (forall A (f : request_env -> arm -> RpcHandler -> client -> list A),
    over_run (on_connection f i) (pre ++ [act]) p = over_run (on_connection f i) pre p) as Hon.
  { intros A f. rewrite (over_run_snoc _ _ _ _ _ Hpre). unfold on_connection at 2.
    destruct act; try apply app_nil_r. case_bool_decide; [|apply app_nil_r]. by destruct (Hact env a); subst. }
  split; try done; unfold transcript, lines_read in *; rewrite ?Hon; try done.
  rewrite (over_run_snoc _ _ _ _ _ Hpre), Hq. unfold requests. destruct act; try apply app_nil_r.
  destruct a; try apply app_nil_r. case_bool_decide; [|apply app_nil_r]. by destruct (Hact env ArmLine); subst.
Qed.

(** ** Property *)

(** C16: The transcript of a connection.  While a client whose socket accepts what
    is written stays connected, and no read of its input is abandoned with a
    loss, whatever the other tasks do: the request lines served are exactly
    the lines of what it sent, in order, each once, and what remains is still
    to be read; and what it has been written is exactly, in order, the
    answers to these requests (at most one line each) and the notifications
    of its subscription, each a whole line. *)
Theorem connection_transcript acts p p' i c c' :
  prun acts p = Some p' -> conn_at p i c -> conn_at p' i c' ->
  room (out c) = None -> line c = EmptyString -> over_run (mangled i) acts p = [] ->
  let lines := over_run (lines_read i) acts p in
  over_run (requests i) acts p = trim <$> lines
  /\ Forall line_shaped lines /\ input c = cat lines +:+ (line c' +:+ input c')
  /\ written (out c') = written (out c) ++ (over_run (transcript i) acts p ≫= line_bytes).
Proof.
  intros Hr Hi Hi' Hroom Hline Hm. set (P := fun acts p' => (i < length (pr_conns p'))%nat /\ forall c',
    conn_at p' i c' -> over_run (mangled i) acts p = [] -> account i acts p c c').
  enough (P acts p') as [_ Hx].
  { destruct (Hx _ Hi' Hm) as [_ Hw _ Hin Hsh Hq]. cbv zeta. rewrite Hline in Hin. by split_and!. }
  clear c' Hi' Hm. revert Hr. apply (prun_ind P).
  - split; [by eapply lookup_lt_Some|]. intros c' Hi' _. unfold conn_at in *.
    assert (c' = c) as -> by congruence. split; cbn; rewrite ?app_nil_r; try done. by rewrite Hline.
  - intros pre p1 a p2 Hpre [Hlt IH] Hx. apply pexec_pstep in Hx as [_ Hs].
    split; [apply pstep_length in Hs; lia|].
    intros c2 Hc2. rewrite (over_run_snoc _ _ _ _ _ Hpre). intros [Hm1 Hm2]%app_nil.
    destruct (pstep_open _ _ _ _ _ Hs Hlt Hc2) as [c1 Hc1]. specialize (IH _ Hc1 Hm1).
    destruct (pstep_own_turn _ _ _ _ _ _ Hs Hc1 Hc2) as [(env & arm & h' & -> & Hc)|[Hne ->]].
    + by eapply account_turn.
    + by eapply account_other.
Qed.
End transcript.
