(* ===== verification/Programs.v ===== *)
(** The operations of a process with their locks.  Store.v, RpcHandler.v and
    Manager.v take each operation of the store and of the peer table as one
    step.  Here the same code is written down instruction by instruction: a
    [prog] takes and releases the [RwLock] of src/state/store.rs, reads and
    writes the map under it, sends and receives events, and calls the peer
    table, whose entries and iterators hold a reference into it.  [obeys] says
    that a program keeps to the rules that src/state/store.rs (lock rules) and
    src/gossip/manager.rs (lock ordering) document.  That the programs do, and
    do what [pexec] does, is shown in LockRules.v; the interleaving of their
    instructions is the matter of Interleaving.v. *)
From S2P Require Import Prelude Crdt Replica Broadcast Store Config DashMap Peer Protocol Manager.
From S2P Require Import RpcTypes RpcHandler RpcServer Process ProcessLemmas.

(** ** Instructions *)

Inductive mode := Shared | Exclusive.

(** What a task holds: the guard of the store, or a reference into the peer
    table. *)
Inductive hold := HoldStore (m : mode) | HoldTable.

#[export] Instance mode_eq_dec : EqDecision mode.
Proof. solve_decision. Defined.
#[export] Instance hold_eq_dec : EqDecision hold.
Proof. solve_decision. Defined.

Section programs.
Context `{BroadcastLib StateEvent, DashMapLib PeerInfo}.

(** What the tasks of a process share. *)
Record shared := mk_shared { sh_map : StateMap; sh_tx : Sender; sh_peers : DashMap }.

(** [Entry key mk f]: [peers.entry(key).or_insert_with(mk)], then [f] applied
    through the reference; [Iter]: [peers.iter()]; both references live until
    [DropRef]. *)
Inductive prog (A : Type) : Type :=
| Ret (a : A)
| Lock (m : mode) (k : prog A)
| Unlock (k : prog A)
| ReadKey (key : string) (k : option LwwValue -> prog A)
| ReadMap (k : StateMap -> prog A)
| WriteKey (key : string) (v : LwwValue) (k : prog A)
| SendEvent (ev : StateEvent) (k : prog A)
| Subscribe (k : Receiver -> prog A)
| Recv (r : Receiver) (k : recv_poll StateEvent * Receiver -> prog A)
| Entry (key : string) (mk : PeerInfo) (f : PeerInfo -> PeerInfo) (k : prog A)
| Iter (k : list (string * PeerInfo) -> prog A)
| TableLen (k : N -> prog A)
| DropRef (k : prog A).

#[global] Arguments Ret {A} a.
#[global] Arguments Lock {A} m k.
#[global] Arguments Unlock {A} k.
#[global] Arguments ReadKey {A} key k.
#[global] Arguments ReadMap {A} k.
#[global] Arguments WriteKey {A} key v k.
#[global] Arguments SendEvent {A} ev k.
#[global] Arguments Subscribe {A} k.
#[global] Arguments Recv {A} r k.
#[global] Arguments Entry {A} key mk f k.
#[global] Arguments Iter {A} k.
#[global] Arguments TableLen {A} k.
#[global] Arguments DropRef {A} k.

#[global] Instance prog_ret : MRet prog := fun A a => Ret a.
#[global] Instance prog_bind : MBind prog := fun A B f => fix bind p :=
  match p with
  | Ret a => f a
  | Lock m k => Lock m (bind k)
  | Unlock k => Unlock (bind k)
  | ReadKey key k => ReadKey key (fun v => bind (k v))
  | ReadMap k => ReadMap (fun m => bind (k m))
  | WriteKey key v k => WriteKey key v (bind k)
  | SendEvent ev k => SendEvent ev (bind k)
  | Subscribe k => Subscribe (fun r => bind (k r))
  | Recv r k => Recv r (fun x => bind (k x))
  | Entry key mk f' k => Entry key mk f' (bind k)
  | Iter k => Iter (fun l => bind (k l))
  | TableLen k => TableLen (fun n => bind (k n))
  | DropRef k => DropRef (bind k)
  end.

(** ** What an instruction does *)

Definition with_map (s : shared) (m : StateMap) : shared := mk_shared m (sh_tx s) (sh_peers s).
Definition with_tx (s : shared) (tx : Sender) : shared := mk_shared (sh_map s) tx (sh_peers s).
Definition with_table (s : shared) (d : DashMap) : shared := mk_shared (sh_map s) (sh_tx s) d.

(** The next instruction of a task that holds [h].  A task that holds a guard
    or a reference gets no second lock and no entry of the table: it waits for
    itself.  What the lock rules forbid besides, to touch the map without the
    lock or to send an event under it, nothing here prevents. *)
Definition instr {A} (s : shared) (h : option hold) (p : prog A) : option (shared * option hold * prog A) :=
  match p, h with
  | Lock m k, None => Some (s, Some (HoldStore m), k)
  | Unlock k, Some (HoldStore _) => Some (s, None, k)
  | ReadKey key k, _ => Some (s, h, k (sh_map s !! key))
  | ReadMap k, _ => Some (s, h, k (sh_map s))
  | WriteKey key v k, _ => Some (with_map s (<[key := v]> (sh_map s)), h, k)
  | SendEvent ev k, _ => Some (with_tx s (bc_send (sh_tx s) ev), h, k)
  | Subscribe k, _ => Some (with_tx s (bc_subscribe (sh_tx s)).1, h, k (bc_subscribe (sh_tx s)).2)
  | Recv r k, _ =>
      let '(x, (tx, r)) := bc_recv (sh_tx s) r in Some (with_tx s tx, h, k (x, r))
  | Entry key mk f k, None => Some (with_table s (dm_entry (sh_peers s) key mk f), Some HoldTable, k)
  | Iter k, None => Some (s, Some HoldTable, k (dm_iter (sh_peers s)))
  | TableLen k, None => Some (s, None, k (dm_len (sh_peers s)))
  | DropRef k, Some HoldTable => Some (s, None, k)
  | _, _ => None
  end.

(** A task that runs alone: its instructions one after the other. *)
Fixpoint run_prog {A} (p : prog A) (s : shared) (h : option hold) : option (A * shared * option hold) :=
  match p, h with
  | Ret a, _ => Some (a, s, h)
  | Lock m k, None => run_prog k s (Some (HoldStore m))
  | Unlock k, Some (HoldStore _) => run_prog k s None
  | ReadKey key k, _ => run_prog (k (sh_map s !! key)) s h
  | ReadMap k, _ => run_prog (k (sh_map s)) s h
  | WriteKey key v k, _ => run_prog k (with_map s (<[key := v]> (sh_map s))) h
  | SendEvent ev k, _ => run_prog k (with_tx s (bc_send (sh_tx s) ev)) h
  | Subscribe k, _ => run_prog (k (bc_subscribe (sh_tx s)).2) (with_tx s (bc_subscribe (sh_tx s)).1) h
  | Recv r k, _ => let '(x, (tx, r)) := bc_recv (sh_tx s) r in run_prog (k (x, r)) (with_tx s tx) h
  | Entry key mk f k, None => run_prog k (with_table s (dm_entry (sh_peers s) key mk f)) (Some HoldTable)
  | Iter k, None => run_prog (k (dm_iter (sh_peers s))) s (Some HoldTable)
  | TableLen k, None => run_prog (k (dm_len (sh_peers s))) s None
  | DropRef k, Some HoldTable => run_prog k s None
  | _, _ => None
  end.

(** From what is held, the program keeps to the rules that
    src/state/store.rs and src/gossip/manager.rs state, whatever it reads,
    that is whatever other tasks do, and where it ends, [Q] holds.  The map is
    accessed under the lock only, and written under the write lock only.  With
    the guard of the store a task does nothing else: no second lock, no event,
    no call of the peer table.  With a reference into the peer table it does
    nothing but drop it. *)
Fixpoint obeys {A} (h : option hold) (p : prog A) (Q : A -> option hold -> Prop) : Prop :=
  match p, h with
  | Ret a, _ => Q a h
  | Lock m k, None => obeys (Some (HoldStore m)) k Q
  | Unlock k, Some (HoldStore _) => obeys None k Q
  | ReadKey _ k, Some (HoldStore _) => forall v, obeys h (k v) Q
  | ReadMap k, Some (HoldStore _) => forall m, obeys h (k m) Q
  | WriteKey _ _ k, Some (HoldStore Exclusive) => obeys h k Q
  | SendEvent _ k, None => obeys None k Q
  | Subscribe k, None => forall r, obeys None (k r) Q
  | Recv _ k, None => forall x, obeys None (k x) Q
  | Entry _ _ _ k, None => obeys (Some HoldTable) k Q
  | Iter k, None => forall l, obeys (Some HoldTable) (k l) Q
  | TableLen k, None => forall n, obeys None (k n) Q
  | DropRef k, Some HoldTable => obeys None k Q
  | _, _ => False
  end.

(** A step of a task: it starts with nothing and holds nothing where it ends,
    which is where the task awaits. *)
Definition follows_rules {A} (p : prog A) : Prop := obeys None p (fun _ h => h = None).
End programs.

Arguments prog {_} A.
Arguments shared {_ _}.

(** ** The operations of the store, src/state/store.rs *)

Section operations.
Context `{BroadcastLib StateEvent, DashMapLib PeerInfo}.
Context `{Codec GossipMessage, Codec GossipAck}.
Context `{RequestParser, ToJson RpcResponse, ToJson RpcError, ToJson RpcNotification}.

Definition lock (m : mode) : prog unit := Lock m (Ret tt).
Definition unlock : prog unit := Unlock (Ret tt).
Definition read_key (key : string) : prog (option LwwValue) := ReadKey key Ret.
Definition read_map : prog StateMap := ReadMap Ret.
Definition write_key (key : string) (v : LwwValue) : prog unit := WriteKey key v (Ret tt).
Definition send (ev : StateEvent) : prog unit := SendEvent ev (Ret tt).
Definition update_entry (key : string) (mk : PeerInfo) (f : PeerInfo -> PeerInfo) : prog unit :=
  Entry key mk f (DropRef (Ret tt)).
Definition iter_table : prog (list (string * PeerInfo)) := Iter (fun l => DropRef (Ret l)).
Definition table_len : prog N := TableLen Ret.

(** A read of the map under the read lock. *)
Definition reading {A} (f : StateMap -> A) : prog A :=
  lock Shared;; m ← read_map; unlock;; mret (f m).

Definition get_prog (key : string) : prog (option LwwValue) :=
  lock Shared;; v ← read_key key; unlock;; mret v.
Definition snapshot_prog (it : hash_iter LwwValue) : prog StateDelta := reading (fun m => it m).
Definition delta_since_prog (it : hash_iter LwwValue) (since : N) : prog StateDelta :=
  reading (fun m => delta_since_map it m since).
Definition max_timestamp_prog (it : hash_iter LwwValue) : prog N :=
  reading (fun m => default 0%N (iter_max (timestamp <$> (it m).*2))).
Definition len_prog : prog N := reading (fun m => N.of_nat (size m)).

Definition set_prog (clock : Z) (id key value : string) : prog (outcome LwwValue) :=
  match LwwValue_new clock value id with
  | Panic msg => mret (Panic msg)
  | Done incoming =>
      lock Exclusive;;
      present ← read_key key;
      match present with Some _ => mret tt | None => write_key key incoming end;;
      entry ← read_key key;
      let winner := merge (default incoming entry) incoming in
      write_key key winner;;
      unlock;;
      send (mk_event key winner);;
      mret (Done winner)
  end.

(** [merge_delta]: the loop under the write lock, and the one after it. *)
Fixpoint merge_loop (delta : StateDelta) (updated_keys : list string) : prog (list string) :=
  match delta with
  | [] => mret updated_keys
  | (key, incoming) :: delta' =>
      existing ← read_key key;
      let winner := match existing with None => incoming | Some e => merge e incoming end in
      present ← read_key key;
      if bool_decide (present <> Some winner)
      then write_key key winner;; merge_loop delta' (updated_keys ++ [key])
      else merge_loop delta' updated_keys
  end.

Fixpoint emit_loop (updated_keys : list string) : prog unit :=
  match updated_keys with
  | [] => mret tt
  | key :: keys =>
      val ← get_prog key;
      match val with Some v => send (mk_event key v) | None => mret tt end;;
      emit_loop keys
  end.

Definition merge_delta_prog (delta : StateDelta) : prog (list string) :=
  lock Exclusive;;
  updated_keys ← merge_loop delta [];
  unlock;;
  emit_loop updated_keys;;
  mret updated_keys.

(** ** A request, src/rpc/handler.rs *)

Definition handle_state_get_prog (params id : Value) : prog string :=
  match required_str params "key" id with
  | Err e => mret e
  | Ok key =>
      found ← get_prog key;
      mret (to_json (RpcResponse_ok (match found with Some v => entry_json key v | None => Null end) id))
  end.

Definition handle_state_set_prog (clock : Z) (node : string) (params id : Value) : prog (outcome string) :=
  match required_str params "key" id with
  | Err e => mret (Done e)
  | Ok key =>
      match required_str params "value" id with
      | Err e => mret (Done e)
      | Ok value =>
          winner ← set_prog clock node key value;
          mret (lww ← winner;
                Done (to_json (RpcResponse_ok
                  (Object [("timestamp", json_u64 (timestamp lww)); ("node_id", Str (node_id lww))]) id)))
      end
  end.

Definition handle_subscribe_prog (params id : Value) : prog DispatchResult :=
  let prefix := value_get "prefix" params ≫= as_str in
  receiver ← Subscribe Ret;
  mret (Subscribed
    (to_json (RpcResponse_ok (Object [("status", Str "subscribed"); ("prefix", json_option prefix)]) id))
    receiver prefix).

Definition handle_state_keys_prog (it : hash_iter LwwValue) (id : Value) : prog string :=
  snapshot ← snapshot_prog it;
  let keys := snapshot.*1 in
  mret (to_json (RpcResponse_ok
    (Object [("keys", Array (Str <$> keys)); ("count", json_u64 (N.of_nat (length keys)))]) id)).

Definition handle_node_peers_prog (now : N) (id : Value) : prog string :=
  all ← iter_table;
  let peers := peer_json now <$> all in
  mret (to_json (RpcResponse_ok
    (Object [("peers", Array peers); ("count", json_u64 (N.of_nat (length peers)))]) id)).

(** Three reads, each with a lock of its own. *)
Definition handle_sync_status_prog (it : hash_iter LwwValue) (node : string) (id : Value) : prog string :=
  state_size ← len_prog;
  max_ts ← max_timestamp_prog it;
  peer_count ← table_len;
  mret (to_json (RpcResponse_ok
    (Object [("node_id", Str node); ("state_size", json_u64 state_size);
             ("max_timestamp", json_u64 max_ts); ("peer_count", json_u64 peer_count)]) id)).

Definition handle_sync_delta_prog (it : hash_iter LwwValue) (params id : Value) : prog string :=
  delta ← delta_since_prog it (default 0%N (value_get "since" params ≫= as_u64));
  let entries := (fun kv => entry_json kv.1 kv.2) <$> delta in
  mret (to_json (RpcResponse_ok
    (Object [("entries", Array entries); ("count", json_u64 (N.of_nat (length entries)))]) id)).

Definition dispatch_method_prog (env : request_env) (node : string) (req : RpcRequest) (id : Value)
  : prog (outcome string) :=
  let done (p : prog string) := s ← p; mret (Done s) in
  if bool_decide (method req = "state.get") then done (handle_state_get_prog (params req) id)
  else if bool_decide (method req = "state.set")
       then handle_state_set_prog (env_clock env) node (params req) id
  else if bool_decide (method req = "state.keys") then done (handle_state_keys_prog (env_iter env) id)
  else if bool_decide (method req = "node.peers") then done (handle_node_peers_prog (env_now env) id)
  else if bool_decide (method req = "sync.status")
       then done (handle_sync_status_prog (env_iter env) node id)
  else if bool_decide (method req = "sync.delta")
       then done (handle_sync_delta_prog (env_iter env) (params req) id)
  else mret (Done (to_json (RpcError_new METHOD_NOT_FOUND ("Method not found: " +:+ method req) id))).

Definition dispatch_prog (env : request_env) (node raw : string) : prog (outcome DispatchResult) :=
  match from_str raw with
  | Err e => mret (Done (Response (to_json (RpcError_new PARSE_ERROR e Null))))
  | Ok req =>
      let is_notification := bool_decide (rpc_id req = None) in
      let id := default Null (rpc_id req) in
      if bool_decide (method req = "state.subscribe")
      then d ← handle_subscribe_prog (params req) id; mret (Done d)
      else
        json ← dispatch_method_prog env node req id;
        mret (response_json ← json;
              Done (if is_notification then Notification else Response response_json))
  end.

(** ** A turn of a connection, src/rpc/server.rs *)

Definition serve_line_prog (env : request_env) (node : string) (c : client) : prog (outcome (client * flow)) :=
  let trimmed := trim (line c) in
  if bool_decide (trimmed = EmptyString) then mret (Done (clear_line c, Continue))
  else
    dispatched ← dispatch_prog env node trimmed;
    let finish c resp :=
      match write_line (out c) resp with
      | (Ok _, w) => (clear_line (with_out c w), Continue)
      | (Err e, w) => (with_out c w, Fail e)
      end in
    mret (d ← dispatched;
          Done match d with
               | Response resp => finish c resp
               | Subscribed initial_response rx prefix =>
                   finish (with_subscription c (Some rx) prefix) initial_response
               | Notification => (clear_line c, Continue)
               end).

(** The event is written with no lock held. *)
Definition serve_event_prog (ev : SubPoll) (c : client) : client * flow :=
  match event_notification (sub_prefix c) ev with
  | None => (c, Continue)
  | Some n =>
      match to_string n with
      | Err e => (c, Fail e)
      | Ok json =>
          match write_line (out c) json with
          | (Ok _, w) => (with_out c w, Continue)
          | (Err e, w) => (with_out c w, Fail e)
          end
      end
  end.

Definition poll_prog (sub : option Receiver) : prog (option (SubPoll * option Receiver)) :=
  match sub with
  | None => mret None
  | Some rx =>
      polled ← Recv rx Ret;
      mret match polled with
           | (RecvOk ev, rx) => Some (SubEvent ev, Some rx)
           | (RecvLagged n, rx) => Some (SubLagged n, Some rx)
           | (RecvClosed, _) => Some (SubIdle, None)
           | (RecvPending, _) => None
           end
  end.

Definition turn_prog (env : request_env) (a : arm) (node : string) (c : client)
  : prog (option (outcome (client * flow))) :=
  match a with
  | ArmLine =>
      if bool_decide (input c = EmptyString) then mret None
      else
        let '(l, rest) := take_line (input c) in
        o ← serve_line_prog env node
              (mk_client rest (line c +:+ l) (subscription c) (sub_prefix c) (out c));
        mret (Some o)
  | ArmEof => mret (if bool_decide (input c = EmptyString) then Some (Done (c, Break)) else None)
  | ArmReadError | ArmCancelled => mret (Some (Done (c, Break)))
  | ArmEvent taken kept =>
      if String.prefix taken (input c) && negb (has_newline taken)
         && bool_decide (taken = EmptyString -> kept = line c)
      then
        polled ← poll_prog (subscription c);
        mret ('(ev, sub) ← polled;
              Some (Done (serve_event_prog ev
                (mk_client (str_drop (String.length taken) (input c)) kept sub (sub_prefix c) (out c)))))
      else mret None
  end.

(** ** Gossip, src/gossip/manager.rs *)

Fixpoint register_seeds_prog (now : string -> N) (seeds : list string) : prog unit :=
  match seeds with
  | [] => mret tt
  | addr :: seeds' =>
      update_entry addr (PeerInfo_new (now addr) addr) (fun p => p);;
      register_seeds_prog now seeds'
  end.

Definition select_targets_prog (shuffle : list (string * PeerInfo) -> list (string * PeerInfo))
    (config : Config) : prog (list (string * PeerInfo)) :=
  all ← iter_table;
  let all := shuffle all in
  mret (take (N.to_nat (N.min (gossip_fanout config) (N.of_nat (length all)))) all).

Definition round_target_prog (it : hash_iter LwwValue) (node : string) (config : Config) (gen : N)
    (target : string * PeerInfo) : prog (option SendTask) :=
  let '(peer_id, peer_info) := target in
  delta ← delta_since_prog it (last_sync_ts peer_info);
  mret (if bool_decide (delta = []) && (0 <? exchange_count peer_info)%N then None
        else
          let max_sent_ts := default 0%N (iter_max ((fun kv => timestamp kv.2) <$> delta)) in
          Some {| task_peer_id := peer_id;
                  task_peer_addr := gossip_addr peer_info;
                  task_msg := {| from_node_id := node; from_gossip_addr := gossip_addr_of config;
                                 deltas := delta; generation := gen |};
                  task_max_sent_ts := max_sent_ts |}).

Definition finish_task_prog (now : N) (task : SendTask) (res : result string GossipAck) : prog unit :=
  match res with
  | Ok _ => update_entry (task_peer_id task) (PeerInfo_new now (task_peer_addr task))
              (record_exchange now (task_max_sent_ts task))
  | Err _ => mret tt
  end.

(** [handle_inbound], from one await to the next. *)
Definition inbound_prog (now : N) (node : string) (s : inbound_state) : prog (option inbound_state) :=
  match s with
  | InRead r w =>
      match read_message r with
      | (Err e, _) => mret (Some (InDone (Err e) w))
      | (Ok msg, _) =>
          merged ← merge_delta_prog (deltas msg);
          mret (Some (InMerged msg {| ack_from_node_id := node; merged_count := N.of_nat (length merged) |} w))
      end
  | InMerged msg ack w =>
      update_entry (from_node_id msg) (PeerInfo_new now (from_gossip_addr msg)) (mark_seen now);;
      mret (Some (InRegistered ack w))
  | InRegistered ack w => let '(res, w) := write_message w ack in mret (Some (InDone res w))
  | InDone _ _ => mret None
  end.

(** ** A step of a process *)

Definition shared_of (p : Proc) : shared :=
  mk_shared (state (pr_store p)) (event_tx (pr_store p)) (pr_peers p).

(** The process with what it shares as the step has left it. *)
Definition with_shared_state (p : Proc) (s : shared) : Proc :=
  with_shared p {| state := sh_map s; event_tx := sh_tx s; store_node_id := store_node_id (pr_store p) |}
    (sh_peers s).

Definition turn_step_prog (env : request_env) (a : arm) (p : Proc) (i : nat) (c : client) : prog (option Proc) :=
  turn ← turn_prog env a (store_node_id (pr_store p)) c;
  Ret match turn with
      | Some (Done (c', fl)) =>
          let st := match fl with Continue => ConnOpen | Break => ConnClosed | Fail e => ConnFailed e end in
          Some (with_rpc p (pr_rpc p) (<[i := mk_rpc_conn c' st]> (pr_conns p)))
      | Some (Panic msg) =>
          Some (with_rpc p (pr_rpc p) (<[i := mk_rpc_conn c (ConnPanicked msg)]> (pr_conns p)))
      | None => None
      end.

Definition gossip_start_prog (now : string -> N) (p : Proc) : prog (option Proc) :=
  register_seeds_prog now (filter (fun a => a <> "") (seed_peers (pr_config p)));;
  Ret (Some (with_listener p true (pr_listener p) (pr_inbound p))).

Definition inbound_step_prog (now : N) (p : Proc) (i : nat) (s : inbound_state) : prog (option Proc) :=
  next ← inbound_prog now (store_node_id (pr_store p)) s;
  Ret match next with
      | Some s' => Some (with_listener p (pr_gossip p) (pr_listener p) (<[i := s']> (pr_inbound p)))
      | None => None
      end.

Definition tick_prog (sh : shuffler) (p : Proc) : prog (option Proc) :=
  targets ← select_targets_prog sh (pr_config p);
  Ret (Some match targets with
            | [] => p
            | _ => with_sched p (wrap64 (pr_generation p + 1)) (Serving (pr_generation p) targets) (pr_sends p)
            end).

Definition target_prog (it : hash_iter LwwValue) (p : Proc) (gen : N) (t : string * PeerInfo)
    (ts : list (string * PeerInfo)) : prog (option Proc) :=
  task ← round_target_prog it (store_node_id (pr_store p)) (pr_config p) gen t;
  let new := match task with Some task => [SendRunning task] | None => [] end in
  let s := match ts with [] => Ticking | _ => Serving gen ts end in
  Ret (Some (with_sched p (pr_generation p) s (pr_sends p ++ new))).

Definition send_end_prog (now : N) (p : Proc) (i : nat) (task : SendTask) (res : result string GossipAck)
  : prog (option Proc) :=
  finish_task_prog now task res;;
  Ret (Some (with_sched p (pr_generation p) (pr_sched p) (<[i := SendDone res]> (pr_sends p)))).

(** The step as a program; its result is the process but for what is shared,
    [None] if the step is not possible.  Steps that are not listed share
    nothing. *)
Definition step_prog (a : paction) (p : Proc) : prog (option Proc) :=
  if main_alive p then
    match a with
    | PTurn i env a =>
        match pr_conns p !! i with
        | Some (mk_rpc_conn c ConnOpen) =>
            if (match a with ArmCancelled => pr_cancelled p | _ => true end)
            then turn_step_prog env a p i c else Ret None
        | _ => Ret None
        end
    | PGossipStart now => if pr_gossip p then Ret None else gossip_start_prog now p
    | PInbound i now =>
        match pr_gossip p, pr_inbound p !! i with
        | true, Some s => inbound_step_prog now p i s
        | _, _ => Ret None
        end
    | PTick sh =>
        match pr_gossip p, pr_sched p with
        | true, Ticking => tick_prog sh p
        | _, _ => Ret None
        end
    | PTarget it =>
        match pr_gossip p, pr_sched p with
        | true, Serving gen (t :: ts) => target_prog it p gen t ts
        | _, _ => Ret None
        end
    | PSendEnd i now conn =>
        match pr_gossip p, pr_sends p !! i with
        | true, Some (SendRunning task) =>
            match send_and_ack conn (task_peer_addr task) (task_msg task) with
            | Some res => send_end_prog now p i task res
            | None => Ret None
            end
        | _, _ => Ret None
        end
    | _ => Ret (pexec a p)
    end
  else Ret None.
End operations.
