(* ===== verification/LockRules.v ===== *)
(** The programs of Programs.v are those of the process: run alone, the
    program of a step does what [pexec] does, and whatever it reads, that is
    whatever other tasks do meanwhile, it keeps to the lock rules. *)
From S2P Require Import Prelude Crdt Replica Broadcast Store Config DashMap Peer Protocol Manager.
From S2P Require Import RpcTypes RpcHandler RpcServer Process ProcessLemmas Programs.

Section laws.
Context `{BroadcastLib StateEvent, DashMapLib PeerInfo}.

(** ** Sequences *)

Lemma run_bind {A B} (p : prog A) (f : A -> prog B) s h :
  run_prog (p ≫= f) s h = '(a, s', h') ← run_prog p s h; run_prog (f a) s' h'.
Proof.
  revert s h. unfold mbind at 1, prog_bind.
  induction p; intros s h; simpl; try done; repeat case_match; simplify_eq/=; eauto.
Qed.

(** Running alone is taking the instructions one after the other. *)
Lemma run_instr {A} (p : prog A) s h s' h' p' :
  instr s h p = Some (s', h', p') -> run_prog p s h = run_prog p' s' h'.
Proof. destruct p; simpl; intros; repeat case_match; by simplify_eq/=. Qed.

Lemma obeys_mono {A} (p : prog A) h (Q Q' : A -> option hold -> Prop) :
  obeys h p Q -> (forall a h', Q a h' -> Q' a h') -> obeys h p Q'.
Proof.
  intros Hp HQ. revert h Hp.
  induction p; intros h Hp; simpl in *; repeat case_match; try done; eauto.
Qed.

Lemma obeys_bind {A B} (p : prog A) (f : A -> prog B) h Q :
  obeys h p (fun a h' => obeys h' (f a) Q) -> obeys h (p ≫= f) Q.
Proof.
  unfold mbind, prog_bind. revert h.
  induction p; intros h Hp; simpl in *; repeat case_match; try done; eauto.
Qed.

Lemma follows_rules_bind {A B} (p : prog A) (f : A -> prog B) :
  follows_rules p -> (forall a, follows_rules (f a)) -> follows_rules (p ≫= f).
Proof.
  intros Hp Hf. apply obeys_bind. eapply obeys_mono; [exact Hp|]. intros a h' ->. apply Hf.
Qed.

Lemma follows_rules_ret {A} (a : A) : follows_rules (Ret a).
Proof. done. Qed.

(** ** The program of an operation *)

(** Alone, [p] takes the shared state [s] to [s'] and returns [a]. *)
Definition runs {A} (p : prog A) (s : shared) (a : A) (s' : shared) : Prop :=
  run_prog p s None = Some (a, s', None).

Lemma runs_bind {A B} (p : prog A) (f : A -> prog B) s a s' b s'' :
  runs p s a s' -> runs (f a) s' b s'' -> runs (p ≫= f) s b s''.
Proof. unfold runs. intros Hp Hf. by rewrite run_bind, Hp. Qed.

Lemma runs_ret {A} (a : A) s : runs (Ret a) s a s.
Proof. done. Qed.
End laws.

Create HintDb lock_rules.
#[export] Hint Resolve follows_rules_bind follows_rules_ret : lock_rules.

(** Straight-line code: every branch is followed to its end. *)
Ltac by_rules :=
  unfold follows_rules in *; simpl; repeat (intros; case_match); simpl; intros; simplify_eq/=; auto.

Section rules.
Context `{BroadcastLib StateEvent, DashMapLib PeerInfo}.
Context `{Codec GossipMessage, Codec GossipAck}.
Context `{RequestParser, ToJson RpcResponse, ToJson RpcError, ToJson RpcNotification}.

(** ** The store *)

(** The store with what is shared as [s]. *)
Definition store_with (st : StateStore) (s : shared) : StateStore :=
  {| state := sh_map s; event_tx := sh_tx s; store_node_id := store_node_id st |}.
Definition share (st : StateStore) (d : DashMap) : shared := mk_shared (state st) (event_tx st) d.

Lemma reading_rules {A} (f : StateMap -> A) : follows_rules (reading f).
Proof. by_rules. Qed.

Lemma reading_runs {A} (f : StateMap -> A) s : runs (reading f) s (f (sh_map s)) s.
Proof. done. Qed.

Lemma get_prog_rules key : follows_rules (get_prog key).
Proof. by_rules. Qed.

Lemma get_prog_runs key s : runs (get_prog key) s (sh_map s !! key) s.
Proof. done. Qed.

Lemma set_prog_rules clock id key value : follows_rules (set_prog clock id key value).
Proof. unfold set_prog. destruct (LwwValue_new clock value id); by_rules. Qed.

Lemma set_prog_runs clock st key value d :
  exists o s', runs (set_prog clock (store_node_id st) key value) (share st d) o s'
    /\ set clock st key value = (w ← o; Done (store_with st s', w))
    /\ sh_peers s' = d /\ (forall msg, o = Panic msg -> s' = share st d).
Proof.
  unfold set_prog, set. destruct (LwwValue_new clock value (store_node_id st)) as [inc|msg].
  - unfold set_locked, runs. simpl. destruct (state st !! key) as [e|] eqn:E; simpl; rewrite ?E; simpl.
    + do 2 eexists. split; [reflexivity|]. by repeat split.
    + rewrite lookup_insert_eq. simpl. do 2 eexists. split; [reflexivity|]. by repeat split.
  - exists (Panic msg), (share st d). by repeat split.
Qed.

Lemma merge_loop_rules delta upd :
  obeys (Some (HoldStore Exclusive)) (merge_loop delta upd) (fun _ h => h = Some (HoldStore Exclusive)).
Proof.
  revert upd. induction delta as [|[key v] delta IH]; intros upd; [done|].
  simpl. intros v1 v2. case_bool_decide; apply IH.
Qed.

Lemma merge_loop_runs delta upd s :
  run_prog (merge_loop delta upd) s (Some (HoldStore Exclusive))
  = Some ((foldl merge_step (sh_map s, upd) delta).2, with_map s (foldl merge_step (sh_map s, upd) delta).1,
          Some (HoldStore Exclusive)).
Proof.
  revert upd s. induction delta as [|[key v] delta IH]; intros upd s; [by destruct s|].
  simpl. case_bool_decide; simpl; by rewrite IH.
Qed.

Lemma emit_loop_rules keys : follows_rules (emit_loop keys).
Proof.
  unfold follows_rules. induction keys as [|key keys IH]; [done|]. simpl. intros v. by destruct v.
Qed.

Lemma emit_loop_runs keys st d :
  runs (emit_loop keys) (share st d) tt (share (emit_updates st keys) d).
Proof.
  revert st. induction keys as [|key keys IH]; intros st; [done|].
  unfold runs. simpl. unfold get. destruct (state st !! key) as [v|]; [|apply IH].
  apply (IH (send_event st (mk_event key v))).
Qed.

Lemma merge_delta_prog_rules delta : follows_rules (merge_delta_prog delta).
Proof.
  unfold merge_delta_prog, follows_rules. simpl. apply obeys_bind.
  eapply obeys_mono; [apply merge_loop_rules|]. intros upd h ->. simpl.
  apply follows_rules_bind; [apply emit_loop_rules|done].
Qed.

Lemma merge_delta_prog_runs delta st d :
  runs (merge_delta_prog delta) (share st d) (merge_delta st delta).2 (share (merge_delta st delta).1 d).
Proof.
  unfold merge_delta_prog, merge_delta, merge_locked, runs. simpl. rewrite run_bind, merge_loop_runs. simpl.
  destruct (foldl merge_step _ delta) as [m upd]. simpl.
  rewrite run_bind. change (with_map (share st d) m) with (share (with_state st m) d).
  by rewrite emit_loop_runs.
Qed.

(** ** Requests *)

(** The handler of the process whose shared state is [s]. *)
Definition handler_with (h : RpcHandler) (s : shared) : RpcHandler :=
  mk_handler (store_with (rpc_store h) s) (sh_peers s).
Definition handler_shared (h : RpcHandler) : shared := share (rpc_store h) (rpc_peers h).

(** [p] answers as the operation of the handler does, and leaves behind what
    it leaves behind; when it panics, that is nothing. *)
Definition serves {A} (p : prog (outcome A)) (h : RpcHandler) (r : outcome (RpcHandler * A)) : Prop :=
  exists o s', runs p (handler_shared h) o s'
    /\ r = (a ← o; Done (handler_with h s', a)) /\ (forall msg, o = Panic msg -> s' = handler_shared h).

Lemma handler_with_shared h : handler_with h (handler_shared h) = h.
Proof. by destruct h as [[]]. Qed.

Lemma serves_pure {A} (a : A) h : serves (Ret (Done a)) h (Done (h, a)).
Proof.
  exists (Done a), (handler_shared h). split; [done|]. split; [|done]. simpl. by rewrite handler_with_shared.
Qed.

Lemma serves_read {A} (p : prog A) h a :
  runs p (handler_shared h) a (handler_shared h) ->
  serves (x ← p; mret (Done x)) h (Done (h, a)).
Proof.
  intros Hp. exists (Done a), (handler_shared h). split; [by eapply runs_bind|].
  split; [|done]. simpl. by rewrite handler_with_shared.
Qed.

Lemma handle_state_set_prog_serves clock h params id :
  serves (handle_state_set_prog clock (store_node_id (rpc_store h)) params id) h
    (handle_state_set clock h params id).
Proof.
  unfold handle_state_set_prog, handle_state_set.
  destruct (required_str params "key" id) as [key|e]; [|apply serves_pure].
  destruct (required_str params "value" id) as [value|e]; [|apply serves_pure].
  destruct (set_prog_runs clock (rpc_store h) key value (rpc_peers h)) as (o & s' & Hr & -> & Hd & Hp).
  exists (lww ← o; Done (to_json (RpcResponse_ok
            (Object [("timestamp", json_u64 (timestamp lww)); ("node_id", Str (node_id lww))]) id))), s'.
  split; [by eapply runs_bind|]. destruct o as [w|msg]; simpl.
  - split; [|done]. unfold handler_with, with_rpc_store. by rewrite Hd.
  - split; [done|]. intros _ _. by eapply Hp.
Qed.

Lemma handle_sync_status_prog_runs it h id :
  runs (handle_sync_status_prog it (store_node_id (rpc_store h)) id) (handler_shared h)
    (handle_sync_status it h id) (handler_shared h).
Proof. done. Qed.

Lemma dispatch_method_prog_serves env h req id :
  serves (dispatch_method_prog env (store_node_id (rpc_store h)) req id) h (dispatch_method env h req id).
Proof.
  unfold dispatch_method_prog, dispatch_method.
  repeat case_bool_decide; try (apply serves_read; done); try apply serves_pure.
  - apply serves_read. unfold handle_state_get_prog, handle_state_get. by destruct required_str.
  - apply handle_state_set_prog_serves.
Qed.

Lemma dispatch_prog_serves env h raw :
  serves (dispatch_prog env (store_node_id (rpc_store h)) raw) h (dispatch env h raw).
Proof.
  unfold dispatch_prog, dispatch. destruct (from_str raw) as [req|e]; [|apply serves_pure].
  case_bool_decide.
  - unfold handle_subscribe_prog, handle_subscribe, subscribe.
    destruct (bc_subscribe (event_tx (rpc_store h))) as [tx rx] eqn:E.
    do 2 eexists. split; [by unfold runs; simpl; rewrite E|]. done.
  - destruct (dispatch_method_prog_serves env h req (default Null (rpc_id req))) as (o & s' & Hr & -> & Hp).
    do 2 eexists. split; [eapply runs_bind; [exact Hr|apply runs_ret]|].
    destruct o; simpl; [done|]. split; [done|]. intros _ _. by eapply Hp.
Qed.
Lemma dispatch_method_prog_rules env node req id : follows_rules (dispatch_method_prog env node req id).
Proof.
  unfold dispatch_method_prog. repeat case_bool_decide; try done.
  - unfold handle_state_get_prog. destruct required_str; [|done].
    apply follows_rules_bind; [|done]. apply follows_rules_bind; [apply get_prog_rules|done].
  - unfold handle_state_set_prog. destruct (required_str _ "key" _); [|done].
    destruct (required_str _ "value" _); [|done].
    apply follows_rules_bind; [apply set_prog_rules|done].
Qed.

Lemma dispatch_prog_rules env node raw : follows_rules (dispatch_prog env node raw).
Proof.
  unfold dispatch_prog. destruct from_str; [|done]. case_bool_decide; [done|].
  apply follows_rules_bind; [apply dispatch_method_prog_rules|done].
Qed.

(** ** A turn of a connection *)

Lemma serve_line_prog_rules env node c : follows_rules (serve_line_prog env node c).
Proof.
  unfold serve_line_prog. case_bool_decide; [done|].
  apply follows_rules_bind; [apply dispatch_prog_rules|done].
Qed.

(** The handler goes in and comes out with the result. *)
Definition with_client (r : outcome (client * flow)) (h : RpcHandler) : outcome (RpcHandler * client * flow) :=
  '(c, fl) ← r; Done (h, c, fl).

Lemma serve_line_prog_runs env h c :
  exists o s', runs (serve_line_prog env (store_node_id (rpc_store h)) c) (handler_shared h) o s'
    /\ serve_line env h c = with_client o (handler_with h s')
    /\ (forall msg, o = Panic msg -> s' = handler_shared h).
Proof.
  unfold serve_line_prog, serve_line. case_bool_decide as Ht.
  - exists (Done (clear_line c, Continue)), (handler_shared h). split; [done|]. split; [|done].
    simpl. by rewrite handler_with_shared.
  - destruct (dispatch_prog_serves env h (trim (line c))) as (o & s' & Hr & -> & Hp).
    do 2 eexists. split; [eapply runs_bind; [exact Hr|apply runs_ret]|].
    destruct o as [d|msg]; simpl; [|split; [done|]; intros _ _; by eapply Hp].
    split; [|done]. destruct d; simpl; repeat case_match; by simplify_eq/=.
Qed.

Lemma turn_prog_rules env a node c : follows_rules (turn_prog env a node c).
Proof.
  destruct a; simpl; try done.
  - case_bool_decide; [done|]. destruct (take_line (input c)).
    apply follows_rules_bind; [apply serve_line_prog_rules|done].
  - destruct (_ && _); [|done]. unfold poll_prog. by destruct (subscription c).
Qed.

Lemma turn_prog_runs env a h c :
  exists o s', runs (turn_prog env a (store_node_id (rpc_store h)) c) (handler_shared h) o s'
    /\ conn_step env a h c = (r ← o; Some (with_client r (handler_with h s')))
    /\ (forall msg, o = Some (Panic msg) -> s' = handler_shared h).
Proof.
  assert (forall o : option (client * flow), exists o' s',
    runs (Ret (Done <$> o)) (handler_shared h) o' s'
    /\ ('(c, fl) ← o; Some (Done (h, c, fl))) = (r ← o'; Some (with_client r (handler_with h s')))
    /\ (forall msg, o' = Some (Panic msg) -> s' = handler_shared h)) as Hpure.
  { intros o. exists (Done <$> o), (handler_shared h). split; [done|]. rewrite handler_with_shared.
    by destruct o as [[]|]. }
  destruct a; simpl; try apply (Hpure (Some (c, Break))).
  - case_bool_decide; [apply (Hpure None)|]. destruct (take_line (input c)) as [l rest].
    destruct (serve_line_prog_runs env h (mk_client rest (line c +:+ l) (subscription c) (sub_prefix c) (out c)))
      as (o & s' & Hr & -> & Hp).
    exists (Some o), s'. split; [by eapply runs_bind|]. split; [done|]. intros msg [= ->]. by eapply Hp.
  - case_bool_decide; [apply (Hpure (Some (c, Break)))|apply (Hpure None)].
  - destruct (_ && _); [|apply (Hpure None)]. unfold poll_prog, poll_subscription.
    destruct (subscription c) as [rx|]; [|apply (Hpure None)].
    destruct (bc_recv (event_tx (rpc_store h)) rx) as [polled [tx rx']] eqn:E.
    do 2 eexists. split; [by unfold runs; simpl; rewrite E|]. destruct polled; simpl; try done.
    all: split; [|done]; unfold serve_event, serve_event_prog, handler_with, with_event_tx; simpl.
    all: repeat case_match; by simplify_eq/=.
Qed.

(** ** Gossip *)

Lemma register_seeds_prog_rules now seeds : follows_rules (register_seeds_prog now seeds).
Proof. induction seeds as [|a seeds IH]; [done|]. apply follows_rules_bind; done. Qed.

Lemma register_seeds_prog_runs now seeds s :
  runs (register_seeds_prog now seeds) s tt (with_table s (foldl (register_seed now) (sh_peers s) seeds)).
Proof.
  revert s. induction seeds as [|a seeds IH]; intros s; [by destruct s|].
  eapply runs_bind; [done|]. apply (IH (with_table s _)).
Qed.

Lemma round_target_prog_rules it node config gen t : follows_rules (round_target_prog it node config gen t).
Proof. destruct t. by apply follows_rules_bind; [apply reading_rules|]. Qed.

Lemma round_target_prog_runs it st config gen t d :
  runs (round_target_prog it (store_node_id st) config gen t) (share st d)
    (round_target it st config gen t) (share st d).
Proof. by destruct t as [peer_id peer_info]. Qed.

Lemma finish_task_prog_rules now task res : follows_rules (finish_task_prog now task res).
Proof. by destruct res. Qed.

Lemma finish_task_prog_runs now task res s :
  runs (finish_task_prog now task res) s tt (with_table s (finish_task now (sh_peers s) task res)).
Proof. by destruct res, s. Qed.

Lemma inbound_prog_rules now node s : follows_rules (inbound_prog now node s).
Proof.
  destruct s as [r w|msg ack w|ack w|]; cbn [inbound_prog]; [|done| |done].
  - destruct (read_message r) as [[msg|e] rest]; [|done].
    apply follows_rules_bind; [apply merge_delta_prog_rules|done].
  - by destruct (write_message w ack).
Qed.

(** ** The steps *)

(** [pr] is the step of the process [p] that [r] is the result of. *)
Definition steps_as (pr : prog (option Proc)) (p : Proc) (r : option Proc) : Prop :=
  exists o s', runs pr (shared_of p) o s' /\ r = (p1 ← o; Some (with_shared_state p1 s')).

Lemma with_shared_state_id p : with_shared_state p (shared_of p) = p.
Proof. by destruct p as [? []]. Qed.

Lemma steps_as_none p : steps_as (Ret None) p None.
Proof. by exists None, (shared_of p). Qed.

Lemma steps_as_unshared p o :
  (forall p', o = Some p' -> shared_of p' = shared_of p) -> steps_as (Ret o) p o.
Proof.
  intros Hs. exists o, (shared_of p). split; [done|]. destruct o as [p'|]; [|done].
  simpl. by rewrite <- (Hs p'), with_shared_state_id.
Qed.

Lemma turn_step_prog_steps env a p i c :
  steps_as (turn_step_prog env a p i c) p
    (o ← conn_step env a (handler_of p) c; Some (end_turn p i c o)).
Proof.
  destruct (turn_prog_runs env a (handler_of p) c) as (o & s' & Hr & -> & Hp).
  do 2 eexists. split; [eapply runs_bind; [exact Hr|apply runs_ret]|].
  destruct o as [[[c' fl]|msg]|]; simpl; [done| |done].
  rewrite (Hp msg) by done. by destruct p as [? []].
Qed.

Lemma inbound_step_prog_steps now p i s : steps_as (inbound_step_prog now p i s) p (inbound_step now p i s).
Proof.
  assert (forall s', steps_as (Ret (Some (with_listener p (pr_gossip p) (pr_listener p) (<[i := s']> (pr_inbound p))))) p
    (Some (with_listener p (pr_gossip p) (pr_listener p) (<[i := s']> (pr_inbound p))))) as Hpure.
  { intros s'. apply steps_as_unshared. by intros p' [= <-]. }
  unfold inbound_step_prog. destruct s as [r w|msg ack w|ack w|]; cbn [inbound_prog inbound_step].
  - destruct (read_message r) as [[msg|e] rest]; [|apply Hpure].
    pose proof (merge_delta_prog_runs (deltas msg) (pr_store p) (pr_peers p)) as Hm.
    pose proof (merge_delta_node_id (pr_store p) (deltas msg)) as Hid.
    destruct (merge_delta (pr_store p) (deltas msg)) as [st upd]. cbn [fst snd] in *.
    do 2 eexists. split.
    { eapply runs_bind; [eapply runs_bind; [exact Hm|apply runs_ret]|apply runs_ret]. }
    cbn. unfold with_shared_state, ack_of. cbn. rewrite Hid. rewrite <- Hid. by destruct st.
  - do 2 eexists. split; [done|]. simpl. by destruct p as [? []].
  - destruct (write_message w ack) as [res w']. apply Hpure.
  - apply steps_as_none.
Qed.

Lemma gossip_start_prog_steps now p : steps_as (gossip_start_prog now p) p (Some (gossip_start now p)).
Proof.
  do 2 eexists. split; [eapply runs_bind; [apply register_seeds_prog_runs|apply runs_ret]|].
  simpl. by destruct p as [? []].
Qed.

Lemma send_end_prog_steps now p i task res :
  steps_as (send_end_prog now p i task res) p
    (let p := with_shared p (pr_store p) (finish_task now (pr_peers p) task res) in
     Some (with_sched p (pr_generation p) (pr_sched p) (<[i := SendDone res]> (pr_sends p)))).
Proof.
  do 2 eexists. split; [eapply runs_bind; [apply finish_task_prog_runs|apply runs_ret]|].
  simpl. by destruct p as [? []].
Qed.

Lemma tick_prog_steps sh p :
  steps_as (tick_prog sh p) p
    (match select_targets sh (pr_peers p) (pr_config p) with
     | [] => Some p
     | targets => let '(gen, m) := fetch_add_generation (manager_of p) in
                  Some (with_sched p (mgr_generation m) (Serving gen targets) (pr_sends p))
     end).
Proof.
  do 2 eexists. split; [done|]. simpl. unfold select_targets.
  destruct (take _ _); by destruct p as [? []].
Qed.

Lemma target_prog_steps it p gen t ts :
  steps_as (target_prog it p gen t ts) p
    (let new := match round_target it (pr_store p) (pr_config p) gen t with
                | Some task => [SendRunning task] | None => [] end in
     let s := match ts with [] => Ticking | _ => Serving gen ts end in
     Some (with_sched p (pr_generation p) s (pr_sends p ++ new))).
Proof.
  do 2 eexists. split; [eapply runs_bind; [apply round_target_prog_runs|apply runs_ret]|].
  simpl. by destruct p as [? []].
Qed.

(** A step that shares nothing. *)
Lemma pexec_unshared a p p' :
  match a with
  | PTurn _ _ _ | PGossipStart _ | PInbound _ _ | PTick _ | PTarget _ | PSendEnd _ _ _ => False
  | _ => True
  end ->
  pexec a p = Some p' -> shared_of p' = shared_of p.
Proof.
  intros Ha Hp. destruct (pexec_pstep a p p' Hp) as [_ Hs]. by destruct Hs.
Qed.

Lemma step_prog_steps a p : steps_as (step_prog a p) p (pexec a p).
Proof.
  unfold step_prog. destruct (main_alive p) eqn:Em; [|unfold pexec; rewrite Em; apply steps_as_none].
  destruct a as [| | | | |i env a|now| | | |i now| |sh|it| |i now conn];
    try (apply steps_as_unshared; intros p'; by apply pexec_unshared);
    unfold pexec, pexec_rpc, pexec_listener, pexec_sched; rewrite Em.
  - destruct (pr_conns p !! i) as [[c [| | |]]|]; simpl; try apply steps_as_none.
    destruct (match a with ArmCancelled => _ | _ => _ end); [apply turn_step_prog_steps|apply steps_as_none].
  - destruct (pr_gossip p); [apply steps_as_none|apply gossip_start_prog_steps].
  - destruct (pr_gossip p); [|apply steps_as_none].
    destruct (pr_inbound p !! i); [apply inbound_step_prog_steps|apply steps_as_none].
  - destruct (pr_gossip p); [|apply steps_as_none].
    destruct (pr_sched p); try apply steps_as_none. apply tick_prog_steps.
  - destruct (pr_gossip p); [|apply steps_as_none].
    destruct (pr_sched p) as [| |gen [|t ts]| |]; try apply steps_as_none. apply target_prog_steps.
  - destruct (pr_gossip p); [|apply steps_as_none].
    destruct (pr_sends p !! i) as [[task|]|]; simpl; try apply steps_as_none.
    destruct (send_and_ack conn _ _); [apply send_end_prog_steps|apply steps_as_none].
Qed.

Lemma step_prog_rules a p : follows_rules (step_prog a p).
Proof.
  unfold step_prog. destruct (main_alive p); [|done].
  destruct a as [| | | | |i env a|now| | | |i now| |sh|it| |i now conn]; try done.
  - destruct (pr_conns p !! i) as [[c [| | |]]|]; try done.
    destruct (match a with ArmCancelled => _ | _ => _ end); [|done].
    apply follows_rules_bind; [apply turn_prog_rules|done].
  - destruct (pr_gossip p); [done|]. apply follows_rules_bind; [apply register_seeds_prog_rules|done].
  - destruct (pr_gossip p); [|done]. destruct (pr_inbound p !! i); [|done].
    apply follows_rules_bind; [apply inbound_prog_rules|]. by intros [].
  - destruct (pr_gossip p); [|done]. by destruct (pr_sched p).
  - destruct (pr_gossip p); [|done]. destruct (pr_sched p) as [| |gen [|t ts]| |]; try done.
    apply follows_rules_bind; [apply round_target_prog_rules|done].
  - destruct (pr_gossip p); [|done]. destruct (pr_sends p !! i) as [[task|]|]; try done.
    destruct (send_and_ack conn _ _); [|done]. apply follows_rules_bind; [apply finish_task_prog_rules|done].
Qed.

(** C13: every step of a process keeps to the lock rules of
    src/state/store.rs and src/gossip/manager.rs at each of its instructions,
    whatever the other tasks do to the shared state between them: the map is
    read under the read or the write lock and written under the write lock
    only; under the lock of the store the task takes no second lock, sends no
    event and does not touch the peer table; with an entry or an iterator of
    the peer table in hand it does nothing but drop it; and where the step
    ends, which is where the task awaits, nothing is held.  Run alone, the
    same instructions are the step: the program of the step ends, and the
    process it leaves is the one [pexec] gives. *)
Theorem steps_follow_lock_rules (a : paction) (p : Proc) :
  follows_rules (step_prog a p)
  /\ exists o s', run_prog (step_prog a p) (shared_of p) None = Some (o, s', None)
       /\ pexec a p = (p1 ← o; Some (with_shared_state p1 s')).
Proof. split; [apply step_prog_rules|apply step_prog_steps]. Qed.
End rules.
