(* ===== verification/Interleaving.v ===== *)
(** The tasks of a process, instruction by instruction.  A [pool] is what the
    tasks share and, for every step a task has begun, what it holds and what
    is left of its program.  The steps of any tasks are begun at any time, and
    their instructions interleave in any way the [RwLock] of the store admits.
    Such a pool never deadlocks, and its sections under the lock may be taken
    as one step each. *)
From Stdlib Require Import Wellfounded.
From stdpp Require Import relations.
From S2P Require Import Prelude Crdt Replica Broadcast Store Config DashMap Peer Protocol Manager.
From S2P Require Import RpcTypes RpcHandler RpcServer Process ProcessLemmas Programs LockRules.

Section pools.
Context `{BroadcastLib StateEvent, DashMapLib PeerInfo}.
Context `{Codec GossipMessage, Codec GossipAck}.
Context `{RequestParser, ToJson RpcResponse, ToJson RpcError, ToJson RpcNotification}.

Abbreviation thread := (prod (option hold) (prog (option Proc))).
Definition pool : Type := shared * list thread.

Definition in_section (t : thread) : bool := match t.1 with Some (HoldStore _) => true | _ => false end.
Definition writing (t : thread) : bool := match t.1 with Some (HoldStore Exclusive) => true | _ => false end.
Definition in_table (t : thread) : bool := match t.1 with Some HoldTable => true | _ => false end.
Definition at_await (t : thread) : bool := match t.2 with Ret _ => true | _ => false end.
Definition wants_write (t : thread) : bool := match t.2 with Lock Exclusive _ => true | _ => false end.

(** The threads other than [i]. *)
Definition others (P : thread -> Prop) (ts : list thread) (i : nat) : Prop :=
  forall j t, ts !! j = Some t -> j <> i -> P t.

(** The [RwLock]: many readers or one writer. *)
Definition admitted (ts : list thread) (i : nat) (p : prog (option Proc)) : Prop :=
  match p with
  | Lock Shared _ => others (fun t => writing t = false) ts i
  | Lock Exclusive _ => others (fun t => in_section t = false) ts i
  | _ => True
  end.

(** An instruction that is not kept waiting even if the lock and the table
    make their callers wait as much as they are allowed to: a reader for the
    writers that wait already (as [parking_lot::RwLock] does, "readers trying
    to acquire the lock will block even if the lock is unlocked when there are
    writers waiting"), and a call of the peer table for every reference into
    it that others hold (a call of [DashMap] waits at most for references:
    "may deadlock if called when holding any sort of reference into the
    map"). *)
Definition unhindered (ts : list thread) (i : nat) (p : prog (option Proc)) : Prop :=
  admitted ts i p
  /\ match p with
     | Lock Shared _ => others (fun t => wants_write t = false) ts i
     | Entry _ _ _ _ | Iter _ | TableLen _ => others (fun t => in_table t = false) ts i
     | _ => True
     end.

(** One instruction of one thread. *)
Inductive istep (ok : list thread -> nat -> prog (option Proc) -> Prop) : pool -> pool -> Prop :=
| istep_at s ts i h p s' h' p' :
    ts !! i = Some (h, p) -> ok ts i p -> instr s h p = Some (s', h', p') ->
    istep ok (s, ts) (s', <[i := (h', p')]> ts).

(** A task begins a step; where it stood when the step before it ended, or
    which task it is, is left open. *)
Inductive begins : pool -> pool -> Prop :=
| begins_step s ts a p : begins (s, ts) (s, ts ++ [(None, step_prog a p)]).

Definition moves (c c' : pool) : Prop := istep admitted c c' \/ begins c c'.

(** The same as a function: what begins, which thread moves. *)
Inductive sched := Begin (a : paction) (p : Proc) | Move (i : nat).

Definition admits (ts : list thread) (i : nat) (p : prog (option Proc)) : bool :=
  let free (f : thread -> bool) := forallb (fun jt => (jt.1 =? i) || negb (f jt.2)) (imap pair ts) in
  match p with
  | Lock Shared _ => free writing
  | Lock Exclusive _ => free in_section
  | _ => true
  end.

Definition pool_exec (x : sched) (c : pool) : option pool :=
  match x with
  | Begin a p => Some (c.1, c.2 ++ [(None, step_prog a p)])
  | Move i =>
      '(h, p) ← c.2 !! i;
      if admits c.2 i p then
        '(s', h', p') ← instr c.1 h p;
        Some (s', <[i := (h', p')]> c.2)
      else None
  end.

Fixpoint pool_run (l : list sched) (c : pool) : option pool :=
  match l with
  | [] => Some c
  | x :: l' => c' ← pool_exec x c; pool_run l' c'
  end.

Lemma admits_admitted (ts : list thread) i p : admits ts i p = true -> admitted ts i p.
Proof.
  assert (forall f, forallb (fun jt => (jt.1 =? i) || negb (f jt.2)) (imap pair ts) = true ->
    others (fun t => f t = false) ts i) as Hf.
  { intros f Hall j t Hj Hne. rewrite forallb_forall in Hall.
    assert ((j, t) ∈ imap pair ts) as Hin%list_elem_of_In.
    { apply list_elem_of_lookup. exists j. by rewrite list_lookup_imap, Hj. }
    specialize (Hall _ Hin). simpl in Hall. apply orb_true_iff in Hall as [Hi%Nat.eqb_eq|Hn]; [done|].
    by apply negb_true_iff. }
  destruct p as [|[]| | | | | | | | | | |]; simpl; try done; apply Hf.
Qed.

Lemma pool_exec_moves x c c' : pool_exec x c = Some c' -> moves c c'.
Proof.
  destruct c as [s ts], x as [a p|i]; simpl; [intros [= <-]; by right|].
  destruct (ts !! i) as [[h p]|] eqn:Hi; simpl; [|done].
  destruct (admits ts i p) eqn:Ha; [|done].
  destruct (instr s h p) as [[[s' h'] p']|] eqn:Hs; simpl; [|done]. intros [= <-].
  left. econstructor; [done|by apply admits_admitted|done].
Qed.

Lemma pool_run_moves l c c' : pool_run l c = Some c' -> rtc moves c c'.
Proof.
  revert c. induction l as [|x l IH]; intros c; simpl; [by intros [= ->]|].
  destruct (pool_exec x c) as [c1|] eqn:E; simpl; [|done]. intros Hr.
  eapply rtc_l; [by eapply pool_exec_moves|by apply IH].
Qed.

(** ** Rules *)

Definition keeps_rules (t : thread) : Prop := obeys t.1 t.2 (fun _ h => h = None).

Lemma instr_obeys {A} s h (p : prog A) s' h' p' Q :
  instr s h p = Some (s', h', p') -> obeys h p Q -> obeys h' p' Q.
Proof. destruct p; simpl; intros; repeat case_match; simplify_eq/=; by eauto. Qed.

(** A program that keeps to the rules has ended or has a next instruction. *)
Lemma obeys_instr {A} s h (p : prog A) Q :
  obeys h p Q -> (exists a, p = Ret a /\ Q a h) \/ exists s' h' p', instr s h p = Some (s', h', p').
Proof.
  destruct p as [a| | | | | | | | | | | |]; simpl; intros Hp; [left; by exists a|right..];
    repeat case_match; try done; by repeat eexists.
Qed.

Lemma moves_rules c c' : moves c c' -> Forall keeps_rules c.2 -> Forall keeps_rules c'.2.
Proof.
  intros [Hs|Hs] Hc.
  - destruct Hs as [s ts i h p s' h' p' Hi Hok Hin]. simpl in *. apply Forall_insert; [done|]. eapply instr_obeys; [done|]. apply (Forall_lookup_1 _ _ _ _ Hc Hi).
  - destruct Hs as [s ts a p]. apply Forall_app. split; [done|]. constructor; [apply step_prog_rules|done].
Qed.

(** What the tasks of a process can come to. *)
Definition reachable (c : pool) : Prop := exists s, rtc moves (s, []) c.

Lemma reachable_rules c : reachable c -> Forall keeps_rules c.2.
Proof.
  intros [s Hr]. revert c Hr. apply (rtc_ind_r (fun c => Forall keeps_rules c.2)); [constructor|].
  intros c c' _ Hs Hc. by eapply moves_rules.
Qed.

Lemma unhindered_steps s ts c' : istep unhindered (s, ts) c' -> istep admitted (s, ts) c'.
Proof. inversion 1 as [? ? ? ? ? ? ? ? ? [Ha _] ?]; subst. by econstructor. Qed.

(** ** Progress *)

Lemma Exists_lookup_bool (f : thread -> bool) (ts : list thread) :
  (exists i t, ts !! i = Some t /\ f t = true) \/ (forall i t, ts !! i = Some t -> f t = false).
Proof.
  destruct (existsb f ts) eqn:E; [left|right].
  - apply existsb_exists in E as (t & Ht%list_elem_of_In & Hf). apply list_elem_of_lookup in Ht as [i Hi]. eauto.
  - intros i t Hi. destruct (f t) eqn:Hf; [|done].
    assert (existsb f ts = true); [|congruence]. apply existsb_exists. exists t. split; [|done].
    apply list_elem_of_In. by eapply list_elem_of_lookup_2.
Qed.

Definition holding (t : thread) : bool := match t.1 with Some _ => true | None => false end.

(** A thread that holds something is not kept waiting. *)
Lemma holder_unhindered ts i h p :
  obeys h p (fun _ h => h = None) -> h <> None -> unhindered ts i p.
Proof. destruct h; [|done]. intros Hp _. by destruct p; simpl in Hp. Qed.

Lemma nobody_unhindered (ts : list thread) i p :
  (forall j t, ts !! j = Some t -> holding t = false) ->
  (forall j t, ts !! j = Some t -> wants_write t = false) -> unhindered ts i p.
Proof.
  intros Hh Hw. assert (forall f, (forall t, holding t = false -> f t = false) ->
    others (fun t => f t = false) ts i) as Hf by (intros f Hf j t Hj _; eauto).
  split.
  - destruct p as [|[]| | | | | | | | | | |]; simpl; try done; apply Hf; by intros [[[]|] q].
  - destruct p as [|[]| | | | | | | | | | |]; simpl; try done; try (apply Hf; by intros [[[]|] q]).
    intros j t Hj _. eauto.
Qed.

Lemma pool_progress s (ts : list thread) :
  Forall keeps_rules ts ->
  (forall i t, ts !! i = Some t -> at_await t = true /\ t.1 = None) \/ exists c', istep unhindered (s, ts) c'.
Proof.
  intros Hr. rewrite Forall_lookup in Hr.
  assert (forall i h p, ts !! i = Some (h, p) -> unhindered ts i p ->
    at_await (h, p) = true /\ h = None \/ exists c', istep unhindered (s, ts) c') as Hstep.
  { intros i h p Hi Hu. destruct (obeys_instr s h p _ (Hr _ _ Hi)) as [(a & -> & ->)|(s' & h' & p' & Hin)].
    - by left.
    - right. eexists. by econstructor. }
  destruct (Exists_lookup_bool holding ts) as [(i & [h p] & Hi & Hh)|Hnone].
  { destruct h as [h|]; [|done].
    destruct (Hstep i _ _ Hi) as [[_ ?]|?]; [|done|by right].
    by apply (holder_unhindered ts i _ p (Hr _ _ Hi)). }
  destruct (Exists_lookup_bool wants_write ts) as [(i & [h p] & Hi & Hw)|Hnw].
  { assert (unhindered ts i p) as Hu.
    { destruct p as [|[]| | | | | | | | | | |]; try done. split; [|done].
      intros j [[[]|] q] Hj _; specialize (Hnone _ _ Hj); done. }
    destruct (Hstep i _ _ Hi Hu) as [[Ha _]|?]; [|by right]. by destruct p. }
  destruct (Exists_lookup_bool (fun t => negb (at_await t)) ts) as [(i & [h p] & Hi & Ha)|Hall].
  - destruct (Hstep i _ _ Hi) as [[Ha' _]|?]; [by apply nobody_unhindered| |by right].
    by rewrite Ha' in Ha.
  - left. intros i t Hi. split; [apply negb_false_iff; by eapply Hall|].
    specialize (Hnone _ _ Hi). by destruct t as [[]].
Qed.

(** ** Termination *)

(** [q] is left of [p] after an instruction. *)
Definition child (q p : prog (option Proc)) : Prop := exists s h s' h', instr s h p = Some (s', h', q).

Lemma child_acc p : Acc child p.
Proof.
  induction p; constructor; intros q (s0 & h0 & s' & h' & Hin); simpl in Hin; repeat case_match;
    by simplify_eq/=.
Qed.

(** One element of the list changes. *)
Definition one_changes {A} (R : A -> A -> Prop) (l' l : list A) : Prop :=
  exists i x y, l !! i = Some x /\ R y x /\ l' = <[i := y]> l.

Lemma one_changes_acc {A} (R : A -> A -> Prop) l : Forall (Acc R) l -> Acc (one_changes R) l.
Proof.
  induction 1 as [|x l Hx _ Hl]; [constructor; by intros l' (i & x & y & Hi & _)|].
  revert l Hl. induction Hx as [x _ IHx]. intros l Hl. induction Hl as [l Hl IHl]. constructor.
  intros l' (i & z & y & Hi & Hy & ->). destruct i as [|i]; simpl in *.
  - simplify_eq. by apply IHx.
  - apply IHl. by exists i, z, y.
Qed.

(** However they are scheduled, the instructions of the steps that have begun
    run out. *)
Lemma istep_acc ok c : Acc (flip (istep ok)) c.
Proof.
  apply (Acc_incl _ _ (fun c' c => one_changes child c'.2.*2 c.2.*2)).
  - intros c' c1 Hs. destruct Hs as [s ts i h p s' h' p' Hi _ Hin]. simpl.
    exists i, p, p'. split; [apply list_lookup_fmap_Some; by exists (h, p)|]. split; [by exists s, h, s', h'|].
    by rewrite list_fmap_insert.
  - apply (Acc_inverse_image _ _ (one_changes child) (fun c => c.2.*2)).
    apply one_changes_acc, Forall_forall. intros p _. apply child_acc.
Qed.

(** C12: the tasks of a process never deadlock.  Whatever steps its tasks have
    begun, and however their instructions have interleaved, as long as one of
    them is not at its await there is an instruction that nothing keeps
    waiting: not the [RwLock] of the store, even if a reader has to let a
    waiting writer pass, and not the peer table, even if a call of it has to
    wait for every reference into it that others hold (the locks that the
    table takes inside a call are its own: that a call waits for nothing but
    references is what its documentation says).  And the instructions run out: however
    they are scheduled, every step that has begun comes to its end, where its
    task holds nothing. *)
Theorem locks_never_deadlock (c : pool) :
  reachable c ->
  Acc (flip (istep admitted)) c
  /\ forall c', rtc (istep admitted) c c' ->
       (forall i t, c'.2 !! i = Some t -> at_await t = true /\ t.1 = None)
       \/ exists c'', istep unhindered c' c''.
Proof.
  intros [s Hr]. split; [apply istep_acc|]. intros c' Hc'. assert (reachable c') as Hc.
  { exists s. etrans; [exact Hr|]. eapply rtc_subrel; [|exact Hc']. by left. }
  destruct c' as [s' ts']. apply pool_progress, (reachable_rules _ Hc).
Qed.

(** ** Exclusion *)

(** Whoever holds the write lock is alone in a section. *)
Definition exclusive (ts : list thread) : Prop :=
  forall i j t u, ts !! i = Some t -> writing t = true -> ts !! j = Some u -> in_section u = true -> i = j.

Lemma writing_in_section t : writing t = true -> in_section t = true.
Proof. by destruct t as [[[[]|]|] p]. Qed.

Lemma instr_section s h (p : prog (option Proc)) s' h' p' :
  instr s h p = Some (s', h', p') ->
  h' = h \/ in_section (h', p') = false \/ exists m, p = Lock m p' /\ h = None /\ h' = Some (HoldStore m).
Proof.
  destruct p; simpl; intros; repeat case_match; simplify_eq/=;
    first [by left | by right; left | right; right; by repeat eexists].
Qed.

Lemma istep_exclusive s (ts : list thread) s' ts' :
  istep admitted (s, ts) (s', ts') -> exclusive ts -> exclusive ts'.
Proof.
  inversion 1 as [? ? i h p ? h' p' Hi Hok Hin]; subst. intros Hx a b t u Ha Hw Hb Hu.
  assert (i < length ts) as Hlt by by eapply lookup_lt_Some.
  destruct (decide (a = b)) as [|Hab]; [done|].
  assert (forall j v, j <> i -> <[i := (h', p')]> ts !! j = Some v -> ts !! j = Some v) as Hne.
  { intros j v Hj. by rewrite list_lookup_insert_ne. }
  destruct (instr_section _ _ _ _ _ _ Hin) as [->|[Hout|(m & -> & -> & ->)]].
  - assert (forall j v, <[i := (h, p')]> ts !! j = Some v -> exists q, ts !! j = Some (v.1, q)) as Hold.
    { intros j v. destruct (decide (j = i)) as [->|Hj].
      - rewrite list_lookup_insert_eq by done. intros [= <-]. eauto.
      - intros Hv%Hne; [|done]. destruct v. eauto. }
    destruct (Hold _ _ Ha) as [q Hq]. destruct (Hold _ _ Hb) as [r Hr]. by apply (Hx _ _ _ _ Hq Hw Hr Hu).
  - destruct (decide (a = i)) as [->|Hai].
    + rewrite list_lookup_insert_eq in Ha by done. simplify_eq.
      apply writing_in_section in Hw. congruence.
    + destruct (decide (b = i)) as [->|Hbi].
      * rewrite list_lookup_insert_eq in Hb by done. simplify_eq. congruence.
      * by apply (Hx _ _ _ _ (Hne _ _ Hai Ha) Hw (Hne _ _ Hbi Hb) Hu).
  - destruct (decide (a = i)) as [->|Hai]; [|destruct (decide (b = i)) as [->|Hbi]].
    + rewrite list_lookup_insert_eq in Ha by done. simplify_eq. destruct m; [done|].
      assert (b <> i) as Hbi by done. pose proof (Hok _ _ (Hne _ _ Hbi Hb) Hbi) as Hno. simpl in Hno. congruence.
    + apply writing_in_section in Hw as Hs.
      destruct m; pose proof (Hok _ _ (Hne _ _ Hai Ha) Hai) as Hno; simpl in Hno; congruence.
    + by apply (Hx _ _ _ _ (Hne _ _ Hai Ha) Hw (Hne _ _ Hbi Hb) Hu).
Qed.

Lemma begins_exclusive s (ts : list thread) s' ts' :
  begins (s, ts) (s', ts') -> exclusive ts -> exclusive ts'.
Proof.
  inversion 1 as [? ? a p]; subst. intros Hx i j t u Hi Hw Hj Hu.
  apply lookup_app_Some in Hi as [Hi|[_ [_ <-]%list_lookup_singleton_Some]]; [|done].
  apply lookup_app_Some in Hj as [Hj|[_ [_ <-]%list_lookup_singleton_Some]]; [|done].
  by apply (Hx _ _ _ _ Hi Hw Hj Hu).
Qed.

(** ** Sections as one step *)

(** The rest of a section, from a map: the map where the lock is released,
    and what is left of the program. *)
Fixpoint section (m : StateMap) (p : prog (option Proc)) : option (StateMap * prog (option Proc)) :=
  match p with
  | Unlock k => Some (m, k)
  | ReadKey key k => section m (k (m !! key))
  | ReadMap k => section m (k m)
  | WriteKey key v k => section (<[key := v]> m) k
  | _ => None
  end.

(** An instruction that has nothing to do with the map of the store. *)
Definition off_map (p : prog (option Proc)) : bool :=
  match p with
  | Lock _ _ | Unlock _ | ReadKey _ _ | ReadMap _ | WriteKey _ _ _ => false
  | _ => true
  end.

(** The machine with atomic sections: between [Lock] and [Unlock] no other
    thread takes a step, and the map is used nowhere else. *)
Inductive astep : pool -> pool -> Prop :=
| astep_section s ts i m k mp p' :
    ts !! i = Some (None, Lock m k) -> section (sh_map s) k = Some (mp, p') ->
    astep (s, ts) (with_map s mp, <[i := (None, p')]> ts)
| astep_off s ts i h p s' h' p' :
    ts !! i = Some (h, p) -> off_map p = true -> instr s h p = Some (s', h', p') ->
    astep (s, ts) (s', <[i := (h', p')]> ts).

Definition amoves (c c' : pool) : Prop := astep c c' \/ begins c c'.

(** A thread in the machine with atomic sections: one that is inside a
    section has not entered it yet, and its section will come to the same. *)
Definition thread_sim (mp mp0 : StateMap) (t t0 : thread) : Prop :=
  if in_section t then exists m k, t0 = (None, Lock m k) /\ section mp0 k = section mp t.2
  else t0 = t.

Record sim (c c0 : pool) : Prop := {
  sim_excl : exclusive c.2;
  sim_tx : sh_tx c0.1 = sh_tx c.1;
  sim_peers : sh_peers c0.1 = sh_peers c.1;
  (** only a section under the write lock can have changed the map *)
  sim_map : (forall i t, c.2 !! i = Some t -> writing t = false) -> sh_map c0.1 = sh_map c.1;
  sim_threads : Forall2 (thread_sim (sh_map c.1) (sh_map c0.1)) c.2 c0.2;
}.

(** The threads but [i] stay related if the maps stay, or if they are in no
    section. *)
Lemma sim_others mp mp0 mp' mp0' (ts ts0 : list thread) i t' t0' :
  Forall2 (thread_sim mp mp0) ts ts0 ->
  (mp' = mp /\ mp0' = mp0 \/ others (fun t => in_section t = false) ts i) ->
  thread_sim mp' mp0' t' t0' ->
  Forall2 (thread_sim mp' mp0') (<[i := t']> ts) (<[i := t0']> ts0).
Proof.
  intros Hs Ho Ht. apply Forall2_same_length_lookup in Hs as [Hlen Hs].
  apply Forall2_same_length_lookup. split; [by rewrite !length_insert|].
  intros j x y Hx Hy. destruct (decide (j = i)) as [->|Hne].
  - assert (i < length ts) as Hlt.
    { apply lookup_lt_Some in Hx. by rewrite length_insert in Hx. }
    rewrite list_lookup_insert_eq in Hx by done. rewrite list_lookup_insert_eq in Hy by lia. by simplify_eq.
  - rewrite list_lookup_insert_ne in Hx by done. rewrite list_lookup_insert_ne in Hy by done.
    specialize (Hs _ _ _ Hx Hy). destruct Ho as [[-> ->]|Ho]; [done|].
    unfold thread_sim in *. by rewrite (Ho _ _ Hx Hne) in *.
Qed.

Lemma instr_off s h (p : prog (option Proc)) s' h' p' m :
  off_map p = true -> instr s h p = Some (s', h', p') -> in_section (h, p) = false ->
  sh_map s' = sh_map s /\ in_section (h', p') = false
  /\ instr (with_map s m) h p = Some (with_map s' m, h', p').
Proof. destruct p; simpl; intros; repeat case_match; by simplify_eq/=. Qed.

(** With thread [i] rewritten to one that does not hold the write lock, who
    wrote before and is not [i] still does. *)
Lemma nobody_writes (ts : list thread) i t t' :
  ts !! i = Some t -> writing t = false ->
  (forall j u, <[i := t']> ts !! j = Some u -> writing u = false) ->
  forall j u, ts !! j = Some u -> writing u = false.
Proof.
  intros Hi Ht Hn j u Hj. destruct (decide (j = i)) as [->|Hne]; [by simplify_eq|].
  apply (Hn j). by rewrite list_lookup_insert_ne.
Qed.

Lemma alone_in_section (ts : list thread) i t :
  exclusive ts -> ts !! i = Some t -> writing t = true -> others (fun t => in_section t = false) ts i.
Proof.
  intros Hx Hi Hw j u Hj Hne. destruct (in_section u) eqn:Hu; [|done].
  by destruct Hne; rewrite (Hx _ _ _ _ Hi Hw Hj Hu).
Qed.

(** A reader shares its section with readers only. *)
Lemma no_writer_beside (ts : list thread) i t :
  exclusive ts -> ts !! i = Some t -> in_section t = true -> writing t = false ->
  forall j u, ts !! j = Some u -> writing u = false.
Proof.
  intros Hx Hi Hs Hw j u Hj. destruct (writing u) eqn:Hu; [|done].
  rewrite (Hx _ _ _ _ Hj Hu Hi Hs) in Hj. congruence.
Qed.

(** Entering a section: nothing has happened yet. *)
Lemma sim_lock s (ts : list thread) s0 ts0 i m k :
  sim (s, ts) (s0, ts0) -> ts !! i = Some (None, Lock m k) -> admitted ts i (Lock m k) ->
  exclusive (<[i := (Some (HoldStore m), k)]> ts) ->
  sim (s, <[i := (Some (HoldStore m), k)]> ts) (s0, ts0).
Proof.
  intros [Hx Htx Hpe Hm Hts] Hi Hok Hx'. cbn [fst snd] in *.
  assert (sh_map s0 = sh_map s) as Hmap.
  { apply Hm. intros j u Hj. destruct (decide (j = i)) as [->|Hne].
    { by simplify_eq. }
    destruct m; [by apply (Hok j)|]. destruct (writing u) eqn:Hw; [|done].
    apply writing_in_section in Hw. pose proof (Hok j u Hj Hne) as Hno. simpl in Hno. congruence. }
  destruct (Forall2_lookup_l _ _ _ _ _ Hts Hi) as (t0 & Hi0 & Ht0). cbn in Ht0. subst t0.
  split; simpl; try done.
  rewrite <- (list_insert_id ts0 i (None, Lock m k)) by done.
  eapply sim_others; [exact Hts|by left|]. exists m, k. by rewrite Hmap.
Qed.

(** An instruction inside a section, short of its end. *)
Lemma sim_inside s (ts : list thread) s0 ts0 i h p mp p' :
  sim (s, ts) (s0, ts0) -> ts !! i = Some (h, p) -> in_section (h, p) = true ->
  section (sh_map s) p = section mp p' -> (mp = sh_map s \/ writing (h, p) = true) ->
  exclusive (<[i := (h, p')]> ts) ->
  sim (with_map s mp, <[i := (h, p')]> ts) (s0, ts0).
Proof.
  intros [Hx Htx Hpe Hm Hts] Hi Hin Hsec Hw Hx'. cbn [fst snd] in *.
  destruct (Forall2_lookup_l _ _ _ _ _ Hts Hi) as (t0 & Hi0 & Ht0).
  assert (i < length ts) as Hlt by by eapply lookup_lt_Some.
  unfold thread_sim in Ht0. rewrite Hin in Ht0. destruct Ht0 as (m & k & -> & Hk).
  split; simpl; try done.
  - intros Hn. destruct Hw as [->|Hw].
    + apply Hm. apply (nobody_writes ts i (h, p) (h, p') Hi); [|done].
      apply (Hn i (h, p')). by rewrite list_lookup_insert_eq.
    + assert (writing (h, p') = false) as Hf by (apply (Hn i); by rewrite list_lookup_insert_eq).
      unfold writing in *. simpl in *. congruence.
  - rewrite <- (list_insert_id ts0 i (None, Lock m k)) by done.
    eapply sim_others; [exact Hts| |].
    + destruct Hw as [->|Hw]; [by left|right]. by eapply alone_in_section.
    + unfold thread_sim. replace (in_section (h, p')) with true by done.
      exists m, k. split; [done|]. by rewrite Hk.
Qed.

(** Leaving it: the whole section is the step. *)
Lemma sim_unlock s (ts : list thread) s0 ts0 i m p' :
  sim (s, ts) (s0, ts0) -> ts !! i = Some (Some (HoldStore m), Unlock p') ->
  exclusive (<[i := (None, p')]> ts) ->
  exists c0', astep (s0, ts0) c0' /\ sim (s, <[i := (None, p')]> ts) c0'.
Proof.
  intros [Hx Htx Hpe Hm Hts] Hi Hx'. cbn [fst snd] in *.
  destruct (Forall2_lookup_l _ _ _ _ _ Hts Hi) as (t0 & Hi0 & m0 & k & -> & Hk). cbn in Hk.
  exists (with_map s0 (sh_map s), <[i := (None, p')]> ts0). split; [by eapply astep_section|].
  split; simpl; try done. eapply sim_others; [exact Hts| |done].
  destruct m.
  - left. split; [done|]. symmetry. apply Hm. by eapply no_writer_beside.
  - right. by eapply alone_in_section.
Qed.

(** Off the map the two machines take the same instruction. *)
Lemma sim_off s (ts : list thread) s0 ts0 i h p s' h' p' :
  sim (s, ts) (s0, ts0) -> ts !! i = Some (h, p) -> in_section (h, p) = false -> off_map p = true ->
  instr s h p = Some (s', h', p') -> exclusive (<[i := (h', p')]> ts) ->
  exists c0', astep (s0, ts0) c0' /\ sim (s', <[i := (h', p')]> ts) c0'.
Proof.
  intros [Hx Htx Hpe Hm Hts] Hi Hin Hoff Hs Hx'. cbn [fst snd] in *.
  destruct (instr_off _ _ _ _ _ _ (sh_map s0) Hoff Hs Hin) as (Hmap & Hin' & Hs0).
  replace (with_map s (sh_map s0)) with s0 in Hs0 by (unfold with_map; rewrite <- Htx, <- Hpe; by destruct s0).
  destruct (Forall2_lookup_l _ _ _ _ _ Hts Hi) as (t0 & Hi0 & Ht0).
  unfold thread_sim in Ht0. rewrite Hin in Ht0. subst t0.
  exists (with_map s' (sh_map s0), <[i := (h', p')]> ts0). split; [by eapply astep_off|].
  split; simpl; try done.
  - rewrite Hmap. intros Hn. apply Hm. apply (nobody_writes ts i (h, p) (h', p') Hi); [|done].
    destruct (writing (h, p)) eqn:Hw; [|done]. apply writing_in_section in Hw. congruence.
  - rewrite Hmap. eapply sim_others; [exact Hts|by left|]. unfold thread_sim. by rewrite Hin'.
Qed.

Lemma istep_sim s (ts : list thread) c' c0 :
  Forall keeps_rules ts -> istep admitted (s, ts) c' -> sim (s, ts) c0 ->
  exists c0', rtc amoves c0 c0' /\ sim c' c0'.
Proof.
  intros Hr Hs Hsim. destruct c0 as [s0 ts0]. pose proof (istep_exclusive s ts c'.1 c'.2) as Hx.
  rewrite <- surjective_pairing in Hx. specialize (Hx Hs (sim_excl _ _ Hsim)).
  inversion Hs as [? ? i h p s' h' p' Hi Hok Hin]; subst. cbn [fst snd] in Hx.
  pose proof (Forall_lookup_1 _ _ _ _ Hr Hi) as Ho. unfold keeps_rules in Ho. cbn [fst snd] in Ho.
  assert (forall s1, s1 = s -> s1 = with_map s (sh_map s)) as Hid by (intros ? ->; by destruct s).
  assert ((exists c0', astep (s0, ts0) c0' /\ sim (s', <[i := (h', p')]> ts) c0') ->
    exists c0', rtc amoves (s0, ts0) c0' /\ sim (s', <[i := (h', p')]> ts) c0') as Hone.
  { intros (c0' & Ha & Hc). exists c0'. split; [apply rtc_once; by left|done]. }
  destruct (off_map p) eqn:Hoff.
  { apply Hone. eapply sim_off; try done. by destruct h as [[]|], p. }
  destruct p as [|m k|k|key k|k|key v k| | | | | | |]; try done; destruct h as [[md|]|]; simplify_eq/=; try done.
  - eexists. split; [apply rtc_refl|]. by apply sim_lock.
  - apply Hone. by apply sim_unlock with md.
  - eexists. split; [apply rtc_refl|]. rewrite (Hid s') by done. by eapply sim_inside; eauto.
  - eexists. split; [apply rtc_refl|]. rewrite (Hid s') by done. by eapply sim_inside; eauto.
  - destruct md; [done|]. eexists. split; [apply rtc_refl|]. by eapply sim_inside; eauto.
Qed.

Lemma begins_sim s (ts : list thread) c' c0 :
  begins (s, ts) c' -> sim (s, ts) c0 -> exists c0', rtc amoves c0 c0' /\ sim c' c0'.
Proof.
  intros Hb [Hx Htx Hpe Hm Hts]. destruct c0 as [s0 ts0]. cbn [fst snd] in *.
  inversion Hb as [? ? a p]; subst.
  exists (s0, ts0 ++ [(None, step_prog a p)]). split; [apply rtc_once; right; constructor|].
  split; simpl; try done.
  - by eapply begins_exclusive.
  - intros Hn. apply Hm. intros i t Hi. apply (Hn i). by apply lookup_app_l_Some.
  - apply Forall2_app; [done|]. by repeat constructor.
Qed.

Lemma moves_sim c c' c0 :
  Forall keeps_rules c.2 -> moves c c' -> sim c c0 -> exists c0', rtc amoves c0 c0' /\ sim c' c0'.
Proof.
  destruct c as [s ts]. intros Hr [Hs|Hs] Hsim; [by eapply istep_sim|by eapply begins_sim].
Qed.

Lemma reachable_sim s c : rtc moves (s, []) c -> exists c0, rtc amoves (s, []) c0 /\ sim c c0.
Proof.
  revert c. apply (rtc_ind_r (fun c => exists c0, rtc amoves (s, []) c0 /\ sim c c0)).
  - exists (s, []). split; [done|]. by split.
  - intros c c' Hc Hs (c0 & Hc0 & Hsim).
    destruct (moves_sim c c' c0) as (c0' & Hr & Hsim'); [apply reachable_rules; by exists s|done|done|].
    exists c0'. split; [by etrans|done].
Qed.

(** With nobody in a section the two machines agree. *)
Lemma sim_outside c c0 : sim c c0 -> (forall i t, c.2 !! i = Some t -> in_section t = false) -> c0 = c.
Proof.
  intros [_ Htx Hpe Hm Hts] Hout. destruct c as [[m tx d] ts], c0 as [[m0 tx0 d0] ts0]. simpl in *.
  assert (m0 = m) as ->.
  { apply Hm. intros i t Hi. destruct (writing t) eqn:Hw; [|done].
    apply writing_in_section in Hw. by rewrite (Hout i t Hi) in Hw. }
  subst. f_equal. clear Hm. induction Hts as [|t t0 ts ts0 Ht Hts IH]; [done|]. f_equal.
  - unfold thread_sim in Ht. by rewrite (Hout 0 t) in Ht.
  - apply IH. intros i u Hi. by apply (Hout (S i)).
Qed.

(** The map is used by the next instruction of a thread; it is changed. *)
Definition uses_map (t : thread) : bool :=
  match t.2 with ReadKey _ _ | ReadMap _ | WriteKey _ _ _ => true | _ => false end.
Definition changes_map (t : thread) : bool := match t.2 with WriteKey _ _ _ => true | _ => false end.

Lemma rules_uses t : keeps_rules t -> uses_map t = true -> in_section t = true.
Proof. by destruct t as [[[]|] []]. Qed.

Lemma rules_changes t : keeps_rules t -> changes_map t = true -> writing t = true.
Proof. by destruct t as [[[[]|]|] []]. Qed.

(** C14: the sections of the store are atomic.  However the instructions of
    the tasks of a process interleave, where a task is about to change the map
    no other is about to use it; and whenever no task is inside a section, the
    shared state and what is left of every step are what they can be if every
    section, from where the lock is taken to where it is released, is one
    step, and nothing but sections touches the map. *)
Theorem critical_sections_atomic (s : shared) (c : pool) :
  rtc moves (s, []) c ->
  (forall i j t u, c.2 !! i = Some t -> c.2 !! j = Some u ->
     changes_map t = true -> uses_map u = true -> i = j)
  /\ ((forall i t, c.2 !! i = Some t -> in_section t = false) -> rtc amoves (s, []) c).
Proof.
  intros Hr. destruct (reachable_sim s c Hr) as (c0 & Hc0 & Hsim).
  assert (Forall keeps_rules c.2) as Hk by (apply reachable_rules; by exists s).
  rewrite Forall_lookup in Hk. split.
  - intros i j t u Hi Hj Ht Hu. apply (sim_excl _ _ Hsim i j t u); try done.
    + by apply rules_changes; [eapply Hk|].
    + by apply rules_uses; [eapply Hk|].
  - intros Hout. by rewrite <- (sim_outside _ _ Hsim Hout).
Qed.
End pools.
