(* ===== verification/Network.v ===== *)
(** Processes on a network: any number of the processes of Process.v, each at
    its gossip address, and the connections their send tasks open.  A [link]
    joins a send task of one process to the inbound task of another that
    serves it; what the receiver reads is what the sender writes, and the
    acknowledgement comes back over the same connection.  Connections can
    stay unmade, fail at any time on either side, so that the receiver may be
    left with a part of the message, and be served in any order.  A message of 4 GiB or more, whose length field wraps, is not
    delivered.  A [net_action] is one step of one process; [net_exec] performs
    it. *)
From S2P Require Import Prelude Crdt Replica Broadcast Store Config DashMap Peer Protocol Manager.
From S2P Require Import Cluster RpcTypes RpcHandler RpcServer Process ProcessLemmas.

(** [lk_to]: the inbound task that serves the connection, once accepted. *)
Record link := mk_link {
  lk_src : string;
  lk_idx : nat;
  lk_task : SendTask;
  lk_to : option nat;
}.

Definition lk_dst (l : link) : string := task_peer_addr (lk_task l).

Inductive net_action :=
| NLocal (a : string) (act : paction)
| NTarget (a : string) (it : hash_iter LwwValue)
| NConnect (k got : nat) (w : writer) (e : string)
| NInbound (a : string) (j : nat) (now : N)
| NAck (k : nat) (now : N) (e : string)
| NFail (k : nat) (now : N) (conn : connect_outcome).

(** Steps that concern no connection between nodes. *)
Definition is_local (act : paction) : bool :=
  match act with
  | PTarget _ | PListenAccept (Ok _) | PInbound _ _ | PSendEnd _ _ _ => false
  | _ => true
  end.

Section network.
Context `{BroadcastLib StateEvent, DashMapLib PeerInfo}.
Context `{Codec GossipMessage, Codec GossipAck}.
Context `{RequestParser, ToJson RpcResponse, ToJson RpcError, ToJson RpcNotification}.

Record Net := mk_net { procs : gmap string Proc; links : list link }.

Definition put_proc (net : Net) (a : string) (p : Proc) : Net := mk_net (<[a := p]> (procs net)) (links net).

(** The send task a [PTarget] step has spawned, if any. *)
Definition spawned (p p' : Proc) : option SendTask :=
  match pr_sends p' !! length (pr_sends p) with Some (SendRunning task) => Some task | _ => None end.

Definition net_exec (act : net_action) (net : Net) : option Net :=
  match act with
  | NLocal a act =>
      p ← procs net !! a;
      if is_local act then p' ← pexec act p; Some (put_proc net a p') else None
  | NTarget a it =>
      p ← procs net !! a;
      p' ← pexec (PTarget it) p;
      let new := match spawned p p' with
                 | Some task => [mk_link a (length (pr_sends p)) task None]
                 | None => []
                 end in
      Some (mk_net (<[a := p']> (procs net)) (links net ++ new))
  | NConnect k got w e =>
      (* the first [got] bytes arrive, then [e] *)
      l ← links net !! k;
      match lk_to l, write_message (mk_writer [] None e) (task_msg (lk_task l)) with
      | None, (Ok _, sent) =>
          _ ← guard (N.of_nat (length (Protocol.written sent)) < 4 + U32)%N;
          d ← procs net !! lk_dst l;
          d' ← pexec (PListenAccept (Ok (mk_reader (take got (Protocol.written sent)) e, w))) d;
          Some (mk_net (<[lk_dst l := d']> (procs net))
                  (<[k := mk_link (lk_src l) (lk_idx l) (lk_task l) (Some (length (pr_inbound d)))]> (links net)))
      | _, _ => None
      end
  | NInbound a j now =>
      p ← procs net !! a;
      p' ← pexec (PInbound j now) p;
      Some (put_proc net a p')
  | NAck k now e =>
      l ← links net !! k;
      j ← lk_to l;
      d ← procs net !! lk_dst l;
      s ← pr_inbound d !! j;
      match s with
      | InDone (Ok _) w =>
          p ← procs net !! lk_src l;
          let conn := mk_conn (Some (mk_writer [] None e)) (Some (mk_reader (Protocol.written w) e)) in
          p' ← pexec (PSendEnd (lk_idx l) now (Some (Ok conn))) p;
          Some (put_proc net (lk_src l) p')
      | _ => None
      end
  | NFail k now conn =>
      l ← links net !! k;
      match send_and_ack conn (lk_dst l) (task_msg (lk_task l)) with
      | Some (Err _) =>
          p ← procs net !! lk_src l;
          p' ← pexec (PSendEnd (lk_idx l) now conn) p;
          Some (put_proc net (lk_src l) p')
      | _ => None
      end
  end.

Fixpoint net_run (acts : list net_action) (net : Net) : option Net :=
  match acts with
  | [] => Some net
  | act :: acts' => net' ← net_exec act net; net_run acts' net'
  end.

(** What a step of the network brings in: the values that a request wrote. *)
Definition net_written (act : net_action) (net : Net) : StateDelta :=
  match act with
  | NLocal a act => match procs net !! a with Some p => ev_pair <$> announced act p | None => [] end
  | _ => []
  end.

(** Where, and the reading of the clock that the request was given. *)
Definition net_stamp (act : net_action) : option (string * Z) :=
  match act with NLocal a (PTurn _ env _) => Some (a, env_clock env) | _ => None end.

(** Processes that have just created their gossip managers, each at the
    address it announces, with identifiers of their own. *)
Record net_initial (net : Net) : Prop := {
  ni_links : links net = [];
  ni_proc a p : procs net !! a = Some p -> exists uuid config now p0,
    main_start uuid config = Done p0 /\ pexec (PGossipStart now) p0 = Some p /\ a = gossip_addr_of config;
  ni_ids a b p q : procs net !! a = Some p -> procs net !! b = Some q ->
    store_node_id (pr_store p) = store_node_id (pr_store q) -> a = b;
}.

(** The cluster of the managers. *)
Definition node_of (p : Proc) : Node := mk_node (manager_of p) None.
Definition cluster_of (net : Net) : Cluster := mk_cluster (node_of <$> procs net) [].
End network.

Arguments Net {_ _}.
