(* ===== verification/Delivery.v ===== *)
(** From a value in the store of one node to the screen of a client of
    another: the push of gossip/manager.rs, the inbound handler, the event
    channel and the connection of rpc/server.rs put together. *)
From S2P Require Import Prelude Crdt Replica Broadcast Store Config DashMap Peer Protocol Manager.
From S2P Require Import RpcTypes RpcHandler RpcServer Process ProcessLemmas Subscribers.

Section delivery.
Context `{BroadcastLib StateEvent, DashMapLib PeerInfo, !BroadcastLaws StateEvent}.
Context `{Codec GossipMessage, Codec GossipAck}.
Context `{RequestParser, ToJson RpcResponse, ToJson RpcError, ToJson RpcNotification}.
Implicit Types (p : Proc) (c : client).

(** Serialising an update does not fail. *)
Context (print_total : forall key v, exists text, to_string (state_update key v) = Ok text).

(** The notifications of a list of events. *)
Definition updates (prefix : option string) (evs : list StateEvent) : list RpcNotification :=
  evs ≫= fun ev => option_list (event_notification prefix (SubEvent ev)).

(** The connection [j] of [p] has the events [evs] before it. *)
Definition waiting p (j : nat) c (evs : list StateEvent) : Prop :=
  conn_at p j c /\ room (out c) = None
  /\ exists rx, subscription c = Some rx /\ bc_live (event_tx (pr_store p)) rx
       /\ bc_view (event_tx (pr_store p)) rx = evs
       /\ (N.of_nat (length evs) <= bc_cap (event_tx (pr_store p)))%N.

(** The turn that serves an event while no request is being read. *)
Definition event_turn (j : nat) (env : request_env) c : paction :=
  PTurn j env (ArmEvent EmptyString (line c)).

Lemma serve_event_ok prefix ev h c :
  room (out c) = None -> sub_prefix c = prefix ->
  exists c' lines, serve_event (SubEvent ev) h c = (h, c', Continue)
    /\ subscription c' = subscription c /\ sub_prefix c' = prefix /\ line c' = line c
    /\ room (out c') = None
    /\ Forall2 (fun n text => to_string n = Ok text) (option_list (event_notification prefix (SubEvent ev))) lines
    /\ written (out c') = written (out c) ++ (lines ≫= line_bytes).
Proof.
  intros Hroom <-. unfold serve_event, event_notification. destruct (key_matches _ _); cbn [option_list].
  - destruct (print_total (ev_key ev) (ev_value ev)) as [text Hn]. rewrite Hn, write_line_ok by done.
    eexists _, [text]. split; [done|]. cbn. rewrite app_nil_r. split_and!; try done; by repeat constructor.
  - exists c, []. cbn. rewrite app_nil_r. split_and!; try done; by repeat constructor.
Qed.

Lemma event_turn_serves p j c ev evs env :
  main_alive p = true -> waiting p j c (ev :: evs) ->
  exists p' c' lines, pexec (event_turn j env c) p = Some p' /\ waiting p' j c' evs
    /\ pr_main p' = pr_main p /\ state (pr_store p') = state (pr_store p)
    /\ sub_prefix c' = sub_prefix c /\ line c' = line c
    /\ Forall2 (fun n text => to_string n = Ok text) (updates (sub_prefix c) [ev]) lines
    /\ written (out c') = written (out c) ++ (lines ≫= line_bytes).
Proof.
  intros Halive (Hc & Hroom & rx & Hsub & Hl & Hv & Hcap).
  destruct (bc_recv_value _ rx ev evs Hl Hv Hcap) as [Hok Hv'].
  destruct (bc_recv_live _ rx Hl) as [Hl' Hc'].
  set (tx := event_tx (pr_store p)) in *. destruct (bc_recv tx rx) as [po [tx' rx']] eqn:Er. cbn in *. subst po.
  set (h := with_event_tx (handler_of p) tx').
  destruct (serve_event_ok (sub_prefix c) ev h (mk_client (input c) (line c) (Some rx') (sub_prefix c) (out c)))
    as (c' & lines & Hs & Hs1 & Hs2 & Hs3 & Hs4 & Hs5 & Hs6); [done..|]. cbn in Hs1, Hs3, Hs6.
  assert (pexec (event_turn j env c) p = Some (end_turn p j c (Done (h, c', Continue)))) as Hx.
  { unfold pexec. rewrite Halive. cbn [event_turn pexec_rpc]. unfold conn_at in Hc.
    unfold mbind, option_bind. rewrite Hc. cbn [conn_status conn_client]. unfold conn_step.
    rewrite bool_decide_eq_true_2 by done.
    replace (String.prefix EmptyString (input c)) with true by (by destruct (input c)).
    cbn [negb has_newline andb]. unfold poll_subscription. rewrite Hsub. cbn [rpc_store handler_of].
    fold tx. rewrite Er. unfold mbind, option_bind. cbn [String.length].
    replace (str_drop 0 (input c)) with (input c) by (by destruct (input c)).
    fold h. by rewrite Hs. }
  eexists _, c', lines. split; [exact Hx|]. split_and!; try done.
  2: by rewrite app_nil_r.
  unfold waiting, conn_at. cbn. rewrite list_lookup_insert_eq by (by eapply lookup_lt_Some).
  split_and!; [done|done|]. exists rx'. split_and!; try done; try congruence.
  rewrite Hc'. cbn [length] in Hcap. lia.
Qed.

Lemma updates_cons prefix ev evs : updates prefix (ev :: evs) = updates prefix [ev] ++ updates prefix evs.
Proof. unfold updates. cbn [mbind list_bind]. by rewrite app_nil_r. Qed.

(** One turn per waiting event, and all have been written. *)
Lemma waiting_served evs p j c env :
  main_alive p = true -> waiting p j c evs ->
  exists p' c' lines, prun (replicate (length evs) (event_turn j env c)) p = Some p'
    /\ waiting p' j c' [] /\ state (pr_store p') = state (pr_store p)
    /\ Forall2 (fun n text => to_string n = Ok text) (updates (sub_prefix c) evs) lines
    /\ written (out c') = written (out c) ++ (lines ≫= line_bytes).
Proof.
  revert p c. induction evs as [|ev evs IH]; intros p c Halive Hw.
  { exists p, c, []. rewrite app_nil_r. by repeat (split; [done|]). }
  destruct (event_turn_serves p j c ev evs env Halive Hw)
    as (p1 & c1 & l1 & Hx & Hw1 & Hm1 & Hs1 & Hp1 & Hl1 & Hf1 & Ho1).
  destruct (IH p1 c1) as (p2 & c2 & l2 & Hr & Hw2 & Hs2 & Hf2 & Ho2).
  { unfold main_alive in *. by rewrite Hm1. }
  { done. }
  exists p2, c2, (l1 ++ l2). split; [|split; [done|split; [congruence|split]]].
  - cbn [length replicate prun]. unfold mbind, option_bind. rewrite Hx.
    unfold event_turn in *. by rewrite Hl1 in Hr.
  - rewrite updates_cons. apply Forall2_app; [done|]. by rewrite Hp1 in Hf2.
  - by rewrite Ho2, Ho1, bind_app, app_assoc.
Qed.

Context `{!CodecLaws GossipMessage}.

(** At most one event per entry of the delta. *)
Lemma events_length m m' delta : length (changed_keys m delta ≫= final_event m') <= length delta.
Proof.
  etransitivity; [|apply (changed_keys_length m)].
  induction (changed_keys m delta) as [|k ks IH]; [done|]. cbn [mbind list_bind length].
  rewrite length_app. unfold final_event at 1. destruct (m' !! k); cbn [length]; lia.
Qed.

(** The merge of an inbound message, before a connection with nothing waiting. *)
Lemma inbound_merge_announced p i now sent e w msg payload j c rx :
  main_alive p = true -> pr_gossip p = true ->
  pr_inbound p !! i = Some (InRead (mk_reader sent e) w) -> sent = frame payload ->
  encode msg = Ok payload -> (N.of_nat (length payload) <= MAX_MESSAGE_BYTES)%N ->
  conn_at p j c -> room (out c) = None -> subscription c = Some rx -> bc_live (event_tx (pr_store p)) rx ->
  bc_view (event_tx (pr_store p)) rx = [] ->
  (N.of_nat (length (deltas msg)) <= bc_cap (event_tx (pr_store p)))%N ->
  exists p1, pexec (PInbound i now) p = Some p1 /\ main_alive p1 = true
    /\ state (pr_store p1) = absorb_all (state (pr_store p)) (deltas msg)
    /\ waiting p1 j c (changed_keys (state (pr_store p)) (deltas msg) ≫= final_event (state (pr_store p1))).
Proof.
  intros Halive Hg Hi -> He Hlen Hc Hroom Hsub Hl Hv Hcap.
  pose proof (read_message_frame msg payload [] e (decode_encode _ _ He) Hlen) as Hrd.
  rewrite app_nil_r in Hrd. pose proof (merge_delta_state (pr_store p) (deltas msg)) as Hst.
  pose proof (merge_delta_keys (pr_store p) (deltas msg)) as Hk.
  destruct (merge_delta (pr_store p) (deltas msg)) as [st upd] eqn:Hm. cbn [fst snd] in *. subst upd.
  apply merge_delta_sends in Hm as Hs. destruct Hs as [Htx _].
  eexists. split; [|split; [|split]].
  - unfold pexec. rewrite Halive. unfold pexec_listener. rewrite Hg. unfold mbind, option_bind.
    rewrite Hi. cbn [inbound_step]. rewrite Hrd, Hm. done.
  - done.
  - done.
  - split; [done|]. split; [done|]. exists rx. cbn [pr_store with_shared with_listener].
    rewrite Htx. destruct (bc_sends (event_tx (pr_store p)) rx
      (changed_keys (state (pr_store p)) (deltas msg) ≫= final_event (state st)) Hl) as (? & -> & ->).
    rewrite Hv. split_and!; try done.
    pose proof (events_length (state (pr_store p)) (state st) (deltas msg)). cbn [app]. lia.
Qed.

(** ** Property *)

(** C20: a value in the store of one node reaches the clients of another.  Node
    [pa] holds [v] under [key], newer than its cursor for a target of its
    round; the push of that target, if it fits in a frame, is what the
    inbound task [i] of the running process [pb] is about to read.  A client
    of [pb] has subscribed to a prefix of [key], has nothing waiting, and
    accepts what is written; [pb] does not have a value as good yet.  The
    delta has no more entries than the configured capacity of the event
    channel of [pb] (beyond it the client can lag and miss the update), and
    serialising an update never fails.  Then
    the merge and at most one turn of the connection per entry of the delta
    store the value at [pb] and write its [state.update] to the client. *)
Theorem stored_value_reaches_remote_subscriber
    (pa : Proc) it gen pid info task key v payload uuid config p0 acts pb i now e1 e2 sent w j env c rx :
  (* the sending node *)
  state (pr_store pa) !! key = Some v -> (last_sync_ts info < timestamp v)%N ->
  round_target it (pr_store pa) (pr_config pa) gen (pid, info) = Some task ->
  encode (task_msg task) = Ok payload -> (N.of_nat (length payload) <= MAX_MESSAGE_BYTES)%N ->
  write_message (mk_writer [] None e1) (task_msg task) = (Ok tt, mk_writer sent None e1) ->
  (* the receiving node *)
  main_start uuid config = Done p0 -> prun acts p0 = Some pb -> main_alive pb = true ->
  pr_gossip pb = true -> pr_inbound pb !! i = Some (InRead (mk_reader sent e2) w) ->
  ~ dominates (state (pr_store pb)) (key, v) ->
  (* its client *)
  conn_at pb j c -> subscription c = Some rx -> bc_view (event_tx (pr_store pb)) rx = [] ->
  key_matches (sub_prefix c) key = true -> room (out c) = None ->
  (N.of_nat (length (deltas (task_msg task))) <= event_channel_capacity config)%N ->
  exists n p' c' text pre post,
    n <= length (deltas (task_msg task))
    /\ prun (PInbound i now :: replicate n (event_turn j env c)) pb = Some p'
    /\ state (pr_store p') !! key = Some v
    /\ conn_at p' j c' /\ to_string (state_update key v) = Ok text
    /\ written (out c') = written (out c) ++ pre ++ line_bytes text ++ post.
Proof.
  intros Hk Hts Ht He Hlen Hw Hst Hr Halive Hg Hi Hnews Hc Hsub Hv Hm Hroom Hcap.
  rewrite (write_message_ok (task_msg task) payload [] e1 He) in Hw. injection Hw as <-.
  destruct (round_target_Some _ _ _ _ _ _ _ Ht) as (_ & _ & Hd & _).
  assert (sub_inv pb) as Hinv by (eapply sub_inv_run, Hr; by eapply sub_inv_start).
  pose proof (si_cap pb Hinv) as Hcap'. pose proof (prun_config _ _ _ Hr) as Hcfg.
  pose proof (main_start_state _ _ _ Hst) as (_ & _ & Hcfg0 & _). rewrite Hcfg, Hcfg0 in Hcap'.
  destruct (inbound_merge_announced pb i now (frame payload) e2 w (task_msg task) payload j c rx)
    as (p1 & Hx & Halive1 & Hs1 & Hw1); try done.
  { eapply si_live; eassumption. }
  { lia. }
  assert (absorb_all (state (pr_store pb)) (deltas (task_msg task)) !! key = Some v) as Hkey.
  { apply absorb_all_news; [| |done]; rewrite Hd; [apply delta_since_map_NoDup|].
    by apply elem_of_delta_since_map. }
  assert (mk_event key v ∈ changed_keys (state (pr_store pb)) (deltas (task_msg task))
            ≫= final_event (state (pr_store p1))) as Hev.
  { apply list_elem_of_bind. exists key. unfold final_event. rewrite Hs1, Hkey. split; [by left|].
    apply changed_keys_iff. rewrite Hkey. intros E. apply Hnews. by exists v. }
  set (evs := changed_keys _ _ ≫= _) in *.
  destruct (waiting_served evs p1 j c env Halive1 Hw1) as (p2 & c2 & lines & Hrun & Hw2 & Hs2 & Hf & Ho).
  assert (state_update key v ∈ updates (sub_prefix c) evs) as Hin.
  { apply list_elem_of_bind. exists (mk_event key v). split; [|done]. cbn. rewrite Hm. by left. }
  apply list_elem_of_split in Hin as (n1 & n2 & Hsplit). rewrite Hsplit in Hf.
  apply Forall2_app_inv_l in Hf as (l1 & l2 & _ & Hf & ->).
  apply Forall2_cons_inv_l in Hf as (text & l3 & Htext & _ & ->).
  exists (length evs), p2, c2, text, (l1 ≫= line_bytes), (l3 ≫= line_bytes). split_and!.
  - apply events_length.
  - cbn [prun]. unfold mbind, option_bind. by rewrite Hx.
  - by rewrite Hs2, Hs1.
  - apply Hw2.
  - done.
  - by rewrite Ho, bind_app.
Qed.
End delivery.
