(* ===== verification/ClientReplica.v ===== *)
(** The replica a client keeps from what a node writes to it: the
    [state.update] notifications of its subscription and, after a
    [state.lag], an answer to [sync.delta].  The client is not part of the
    sources; it merges what it reads as a node would. *)
From S2P Require Import Prelude Crdt Replica Broadcast Store Config DashMap Peer Protocol Manager.
From S2P Require Import RpcTypes RpcHandler RpcServer Process ProcessLemmas Subscribers.

(** What a client reads in a notification. *)
Definition read_update (n : RpcNotification) : option (string * LwwValue) :=
  if bool_decide (ntf_method n = "state.update") then entry_of_json (ntf_params n) else None.

Definition client_absorbs (r : StateMap) (pushes : list RpcNotification) : StateMap :=
  absorb_all r (omap read_update pushes).

Lemma read_state_update key v : read_update (state_update key v) = Some (key, v).
Proof. apply (entry_of_entry_json key v). Qed.

Lemma read_lag n : read_update (lag n) = None.
Proof. done. Qed.

Section client.
Context `{BroadcastLib StateEvent, DashMapLib PeerInfo}.
Context `{Codec GossipMessage, Codec GossipAck}.
Context `{RequestParser, ToJson RpcResponse, ToJson RpcError, ToJson RpcNotification}.
Implicit Types p : Proc.

(** ** The announcements determine the store *)

Lemma dispatch_events_cases env h raw :
  dispatch_events env h raw = []
  \/ exists key value s w, set (env_clock env) (rpc_store h) key value = Done (s, w)
       /\ dispatch_events env h raw = [mk_event key w].
Proof.
  unfold dispatch_events. destruct (from_str raw) as [req|]; [|by left]. case_bool_decide; [|by left].
  destruct (value_get "key" _ ≫= _) as [key|]; [|by left].
  destruct (value_get "value" _ ≫= _) as [value|]; [|by left].
  destruct (set _ _ key value) as [[s w]|] eqn:E; [|by left]. right. by exists key, value, s, w.
Qed.

Lemma final_events_pairs m ks :
  ev_pair <$> (ks ≫= final_event m) = ks ≫= fun k => option_list ((k,.) <$> m !! k).
Proof.
  induction ks as [|k ks IH]; [done|]. cbn [mbind list_bind]. rewrite fmap_app. f_equal; [|exact IH].
  unfold final_event. by destruct (m !! k).
Qed.

Lemma merge_announced m d :
  absorb_all m (ev_pair <$> (changed_keys m d ≫= final_event (absorb_all m d))) = absorb_all m d.
Proof. rewrite final_events_pairs. apply absorb_all_final, changed_keys_iff. Qed.

(** A step of the process absorbs what it announces, and holds it. *)
Lemma pstep_announced p a p' :
  pstep p a p' ->
  state (pr_store p') = absorb_all (state (pr_store p)) (ev_pair <$> announced a p)
  /\ (forall kv, kv ∈ ev_pair <$> announced a p -> state (pr_store p') !! kv.1 = Some kv.2).
Proof.
  destruct 1 as [| | | | | | |i env a c o Hi _ Ho| | | | | |i now r w e r' _ Hi Hr
    |i now r w msg r' store updated _ Hi Hr Hm|i now msg ack w _ Hi|i now ack w res w' _ Hi _| | | | | |];
    cbn [announced]; rewrite ?Hi, ?Hr;
    try (split; [done|by intros kv ?%not_elem_of_nil]).
  - cbn [conn_client]. destruct o as [[[h' c'] fl]|msg].
    2: { rewrite (turn_events_panic _ _ _ _ _ Ho). split; [done|by intros kv ?%not_elem_of_nil]. }
    apply conn_step_effect in Ho as [(_ & _ & Hst) _]. split; [exact Hst|].
    cbn [end_turn pr_store with_rpc with_shared]. rewrite Hst.
    destruct a; cbn [turn_events]; try by intros kv ?%not_elem_of_nil.
    case_bool_decide; [by intros kv ?%not_elem_of_nil|]. unfold line_events.
    case_bool_decide; [by intros kv ?%not_elem_of_nil|].
    destruct (dispatch_events_cases env (handler_of p) (next_request c))
      as [->|(key & value & s & w & Hset & ->)]; [by intros kv ?%not_elem_of_nil|].
    apply set_Done in Hset as (t & _ & _ & -> & _). intros kv ->%list_elem_of_singleton.
    change (absorb (state (pr_store p)) (key, join_value (state (pr_store p) !! key)
      (mk_lww value t (store_node_id (pr_store p)))) !! key = Some (join_value (state (pr_store p) !! key)
      (mk_lww value t (store_node_id (pr_store p))))).
    by rewrite absorb_winner, lookup_absorb, decide_True.
  - rewrite Hm. pose proof (merge_delta_state (pr_store p) (deltas msg)) as Hst.
    pose proof (merge_delta_keys (pr_store p) (deltas msg)) as Hk. rewrite Hm in Hst, Hk.
    cbn [fst snd] in Hst, Hk. subst updated. cbn [pr_store put_inbound with_listener with_shared].
    rewrite Hst. split; [by rewrite merge_announced|]. rewrite final_events_pairs.
    intros [k v] (k' & Hin & _)%list_elem_of_bind.
    destruct (absorb_all _ _ !! k') as [w'|] eqn:E; [|by apply not_elem_of_nil in Hin].
    by apply list_elem_of_singleton in Hin as [= -> ->].
Qed.

Lemma prun_announced acts p p' :
  prun acts p = Some p' ->
  state (pr_store p') = absorb_all (state (pr_store p)) (ev_pair <$> over_run announced acts p)
  /\ (forall kv, kv ∈ ev_pair <$> over_run announced acts p -> behind (state (pr_store p')) kv).
Proof.
  apply (prun_ind (fun acts p' =>
    state (pr_store p') = absorb_all (state (pr_store p)) (ev_pair <$> over_run announced acts p)
    /\ forall kv, kv ∈ ev_pair <$> over_run announced acts p -> behind (state (pr_store p')) kv)).
  { split; [done|by intros kv ?%not_elem_of_nil]. }
  intros pre p1 a p2 Hr [IH1 IH2] [_ Hs]%pexec_pstep. apply pstep_announced in Hs as [Hs1 Hs2].
  rewrite (over_run_snoc _ _ _ _ _ Hr), fmap_app. split; [by rewrite absorb_all_app, <-IH1|].
  intros kv [Hin|Hin]%elem_of_app.
  - rewrite Hs1. by apply behind_absorb_all, IH2.
  - destruct kv as [k v]. apply behind_lookup, (Hs2 _ Hin).
Qed.

Context `{!BroadcastLaws StateEvent}.

(** What is read in the notifications of the items of a subscription is
    among their events. *)
Lemma read_items prefix (items : list item) kv :
  kv ∈ omap read_update (items ≫= item_push prefix) -> kv ∈ ev_pair <$> (items ≫= item_events).
Proof.
  intros (n & Hn & Hr)%list_elem_of_omap. apply list_elem_of_bind in Hn as (it & Hn & Hit).
  destruct it as [ev|missed]; unfold item_push, event_notification in Hn.
  - destruct (key_matches _ _); [|by apply not_elem_of_nil in Hn].
    apply list_elem_of_singleton in Hn as ->. rewrite read_state_update in Hr. injection Hr as <-.
    apply list_elem_of_fmap. exists ev. split; [done|]. apply list_elem_of_bind. exists (ItEvent ev).
    split; [by left|done].
  - apply list_elem_of_singleton in Hn as ->. by rewrite read_lag in Hr.
Qed.

Lemma read_updates (evs : list StateEvent) :
  omap read_update ((fun ev => state_update (ev_key ev) (ev_value ev)) <$> evs) = ev_pair <$> evs.
Proof.
  induction evs as [|ev evs IH]; [done|]. rewrite !fmap_cons. cbn [omap list_omap].
  by rewrite read_state_update, IH.
Qed.

(** Without a prefix every key matches. *)
Lemma filter_no_prefix (evs : list StateEvent) :
  filter (fun ev => key_matches None (ev_key ev)) evs = evs.
Proof. induction evs as [|ev evs IH]; [done|]. by rewrite filter_cons, decide_True, IH. Qed.

Abbreviation tx_of p := (event_tx (pr_store p)).

(** ** Property *)

(** C28: a client that subscribes without a prefix and merges what it is
    written keeps a copy of the store.  Take a connection that is subscribed
    with nothing waiting, stays open and does not subscribe again, and a
    replica of the client that follows the store (any part of an answer to
    [sync.delta] does).  (a) Whatever is dropped, the replica keeps following
    the store: every value of it is the one the store holds, or a smaller
    one.  (b) If it was equal to the store, the announcements fit the
    configured capacity and none is waiting, it is equal to the store again.
    (c) In any case the answer to [sync.delta] with "since" 0 makes it equal,
    provided no timestamp is 0. *)
Theorem client_replica_tracks_store uuid config p0 acts0 p acts p' i c c' rx rx' r :
  main_start uuid config = Done p0 -> prun acts0 p0 = Some p -> prun acts p = Some p' ->
  conn_at p i c -> subscription c = Some rx -> sub_prefix c = None -> bc_view (tx_of p) rx = [] ->
  conn_at p' i c' -> subscription c' = Some rx' ->
  Forall not_subscribing (over_run (requests i) acts p) ->
  follows (state (pr_store p)) r ->
  let r' := client_absorbs r (over_run (pushed i) acts p) in
  follows (state (pr_store p')) r'
  /\ (r = state (pr_store p) -> bc_view (tx_of p') rx' = [] ->
      (N.of_nat (length (over_run announced acts p)) <= event_channel_capacity config)%N ->
      r' = state (pr_store p'))
  /\ ((forall k v, state (pr_store p') !! k = Some v -> (0 < timestamp v)%N) ->
      forall it, absorb_all r' (delta_since it (pr_store p') 0) = state (pr_store p')).
Proof.
  intros Hst Hr0 Hr Hi Hsub Hpre Hv0 Hi' Hsub' Hq Hfol. cbv zeta.
  destruct (connection_account _ _ _ _ _ _ _ _ _ _ _ Hst Hr0 Hr Hi Hsub Hi' Hq)
    as (rx2 & items & Hsub2 & Hv & Hp & Hm).
  assert (rx2 = rx') as -> by congruence. rewrite Hv0 in *. cbn [app] in Hv, Hm.
  destruct (prun_announced _ _ _ Hr) as [Hs Hb].
  assert (follows (state (pr_store p')) (client_absorbs r (over_run (pushed i) acts p))) as Hf.
  { apply follows_absorb_all; [rewrite Hs; by apply follows_later|]. rewrite Hp.
    intros kv Hkv%read_items. apply Hb. rewrite Hv, fmap_app. apply elem_of_app. by left. }
  split; [exact Hf|]. split.
  - intros -> Hnil Hle. unfold client_absorbs. rewrite Hp, items_complete.
    + rewrite Hpre, filter_no_prefix, read_updates, Hs. f_equal.
      by rewrite Hv, Hnil, app_nil_r.
    + apply no_lag. intros missed Hin. destruct (Hm _ Hin). lia.
  - intros Hpos it. apply follows_complete; [done| |].
    + intros [k v] [Hk _]%elem_of_delta_since_map. by apply behind_lookup.
    + intros k v Hk. left. apply elem_of_delta_since_map. eauto.
Qed.
End client.
