(* ===== verification/NetworkRefines.v ===== *)
(** A network of processes implements a cluster: every step of Network.v is
    matched by steps of Cluster.v, or none.  The cluster forgets the RPC side,
    the accept loops, the event channels and the bytes; what is proved of
    all executions of clusters holds of networks of processes. *)
From S2P Require Import Prelude Crdt Replica Broadcast Store Config DashMap Peer Protocol Manager.
From S2P Require Import Cluster ClusterLemmas ClusterSync RpcTypes RpcHandler RpcServer.
From S2P Require Import Process ProcessLemmas ClientReplica Network.

Section refinement.
Context `{BroadcastLib StateEvent, DashMapLib PeerInfo}.
Context `{Codec GossipMessage, Codec GossipAck}.
Context `{RequestParser, ToJson RpcResponse, ToJson RpcError, ToJson RpcNotification}.
Implicit Types (p : Proc) (n : Node) (f : flight) (l : link).

(** ** The relation *)

Definition round_of (s : sched_state) : option (N * list (string * PeerInfo)) :=
  match s with Serving gen ts => Some (gen, ts) | _ => None end.

Record same_node p n : Prop := {
  sn_gossip : pr_gossip p = true;
  sn_config : mgr_config (node_mgr n) = pr_config p;
  sn_state : node_state n = state (pr_store p);
  sn_id : node_id_of n = store_node_id (pr_store p);
  sn_peers : node_peers n = pr_peers p;
  sn_generation : mgr_generation (node_mgr n) = pr_generation p;
  sn_round : node_round n = round_of (pr_sched p);
}.

(** How far the inbound task has come, and how far the flight. *)
Definition inbound_phase (task : SendTask) (s : inbound_state) (ph : phase) : Prop :=
  match s with
  | InRead r _ => ph = Sending /\ forall msg r', read_message r = (Ok msg, r') -> msg = task_msg task
  | InMerged msg ack _ => ph = Merged ack /\ msg = task_msg task
  | InRegistered ack _ => ph = AckSent ack
  | InDone (Ok _) _ => ph = Closed \/ exists ack, ph = AckSent ack
  | InDone (Err _) _ => ph = Lost \/ ph = Closed \/ exists ack, ph = AckSent ack
  end.

Definition link_phase (ps : gmap string Proc) l (ph : phase) : Prop :=
  match lk_to l with
  | None => ph = Sending
  | Some j => exists d s, ps !! lk_dst l = Some d /\ pr_inbound d !! j = Some s /\ inbound_phase (lk_task l) s ph
  end.

(** The send task waits exactly while the flight does, and a flight that is
    closed does not. *)
Definition link_waiting (ps : gmap string Proc) l f : Prop :=
  exists p, ps !! lk_src l = Some p /\
    match pr_sends p !! lk_idx l with
    | Some (SendRunning task) => task = lk_task l /\ fl_waiting f = true /\ fl_phase f <> Closed
    | Some (SendDone _) => fl_waiting f = false
    | None => False
    end.

Record link_ok (ps : gmap string Proc) l f : Prop := {
  lo_src : fl_src f = lk_src l;
  lo_task : fl_task f = lk_task l;
  lo_waiting : link_waiting ps l f;
  lo_phase : link_phase ps l (fl_phase f);
}.

Record related (net : Net) (c : Cluster) : Prop := {
  re_nodes a : match procs net !! a, nodes c !! a with
               | Some p, Some n => same_node p n
               | None, None => True
               | _, _ => False
               end;
  re_length : length (links net) = length (flights c);
  re_link k l f : links net !! k = Some l -> flights c !! k = Some f -> link_ok (procs net) l f;
  re_send k1 k2 l1 l2 : links net !! k1 = Some l1 -> links net !! k2 = Some l2 ->
    lk_src l1 = lk_src l2 -> lk_idx l1 = lk_idx l2 -> k1 = k2;
  re_accept k1 k2 l1 l2 j : links net !! k1 = Some l1 -> links net !! k2 = Some l2 ->
    lk_dst l1 = lk_dst l2 -> lk_to l1 = Some j -> lk_to l2 = Some j -> k1 = k2;
  (** every inbound task and every send task belongs to a link *)
  re_inbound a p j s : procs net !! a = Some p -> pr_inbound p !! j = Some s ->
    exists k l, links net !! k = Some l /\ lk_dst l = a /\ lk_to l = Some j;
}.

Lemma related_node net c a p :
  related net c -> procs net !! a = Some p -> exists n, nodes c !! a = Some n /\ same_node p n.
Proof.
  intros Hr Hp. pose proof (re_nodes _ _ Hr a) as Hn. rewrite Hp in Hn.
  destruct (nodes c !! a) as [n|]; [by exists n|done].
Qed.

(** The part of a process the network sees. *)
Definition net_view p := (pr_gossip p, pr_config p, state (pr_store p), store_node_id (pr_store p),
  pr_peers p, pr_generation p, round_of (pr_sched p)).

Lemma same_node_view p p' n n' :
  same_node p n -> net_view p' = net_view p -> node_mgr n' = node_mgr n -> node_round n' = node_round n ->
  same_node p' n'.
Proof.
  unfold net_view. intros [] [= E1 E2 E3 E4 E5 E6 E7] Hm Hr.
  unfold node_state, node_id_of, node_peers, node_store in *.
  split; unfold node_state, node_id_of, node_peers, node_store; rewrite ?Hm, ?Hr; congruence.
Qed.

(** Links do not depend on what changes in a process but for its inbound and
    send tasks, which may only be added. *)
Lemma link_ok_view ps a p p' l f :
  ps !! a = Some p ->
  (forall i s, pr_sends p !! i = Some s -> pr_sends p' !! i = Some s) ->
  (forall j s, pr_inbound p !! j = Some s -> pr_inbound p' !! j = Some s) ->
  link_ok ps l f -> link_ok (<[a := p']> ps) l f.
Proof.
  intros Ha Hs Hi [Hsrc Htask (q & Hq & Hw) Hph]. split; [done|done|..].
  - unfold link_waiting. destruct (decide (a = lk_src l)) as [->|Hne].
    + exists p'. rewrite lookup_insert_eq. split; [done|]. assert (q = p) as -> by congruence.
      destruct (pr_sends p !! lk_idx l) as [s|] eqn:E; [|done]. by rewrite (Hs _ _ E).
    + exists q. by rewrite lookup_insert_ne.
  - unfold link_phase in *. destruct (lk_to l) as [j|]; [|done].
    destruct Hph as (d & s & Hd & Hj & Hph). destruct (decide (a = lk_dst l)) as [->|Hne].
    + exists p', s. rewrite lookup_insert_eq. assert (d = p) as -> by congruence. eauto.
    + exists d, s. by rewrite lookup_insert_ne.
Qed.

(** ** Updates *)

Lemma nodes_update net c a p' n' fs :
  related net c -> is_Some (procs net !! a) -> same_node p' n' ->
  forall b, match <[a := p']> (procs net) !! b, nodes (mk_cluster (<[a := n']> (nodes c)) fs) !! b with
            | Some p, Some n => same_node p n
            | None, None => True
            | _, _ => False
            end.
Proof.
  intros Hr Ha Hs b. cbn. destruct (decide (a = b)) as [->|Hne].
  - by rewrite !lookup_insert_eq.
  - rewrite !lookup_insert_ne by done. apply (re_nodes _ _ Hr).
Qed.

(** A process changes, no link does. *)
Lemma related_put net c a p p' n' :
  related net c -> procs net !! a = Some p -> same_node p' n' ->
  pr_sends p' = pr_sends p -> pr_inbound p' = pr_inbound p ->
  related (put_proc net a p') (put_node c a n').
Proof.
  intros Hr Ha Hs Hse Hin. split; cbn [procs links flights put_proc put_node].
  - apply nodes_update; [done|by eexists|done].
  - apply (re_length _ _ Hr).
  - intros k l f Hl Hf. apply (link_ok_view _ _ p); [done|by rewrite Hse|by rewrite Hin|].
    by eapply re_link.
  - apply (re_send _ _ Hr).
  - apply (re_accept _ _ Hr).
  - intros b q j s Hb Hj. destruct (decide (a = b)) as [->|Hne].
    + rewrite lookup_insert_eq in Hb. injection Hb as <-. rewrite Hin in Hj. by eapply re_inbound.
    + rewrite lookup_insert_ne in Hb by done. by eapply re_inbound.
Qed.

(** A process changes, and one flight with it. *)
Lemma related_link net c a p p' n' k l f f' :
  related net c -> links net !! k = Some l -> flights c !! k = Some f ->
  procs net !! a = Some p -> same_node p' n' ->
  (forall k' l' f'', k' <> k -> links net !! k' = Some l' -> link_ok (procs net) l' f'' ->
     link_ok (<[a := p']> (procs net)) l' f'') ->
  link_ok (<[a := p']> (procs net)) l f' ->
  (forall j s, pr_inbound p' !! j = Some s -> is_Some (pr_inbound p !! j)) ->
  related (put_proc net a p') (put_flight (put_node c a n') k f').
Proof.
  intros Hr Hl Hf Ha Hs Hoth Hok Hin. pose proof (lookup_lt_Some _ _ _ Hf) as Hlt.
  split; cbn [procs links flights put_proc put_node put_flight].
  - apply nodes_update; [done|by eexists|done].
  - rewrite length_insert. apply (re_length _ _ Hr).
  - intros k' l' g Hl' Hg. destruct (decide (k = k')) as [<-|Hne].
    + rewrite list_lookup_insert_eq in Hg by done. by simplify_eq.
    + rewrite list_lookup_insert_ne in Hg by done. apply (Hoth k'); [congruence|done|by eapply re_link].
  - apply (re_send _ _ Hr).
  - apply (re_accept _ _ Hr).
  - intros b q j s Hb Hj. destruct (decide (a = b)) as [->|Hne].
    + rewrite lookup_insert_eq in Hb. injection Hb as <-. destruct (Hin _ _ Hj) as [s' Hj'].
      by eapply re_inbound.
    + rewrite lookup_insert_ne in Hb by done. by eapply re_inbound.
Qed.

(** An inbound task changes: the other links do not see it. *)
Lemma inbound_others net c a p p' k l j s' :
  related net c -> links net !! k = Some l -> lk_dst l = a -> lk_to l = Some j ->
  procs net !! a = Some p -> pr_sends p' = pr_sends p -> pr_inbound p' = <[j := s']> (pr_inbound p) ->
  forall k' l' f, k' <> k -> links net !! k' = Some l' -> link_ok (procs net) l' f ->
    link_ok (<[a := p']> (procs net)) l' f.
Proof.
  intros Hr Hl Hd Hj Ha Hse Hin k' l' f Hne Hl' [Hsrc Htask (q & Hq & Hw) Hph]. split; [done|done|..].
  - unfold link_waiting. destruct (decide (a = lk_src l')) as [->|Hn].
    + exists p'. rewrite lookup_insert_eq. split; [done|]. assert (q = p) as -> by congruence. by rewrite Hse.
    + exists q. by rewrite lookup_insert_ne.
  - unfold link_phase in *. destruct (lk_to l') as [j'|] eqn:Hj'; [|done].
    destruct Hph as (d & s & Hdd & Hjj & Hph). destruct (decide (a = lk_dst l')) as [Heq|Hn].
    + exists p', s. rewrite <-Heq in *. rewrite lookup_insert_eq. split; [done|]. split; [|done].
      assert (d = p) as -> by congruence. rewrite Hin, list_lookup_insert_ne; [done|]. intros <-.
      apply Hne. eapply (re_accept _ _ Hr); [done|done|congruence|done|done].
    + exists d, s. by rewrite lookup_insert_ne.
Qed.

(** A send task ends: the other links do not see it. *)
Lemma send_others net c a p p' k l s' :
  related net c -> links net !! k = Some l -> lk_src l = a ->
  procs net !! a = Some p -> pr_sends p' = <[lk_idx l := s']> (pr_sends p) -> pr_inbound p' = pr_inbound p ->
  forall k' l' f, k' <> k -> links net !! k' = Some l' -> link_ok (procs net) l' f ->
    link_ok (<[a := p']> (procs net)) l' f.
Proof.
  intros Hr Hl Hs Ha Hse Hin k' l' f Hne Hl' [Hsrc Htask (q & Hq & Hw) Hph]. split; [done|done|..].
  - unfold link_waiting. destruct (decide (a = lk_src l')) as [Heq|Hn].
    + exists p'. rewrite <-Heq in *. rewrite lookup_insert_eq. split; [done|].
      assert (q = p) as -> by congruence. rewrite Hse, list_lookup_insert_ne; [done|]. intros Hx.
      apply Hne. eapply (re_send _ _ Hr); [done|done|congruence|done].
    + exists q. by rewrite lookup_insert_ne.
  - unfold link_phase in *. destruct (lk_to l') as [j'|] eqn:Hj'; [|done].
    destruct Hph as (d & s & Hdd & Hjj & Hph). destruct (decide (a = lk_dst l')) as [Heq|Hn].
    + exists p', s. rewrite <-Heq in *. rewrite lookup_insert_eq. split; [done|]. split; [|done].
      assert (d = p) as -> by congruence. by rewrite Hin.
    + exists d, s. by rewrite lookup_insert_ne.
Qed.

(** ** Local steps *)

(** Some steps of the cluster, none of them a write, lead to what [net] is
    related to. *)
Definition matched net c : Prop :=
  exists cacts c', Forall no_set cacts /\ run cacts c = Some c' /\ related net c'.

Lemma matched_none net c : related net c -> matched net c.
Proof. intros Hr. by exists [], c. Qed.

Lemma run_one act c c' : exec act c = Some c' -> run [act] c = Some c'.
Proof. intros He. cbn. unfold mbind, option_bind. by rewrite He. Qed.

Lemma matched_one act net c c' : no_set act -> exec act c = Some c' -> related net c' -> matched net c.
Proof.
  intros Hn He Hr. exists [act], c'. split; [by repeat constructor|]. split; [by apply run_one|done].
Qed.

(** A step the cluster does not see. *)
Lemma matched_view net c a p p' :
  related net c -> procs net !! a = Some p -> net_view p' = net_view p ->
  pr_sends p' = pr_sends p -> pr_inbound p' = pr_inbound p -> matched (put_proc net a p') c.
Proof.
  intros Hr Ha Hv Hse Hin. destruct (related_node _ _ _ _ Hr Ha) as (n & Hn & Hs). apply matched_none.
  replace c with (put_node c a n) by (destruct c; unfold put_node; cbn in *; by rewrite insert_id).
  eapply related_put; [done|done| |done|done]. by eapply same_node_view.
Qed.

(** What a turn of a connection does to the store. *)
Lemma turn_events_cases env a h c :
  turn_events env a h c = []
  \/ exists key value s w, set (env_clock env) (rpc_store h) key value = Done (s, w)
       /\ turn_events env a h c = [mk_event key w].
Proof.
  destruct a; try by left. cbn [turn_events]. case_bool_decide; [by left|]. unfold line_events.
  case_bool_decide; [by left|]. apply dispatch_events_cases.
Qed.

(** A turn that writes is matched by that write. *)
Lemma matched_turn net c a p i env ar cl o :
  related net c -> procs net !! a = Some p -> conn_step env ar (handler_of p) cl = Some o ->
  let net' := put_proc net a (end_turn p i cl o) in
  let evs := turn_events env ar (handler_of p) cl in
  (evs = [] /\ matched net' c)
  \/ exists key val c', let act := ASet a (env_clock env) key val in
       exec act c = Some c' /\ related net' c' /\ evs <> [] /\ written act c = ev_pair <$> evs.
Proof.
  intros Hr Ha Ho. cbv zeta. destruct o as [[[h' cl'] fl]|msg].
  2: { left. split; [by eapply turn_events_panic|]. by apply (matched_view _ _ _ p). }
  apply conn_step_effect in Ho as [(Hp & Hid & Hst) _]. cbn [rpc_peers rpc_store handler_of] in Hp, Hid, Hst.
  destruct (turn_events_cases env ar (handler_of p) cl) as [Hev|(key & value & s & w & Hset & Hev)];
    rewrite Hev in *; cbn in Hst.
  { left. split; [done|]. apply (matched_view _ _ _ p); [done|done| |done|done].
    unfold net_view. cbn. by rewrite Hp, Hid, Hst. }
  right. exists key, value.
  destruct (related_node _ _ _ _ Hr Ha) as (n & Hn & [Hg Hc Hs Hi Hps Hgen Hrd]).
  apply set_Done in Hset as (t & Ht & _ & -> & _). cbn [rpc_store handler_of] in *.
  pose proof (set_eq (env_clock env) (node_store n) key value t Ht) as Hx. cbv zeta in Hx.
  eexists. split; [unfold exec, mbind, option_bind; rewrite Hn, Hx; reflexivity|].
  unfold node_state, node_id_of in Hs, Hi. split; [|split; [done|]].
  - eapply related_put; [done|done| |done|done]. unfold node_store, node_peers in *.
    split; unfold node_state, node_id_of, node_store, node_peers; cbn; unfold node_peers; try congruence.
    rewrite Hst, Hs, Hi. symmetry. apply absorb_winner.
  - cbn [written]. rewrite Hn, Hx. cbn. unfold ev_pair. cbn. by rewrite Hs, Hi.
Qed.

Lemma matched_tick net c a p (sh : shuffler) t ts :
  related net c -> procs net !! a = Some p -> pr_sched p = Ticking ->
  select_targets sh (pr_peers p) (pr_config p) = t :: ts ->
  matched (put_proc net a (with_sched p (wrap64 (pr_generation p + 1))
    (Serving (pr_generation p) (t :: ts)) (pr_sends p))) c.
Proof.
  intros Hr Ha Hsch Hsel. destruct (related_node _ _ _ _ Hr Ha) as (n & Hn & [Hg Hc Hs Hi Hps Hgen Hrd]).
  rewrite Hsch in Hrd. cbn in Hrd. eapply (matched_one (ARoundStart a sh)); [done|..].
  - unfold exec, mbind, option_bind. rewrite Hn, Hrd, Hps, Hc, Hsel. reflexivity.
  - eapply related_put; [done|done| |done|done]. unfold node_state, node_id_of, node_store, node_peers in *.
    split; unfold node_state, node_id_of, node_store, node_peers; cbn; unfold node_peers; try congruence.
Qed.

(** The steps [cacts] of the cluster write what the step [act] writes, at the
    same reading of the clock. *)
Definition same_writes act net cacts c : Prop :=
  match net_written act net with
  | [] => Forall no_set cacts
  | ws => exists a clock key val, cacts = [ASet a clock key val] /\ net_stamp act = Some (a, clock)
            /\ written (ASet a clock key val) c = ws
  end.

Definition simulated act net net' c : Prop :=
  exists cacts c', run cacts c = Some c' /\ related net' c' /\ same_writes act net cacts c
    /\ forall a it, act = NTarget a it -> exists rest, cacts = ARoundTarget a it :: rest.

Lemma simulated_matched act net net' c :
  matched net' c -> net_written act net = [] -> (forall a it, act <> NTarget a it) -> simulated act net net' c.
Proof.
  intros (cacts & c' & Hns & Hr & Hrel) Hw Ht. exists cacts, c'. split; [done|]. split; [done|].
  split; [by unfold same_writes; rewrite Hw|]. intros a it ->. by destruct (Ht a it).
Qed.

Lemma matched_local net c a p act p' :
  related net c -> procs net !! a = Some p -> is_local act = true -> pstep p act p' ->
  simulated (NLocal a act) net (put_proc net a p') c.
Proof.
  intros Hr Ha Hl Hs. assert (pr_gossip p = true) as Hg by
    (destruct (related_node _ _ _ _ Hr Ha) as (n & _ & Hsn); apply Hsn).
  assert (forall i env ar, act = PTurn i env ar -> simulated (NLocal a act) net (put_proc net a p') c) as Hturn.
  { intros i env ar ->. inversion Hs as [| | | | | | |i' env' ar' cl o Hi Hca Ho| | | | | | | | | | | | | | |]; subst.
    assert (net_written (NLocal a (PTurn i env ar)) net = ev_pair <$> turn_events env ar (handler_of p) cl) as Hw.
    { cbn. by rewrite Ha, Hi. }
    destruct (matched_turn _ _ _ _ i _ _ _ _ Hr Ha Ho) as [[Hev Hm]|(key & val & c' & He & Hrel & Hev & Hwr)].
    - apply simulated_matched; [done|by rewrite Hw, Hev|done].
    - exists [ASet a (env_clock env) key val], c'. split; [by apply run_one|]. split; [done|]. split; [|done].
      unfold same_writes. rewrite Hw, <-Hwr. destruct (written _ c) as [|w ws] eqn:E; [|by eauto 10].
      symmetry in Hwr. by apply fmap_nil_inv in Hwr. }
  destruct (match act with PTurn _ _ _ => true | _ => false end) eqn:Hne; [destruct act; eauto; done|].
  apply simulated_matched; [clear Hturn| |done].
  2: { cbn. rewrite Ha. by destruct act. }
  destruct Hs as [| | | | | | |i env ar cl o _ _ Ho|now Hng| | | | | | | | |_ Hsc|
    |sh t ts _ Hsc Ht| |_ Hsc|]; try done; try (by apply (matched_view _ _ _ p)).
  - congruence.
  - apply (matched_view _ _ _ p); try done. unfold net_view. cbn. by rewrite Hg.
  - apply (matched_view _ _ _ p); try done. unfold net_view. cbn. by rewrite Hg.
  - apply (matched_view _ _ _ p); try done. unfold net_view. cbn. rewrite Hsc. by case_match.
  - by eapply matched_tick.
  - apply (matched_view _ _ _ p); try done. unfold net_view. cbn. by rewrite Hsc.
Qed.

(** ** Rounds and connections *)

Lemma round_target_ext it (s1 s2 : StateStore) config gen t :
  state s1 = state s2 -> store_node_id s1 = store_node_id s2 ->
  round_target it s1 config gen t = round_target it s2 config gen t.
Proof. intros Hs Hi. unfold round_target, delta_since. by rewrite Hs, Hi. Qed.

(** A new link for the send task just spawned. *)
Lemma related_new_link net c a p p' n' task :
  related net c -> procs net !! a = Some p -> same_node p' n' ->
  pr_sends p' = pr_sends p ++ [SendRunning task] -> pr_inbound p' = pr_inbound p ->
  related (mk_net (<[a := p']> (procs net)) (links net ++ [mk_link a (length (pr_sends p)) task None]))
    (mk_cluster (<[a := n']> (nodes c)) (flights c ++ [mk_flight a task Sending true])).
Proof.
  intros Hr Ha Hs Hse Hin. pose proof (re_length _ _ Hr) as Hlen.
  assert (forall k l, links net !! k = Some l -> lk_src l = a -> lk_idx l < length (pr_sends p)) as Hfresh.
  { intros k l Hk Hsrc. destruct (lookup_lt_is_Some_2 (flights c) k) as [f Hf];
      [rewrite <-Hlen; by eapply lookup_lt_Some|].
    destruct (lo_waiting _ _ _ (re_link _ _ Hr _ _ _ Hk Hf)) as (q & Hq & Hw).
    assert (q = p) as -> by congruence. apply lookup_lt_is_Some. by destruct (pr_sends p !! lk_idx l). }
  split; cbn [procs links flights].
  - apply nodes_update; [done|by eexists|done].
  - rewrite !length_app. cbn. lia.
  - intros k l f [Hl|[Hk Hl]]%lookup_app_Some [Hf|[Hk' Hf]]%lookup_app_Some.
    + apply (link_ok_view _ _ p); [done| |by rewrite Hin|by eapply re_link].
      intros i st Hi. rewrite Hse. by apply lookup_app_l_Some.
    + apply lookup_lt_Some in Hl. lia.
    + apply lookup_lt_Some in Hf. lia.
    + apply list_lookup_singleton_Some in Hl as [_ <-]. apply list_lookup_singleton_Some in Hf as [_ <-].
      split; [done|done| |done]. exists p'. rewrite lookup_insert_eq. split; [done|]. cbn [lk_idx].
      by rewrite Hse, list_lookup_middle.
  - intros k1 k2 l1 l2 [E1|[? E1]]%lookup_app_Some [E2|[? E2]]%lookup_app_Some Hsrc Hidx.
    + by eapply re_send.
    + apply list_lookup_singleton_Some in E2 as [_ <-]. cbn in *. apply Hfresh in E1; [lia|done].
    + apply list_lookup_singleton_Some in E1 as [_ <-]. cbn in *. apply Hfresh in E2; [lia|done].
    + apply list_lookup_singleton_Some in E1 as [? _]. apply list_lookup_singleton_Some in E2 as [? _]. lia.
  - intros k1 k2 l1 l2 j [E1|[? E1]]%lookup_app_Some [E2|[? E2]]%lookup_app_Some Hd Hj1 Hj2;
      try (apply list_lookup_singleton_Some in E1 as [_ <-]; done);
      try (apply list_lookup_singleton_Some in E2 as [_ <-]; done). by eapply re_accept.
  - intros b q j s Hb Hj. assert (exists k l, links net !! k = Some l /\ lk_dst l = b /\ lk_to l = Some j)
      as (k & l & Hk & ?).
    { destruct (decide (a = b)) as [->|Hne].
      - rewrite lookup_insert_eq in Hb. injection Hb as <-. rewrite Hin in Hj. by eapply re_inbound.
      - rewrite lookup_insert_ne in Hb by done. by eapply re_inbound. }
    exists k, l. split; [by apply lookup_app_l_Some|done].
Qed.

Lemma matched_target net c a p it gen t ts :
  related net c -> procs net !! a = Some p -> pr_sched p = Serving gen (t :: ts) ->
  let new := match round_target it (pr_store p) (pr_config p) gen t with
             | Some task => [SendRunning task] | None => [] end in
  let p' := with_sched p (pr_generation p) (match ts with [] => Ticking | _ => Serving gen ts end)
              (pr_sends p ++ new) in
  simulated (NTarget a it) net (mk_net (<[a := p']> (procs net))
    (links net ++ match spawned p p' with
                  | Some task => [mk_link a (length (pr_sends p)) task None] | None => [] end)) c.
Proof.
  intros Hr Ha Hsc. cbv zeta. destruct (related_node _ _ _ _ Hr Ha) as (n & Hn & [Hg Hc Hs Hi Hps Hgen Hrd]).
  rewrite Hsc in Hrd. cbn in Hrd.
  pose proof (round_target_ext it (node_store n) (pr_store p) (mgr_config (node_mgr n)) gen t Hs Hi) as Hrt.
  rewrite Hc in Hrt. set (ps' := match ts with [] => Ticking | _ => Serving gen ts end).
  set (n1 := mk_node (node_mgr n) (Some (gen, ts))). set (n2 := mk_node (node_mgr n) (round_of ps')).
  set (new := match round_target it (pr_store p) (pr_config p) gen t with
              | Some task => [mk_flight a task Sending true] | None => [] end).
  assert (run (ARoundTarget a it :: match ts with [] => [ARoundEnd a] | _ => [] end) c
          = Some (mk_cluster (<[a := n2]> (nodes c)) (flights c ++ new))) as Hrun.
  { cbn [run]. unfold exec at 1, mbind, option_bind. rewrite Hn, Hrd, Hc, Hrt. fold new n1.
    unfold n2, ps'. destruct ts as [|t' ts]; [|done]. cbn [run]. unfold exec, mbind, option_bind. cbn [nodes].
    rewrite lookup_insert_eq. unfold n1. cbn [node_round node_mgr]. unfold put_node. cbn [nodes flights].
    by rewrite insert_insert_eq. }
  eexists _, _. split; [exact Hrun|].
  enough (related (mk_net (<[a := with_sched p (pr_generation p) ps' (pr_sends p ++
      match round_target it (pr_store p) (pr_config p) gen t with Some task => [SendRunning task] | None => [] end)]>
      (procs net)) (links net ++ match spawned p (with_sched p (pr_generation p) ps' (pr_sends p ++
      match round_target it (pr_store p) (pr_config p) gen t with Some task => [SendRunning task] | None => [] end)) with
      | Some task => [mk_link a (length (pr_sends p)) task None] | None => [] end))
      (mk_cluster (<[a := n2]> (nodes c)) (flights c ++ new))) as Hrel.
  { split; [exact Hrel|]. split; [|intros ? ? [= <- <-]; by eexists].
    unfold same_writes. cbn. destruct ts; by repeat constructor. }
  unfold spawned. cbn [pr_sends with_sched].
  assert (forall sends, same_node (with_sched p (pr_generation p) ps' sends) n2) as Hsn by by split.
  unfold new. destruct (round_target it (pr_store p) (pr_config p) gen t) as [task|].
  - rewrite list_lookup_middle by done. by eapply related_new_link.
  - rewrite !app_nil_r, lookup_ge_None_2 by done. rewrite app_nil_r.
    apply (related_put net c a p (with_sched p (pr_generation p) ps' (pr_sends p)) n2); [done|done|apply Hsn|done|done].
Qed.

Lemma link_flight net c k l :
  related net c -> links net !! k = Some l ->
  exists f, flights c !! k = Some f /\ link_ok (procs net) l f.
Proof.
  intros Hr Hl. destruct (lookup_lt_is_Some_2 (flights c) k) as [f Hf].
  { rewrite <-(re_length _ _ Hr). by eapply lookup_lt_Some. }
  exists f. split; [done|]. by eapply re_link.
Qed.

(** The inbound tasks that links point to exist. *)
Lemma link_inbound net c k l j :
  related net c -> links net !! k = Some l -> lk_to l = Some j ->
  exists d s, procs net !! lk_dst l = Some d /\ pr_inbound d !! j = Some s.
Proof.
  intros Hr Hl Hj. destruct (link_flight _ _ _ _ Hr Hl) as (f & _ & Hok).
  pose proof (lo_phase _ _ _ Hok) as Hp. unfold link_phase in Hp. rewrite Hj in Hp.
  destruct Hp as (d & s & Hd & Hs & _). by exists d, s.
Qed.

(** A connection is accepted. *)
Lemma related_connect net c k l d d' r w :
  related net c -> links net !! k = Some l -> lk_to l = None -> procs net !! lk_dst l = Some d ->
  (forall msg r', read_message r = (Ok msg, r') -> msg = task_msg (lk_task l)) ->
  net_view d' = net_view d -> pr_sends d' = pr_sends d -> pr_inbound d' = pr_inbound d ++ [InRead r w] ->
  related (mk_net (<[lk_dst l := d']> (procs net))
             (<[k := mk_link (lk_src l) (lk_idx l) (lk_task l) (Some (length (pr_inbound d)))]> (links net))) c.
Proof.
  intros Hr Hl Hto Hd Hread Hv Hse Hin. destruct (related_node _ _ _ _ Hr Hd) as (n & Hn & Hs).
  pose proof (lookup_lt_Some _ _ _ Hl) as Hlt. set (a := lk_dst l) in *.
  set (l' := mk_link _ _ _ _). assert (same_node d' n) as Hs' by by eapply same_node_view.
  assert (forall l0 f, link_ok (procs net) l0 f -> link_ok (<[a := d']> (procs net)) l0 f) as Hview.
  { intros l0 f. apply (link_ok_view _ _ d); [done|by rewrite Hse|]. intros j0 s0 Hj0. rewrite Hin.
    by apply lookup_app_l_Some. }
  assert (forall k0 l0, links net !! k0 = Some l0 -> lk_dst l0 = a -> lk_to l0 <> Some (length (pr_inbound d)))
    as Hfresh.
  { intros k0 l0 Hk0 Hd0 Hj0. destruct (link_inbound _ _ _ _ _ Hr Hk0 Hj0) as (d1 & s1 & Hd1 & Hs1).
    assert (d1 = d) as -> by congruence. apply lookup_lt_Some in Hs1. lia. }
  split; cbn [procs links].
  - pose proof (nodes_update net c a d' n (flights c) Hr (mk_is_Some _ _ Hd) Hs') as Hx.
    cbn [nodes] in Hx. by rewrite (insert_id (nodes c) a n Hn) in Hx.
  - rewrite length_insert. apply (re_length _ _ Hr).
  - intros k0 l0 f [(<- & <- & _)|[Hne Hk0]]%list_lookup_insert_Some Hf.
    + destruct (re_link _ _ Hr _ _ _ Hl Hf) as [Hsrc Htask Hw Hp]. unfold link_phase in Hp. rewrite Hto in Hp.
      destruct (Hview l f) as [_ _ Hw' _]; [by apply (re_link _ _ Hr k)|]. split; [done|done|exact Hw'|].
      unfold link_phase, l'. cbn [lk_to lk_dst lk_task]. fold a. exists d', (InRead r w).
      change (lk_dst l') with a. rewrite lookup_insert_eq. split; [done|].
      rewrite Hin, list_lookup_middle by done. done.
    + apply Hview. by apply (re_link _ _ Hr k0).
  - intros k1 k2 l1 l2 [(<- & <- & _)|[Hn1 E1]]%list_lookup_insert_Some
      [(<- & <- & _)|[Hn2 E2]]%list_lookup_insert_Some Hsrc Hidx; [done|..|by eapply re_send].
    + exfalso. apply Hn2. by apply (re_send _ _ Hr _ _ _ _ Hl E2).
    + exfalso. apply Hn1. by apply (re_send _ _ Hr _ _ _ _ Hl E1).
  - intros k1 k2 l1 l2 j [(<- & <- & _)|[Hn1 E1]]%list_lookup_insert_Some
      [(<- & <- & _)|[Hn2 E2]]%list_lookup_insert_Some Hdd Hj1 Hj2; [done|..|by eapply re_accept].
    + cbn in Hj1. injection Hj1 as <-. by destruct (Hfresh _ _ E2).
    + cbn in Hj2. injection Hj2 as <-. by destruct (Hfresh _ _ E1).
  - intros b q j s Hb Hj. apply lookup_insert_Some in Hb as [[<- <-]|[Hne Hb]].
    + rewrite Hin in Hj. apply lookup_app_Some in Hj as [Hj|[Hge Hj]].
      * destruct (re_inbound _ _ Hr _ _ _ _ Hd Hj) as (k0 & l0 & Hk0 & Hd0 & Hj0).
        assert (k <> k0) as Hkk by (intros <-; congruence).
        exists k0, l0. by rewrite list_lookup_insert_ne.
      * apply list_lookup_singleton_Some in Hj as [Hz _]. exists k, l'. rewrite list_lookup_insert_eq by done.
        split; [done|]. split; [done|]. cbn. f_equal. lia.
    + destruct (re_inbound _ _ Hr _ _ _ _ Hb Hj) as (k0 & l0 & Hk0 & Hd0 & Hj0).
      assert (k <> k0) as Hkk by (intros <-; unfold a in Hne; congruence).
      exists k0, l0. by rewrite list_lookup_insert_ne.
Qed.

(** ** Inbound tasks *)

(** The inbound task [j] of [p] moves to [s'], its flight to [f']. *)
Lemma related_inbound net c p p' n' k l f f' j s s' :
  related net c -> links net !! k = Some l -> flights c !! k = Some f -> lk_to l = Some j ->
  procs net !! lk_dst l = Some p -> pr_inbound p !! j = Some s ->
  same_node p' n' -> pr_sends p' = pr_sends p -> pr_inbound p' = <[j := s']> (pr_inbound p) ->
  fl_src f' = fl_src f -> fl_task f' = fl_task f -> fl_waiting f' = fl_waiting f ->
  (fl_phase f' = Closed -> fl_phase f = Closed) -> inbound_phase (lk_task l) s' (fl_phase f') ->
  related (put_proc net (lk_dst l) p') (put_flight (put_node c (lk_dst l) n') k f').
Proof.
  intros Hr Hl Hf Hto Hp Hj Hs Hse Hin Hsrc Htask Hwt Hcl Hph.
  eapply related_link; [done|exact Hl|exact Hf|exact Hp|exact Hs| | |].
  - by apply (inbound_others _ c _ p _ k l j s').
  - destruct (re_link _ _ Hr _ _ _ Hl Hf) as [Hsrc0 Htask0 (q & Hq & Hw) _].
    split; [congruence|congruence| |].
    + destruct (decide (lk_dst l = lk_src l)) as [Heq|Hne].
      * exists p'. rewrite Heq, lookup_insert_eq. split; [done|]. rewrite Heq in Hp.
        assert (q = p) as -> by congruence. rewrite Hse, Hwt.
        destruct (pr_sends p !! lk_idx l) as [[task|res]|]; naive_solver.
      * exists q. rewrite lookup_insert_ne by done. split; [done|]. rewrite Hwt.
        destruct (pr_sends q !! lk_idx l) as [[task|res]|]; naive_solver.
    + unfold link_phase. rewrite Hto. exists p', s'. rewrite lookup_insert_eq. split; [done|].
      rewrite Hin, list_lookup_insert_eq by (by eapply lookup_lt_Some). done.
  - intros j' s0. rewrite Hin. intros [(<- & _ & Hlt)|[_ Hj']]%list_lookup_insert_Some; [by eexists|by eexists].
Qed.

Lemma node_at_same c a n : nodes c !! a = Some n -> put_node c a n = c.
Proof. intros Hn. destruct c. unfold put_node. cbn in *. by rewrite insert_id. Qed.

Lemma inbound_link net c a p j s :
  related net c -> procs net !! a = Some p -> pr_inbound p !! j = Some s ->
  exists k l f, links net !! k = Some l /\ flights c !! k = Some f /\ lk_dst l = a /\ lk_to l = Some j
    /\ fl_task f = lk_task l /\ inbound_phase (lk_task l) s (fl_phase f).
Proof.
  intros Hr Ha Hj. destruct (re_inbound _ _ Hr _ _ _ _ Ha Hj) as (k & l & Hl & Hd & Hto).
  destruct (link_flight _ _ _ _ Hr Hl) as (f & Hf & [_ Htask _ Hph]). exists k, l, f.
  split_and!; try done. unfold link_phase in Hph. rewrite Hto in Hph. destruct Hph as (d & s0 & Hd0 & Hs0 & Hph).
  assert (d = p) as -> by congruence. by assert (s0 = s) as -> by congruence.
Qed.

Lemma matched_inbound net c a p j now p' :
  related net c -> procs net !! a = Some p -> pstep p (PInbound j now) p' -> matched (put_proc net a p') c.
Proof.
  intros Hr Ha Hs. destruct (related_node _ _ _ _ Hr Ha) as (n & Hn & Hsn). pose proof Hsn as [Hg Hc Hst Hi Hps Hgen Hrd].
  inversion Hs as [| | | | | | | | | | | | |j' now' r w e r' _ Hj Hrm|j' now' r w msg r' store updated _ Hj Hrm Hm
    |j' now' msg ack w _ Hj|j' now' ack w res w' _ Hj Hw| | | | | |]; subst;
    destruct (inbound_link _ _ _ _ _ _ Hr Ha Hj) as (k & l & f & Hl & Hf & <- & Hto & Htask & Hph); cbn in Hph.
  - destruct Hph as [Hph _]. eapply (matched_one (ALose k)); [done|..].
    + unfold exec, mbind, option_bind. rewrite Hf, Hph. reflexivity.
    + rewrite <-(node_at_same c (lk_dst l) n Hn).
      eapply related_inbound; try done. by left.
  - destruct Hph as [Hph Hmsg]. rewrite (Hmsg _ _ Hrm) in *.
    destruct (merge_delta (node_store n) (deltas (task_msg (lk_task l)))) as [s2 u2] eqn:Hm2.
    pose proof (merge_delta_state (pr_store p) (deltas (task_msg (lk_task l)))) as E1.
    pose proof (merge_delta_state (node_store n) (deltas (task_msg (lk_task l)))) as E2.
    pose proof (merge_delta_keys (pr_store p) (deltas (task_msg (lk_task l)))) as K1.
    pose proof (merge_delta_keys (node_store n) (deltas (task_msg (lk_task l)))) as K2.
    pose proof (merge_delta_node_id (pr_store p) (deltas (task_msg (lk_task l)))) as I1.
    pose proof (merge_delta_node_id (node_store n) (deltas (task_msg (lk_task l)))) as I2.
    rewrite Hm in E1, K1, I1. rewrite Hm2 in E2, K2, I2. cbn [fst snd] in *.
    unfold node_state, node_id_of in Hst, Hi. rewrite Hst in E2, K2.
    assert (ack_of s2 u2 = ack_of store updated) as Hack by (unfold ack_of; congruence).
    eapply (matched_one (AMerge k)); [done|..].
    + unfold exec, mbind, option_bind. rewrite Hf, Hph. unfold fl_dst, fl_deltas. rewrite Htask.
      change (task_peer_addr (lk_task l)) with (lk_dst l). rewrite Hn, Hm2. reflexivity.
    + eapply related_inbound; try done; [|by cbn; rewrite Hack].
      split; cbn; unfold node_state, node_id_of, node_peers, node_store in *; cbn; congruence.
  - destruct Hph as [Hph ->]. eapply (matched_one (ARegister k now)); [done|..].
    + unfold exec, mbind, option_bind. rewrite Hf, Hph. unfold fl_dst. rewrite Htask.
      change (task_peer_addr (lk_task l)) with (lk_dst l). rewrite Hn. reflexivity.
    + eapply related_inbound; try done.
      split; cbn; unfold node_state, node_id_of, node_peers, node_store in *; cbn; unfold node_store; congruence.
  - apply matched_none. rewrite <-(node_at_same c (lk_dst l) n Hn).
    assert (put_node c (lk_dst l) n = put_flight (put_node c (lk_dst l) n) k f) as ->.
    { unfold put_flight, put_node. cbn. by rewrite list_insert_id. }
    eapply related_inbound; try done. cbn. destruct res; eauto.
Qed.

(** ** Send tasks *)

(** The send task of link [k] ends, and its flight stops waiting. *)
Lemma related_send net c p p' n' k l f f' task res :
  related net c -> links net !! k = Some l -> flights c !! k = Some f ->
  procs net !! lk_src l = Some p -> pr_sends p !! lk_idx l = Some (SendRunning task) ->
  same_node p' n' -> pr_sends p' = <[lk_idx l := SendDone res]> (pr_sends p) -> pr_inbound p' = pr_inbound p ->
  fl_src f' = fl_src f -> fl_task f' = fl_task f -> fl_waiting f' = false ->
  (fl_phase f' = fl_phase f \/ fl_phase f' = Closed /\ exists ack, fl_phase f = AckSent ack /\
     exists d j s, procs net !! lk_dst l = Some d /\ lk_to l = Some j /\ pr_inbound d !! j = Some s
       /\ match s with InDone _ _ => True | _ => False end) ->
  related (put_proc net (lk_src l) p') (put_flight (put_node c (lk_src l) n') k f').
Proof.
  intros Hr Hl Hf Hp Hi Hs Hse Hin Hsrc Htask Hwt Hph.
  eapply related_link; [done|exact Hl|exact Hf|exact Hp|exact Hs| | |].
  - by apply (send_others _ c _ p _ k l (SendDone res)).
  - destruct (re_link _ _ Hr _ _ _ Hl Hf) as [Hsrc0 Htask0 _ Hp0]. split; [congruence|congruence| |].
    + exists p'. rewrite lookup_insert_eq. split; [done|].
      rewrite Hse, list_lookup_insert_eq by (by eapply lookup_lt_Some). done.
    + unfold link_phase in *. destruct (lk_to l) as [j|]; [|by destruct Hph as [->|(_ & ? & _ & ? & ? & ? & _ & ? & _)]].
      destruct Hp0 as (d & s & Hd & Hj & Hp0).
      assert (exists d', <[lk_src l := p']> (procs net) !! lk_dst l = Some d' /\ pr_inbound d' !! j = Some s)
        as (d' & Hd' & Hj').
      { destruct (decide (lk_src l = lk_dst l)) as [Heq|Hne].
        - exists p'. rewrite Heq, lookup_insert_eq. rewrite Heq in Hp. assert (d = p) as -> by congruence.
          split; [done|]. by rewrite Hin.
        - exists d. by rewrite lookup_insert_ne. }
      exists d', s. split; [done|]. split; [done|].
      destruct Hph as [->|(-> & ack & Hack & d0 & j0 & s0 & Hd0 & [= ->] & Hj0 & Hdone)]; [done|].
      assert (d0 = d) as -> by congruence. assert (s0 = s) as -> by congruence.
      destruct s as [| | |[] ]; try done; cbn; auto.
  - intros j s. rewrite Hin. by eexists.
Qed.

(** An acknowledgement can only come from an inbound task that has ended. *)
Lemma matched_send net c k l p now conn p' :
  related net c -> links net !! k = Some l -> procs net !! lk_src l = Some p ->
  pstep p (PSendEnd (lk_idx l) now conn) p' ->
  (forall a, send_and_ack conn (lk_dst l) (task_msg (lk_task l)) = Some (Ok a) ->
     exists d j u w, procs net !! lk_dst l = Some d /\ lk_to l = Some j /\ pr_inbound d !! j = Some (InDone (Ok u) w)) ->
  matched (put_proc net (lk_src l) p') c.
Proof.
  intros Hr Hl Hp Hs Hok. destruct (related_node _ _ _ _ Hr Hp) as (n & Hn & [Hg Hc Hst Hi Hps Hgen Hrd]).
  destruct (link_flight _ _ _ _ Hr Hl) as (f & Hf & [Hsrc Htask (q & Hq & Hw) Hph]).
  assert (q = p) as -> by congruence.
  inversion Hs as [| | | | | | | | | | | | | | | | | | | | | |i now' conn' task res _ Hsi Hres]; subst.
  rewrite Hsi in Hw. destruct Hw as (-> & Hwt & Hncl). change (task_peer_addr (lk_task l)) with (lk_dst l) in Hres.
  destruct res as [a|e].
  - destruct (Hok a Hres) as (d & j & u & w & Hd & Hto & Hj). unfold link_phase in Hph. rewrite Hto in Hph.
    destruct Hph as (d0 & s0 & Hd0 & Hs0 & Hph). assert (d0 = d) as -> by congruence.
    assert (s0 = InDone (Ok u) w) as -> by congruence. destruct Hph as [|[ack Hack]]; [done|].
    eapply (matched_one (AAck k now)); [done|..].
    + unfold exec, mbind, option_bind. rewrite Hf, Hack, Hwt, Hsrc, Hn. reflexivity.
    + eapply related_send; try done; [|right; split; [done|]; exists ack; split; [done|]; by exists d, j, (InDone (Ok u) w)].
      rewrite Htask, Hps.
      split; cbn; unfold node_state, node_id_of, node_peers, node_store in *; cbn; unfold node_store; congruence.
  - eapply (matched_one (AGiveUp k)); [done|..].
    + unfold exec, mbind, option_bind. rewrite Hf, Hwt. reflexivity.
    + rewrite <-(node_at_same c (lk_src l) n Hn). eapply related_send; try done. by left.
Qed.

Context `{!CodecLaws GossipMessage}.

(** What is read from the bytes of a message, however many of them arrive, is
    the message or nothing. *)
Lemma read_written (msg msg' : GossipMessage) e got sent r' :
  write_message (mk_writer [] None e) msg = (Ok tt, sent) ->
  (N.of_nat (length (Protocol.written sent)) < 4 + U32)%N ->
  read_message (mk_reader (take got (Protocol.written sent)) e) = (Ok msg', r') -> msg' = msg.
Proof.
  intros Hw Hlen Hr. destruct (encode msg) as [payload|err] eqn:He.
  2: { unfold write_message in Hw. by rewrite He in Hw. }
  rewrite (write_message_ok msg payload [] e He) in Hw. injection Hw as <-. cbn [Protocol.written app] in *.
  destruct (decide (N.of_nat (length payload) <= MAX_MESSAGE_BYTES)%N) as [Hle|Hgt].
  - destruct (decide (got < length (frame payload))) as [Hcut|Hall].
    { by rewrite (truncated_frame_rejected payload) in Hr. }
    rewrite take_ge, <-(app_nil_r (frame payload)) in Hr by lia.
    rewrite (read_message_frame msg payload) in Hr by first [by apply decode_encode | done]. congruence.
  - exfalso. unfold frame in Hr, Hlen. rewrite length_app in Hlen. unfold u32_to_be_bytes at 1 in Hlen. cbn [length] in Hlen.
    destruct (decide (got < 4)) as [Hcut|Hhead].
    { unfold read_message in Hr. rewrite read_exact_short in Hr; [done|]. rewrite length_take. lia. }
    rewrite take_app_ge in Hr by (simpl; lia). rewrite read_message_header in Hr by apply wrap32_lt. rewrite wrap32_small in Hr by lia.
    rewrite (proj2 (N.ltb_lt _ _)) in Hr by lia. done.
Qed.

Lemma net_exec_simulated act net c net' :
  related net c -> net_exec act net = Some net' -> simulated act net net' c.
Proof.
  intros Hr E. destruct act as [a act|a it|k got w e|a j now|k now e|k now conn];
    unfold net_exec, mbind, option_bind in E.
  - destruct (procs net !! a) as [p|] eqn:Ha; [|done]. destruct (is_local act) eqn:Hl; [|done].
    destruct (pexec act p) as [p'|] eqn:Hx; [|done]. injection E as <-. apply pexec_pstep in Hx as [_ Hs].
    by eapply matched_local.
  - destruct (procs net !! a) as [p|] eqn:Ha; [|done].
    destruct (pexec (PTarget it) p) as [p'|] eqn:Hx; [|done]. injection E as <-.
    apply pexec_pstep in Hx as [_ Hs].
    inversion Hs as [| | | | | | | | | | | | | | | | | | | |it' gen t ts _ Hsc| |]; subst.
    by apply (matched_target net c a p it gen t ts).
  - destruct (links net !! k) as [l|] eqn:Hl; [|done]. destruct (lk_to l) eqn:Hto; [done|].
    destruct (write_message _ _) as [[[]|] sent] eqn:Hw; [|done].
    case_guard as Hlen; [|done]. destruct (procs net !! lk_dst l) as [d|] eqn:Hd; [|done].
    destruct (pexec _ d) as [d'|] eqn:Hx; [|done]. injection E as <-. apply pexec_pstep in Hx as [_ Hs].
    inversion Hs as [| | | | | | | | | |r w' Hg Hacc| | | | | | | | | | | |]; subst.
    apply simulated_matched; [apply matched_none|done|done].
    eapply related_connect; try done.
    + intros msg r'. by apply read_written.
    + unfold net_view. cbn. by rewrite Hg.
  - destruct (procs net !! a) as [p|] eqn:Ha; [|done].
    destruct (pexec (PInbound j now) p) as [p'|] eqn:Hx; [|done]. injection E as <-.
    apply pexec_pstep in Hx as [_ Hs]. apply simulated_matched; [by eapply matched_inbound|done|done].
  - destruct (links net !! k) as [l|] eqn:Hl; [|done]. destruct (lk_to l) as [j|] eqn:Hto; [|done].
    destruct (procs net !! lk_dst l) as [d|] eqn:Hd; [|done].
    destruct (pr_inbound d !! j) as [[| | |[u|] w]|] eqn:Hj; try done.
    destruct (procs net !! lk_src l) as [p|] eqn:Hp; [|done].
    destruct (pexec _ p) as [p'|] eqn:Hx; [|done]. injection E as <-. apply pexec_pstep in Hx as [_ Hs].
    apply simulated_matched; [eapply matched_send; try done|done|done]. intros a _. by exists d, j, u, w.
  - destruct (links net !! k) as [l|] eqn:Hl; [|done].
    destruct (send_and_ack conn _ _) as [[|err]|] eqn:Hres; [done| |done].
    destruct (procs net !! lk_src l) as [p|] eqn:Hp; [|done].
    destruct (pexec _ p) as [p'|] eqn:Hx; [|done]. injection E as <-. apply pexec_pstep in Hx as [_ Hs].
    apply simulated_matched; [eapply matched_send; try done|done|done]. intros a. by rewrite Hres.
Qed.

(** ** Runs *)

Context `{!DashMapLaws PeerInfo}.

(** A process that has just created its gossip manager. *)
Lemma started_process uuid config now p0 p :
  main_start uuid config = Done p0 -> pexec (PGossipStart now) p0 = Some p ->
  pr_gossip p = true /\ state (pr_store p) = ∅ /\ pr_sends p = [] /\ pr_inbound p = []
  /\ pr_sched p = SchedSpawned
  /\ forall k i, dm_get (pr_peers p) k = Some i -> last_sync_ts i = 0%N.
Proof.
  unfold main_start, StateStore_new, mbind, outcome_bind. destruct (bc_channel _); [|done].
  intros [= <-] [= <-]. split_and!; try done. cbn. intros k i. rewrite register_seeds_get, dm_get_new.
  case_decide; [|done]. by intros [= <-].
Qed.

Lemma related_start net : net_initial net -> related net (cluster_of net) /\ initial (cluster_of net).
Proof.
  intros [Hl Hp Hi].
  assert (forall a p, procs net !! a = Some p -> pr_gossip p = true /\ state (pr_store p) = ∅ /\ pr_sends p = []
    /\ pr_inbound p = [] /\ pr_sched p = SchedSpawned
    /\ forall k i, dm_get (pr_peers p) k = Some i -> last_sync_ts i = 0%N) as Hst.
  { intros a p Ha. destruct (Hp _ _ Ha) as (uuid & config & now & p0 & H0' & H1' & _).
    by eapply started_process. }
  assert (forall a n, nodes (cluster_of net) !! a = Some n -> exists p, procs net !! a = Some p /\ n = node_of p)
    as Hn.
  { intros a n. cbn. rewrite lookup_fmap. destruct (procs net !! a) as [p|]; [|done]. intros [= <-]. by exists p. }
  split.
  - split; rewrite ?Hl; try done.
    + intros a. cbn. rewrite lookup_fmap. destruct (procs net !! a) as [p|] eqn:Ha; [|done]. cbn.
      destruct (Hst _ _ Ha) as (Hg & _ & _ & _ & Hs & _). split; try done. by rewrite Hs.
    + intros a p j s Ha. destruct (Hst _ _ Ha) as (_ & _ & _ & -> & _). done.
  - split; [done|..].
    + intros a n (p & Ha & ->)%Hn. by destruct (Hst _ _ Ha) as (_ & Hs & _).
    + by intros a n (p & Ha & ->)%Hn.
    + intros a n pid i (p & Ha & ->)%Hn. destruct (Hst _ _ Ha) as (_ & _ & _ & _ & _ & Hc). apply Hc.
    + intros a b n m (p & Ha & ->)%Hn (q & Hb & ->)%Hn. by apply Hi.
Qed.

(** A run of the network with the execution of the cluster that matches it,
    step by step. *)
Inductive net_simulation : list net_action -> Net -> Net -> list action -> Cluster -> Cluster -> Prop :=
| nsim_nil net c : related net c -> net_simulation [] net net [] c c
| nsim_cons act acts net net1 net' cacts1 cacts c c1 c' :
    net_exec act net = Some net1 -> related net c -> run cacts1 c = Some c1 ->
    same_writes act net cacts1 c -> (forall a it, act = NTarget a it -> exists rest, cacts1 = ARoundTarget a it :: rest) ->
    net_simulation acts net1 net' cacts c1 c' ->
    net_simulation (act :: acts) net net' (cacts1 ++ cacts) c c'.

Lemma net_run_simulated acts net0 c0 net :
  related net0 c0 -> net_run acts net0 = Some net -> exists cacts c, net_simulation acts net0 net cacts c0 c.
Proof.
  revert net0 c0. induction acts as [|act acts IH]; intros net0 c0 Hr; cbn [net_run].
  { intros [= <-]. eexists [], c0. by constructor. }
  unfold mbind, option_bind. destruct (net_exec act net0) as [net1|] eqn:E; [|done]. intros Hrun.
  destruct (net_exec_simulated _ _ _ _ Hr E) as (cacts1 & c1 & Hc1 & Hr1 & Hw & Ht).
  destruct (IH _ _ Hr1 Hrun) as (cacts2 & c2 & Hsim). exists (cacts1 ++ cacts2), c2. by econstructor.
Qed.

Lemma net_simulation_run acts net net' cacts c c' :
  net_simulation acts net net' cacts c c' -> run cacts c = Some c' /\ related net c /\ related net' c'.
Proof.
  induction 1 as [|act acts net net1 net' cacts1 cacts c c1 c' He Hrel Hr _ _ _ (IH & _ & IH')]; [done|].
  split; [by rewrite run_app, Hr|done].
Qed.

Lemma net_run_matched acts net0 c0 net :
  related net0 c0 -> net_run acts net0 = Some net -> exists cacts c, run cacts c0 = Some c /\ related net c.
Proof.
  intros Hr Hrun. destruct (net_run_simulated _ _ _ _ Hr Hrun) as (cacts & c & Hsim%net_simulation_run).
  exists cacts, c. split; apply Hsim.
Qed.

(** ** Properties *)

(** C3: a network of processes implements a cluster of gossiping nodes.  Take
    processes as [main] starts them, each at its address and with an
    identifier of its own, and any run of them: any requests of any clients,
    any interleaving of all their tasks, connections accepted late or never,
    sockets that fail at any point, processes that are shut down.  There is
    an execution of the cluster of their managers, from an initial state, that
    ends in a cluster with the same configuration, entries, identifier, peer
    table, generation and round at every address, and with one flight for
    every send task, in the phase in which its two ends are. *)
Theorem network_refines_cluster acts net0 net :
  net_initial net0 -> net_run acts net0 = Some net ->
  initial (cluster_of net0) /\ exists cacts c, run cacts (cluster_of net0) = Some c /\ related net c.
Proof.
  intros [Hr Hi]%related_start Hrun. split; [done|]. by eapply net_run_matched.
Qed.

(** C9: strong consistency of running processes.  In any such run every entry
    that a process stores carries the identifier of a process of the network,
    whose own store has that entry or a greater one; and two processes, each
    of which has for every key a value no smaller than the other's, hold the
    same map. *)
Theorem processes_strongly_consistent acts net0 net :
  net_initial net0 -> net_run acts net0 = Some net ->
  (forall a p k v, procs net !! a = Some p -> state (pr_store p) !! k = Some v ->
     exists b q, procs net !! b = Some q /\ store_node_id (pr_store q) = node_id v
       /\ dominates (state (pr_store q)) (k, v))
  /\ (forall a b p q, procs net !! a = Some p -> procs net !! b = Some q ->
     mle (state (pr_store p)) (state (pr_store q)) -> mle (state (pr_store q)) (state (pr_store p)) ->
     state (pr_store p) = state (pr_store q)).
Proof.
  intros Hni Hrun. destruct (related_start _ Hni) as [Hr Hi].
  destruct (net_run_matched _ _ _ _ Hr Hrun) as (cacts & c & Hc & Hrel).
  pose proof (hist_inv_run _ _ _ Hi Hc) as Hh. split.
  - intros a p k v Ha Hk. destruct (related_node _ _ _ _ Hrel Ha) as (n & Hn & Hs).
    rewrite <-(sn_state _ _ Hs) in Hk. pose proof (hi_store _ _ _ Hh _ _ _ _ Hn Hk) as Hin.
    destruct (hi_author _ _ _ Hh Hin) as (b & m & Hm & Hid & Hd). pose proof (re_nodes _ _ Hrel b) as Hb.
    rewrite Hm in Hb. destruct (procs net !! b) as [q|] eqn:Hq; [|done]. exists b, q.
    rewrite <-(sn_id _ _ Hb), <-(sn_state _ _ Hb). done.
  - intros a b p q Ha Hb Hpq Hqp. destruct (related_node _ _ _ _ Hrel Ha) as (n & Hn & Hs).
    destruct (related_node _ _ _ _ Hrel Hb) as (m & Hm & Hs').
    rewrite <-(sn_state _ _ Hs), <-(sn_state _ _ Hs') in *.
    apply (mle_antisymm _ _ _ (hi_coherent _ _ _ Hh)); [eauto using hi_store..|done|done].
Qed.
End refinement.
