(* ===== verification/NetworkConvergence.v ===== *)
(** Convergence of running processes.  What Convergence.v and OneClock.v prove
    of clusters holds of networks of processes, with all their RPC traffic,
    byte streams and tasks: once the clients have stopped writing and the
    processes have served each other, their stores agree.  And a process can
    always serve a peer it knows, if the message fits. *)
From S2P Require Import Prelude Crdt Replica Broadcast Store Config DashMap Peer Protocol Manager.
From S2P Require Import Cluster ClusterLemmas ClusterSafety ClusterSync Topology Convergence OneClock.
From S2P Require Import RpcTypes RpcHandler RpcServer Process ProcessLemmas Network NetworkRefines.

Section network_convergence.
Context `{BroadcastLib StateEvent, DashMapLib PeerInfo, !DashMapLaws PeerInfo}.
Context `{Codec GossipMessage, Codec GossipAck, !CodecLaws GossipMessage}.
Context `{RequestParser, ToJson RpcResponse, ToJson RpcError, ToJson RpcNotification}.
Implicit Types (net : Net) (p : Proc) (c : Cluster).

(** ** Writes *)

(** The values that the [state.set] requests of all clients left, in the order
    of the steps. *)
Fixpoint net_history (acts : list net_action) net : StateDelta :=
  match acts with
  | [] => []
  | act :: acts' =>
      net_written act net ++ match net_exec act net with Some net' => net_history acts' net' | None => [] end
  end.

(** The requests that write take increasing readings of the clock, above
    [last]. *)
Fixpoint net_one_clock (last : N) (acts : list net_action) net : Prop :=
  match acts with
  | [] => True
  | act :: acts' =>
      let continue last := match net_exec act net with Some net' => net_one_clock last acts' net' | None => True end in
      match net_written act net, net_stamp act with
      | _ :: _, Some (_, clock) =>
          match now_micros clock with Done t => (last < t)%N /\ continue t | Panic _ => False end
      | _, _ => continue last
      end
  end.

(** The requests that write are made at [hub]. *)
Fixpoint net_writes_at (hub : string) (acts : list net_action) net : Prop :=
  match acts with
  | [] => True
  | act :: acts' =>
      (net_written act net <> [] -> fst <$> net_stamp act = Some hub)
      /\ match net_exec act net with Some net' => net_writes_at hub acts' net' | None => True end
  end.

(** ** Serving a peer *)

Definition has_merged (s : inbound_state) : Prop :=
  match s with InMerged _ _ _ | InRegistered _ _ | InDone (Ok _) _ => True | _ => False end.

(** During [acts], from [net] to [net'], the scheduler of [a] comes to a target
    at address [b], and the message it pushes there, if any, has been merged
    by an inbound task of [b] by then. *)
Definition net_served (acts : list net_action) net net' (a b : string) : Prop :=
  exists acts1 it acts2 net1 p gen pid info ts,
    acts = acts1 ++ NTarget a it :: acts2 /\ net_run acts1 net = Some net1
    /\ procs net1 !! a = Some p /\ pr_sched p = Serving gen ((pid, info) :: ts) /\ gossip_addr info = b
    /\ match round_target it (pr_store p) (pr_config p) gen (pid, info) with
       | Some _ => exists l j d s, links net' !! length (links net1) = Some l /\ lk_to l = Some j
                     /\ procs net' !! lk_dst l = Some d /\ pr_inbound d !! j = Some s /\ has_merged s
       | None => True
       end.

(** ** What the matching execution does *)

Lemma sim_history acts net net' cacts c c' :
  net_simulation acts net net' cacts c c' -> history cacts c = net_history acts net.
Proof.
  induction 1 as [|act acts net net1 net' cacts1 cacts c c1 c' He _ Hr Hw _ _ IH]; [done|].
  rewrite (history_app _ _ _ _ Hr), IH. cbn [net_history]. rewrite He. f_equal. unfold same_writes in Hw.
  destruct (net_written act net) as [|w ws]; [by apply history_no_set|].
  destruct Hw as (a & clock & key & val & -> & _ & Hw). cbn [history]. rewrite Hw.
  destruct (exec _ c); apply app_nil_r.
Qed.

Lemma sim_one_clock acts net net' cacts c c' last :
  net_simulation acts net net' cacts c c' -> net_one_clock last acts net -> one_clock last cacts.
Proof.
  intros Hs. revert last.
  induction Hs as [|act acts net net1 net' cacts1 cacts c c1 c' He _ Hr Hw _ _ IH]; intros last; [done|].
  cbn [net_one_clock]. rewrite He. unfold same_writes in Hw. destruct (net_written act net) as [|w ws].
  - intros Hc. apply one_clock_skip; [done|]. by apply IH.
  - destruct Hw as (a & clock & key & val & -> & -> & _). cbn [one_clock app].
    destruct (now_micros clock) as [t|]; [|done]. intros [Hlt Hc]. split; [done|]. by apply IH.
Qed.

Lemma sim_no_set acts net net' cacts c c' :
  net_simulation acts net net' cacts c c' -> net_history acts net = [] -> Forall no_set cacts.
Proof.
  induction 1 as [|act acts net net1 net' cacts1 cacts c c1 c' He _ Hr Hw _ _ IH]; [done|].
  cbn [net_history]. rewrite He. intros [Hn Hh]%app_nil. unfold same_writes in Hw. rewrite Hn in Hw.
  apply Forall_app. split; [done|]. by apply IH.
Qed.

Lemma sim_app acts1 acts2 net net' cacts c c' :
  net_simulation (acts1 ++ acts2) net net' cacts c c' ->
  exists net1 c1 cacts1 cacts2, cacts = cacts1 ++ cacts2 /\ net_simulation acts1 net net1 cacts1 c c1
    /\ net_simulation acts2 net1 net' cacts2 c1 c' /\ net_run acts1 net = Some net1.
Proof.
  revert net cacts c. induction acts1 as [|act acts1 IH]; intros net cacts c Hs; cbn [app] in Hs.
  - exists net, c, [], cacts. split; [done|]. split; [|done]. constructor. by apply net_simulation_run in Hs as (_ & ? & _).
  - inversion Hs as [|act' acts net0 net1 net0' ca1 ca2 c0 c1 c0' He Hrel Hr Hw Ht Hrest]; subst.
    destruct (IH _ _ _ Hrest) as (net2 & c2 & ca3 & ca4 & -> & Hs1 & Hs2 & Hr1).
    exists net2, c2, (ca1 ++ ca3), ca4. split; [by rewrite app_assoc|]. split; [by econstructor|].
    split; [done|]. cbn [net_run]. by rewrite He.
Qed.

Lemma sim_writes_at hub acts net net' cacts c c' :
  net_simulation acts net net' cacts c c' -> net_writes_at hub acts net -> Forall (written_at hub) cacts.
Proof.
  induction 1 as [|act acts net net1 net' cacts1 cacts c c1 c' He _ Hr Hw _ _ IH]; [done|].
  cbn [net_writes_at]. rewrite He. intros [Hat Hrest]. apply Forall_app. split; [|by apply IH].
  unfold same_writes in Hw. destruct (net_written act net) as [|w ws].
  - eapply Forall_impl; [exact Hw|]. by intros [].
  - destruct Hw as (a & clock & key & val & -> & Hst & _). apply Forall_singleton.
    rewrite Hst in Hat. specialize (Hat ltac:(done)). by injection Hat as ->.
Qed.

(** What is served on the network is served in the cluster. *)
Lemma has_merged_delivered task s ph : inbound_phase task s ph -> has_merged s -> delivered ph.
Proof. destruct s as [| | |[] ]; cbn; try done; [by intros [-> _]|by intros ->|by intros [->|[? ->]]]. Qed.

Lemma sim_served acts net net' cacts c c' a b :
  net_simulation acts net net' cacts c c' -> net_served acts net net' a b -> served cacts c c' a b.
Proof.
  intros Hs (acts1 & it & acts2 & net1 & p & gen & pid & info & ts & -> & Hr1 & Hp & Hsc & Hb & Hpush).
  destruct (sim_app _ _ _ _ _ _ _ Hs) as (net1' & c1 & ca1 & ca2 & -> & Hs1 & Hs2 & Hr1').
  assert (net1' = net1) as -> by congruence.
  destruct (net_simulation_run _ _ _ _ _ _ Hs1) as (Hc1 & _ & Hrel).
  inversion Hs2 as [|act acts net0 net2 net0' ca3 ca4 c0 c2 c0' He _ Hr Hw Ht Hrest]; subst.
  destruct (Ht a it eq_refl) as [rest ->]. destruct (related_node _ _ _ _ Hrel Hp) as (n & Hn & Hsn).
  exists ca1, it, (rest ++ ca4), c1, n, gen, pid, info, ts. split; [done|]. split; [done|]. split; [done|].
  split; [by rewrite (sn_round _ _ Hsn), Hsc|]. split; [done|].
  rewrite (sn_config _ _ Hsn), (round_target_ext it (node_store n) (pr_store p))
    by (apply Hsn || exact (sn_state _ _ Hsn)).
  destruct (round_target _ _ _ _ _) as [task|]; [|done].
  destruct Hpush as (l & j & d & s & Hl & Hj & Hd & Hin & Hm).
  destruct (net_simulation_run _ _ _ _ _ _ Hs) as (_ & _ & Hrel').
  destruct (link_flight _ _ _ _ Hrel' Hl) as (f & Hf & Hok). exists f.
  rewrite <-(re_length _ _ Hrel). split; [done|]. pose proof (lo_phase _ _ _ Hok) as Hph.
  unfold link_phase in Hph. rewrite Hj in Hph. destruct Hph as (d' & s' & Hd' & Hs' & Hph).
  assert (d' = d) as -> by congruence. assert (s' = s) as -> by congruence. by eapply has_merged_delivered.
Qed.

Lemma started_config uuid config now p0 p :
  main_start uuid config = Done p0 -> pexec (PGossipStart now) p0 = Some p -> pr_config p = config.
Proof.
  unfold main_start, StateStore_new, mbind, outcome_bind. destruct (bc_channel _); [|done]. by intros [= <-] [= <-].
Qed.

(** A run in three parts: with writes, served, and whatever follows. *)
Lemma three_parts acts0 acts acts' net0 net net1 net2 :
  net_initial net0 -> net_run acts0 net0 = Some net -> net_run acts net = Some net1 ->
  net_run acts' net1 = Some net2 ->
  exists ca0 ca ca' c c1 c2, net_simulation acts0 net0 net ca0 (cluster_of net0) c
    /\ net_simulation acts net net1 ca c c1 /\ net_simulation acts' net1 net2 ca' c1 c2
    /\ execution ca0 (cluster_of net0) c /\ run ca c = Some c1 /\ run ca' c1 = Some c2
    /\ related net2 c2.
Proof.
  intros Hni H0' H1' H2'. destruct (related_start _ Hni) as [Hr Hi].
  destruct (net_run_simulated _ _ _ _ Hr H0') as (ca0 & c & S0). pose proof S0 as (R0 & _ & Hrel0)%net_simulation_run.
  destruct (net_run_simulated _ _ _ _ Hrel0 H1') as (ca & c1 & S1). pose proof S1 as (R1 & _ & Hrel1)%net_simulation_run.
  destruct (net_run_simulated _ _ _ _ Hrel1 H2') as (ca' & c2 & S2). pose proof S2 as (R2 & _ & Hrel2)%net_simulation_run.
  exists ca0, ca, ca', c, c1, c2. by split_and!.
Qed.

(** The state of the processes, from that of the nodes. *)
Lemma related_converged h net c :
  related net c -> converged h c -> forall x p, procs net !! x = Some p -> repr h (state (pr_store p)).
Proof.
  intros Hr Hc x p Hp. destruct (related_node _ _ _ _ Hr Hp) as (n & Hn & Hs).
  rewrite <-(sn_state _ _ Hs). by apply (Hc x).
Qed.

(** ** Serving is always possible *)

(** A process whose gossip side is running. *)
Definition up p : Prop := main_alive p = true /\ pr_gossip p = true.

(** What the scheduler's rounds leave alone. *)
Definition same_shared p p' : Prop :=
  pr_store p' = pr_store p /\ pr_peers p' = pr_peers p /\ pr_config p' = pr_config p
  /\ pr_main p' = pr_main p /\ pr_gossip p' = pr_gossip p /\ pr_generation p' = pr_generation p.

Lemma same_shared_up p p' : same_shared p p' -> up p -> up p'.
Proof. unfold up, main_alive. by intros (_ & _ & _ & -> & -> & _). Qed.

Lemma net_run_app acts1 acts2 net net1 :
  net_run acts1 net = Some net1 -> net_run (acts1 ++ acts2) net = net_run acts2 net1.
Proof.
  revert net. induction acts1 as [|act acts1 IH]; intros net; cbn [net_run app]; [by intros [= ->]|].
  unfold mbind, option_bind. destruct (net_exec act net); [apply IH|done].
Qed.

Lemma net_history_app acts1 acts2 net net1 :
  net_run acts1 net = Some net1 -> net_history (acts1 ++ acts2) net = net_history acts1 net ++ net_history acts2 net1.
Proof.
  revert net. induction acts1 as [|act acts1 IH]; intros net; cbn [net_run net_history app]; [by intros [= ->]|].
  unfold mbind, option_bind. destruct (net_exec act net) as [net2|]; [|done]. intros Hr. by rewrite (IH _ Hr), app_assoc.
Qed.

(** The scheduler comes to its next target. *)
Lemma exec_target net a p gen t ts :
  procs net !! a = Some p -> up p -> pr_sched p = Serving gen (t :: ts) ->
  let new := match round_target canonical_iter (pr_store p) (pr_config p) gen t with
             | Some task => [task] | None => [] end in
  net_exec (NTarget a canonical_iter) net
  = Some (mk_net (<[a := with_sched p (pr_generation p) (match ts with [] => Ticking | _ => Serving gen ts end)
                           (pr_sends p ++ (SendRunning <$> new))]> (procs net))
           (links net ++ ((fun task => mk_link a (length (pr_sends p)) task None) <$> new))).
Proof.
  intros Hp [Hal Hg] Hs. cbv zeta. unfold net_exec, mbind, option_bind. rewrite Hp.
  unfold pexec, pexec_sched. rewrite Hal, Hg, Hs. unfold spawned. cbn [pr_sends with_sched].
  destruct (round_target _ _ _ _ _) as [task|]; cbn [fmap list_fmap].
  - by rewrite list_lookup_middle.
  - by rewrite app_nil_r, lookup_ge_None_2.
Qed.

(** A round in progress can end. *)
Lemma net_finish_round net a p :
  procs net !! a = Some p -> up p ->
  (pr_sched p = Ticking \/ exists gen t ts, pr_sched p = Serving gen (t :: ts)) ->
  exists acts net' p', net_run acts net = Some net' /\ net_history acts net = []
    /\ procs net' !! a = Some p' /\ pr_sched p' = Ticking /\ same_shared p p'
    /\ forall x, x <> a -> procs net' !! x = procs net !! x.
Proof.
  intros Hp Hup [Hs|(gen & t & ts & Hs)].
  { by exists [], net, p. }
  revert net p t Hp Hup Hs. induction ts as [|t' ts IH]; intros net p t Hp Hup Hs;
    pose proof (exec_target _ _ _ _ _ _ Hp Hup Hs) as E; cbv zeta in E.
  - eexists [NTarget a canonical_iter], _, _. cbn [net_run net_history]. rewrite E. split; [done|]. split; [done|].
    cbn [procs]. rewrite lookup_insert_eq. split; [done|]. split; [done|]. split; [done|].
    intros x Hx. by rewrite lookup_insert_ne.
  - match type of E with _ = Some (mk_net (<[a := ?q]> _) ?ls) => set (p1 := q) in E; set (net1 := mk_net (<[a := p1]> (procs net)) ls) in E end.
    destruct (IH net1 p1 t') as (acts & net' & p' & Hr & Hh & Hp' & Ht & Hsh & Hoth); [apply lookup_insert_eq|done|done|].
    exists (NTarget a canonical_iter :: acts), net', p'. cbn [net_run net_history]. rewrite E. split; [done|].
    split; [done|]. split; [done|]. split; [done|]. split; [exact Hsh|].
    intros x Hx. rewrite Hoth by done. cbn. by rewrite lookup_insert_ne.
Qed.

Definition open_writer : writer := mk_writer [] None "".

(** A round that begins with a known peer can be started. *)
Lemma net_round_to net a p pid info :
  procs net !! a = Some p -> up p ->
  (pr_sched p = Ticking \/ exists gen t ts, pr_sched p = Serving gen (t :: ts)) ->
  dm_get (pr_peers p) pid = Some info -> (0 < gossip_fanout (pr_config p))%N ->
  exists acts net' p' ts, net_run acts net = Some net' /\ net_history acts net = []
    /\ procs net' !! a = Some p' /\ pr_sched p' = Serving (pr_generation p) ((pid, info) :: ts)
    /\ up p' /\ pr_store p' = pr_store p /\ pr_config p' = pr_config p
    /\ forall x, x <> a -> procs net' !! x = procs net !! x.
Proof.
  intros Hp Hup Hsc Hinfo Hf.
  destruct (net_finish_round _ _ _ Hp Hup Hsc) as (acts & net1 & p1 & Hr1 & Hh1 & Hp1 & Ht1 & Hsh & Hoth).
  pose proof (same_shared_up _ _ Hsh Hup) as [Hal1 Hg1]. destruct Hsh as (Est & Epe & Eco & _ & _ & Ege).
  rewrite <-Eco in Hf. rewrite <-Epe in Hinfo. destruct (select_front _ _ _ _ Hinfo Hf) as [ts Hsel].
  set (tick := NLocal a (PTick (front_shuffler (pid, info)))).
  set (p2 := with_sched p1 (wrap64 (pr_generation p1 + 1)) (Serving (pr_generation p1) ((pid, info) :: ts)) (pr_sends p1)).
  assert (net_exec tick net1 = Some (put_proc net1 a p2)) as E2.
  { unfold net_exec, mbind, option_bind. cbn [tick]. rewrite Hp1. cbn [is_local]. unfold pexec, pexec_sched.
    by rewrite Hal1, Hg1, Ht1, Hsel. }
  exists (acts ++ [tick]), (put_proc net1 a p2), p2, ts.
  split; [rewrite (net_run_app _ _ _ _ Hr1); cbn [net_run]; by rewrite E2|].
  split; [rewrite (net_history_app _ _ _ _ Hr1), Hh1; cbn [net_history]; rewrite E2; cbn; by rewrite Hp1|].
  split; [apply lookup_insert_eq|]. split; [by rewrite <-Ege|]. split; [done|]. split; [done|]. split; [done|].
  intros x Hx. cbn. by rewrite lookup_insert_ne, Hoth.
Qed.

(** The message of a link that nobody has accepted can be received and merged,
    if it fits. *)
Lemma net_deliver net k l d payload :
  links net !! k = Some l -> lk_to l = None -> procs net !! lk_dst l = Some d -> up d ->
  pr_listener d = Accepting ->
  encode (task_msg (lk_task l)) = Ok payload -> (N.of_nat (length payload) <= MAX_MESSAGE_BYTES)%N ->
  exists acts net', net_run acts net = Some net' /\ net_history acts net = []
    /\ exists l' j d' s, links net' !! k = Some l' /\ lk_to l' = Some j
         /\ procs net' !! lk_dst l' = Some d' /\ pr_inbound d' !! j = Some s /\ has_merged s.
Proof.
  intros Hl Hto Hd [Hal Hg] Hli He Hlen. assert (MAX_MESSAGE_BYTES = 16777216)%N as HM by reflexivity.
  pose proof (write_message_ok _ _ [] "" He) as Hw.
  assert (N.of_nat (length (frame payload)) < 4 + U32)%N as Hsmall.
  { unfold frame. rewrite length_app. change (length (u32_to_be_bytes _)) with 4. unfold U32. lia. }
  set (r := mk_reader (frame payload) "").
  set (d1 := with_listener d true Accepting (pr_inbound d ++ [InRead r open_writer])).
  set (l1 := mk_link (lk_src l) (lk_idx l) (lk_task l) (Some (length (pr_inbound d)))).
  set (net1 := mk_net (<[lk_dst l := d1]> (procs net)) (<[k := l1]> (links net))).
  assert (net_exec (NConnect k (length (frame payload)) open_writer "") net = Some net1) as E1.
  { unfold net_exec, mbind, option_bind. rewrite Hl, Hto, Hw. cbn [Protocol.written app].
    case_guard; [|done]. rewrite Hd, take_ge by done. unfold pexec, pexec_listener.
    by rewrite Hal, Hg, Hli. }
  assert (read_message r = (Ok (task_msg (lk_task l)), mk_reader [] "")) as Hread.
  { unfold r. rewrite <-(app_nil_r (frame payload)). apply read_message_frame; [by apply decode_encode|done]. }
  destruct (merge_delta (pr_store d) (deltas (task_msg (lk_task l)))) as [store updated] eqn:Hm.
  set (s := InMerged (task_msg (lk_task l)) (ack_of store updated) open_writer).
  set (d2 := with_listener (with_shared d1 store (pr_peers d)) true Accepting
               (<[length (pr_inbound d) := s]> (pr_inbound d1))).
  assert (pexec (PInbound (length (pr_inbound d)) 0) d1 = Some d2) as Ex.
  { unfold pexec, pexec_listener. unfold main_alive in Hal. unfold main_alive. cbn [pr_main pr_gossip d1 with_listener].
    rewrite Hal. cbn [pr_inbound d1 with_listener]. unfold mbind, option_bind. rewrite list_lookup_middle by done.
    cbn [inbound_step]. rewrite Hread. cbn [pr_store d1 with_listener]. by rewrite Hm. }
  set (net2 := put_proc net1 (lk_dst l) d2).
  assert (net_exec (NInbound (lk_dst l) (length (pr_inbound d)) 0) net1 = Some net2) as E2.
  { unfold net_exec, mbind, option_bind. cbn [procs net1]. rewrite lookup_insert_eq. by rewrite Ex. }
  exists [NConnect k (length (frame payload)) open_writer ""; NInbound (lk_dst l) (length (pr_inbound d)) 0], net2.
  cbn [net_run net_history]. unfold mbind, option_bind. rewrite E1, E2. split; [done|]. split; [done|].
  exists l1, (length (pr_inbound d)), d2, s. split; [apply list_lookup_insert_eq; by eapply lookup_lt_Some|].
  split; [done|]. split; [apply lookup_insert_eq|]. split; [|done].
  cbn [pr_inbound d2 with_listener]. rewrite list_lookup_insert_eq; [done|].
  cbn [pr_inbound d1 with_listener]. rewrite length_app. cbn. lia.
Qed.

(** ** Properties *)

(** C4: Two running processes converge.  Let the requests that write at either
    take increasing readings of the clock, whatever else happens: other
    requests, broken connections, lost and late messages, processes that shut
    down.  Once no more is written, as soon as each has served the other, both
    stores hold for every key the last value a client wrote, and keep it; they
    answer every [state.get] alike. *)
Theorem two_processes_converge a b acts0 acts acts' net0 net net1 net2 :
  net_initial net0 -> (forall x p, procs net0 !! x = Some p -> x = a \/ x = b) ->
  net_run acts0 net0 = Some net -> net_one_clock 0 acts0 net0 ->
  net_run acts net = Some net1 -> net_history acts net = [] ->
  net_served acts net net1 a b -> net_served acts net net1 b a ->
  net_run acts' net1 = Some net2 -> net_history acts' net1 = [] ->
  (forall x p, procs net2 !! x = Some p -> repr (net_history acts0 net0) (state (pr_store p)))
  /\ forall p q, procs net2 !! a = Some p -> procs net2 !! b = Some q ->
       state (pr_store p) = state (pr_store q)
       /\ forall params id, handle_state_get (handler_of p) params id = handle_state_get (handler_of q) params id.
Proof.
  intros Hni Hab H0' Hclk H1' Hq Sab Sba H2' Hq'.
  destruct (three_parts _ _ _ _ _ _ _ Hni H0' H1' H2') as (ca0 & ca & ca' & c & c1 & c2 & S0 & S1 & S2 & Hx & R1 & R2 & Hrel).
  destruct (pair_converges a b ca0 ca ca' (cluster_of net0) c c1 c2) as [Hc He]; try done.
  - by eapply sim_one_clock.
  - intros x n. cbn. rewrite lookup_fmap. destruct (procs net0 !! x) as [p|] eqn:Hp; [|done]. intros _. by eapply Hab.
  - by eapply sim_no_set.
  - by eapply sim_served.
  - by eapply sim_served.
  - by eapply sim_no_set.
  - rewrite (sim_history _ _ _ _ _ _ S0) in Hc. split; [by eapply related_converged|].
    intros p q Hp Hq2. destruct (related_node _ _ _ _ Hrel Hp) as (n & Hn & Hs).
    destruct (related_node _ _ _ _ Hrel Hq2) as (m & Hm & Hs').
    assert (state (pr_store p) = state (pr_store q)) as E.
    { rewrite <-(sn_state _ _ Hs), <-(sn_state _ _ Hs'). by apply He. }
    split; [done|]. intros params id. unfold handle_state_get, handler_of, get. cbn [rpc_store]. by rewrite E.
Qed.

(** C19: A star of running processes, of which only the hub's clients write, at
    increasing readings of its clock: once no more is written, as soon as the
    hub has served every other process, all stores hold for every key the last
    value written, and keep it. *)
Theorem hub_processes_converge hub acts0 acts acts' net0 net net1 net2 :
  net_initial net0 ->
  (forall x p pid info, procs net0 !! x = Some p -> dm_get (pr_peers p) pid = Some info ->
     x = hub \/ gossip_addr info = hub) ->
  net_run acts0 net0 = Some net -> net_one_clock 0 acts0 net0 -> net_writes_at hub acts0 net0 ->
  net_run acts net = Some net1 -> net_history acts net = [] ->
  (forall x p, procs net !! x = Some p -> x <> hub -> net_served acts net net1 hub x) ->
  net_run acts' net1 = Some net2 -> net_history acts' net1 = [] ->
  (forall x p, procs net2 !! x = Some p -> repr (net_history acts0 net0) (state (pr_store p)))
  /\ forall x p q, procs net2 !! x = Some p -> procs net2 !! hub = Some q ->
       state (pr_store p) = state (pr_store q).
Proof.
  intros Hni Hstar H0' Hclk Hhub H1' Hq Hsv H2' Hq'.
  destruct (three_parts _ _ _ _ _ _ _ Hni H0' H1' H2') as (ca0 & ca & ca' & c & c1 & c2 & S0 & S1 & S2 & Hx & R1 & R2 & Hrel).
  assert (forall x n, nodes (cluster_of net0) !! x = Some n -> exists p, procs net0 !! x = Some p /\ n = node_of p)
    as Hnode.
  { intros x n. cbn. rewrite lookup_fmap. destruct (procs net0 !! x) as [p|]; [|done]. intros [= <-]. by exists p. }
  destruct (star_converges hub ca0 ca ca' (cluster_of net0) c c1 c2) as [Hc He]; try done.
  - by eapply sim_one_clock.
  - by eapply sim_writes_at.
  - intros x n (p & Hp & ->)%Hnode. destruct (ni_proc _ Hni _ _ Hp) as (uuid & config & now & p0 & Hm & Hst & ->).
    change (gossip_addr_of (pr_config p) = gossip_addr_of config). by rewrite (started_config _ _ _ _ _ Hm Hst).
  - intros x pid info (n & (p & Hp & ->)%Hnode & Hin). by apply (Hstar x p pid).
  - by eapply sim_no_set.
  - intros x n Hn Hne. pose proof S0 as (_ & _ & Hrel0)%net_simulation_run. pose proof (re_nodes _ _ Hrel0 x) as Hn'.
    rewrite Hn in Hn'. destruct (procs net !! x) as [p|] eqn:Hp; [|done]. eapply sim_served; [done|by eapply Hsv].
  - by eapply sim_no_set.
  - rewrite (sim_history _ _ _ _ _ _ S0) in Hc. split; [by eapply related_converged|].
    intros x p q Hp Hq2. destruct (related_node _ _ _ _ Hrel Hp) as (n & Hn & Hs).
    destruct (related_node _ _ _ _ Hrel Hq2) as (m & Hm & Hs').
    rewrite <-(sn_state _ _ Hs), <-(sn_state _ _ Hs'). by apply (He x).
Qed.
(** C18: A process can always serve a peer it knows: whatever the two are in the
    middle of, as long as their gossip sides run and the message that is due
    can be encoded within the limit, there are steps, none of them a write,
    by which the scheduler comes to the peer and the peer merges what is
    pushed, if there is anything to push. *)
Theorem process_can_serve net a p pid info d :
  procs net !! a = Some p -> up p ->
  (pr_sched p = Ticking \/ exists gen t ts, pr_sched p = Serving gen (t :: ts)) ->
  dm_get (pr_peers p) pid = Some info -> (0 < gossip_fanout (pr_config p))%N ->
  a <> gossip_addr info -> procs net !! gossip_addr info = Some d -> up d -> pr_listener d = Accepting ->
  (forall task, round_target canonical_iter (pr_store p) (pr_config p) (pr_generation p) (pid, info) = Some task ->
     exists payload, encode (task_msg task) = Ok payload /\ (N.of_nat (length payload) <= MAX_MESSAGE_BYTES)%N) ->
  exists acts net', net_run acts net = Some net' /\ net_history acts net = []
    /\ net_served acts net net' a (gossip_addr info).
Proof.
  intros Hp Hup Hsc Hinfo Hf Hne Hd Hupd Hli Henc.
  destruct (net_round_to _ _ _ _ _ Hp Hup Hsc Hinfo Hf)
    as (pre & net2 & p2 & ts & Hr2 & Hh2 & Hp2 & Hs2 & Hup2 & Est & Eco & Hoth).
  pose proof (exec_target _ _ _ _ _ _ Hp2 Hup2 Hs2) as E3. cbv zeta in E3. rewrite Est, Eco in E3. set (push := NTarget a canonical_iter) in *.
  assert (forall rest net', net_run (push :: rest) net2 = Some net' -> net_history (push :: rest) net2 = [] ->
    match round_target canonical_iter (pr_store p) (pr_config p) (pr_generation p) (pid, info) with
    | Some _ => exists l j d s, links net' !! length (links net2) = Some l /\ lk_to l = Some j
                  /\ procs net' !! lk_dst l = Some d /\ pr_inbound d !! j = Some s /\ has_merged s
    | None => True end ->
    exists acts net', net_run acts net = Some net' /\ net_history acts net = []
      /\ net_served acts net net' a (gossip_addr info)) as Hdone.
  { intros rest net' Hr Hh Hm. exists (pre ++ push :: rest), net'.
    split; [by rewrite (net_run_app _ _ _ _ Hr2)|]. split; [by rewrite (net_history_app _ _ _ _ Hr2), Hh2|].
    exists pre, canonical_iter, rest, net2, p2, (pr_generation p), pid, info, ts. split_and!; try done. by rewrite Est, Eco. }
  destruct (round_target _ _ _ _ _) as [task|] eqn:Ht.
  2: { eapply (Hdone []); [cbn [net_run]; by rewrite E3| |done]. cbn [net_history]. by rewrite E3. }
  cbn [fmap list_fmap] in E3. destruct (Henc _ eq_refl) as (payload & He & Hlen).
  destruct (round_target_Some _ _ _ _ _ _ _ Ht) as (_ & Haddr & _).
  match type of E3 with _ = Some ?n => set (net3 := n) in E3 end.
  destruct (net_deliver net3 (length (links net2)) (mk_link a (length (pr_sends p2)) task None) d payload)
    as (rest & net' & Hr & Hh & l & j & d' & s & Hl & Hj & Hd' & Hs & Hm); try done.
  - by apply list_lookup_middle.
  - unfold lk_dst. cbn [lk_task]. rewrite Haddr. cbn [procs net3]. by rewrite lookup_insert_ne, Hoth.
  - apply (Hdone rest net'); [cbn [net_run]; by rewrite E3|cbn [net_history]; by rewrite E3, Hh|].
    by exists l, j, d', s.
Qed.
End network_convergence.
