(* ===== verification/RpcExamples.v ===== *)
(** The RPC layer at concrete inputs: a printer of compact JSON, a table of
    request lines, and a connection with a subscription. *)
From S2P Require Import Prelude Crdt Replica Broadcast Store StoreConc StoreExamples Config.
From S2P Require Import DashMap Peer Protocol Bincode Manager ProtocolExamples RpcTypes.
From S2P Require Import RpcHandler RpcServer.

(** ** Printing *)

(** The two-character escapes of JSON that the examples can need. *)
Fixpoint json_escape (s : string) : string :=
  match s with
  | EmptyString => EmptyString
  | String.String c s' =>
      let n := Ascii.N_of_ascii c in
      if (n =? 34)%N || (n =? 92)%N then String.String (Ascii.ascii_of_N 92) (String.String c (json_escape s'))
      else if (n =? 10)%N then String.String (Ascii.ascii_of_N 92) (String.String (Ascii.ascii_of_N 110) (json_escape s'))
      else String.String c (json_escape s')
  end.

Definition json_string (s : string) : string := dq +:+ json_escape s +:+ dq.

Definition comma_separated (l : list string) : string :=
  match l with [] => EmptyString | s :: l' => s +:+ String.concat EmptyString ((fun t => "," +:+ t) <$> l') end.

(** Floats are not printed. *)
Fixpoint json_text (v : Value) : result string string :=
  match v with
  | Null => Ok "null"
  | Bool b => Ok (if b then "true" else "false")
  | Num (PosInt n) => Ok (pretty n)
  | Num (NegInt z) => Ok (pretty z)
  | Num (Float _) => Err "float"
  | Str s => Ok (json_string s)
  | Array l =>
      ts ← (fix go l := match l with
                        | [] => Ok []
                        | v :: l' => t ← json_text v; ts ← go l'; Ok (t :: ts)
                        end) l;
      Ok ("[" +:+ comma_separated ts +:+ "]")
  | Object fields =>
      ts ← (fix go l := match l with
                        | [] => Ok []
                        | (k, v) :: l' => t ← json_text v; ts ← go l'; Ok ((json_string k +:+ ":" +:+ t) :: ts)
                        end) fields;
      Ok ("{" +:+ comma_separated ts +:+ "}")
  end.

#[export] Instance response_json : ToJson RpcResponse := fun r =>
  json_text (Object [("jsonrpc", Str (res_jsonrpc r)); ("result", res_result r); ("id", res_id r)]).

#[export] Instance error_json : ToJson RpcError := fun e =>
  json_text (Object [("jsonrpc", Str (err_jsonrpc e));
    ("error", Object (("code", Num (NegInt (code (error e)))) :: ("message", Str (message (error e)))
                      :: match data (error e) with Some d => [("data", d)] | None => [] end));
    ("id", err_id e)]).

#[export] Instance notification_json : ToJson RpcNotification := fun n =>
  json_text (Object [("jsonrpc", Str (ntf_jsonrpc n)); ("method", Str (ntf_method n));
                     ("params", ntf_params n)]).

(** ** Requests *)

Definition request (m : string) (fields : list (string * Value)) (id : option Value) : RpcRequest :=
  mk_request "2.0" m (Object fields) id.
Definition id1 : Value := json_u64 1.

(** The lines of the examples and what they denote. *)
Definition demo_requests : list (string * RpcRequest) :=
  [("SET a x", request "state.set" [("key", Str "a"); ("value", Str "x")] (Some id1));
   ("GET a", request "state.get" [("key", Str "a")] (Some id1));
   ("GET", request "state.get" [] (Some id1));
   ("SUB", request "state.subscribe" [] (Some id1));
   ("KEYS", request "state.keys" [] (Some id1));
   ("DELTA", request "sync.delta" [] (Some id1));
   ("DROP", request "state.drop" [] (Some id1));
   ("QUIET", request "state.set" [("key", Str "a"); ("value", Str "x")] None)].

#[export] Instance request_table : RequestParser := fun raw =>
  match find (fun kv => bool_decide (kv.1 = raw)) demo_requests with
  | Some (_, req) => Ok req
  | None => Err "expected value at line 1 column 1"
  end.

Definition env1 : request_env := mk_env 30000 7 canonical_iter.
Definition h1 : RpcHandler := mk_handler s1 peers1.

(** The text of an answer. *)
Definition text_of (o : outcome (RpcHandler * DispatchResult)) : string :=
  match o with Done (_, Response s) => s | _ => "none" end.

Lemma get_example :
  text_of (dispatch env1 h1 "GET a")
  = quoted "{'jsonrpc':'2.0','result':{'key':'a','value':'two','timestamp':20,'node_id':'node-2'},'id':1}".
Proof. by vm_compute. Qed.

Lemma parse_error_example :
  text_of (dispatch env1 h1 "?")
  = quoted "{'jsonrpc':'2.0','error':{'code':-32700,'message':'expected value at line 1 column 1'},'id':null}".
Proof. by vm_compute. Qed.

Lemma dispatch_replies_witness :
  method (request "state.get" [] (Some id1)) <> "state.subscribe"
  /\ exists id, Some id1 = Some id /\ answers id (handle_state_get h1 (Object []) id1).
Proof.
  exact (dispatch_replies env1 h1 "GET" h1 (Response (handle_state_get h1 (Object []) id1)) eq_refl).
Defined.

Lemma dispatch_errors_witness :
  dispatch env1 h1 "DROP"
  = Done (h1, Response (to_json (RpcError_new METHOD_NOT_FOUND "Method not found: state.drop" id1))).
Proof.
  apply (proj1 (dispatch_errors env1 h1 "DROP" (request "state.drop" [] (Some id1)) id1 eq_refl eq_refl)).
  apply (bool_decide_unpack _). by vm_compute.
Defined.

(** The handler after the write. *)
Definition h1_set : RpcHandler := with_rpc_store h1 s1_set.

Lemma set_then_get_witness :
  exists t w, now_micros 30000 = Done t
    /\ w = join_value (get s1 "a") (mk_lww "x" t "node-1")
    /\ Response (to_json (RpcResponse_ok
         (Object [("timestamp", json_u64 30); ("node_id", Str "node-1")]) id1))
       = Response (to_json (RpcResponse_ok
         (Object [("timestamp", json_u64 (timestamp w)); ("node_id", Str (node_id w))]) id1))
    /\ dispatch env1 h1_set "GET a" = Done (h1_set, Response (to_json (RpcResponse_ok (entry_json "a" w) id1))).
Proof.
  apply (set_then_get env1 env1 h1 h1_set "SET a x" "GET a"
    (request "state.set" [("key", Str "a"); ("value", Str "x")] (Some id1))
    (request "state.get" [("key", Str "a")] (Some id1)) id1 id1 "a" "x"); reflexivity.
Defined.

Lemma sync_delta_transfers_witness :
  exists entries delta,
    dispatch env1 h1 "DELTA" = Done (h1, Response (to_json (RpcResponse_ok
      (Object [("entries", Array entries); ("count", json_u64 (N.of_nat (length entries)))]) id1)))
    /\ mapM entry_of_json entries = Some delta
    /\ (forall key v, (key, v) ∈ delta <-> get s1 key = Some v /\ (0 < timestamp v)%N)
    /\ (0%N = 0%N -> (forall key v, get s1 key = Some v -> (0 < timestamp v)%N) ->
        forall s, state s = ∅ -> state (merge_delta s delta).1 = state s1).
Proof.
  apply (sync_delta_transfers env1 h1 "DELTA" (request "sync.delta" [] (Some id1)) id1); reflexivity.
Defined.

Lemma queries_report_witness :
  exists keys, dispatch env1 h1 "KEYS" = Done (h1, Response (to_json (RpcResponse_ok
      (Object [("keys", Array (Str <$> keys)); ("count", json_u64 (len s1))]) id1)))
    /\ NoDup keys /\ forall key, key ∈ keys <-> exists v, get s1 key = Some v.
Proof.
  apply (proj1 (queries_report env1 h1 "KEYS" (request "state.keys" [] (Some id1)) id1 eq_refl eq_refl)).
  reflexivity.
Defined.

(** ** A connection *)

Definition lf : string := String.String newline EmptyString.
Definition c1 : client := mk_client ("GET a" +:+ lf) EmptyString (Some 0) (Some "a") (mk_writer [] None "reset").

(** The node writes six more entries under "a" and one under "b" before the
    connection gets to its subscription: the channel keeps four. *)
Definition ev_a : StateEvent := mk_event "a" v2.
Definition ev_b : StateEvent := mk_event "b" v1.
Definition burst : list StateEvent := [ev_a; ev_a; ev_b; ev_a; ev_b; ev_a].

Definition turn_result (o : option (outcome (RpcHandler * client * flow))) : RpcHandler * client :=
  match o with Some (Done (h, c, _)) => (h, c) | _ => (h1, c1) end.

Definition event_turn (s : RpcHandler * client) : RpcHandler * client :=
  turn_result (conn_step env1 (ArmEvent EmptyString EmptyString) s.1 s.2).

Definition h2 : RpcHandler := send_all h1 burst.
Definition after n : RpcHandler * client := Nat.iter n event_turn (h2, c1).

(** The notifications of the first turns. *)
Fixpoint pushes_from (k n : nat) : list RpcNotification :=
  match n with 0 => [] | S n' => next_push (after k).1 (after k).2 ++ pushes_from (S k) n' end.

Lemma turns_served n k :
  k + n <= 5 -> serves (after k) [] (pushes_from k n) (after (k + n)).
Proof.
  revert k. induction n as [|n IH]; intros k Hk; [rewrite Nat.add_0_r; constructor|].
  cbn [pushes_from]. apply (serves_step _ [] _ (after (S k)) []).
  - clear IH. do 5 (destruct k as [|k]; [apply (s_event env1 EmptyString EmptyString); reflexivity|]). lia.
  - rewrite <-Nat.add_succ_comm. apply IH. lia.
Qed.

(** A lag of two, then the four events the channel kept, of which two do not
    match the prefix. *)
Lemma burst_pushes : pushes_from 0 5 = [lag 2; state_update "a" v2; state_update "a" v2].
Proof. by vm_compute. Qed.

Lemma burst_served :
  serves (h1, c1) burst [lag 2; state_update "a" v2; state_update "a" v2] ((after 5).1, (after 5).2).
Proof.
  rewrite <-burst_pushes, <-surjective_pairing. change burst with (burst ++ []).
  apply (serves_app _ _ [] (h2, c1)); [apply serves_sends|]. apply (turns_served 5 0). lia.
Qed.

Lemma no_silent_loss_witness :
  exists rx' items,
    subscription (after 5).2 = Some rx'
    /\ bc_view (event_tx s1) 0 ++ burst
       = (items ≫= item_events) ++ bc_view (event_tx (rpc_store (after 5).1)) rx'
    /\ [lag 2; state_update "a" v2; state_update "a" v2] = items ≫= item_push (Some "a")
    /\ (forall missed, ItMissed missed ∈ items -> missed <> []
         /\ (bc_cap (event_tx s1) < N.of_nat (length (bc_view (event_tx s1) 0%nat ++ burst)))%N).
Proof.
  apply (no_silent_loss h1 c1 0 burst _ (after 5).1 (after 5).2); [reflexivity|apply demo_live|].
  apply burst_served.
Defined.

(** Two events only, served as they come. *)
Definition short : list StateEvent := [ev_b; ev_a].
Definition h3 : RpcHandler := send_all h1 short.
Definition caught_up : RpcHandler * client := event_turn (event_turn (h3, c1)).

Lemma short_served : serves (h1, c1) short [state_update "a" v2] (caught_up.1, caught_up.2).
Proof.
  rewrite <-surjective_pairing. change short with (short ++ []).
  apply (serves_app _ _ [] (h3, c1)); [apply serves_sends|].
  assert (next_push h3 c1 ++ next_push (event_turn (h3, c1)).1 (event_turn (h3, c1)).2 ++ []
          = [state_update "a" v2]) as <- by by vm_compute.
  apply (serves_step _ [] _ (event_turn (h3, c1)) []);
    [apply (s_event env1 EmptyString EmptyString); reflexivity|].
  apply (serves_step _ [] _ caught_up [] []);
    [apply (s_event env1 EmptyString EmptyString); reflexivity|constructor].
Qed.

Lemma in_step_subscriber_complete_witness :
  [state_update "a" v2]
  = (fun ev => state_update (ev_key ev) (ev_value ev))
      <$> filter (fun ev => key_matches (Some "a") (ev_key ev)) (bc_view (event_tx s1) 0 ++ short).
Proof.
  apply (proj1 (in_step_subscriber_complete h1 c1 0 short [state_update "a" v2] caught_up.1 caught_up.2
    0 eq_refl (demo_live _ _) short_served)); [|reflexivity|reflexivity].
  by intros n ?%list_elem_of_singleton.
Defined.

Lemma conn_step_output_witness :
  exists lines,
    written (out (turn_result (conn_step env1 ArmLine h1 c1)).2) = [] ++ (lines ≫= line_bytes)
    /\ Continue = Continue
    /\ line (turn_result (conn_step env1 ArmLine h1 c1)).2 = EmptyString
    /\ input (turn_result (conn_step env1 ArmLine h1 c1)).2 = (take_line (input c1)).2
    /\ exists d, dispatch env1 h1 "GET a" = Done (h1, d) /\ lines = reply_lines d.
Proof.
  exact (conn_step_output env1 ArmLine h1 c1 h1 (turn_result (conn_step env1 ArmLine h1 c1)).2
           Continue eq_refl eq_refl).
Defined.

Lemma request_line_survival_witness :
  conn_step env1 ArmLine h1 c1
  = Some (serve_line env1 h1 (mk_client EmptyString ("GET a" +:+ lf) (Some 0) (Some "a") (mk_writer [] None "reset"))).
Proof.
  apply (proj1 (request_line_survival env1 env1 h1 c1 "GET" " a" EmptyString EmptyString h1 c1
                  eq_refl eq_refl eq_refl)).
Defined.

(** The request read up to its line feed when an event is served, and
    dropped: after the two turns the client has had the event, no answer. *)
Lemma dropped_request_example :
  let s := turn_result (conn_step env1 (ArmEvent "GET a" EmptyString) (send_all h1 [ev_a]) c1) in
  let s' := turn_result (conn_step env1 ArmLine s.1 s.2) in
  input s'.2 = EmptyString
  /\ written (out s'.2)
     = match to_string (state_update "a" v2) with Ok t => line_bytes t | Err _ => [] end.
Proof. split; by vm_compute. Qed.
