(* ===== verification/ProcessExamples.v ===== *)
(** A run of a process: it starts, serves a subscriber and a writer, merges a
    gossip message, starts a push and is shut down.  The properties of the
    process are applied to it. *)
From S2P Require Import Prelude Crdt Replica Broadcast Store StoreConc StoreExamples Config.
From S2P Require Import DashMap Peer Protocol Bincode Manager ProtocolExamples RpcTypes.
From S2P Require Import RpcHandler RpcServer RpcExamples Process ProcessLemmas Shutdown.
From S2P Require Import Subscribers Transcript Delivery ClientReplica.

(** ** The run *)

Definition pconfig : Config := mk_config "P" 7070 7071 (Some "node-p") ["A:7071"] 1000 3 4.

(** The state when [main] waits for Ctrl-C. *)
Definition p_start : Proc :=
  match main_start "uuid" pconfig with
  | Done p => p
  | Panic _ => mk_proc pconfig s1 dm_new 0 false Returned Stopped [] false Stopped [] SchedStopped []
  end.

Lemma p_started : main_start "uuid" pconfig = Done p_start.
Proof. reflexivity. Qed.

Definition open_socket : writer := mk_writer [] None "reset".

(** A client subscribes. *)
Definition acts_sub : list paction :=
  [PRpcBind (Ok tt); PGossipStart (fun _ => 0%N); PListenBind (Ok tt); PSchedStart;
   PRpcAccept (Ok ("SUB" +:+ lf, open_socket)); PTurn 0 env1 ArmLine].

(** What "node-1" pushes. *)
Definition gossip1 : GossipMessage := mk_msg "node-1" "A:7071" [("b", v2)] 0.
Definition gossip1_bytes : list byte := put gossip1.

(** Another client writes "a"; "node-1" pushes "b"; the subscriber is served. *)
Definition acts_work : list paction :=
  [PRpcAccept (Ok ("SET a x" +:+ lf, open_socket)); PTurn 1 env1 ArmLine;
   PListenAccept (Ok (mk_reader (frame gossip1_bytes) "eof", open_socket));
   PInbound 0 5; PInbound 0 6; PInbound 0 7;
   PTurn 0 env1 (ArmEvent EmptyString EmptyString); PTurn 0 env1 (ArmEvent EmptyString EmptyString)].

(** A round starts, Ctrl-C comes. *)
Definition acts_stop : list paction :=
  [PTick no_shuffle; PTarget canonical_iter; PCtrlC (Ok tt)].

Definition run_from (acts : list paction) (p : Proc) : Proc := default p (prun acts p).

Definition p_sub : Proc := run_from acts_sub p_start.
Definition p_work : Proc := run_from acts_work p_sub.
Definition p_stop : Proc := run_from acts_stop p_work.

Lemma run_ok acts (p : Proc) :
  match prun acts p with Some _ => true | None => false end = true -> prun acts p = Some (run_from acts p).
Proof. unfold run_from. by destruct (prun acts p). Qed.

Lemma sub_run : prun acts_sub p_start = Some p_sub.
Proof. apply run_ok. by vm_compute. Qed.
Lemma work_run : prun acts_work p_sub = Some p_work.
Proof. apply run_ok. by vm_compute. Qed.
Lemma stop_run : prun acts_stop p_work = Some p_stop.
Proof. apply run_ok. by vm_compute. Qed.

Lemma all_run : prun (acts_sub ++ acts_work ++ acts_stop) p_start = Some p_stop.
Proof. rewrite prun_app, sub_run, prun_app, work_run. apply stop_run. Qed.

(** The client of an open connection. *)
Definition client_at (p : Proc) (i : nat) : client :=
  match pr_conns p !! i with Some rc => conn_client rc | None => c1 end.

Definition is_open (p : Proc) (i : nat) : bool :=
  match pr_conns p !! i with Some (mk_rpc_conn _ ConnOpen) => true | _ => false end.

Lemma open_at p i : is_open p i = true -> conn_at p i (client_at p i).
Proof. unfold is_open, conn_at, client_at. by destruct (pr_conns p !! i) as [[c []]|]. Qed.

Lemma requests_ok i acts p :
  forallb (fun raw => negb (is_subscribe raw)) (over_run (requests i) acts p) = true ->
  Forall not_subscribing (over_run (requests i) acts p).
Proof.
  intros Hb. apply Forall_forall. intros raw Hin%list_elem_of_In.
  rewrite forallb_forall in Hb. apply Hb in Hin. by apply negb_true_iff in Hin.
Qed.

#[local] Opaque p_start p_sub p_work p_stop.

(** ** The properties there *)

Lemma work_requests : Forall not_subscribing (over_run (requests 0) acts_work p_sub).
Proof. apply requests_ok. by vm_compute. Qed.
Lemma sub_open : conn_at p_sub 0 (client_at p_sub 0).
Proof. apply open_at. by vm_compute. Qed.
Lemma work_open : conn_at p_work 0 (client_at p_work 0).
Proof. apply open_at. by vm_compute. Qed.

Definition set_x : StateEvent := mk_event "a" (mk_lww "x" 30 "node-p").
Definition got_b : StateEvent := mk_event "b" v2.

Lemma work_announced : over_run announced acts_work p_sub = [set_x; got_b].
Proof. by vm_compute. Qed.

Lemma process_store_history_witness :
  repr [("a", mk_lww "x" 30 "node-p"); ("b", v2)] (state (pr_store p_stop)).
Proof.
  assert (over_run accepted (acts_sub ++ acts_work ++ acts_stop) p_start
          = [("a", mk_lww "x" 30 "node-p"); ("b", v2)]) as <- by by vm_compute.
  apply (process_store_history "uuid" pconfig p_start _ p_stop p_started all_run).
Defined.

Lemma every_subscription_accounted_witness :
  exists rx' items,
    subscription (client_at p_work 0) = Some rx'
    /\ bc_view (event_tx (pr_store p_sub)) 0 ++ over_run announced acts_work p_sub
       = (items ≫= item_events) ++ bc_view (event_tx (pr_store p_work)) rx'
    /\ over_run (pushed 0) acts_work p_sub = items ≫= item_push None
    /\ (forall missed, ItMissed missed ∈ items -> missed <> []
         /\ (4 < N.of_nat (length (bc_view (event_tx (pr_store p_sub)) 0%nat ++ over_run announced acts_work p_sub)))%N).
Proof.
  apply (every_subscription_accounted "uuid" pconfig p_start acts_sub p_sub acts_work p_work 0
    (client_at p_sub 0) (client_at p_work 0) 0 p_started sub_run work_run sub_open);
    [by vm_compute|apply work_open|apply work_requests].
Defined.

Lemma subscriber_in_step_sees_all_witness :
  over_run (pushed 0) acts_work p_sub
  = (fun ev => state_update (ev_key ev) (ev_value ev))
      <$> filter (fun ev => key_matches None (ev_key ev))
            (bc_view (event_tx (pr_store p_sub)) 0 ++ over_run announced acts_work p_sub).
Proof.
  apply (subscriber_in_step_sees_all "uuid" pconfig p_start acts_sub p_sub acts_work p_work 0
    (client_at p_sub 0) (client_at p_work 0) 0 0 p_started sub_run work_run sub_open);
    [by vm_compute|apply work_open|by vm_compute|apply work_requests|by vm_compute|by vm_compute].
Defined.

(** A client that sends three requests at once; while it is served the second
    time, it is written the event of its own write, and the read of its
    third line is abandoned after three bytes, which are kept. *)
Definition acts_accept : list paction :=
  [PRpcAccept (Ok ("SUB" +:+ lf +:+ "SET a x" +:+ lf +:+ "GET a" +:+ lf, open_socket))].
Definition acts_pipe : list paction :=
  [PTurn 1 env1 ArmLine; PTurn 1 env1 ArmLine; PTurn 1 env1 (ArmEvent "GET" "GET"); PTurn 1 env1 ArmLine].

Definition p_accept : Proc := run_from acts_accept p_sub.
Definition p_pipe : Proc := run_from acts_pipe p_accept.

Lemma pipe_run : prun acts_pipe p_accept = Some p_pipe.
Proof. apply run_ok. by vm_compute. Qed.

#[local] Opaque p_accept p_pipe.

Lemma connection_transcript_witness :
  over_run (requests 1) acts_pipe p_accept = ["SUB"; "SET a x"; "GET a"]
  /\ length (over_run (transcript 1) acts_pipe p_accept) = 4
  /\ written (out (client_at p_pipe 1))
     = written (out (client_at p_accept 1)) ++ (over_run (transcript 1) acts_pipe p_accept ≫= line_bytes).
Proof.
  destruct (connection_transcript acts_pipe p_accept p_pipe 1 (client_at p_accept 1) (client_at p_pipe 1)
    pipe_run) as (Hq & _ & _ & Hw); [apply open_at; by vm_compute..|by vm_compute|by vm_compute|by vm_compute|].
  split; [rewrite Hq; by vm_compute|]. split; [by vm_compute|exact Hw].
Defined.

(** The two updates, in the order they were announced. *)
Lemma work_pushes :
  over_run (pushed 0) acts_work p_sub
  = [state_update "a" (mk_lww "x" 30 "node-p"); state_update "b" v2].
Proof. by vm_compute. Qed.

Lemma client_replica_tracks_store_witness :
  client_absorbs ∅ (over_run (pushed 0) acts_work p_sub) = state (pr_store p_work)
  /\ absorb_all (client_absorbs ∅ []) [] = (∅ : StateMap).
Proof.
  split; [|done]. assert (state (pr_store p_sub) = ∅) as He by by vm_compute.
  apply (client_replica_tracks_store "uuid" pconfig p_start acts_sub p_sub acts_work p_work 0
    (client_at p_sub 0) (client_at p_work 0) 0 0 ∅ p_started sub_run work_run sub_open);
    [by vm_compute|by vm_compute|by vm_compute|apply work_open|by vm_compute|apply work_requests|
     by intros k v ?%lookup_empty_Some|done|by vm_compute|by vm_compute].
Defined.

(** The greatest timestamp a client has seen is no substitute for 0 in
    [sync.delta]: an entry it missed may be older. *)
Lemma resync_from_newest_misses :
  let r : StateMap := {["a" := v2]} in
  follows m1 r /\ absorb_all r (delta_since_map canonical_iter m1 (timestamp v2)) <> m1
  /\ absorb_all r (delta_since_map canonical_iter m1 0) = m1.
Proof.
  cbv zeta. split; [|split].
  - intros k v [<- <-]%lookup_singleton_Some. by apply behind_lookup.
  - assert (delta_since_map canonical_iter m1 (timestamp v2) = []) as -> by by vm_compute.
    intros Hx%(f_equal (lookup "b")). by vm_compute in Hx.
  - by vm_compute.
Qed.

Definition wind_acts : list paction := wind_down (Ok tt) (fun _ => 0%N) canonical_iter (left p_stop) p_stop.
Definition p_end : Proc := run_from wind_acts p_stop.

Lemma end_run : prun (acts_sub ++ acts_work ++ acts_stop ++ wind_acts) p_start = Some p_end.
Proof. rewrite !app_assoc, prun_app, <-app_assoc, all_run. apply run_ok. by vm_compute. Qed.

#[local] Opaque p_end.

(** [main] has returned while both pushes of the last round are still running,
    and both clients are still connected. *)
Lemma shutdown_does_not_drain :
  pr_main p_end = Returned
  /\ match pr_sends p_end with [SendRunning _; SendRunning _] => true | _ => false end = true
  /\ is_open p_end 0 = true /\ is_open p_end 1 = true.
Proof. split_and!; by vm_compute. Qed.

Lemma shutdown_safe_witness :
  signalled (acts_sub ++ acts_work ++ acts_stop ++ wind_acts) /\ pr_cancelled p_end = true
  /\ pr_rpc p_end = Stopped /\ pr_gossip p_end = true /\ pr_listener p_end = Stopped
  /\ sched_ended (pr_sched p_end) = true /\ forall a, pexec a p_end = None.
Proof.
  apply (proj1 (shutdown_safe "uuid" pconfig p_start _ p_end p_started end_run)). by vm_compute.
Defined.

Lemma shutdown_terminates_witness :
  left p_stop = 5
  /\ exists p', prun wind_acts p_stop = Some p' /\ pr_main p' = Returned /\ kept p_stop p'
       /\ Forall (fun a => winding a = true) wind_acts /\ length wind_acts <= left p_stop.
Proof.
  split; [by vm_compute|].
  apply (proj2 (shutdown_terminates "uuid" pconfig p_start _ p_stop p_started all_run
    ltac:(by vm_compute)) (Ok tt) (fun _ => 0%N) canonical_iter).
Defined.

(** With a fanout of 0 nothing is ever sent. *)
Definition mute_config : Config := mk_config "P" 7070 7071 (Some "node-p") ["A:7071"] 1000 0 4.

Definition p_mute : Proc :=
  match main_start "uuid" mute_config with Done p => p | Panic _ => p_start end.
Definition acts_mute : list paction := [PGossipStart (fun _ => 0%N); PSchedStart; PTick no_shuffle].

Lemma zero_configuration_witness :
  prun acts_mute p_mute = Some (run_from acts_mute p_mute) /\ pr_sends (run_from acts_mute p_mute) = [].
Proof.
  assert (prun acts_mute p_mute = Some (run_from acts_mute p_mute)) as Hr by (apply run_ok; by vm_compute).
  split; [exact Hr|].
  apply (proj2 (zero_configuration "uuid" mute_config) (or_intror eq_refl) p_mute acts_mute _ eq_refl Hr).
Defined.

(** ** A push from "node-1" to the subscriber *)

(** "node-1" as it serves the target "node-p" of a round. *)
Definition p_sender : Proc := with_shared p_start s1 peers1.
Definition target_p : PeerInfo := mk_peer "P:7071" 0 0 0.
Definition task_p : SendTask :=
  default (mk_send_task "" "" gossip1 0) (round_target canonical_iter s1 pconfig 0 ("node-p", target_p)).
Definition payload_p : list byte := put (task_msg task_p).

Definition acts_arrive : list paction := [PListenAccept (Ok (mk_reader (frame payload_p) "eof", open_socket))].
Definition p_arrived : Proc := run_from acts_arrive p_sub.

Lemma arrived_run : prun (acts_sub ++ acts_arrive) p_start = Some p_arrived.
Proof. rewrite prun_app, sub_run. apply run_ok. by vm_compute. Qed.

#[local] Opaque p_arrived.

Lemma update_prints key v : exists text, to_string (state_update key v) = Ok text.
Proof. eexists. reflexivity. Qed.

Lemma arrived_open : conn_at p_arrived 0 (client_at p_arrived 0).
Proof. apply open_at. by vm_compute. Qed.

Lemma arrived_inbound :
  pr_inbound p_arrived !! 0 = Some (InRead (mk_reader (frame payload_p) "eof") open_socket).
Proof. by vm_compute. Qed.

Lemma stored_value_reaches_remote_subscriber_witness :
  exists n p' c' text pre post,
    n <= 2
    /\ prun (PInbound 0 9 :: replicate n (Delivery.event_turn 0 env1 (client_at p_arrived 0))) p_arrived = Some p'
    /\ state (pr_store p') !! "a" = Some v2
    /\ conn_at p' 0 c' /\ to_string (state_update "a" v2) = Ok text
    /\ written (out c') = written (out (client_at p_arrived 0)) ++ pre ++ line_bytes text ++ post.
Proof.
  apply (stored_value_reaches_remote_subscriber update_prints p_sender canonical_iter 0 "node-p" target_p
    task_p "a" v2 payload_p "uuid" pconfig p_start (acts_sub ++ acts_arrive) p_arrived 0 9 "e1" "eof"
    (frame payload_p) open_socket 0 env1 (client_at p_arrived 0) 0);
    [by vm_compute|by vm_compute|reflexivity|by vm_compute|by vm_compute|by vm_compute|apply p_started|
     apply arrived_run|by vm_compute|by vm_compute|apply arrived_inbound| |apply arrived_open|
     by vm_compute|by vm_compute|by vm_compute|by vm_compute|by vm_compute].
  intros (e & He & _). by vm_compute in He.
Defined.
