(* ===== verification/NetworkExamples.v ===== *)
(** Two processes on a network: a client of "node-b" writes, "node-b" pushes to
    its seed "node-a" over a connection, and both hold the value; then
    "node-a" pushes back, and both have served each other. *)
From S2P Require Import Prelude Crdt Replica Broadcast Store StoreConc StoreExamples Config.
From S2P Require Import DashMap Peer Protocol Bincode Manager Cluster RpcTypes RpcHandler RpcServer.
From S2P Require Import RpcExamples Process ProcessLemmas ProcessExamples Network NetworkRefines.
From S2P Require Import NetworkConvergence.

Definition config_a : Config := mk_config "A" 7070 7071 (Some "node-a") [] 1000 3 16.
Definition config_b : Config := mk_config "B" 7070 7071 (Some "node-b") ["A:7071"] 1000 3 16.

(** A process that has created its gossip manager. *)
Definition started (config : Config) : Proc :=
  match main_start "uuid" config with
  | Done p => gossip_start (fun _ => 0%N) p
  | Panic _ => p_start
  end.

Definition net_start : Net :=
  mk_net (<["A:7071" := started config_a]> {["B:7071" := started config_b]}) [].

Definition net_acts : list net_action :=
  [NLocal "A:7071" (PListenBind (Ok tt));
   NLocal "B:7071" (PRpcBind (Ok tt)); NLocal "B:7071" PSchedStart;
   NLocal "B:7071" (PRpcAccept (Ok ("SET a x" +:+ lf, open_socket)));
   NLocal "B:7071" (PTurn 0 env1 ArmLine); NLocal "B:7071" (PTick no_shuffle);
   NTarget "B:7071" canonical_iter; NConnect 0 1000 open_socket "eof";
   NInbound "A:7071" 0 1; NInbound "A:7071" 0 2; NInbound "A:7071" 0 3; NAck 0 4 "eof"].

Definition net_end : Net := default net_start (net_run net_acts net_start).

Lemma net_default acts net :
  match net_run acts net with Some _ => true | None => false end = true ->
  net_run acts net = Some (default net (net_run acts net)).
Proof. by destruct (net_run acts net). Qed.

Lemma net_ran : net_run net_acts net_start = Some net_end.
Proof. apply net_default. by vm_compute. Qed.

(** The connection breaks after ten bytes: the receiver reads an error, the
    sender times out, and nothing is stored. *)
Definition cut_end : Net :=
  default net_start (net_run (take 7 net_acts
    ++ [NConnect 0 10 open_socket "reset"; NInbound "A:7071" 0 1; NFail 0 5 None]) net_start).

Example broken_connection :
  (fun p => (pr_inbound p, state (pr_store p))) <$> procs cut_end !! "A:7071"
  = Some ([InDone (Err "reset") open_socket], ∅).
Proof. by vm_compute. Qed.

Lemma started_initial config p0 :
  main_start "uuid" config = Done p0 -> started config = gossip_start (fun _ => 0%N) p0 ->
  main_alive p0 = true -> pr_gossip p0 = false ->
  exists uuid config' now p1, main_start uuid config' = Done p1
    /\ pexec (PGossipStart now) p1 = Some (started config) /\ gossip_addr_of config = gossip_addr_of config'.
Proof.
  intros Hm -> Ha Hg. exists "uuid", config, (fun _ => 0%N), p0. split; [done|]. split; [|done].
  unfold pexec, pexec_listener. by rewrite Ha, Hg.
Qed.

Lemma net_start_initial : net_initial net_start.
Proof.
  split; [done|..]; cbn [procs net_start].
  - intros a p [[<- <-]|[_ [<- <-]%lookup_singleton_Some]]%lookup_insert_Some.
    + by apply (started_initial config_a _ eq_refl).
    + by apply (started_initial config_b _ eq_refl).
  - intros a b p q [[<- <-]|[_ [<- <-]%lookup_singleton_Some]]%lookup_insert_Some
      [[<- <-]|[_ [<- <-]%lookup_singleton_Some]]%lookup_insert_Some; done.
Qed.

Definition proc_at (a : string) : Proc := default p_start (procs net_end !! a).

Lemma proc_found a :
  match procs net_end !! a with Some _ => true | None => false end = true -> procs net_end !! a = Some (proc_at a).
Proof. unfold proc_at. by destruct (procs net_end !! a). Qed.

#[local] Opaque net_end.

Definition x_value : LwwValue := mk_lww "x" 30 "node-b".

Lemma net_states :
  state (pr_store (proc_at "A:7071")) = {["a" := x_value]}
  /\ state (pr_store (proc_at "B:7071")) = {["a" := x_value]}.
Proof. split; by vm_compute. Qed.

(** The cursor of "node-b" for its seed has moved. *)
Lemma net_cursor :
  last_sync_ts <$> dm_get (pr_peers (proc_at "B:7071")) "A:7071" = Some 30%N.
Proof. by vm_compute. Qed.

Lemma network_refines_cluster_witness :
  initial (cluster_of net_start)
  /\ exists cacts c, run cacts (cluster_of net_start) = Some c /\ related net_end c.
Proof. apply (network_refines_cluster net_acts net_start net_end net_start_initial net_ran). Defined.

Lemma processes_strongly_consistent_witness :
  state (pr_store (proc_at "A:7071")) = state (pr_store (proc_at "B:7071"))
  /\ exists b q, procs net_end !! b = Some q /\ store_node_id (pr_store q) = "node-b"
       /\ dominates (state (pr_store q)) ("a", x_value).
Proof.
  destruct (processes_strongly_consistent net_acts net_start net_end net_start_initial net_ran) as [Ha He].
  destruct net_states as [Sa Sb]. assert (procs net_end !! "A:7071" = Some (proc_at "A:7071")) as Fa
    by (apply proc_found; by vm_compute).
  assert (procs net_end !! "B:7071" = Some (proc_at "B:7071")) as Fb by (apply proc_found; by vm_compute).
  split.
  - apply (He _ _ _ _ Fa Fb); rewrite Sa, Sb; reflexivity.
  - apply (Ha _ _ "a" x_value Fa). by rewrite Sa, lookup_singleton_eq.
Defined.

(** ** Convergence *)

(** The write of the client of "node-b"; its push to "node-a"; the push of
    "node-a", which knows "node-b" by then. *)
Definition written_acts : list net_action :=
  [NLocal "A:7071" (PListenBind (Ok tt)); NLocal "B:7071" (PListenBind (Ok tt));
   NLocal "A:7071" PSchedStart; NLocal "B:7071" PSchedStart; NLocal "B:7071" (PRpcBind (Ok tt));
   NLocal "B:7071" (PRpcAccept (Ok ("SET a x" +:+ lf, open_socket))); NLocal "B:7071" (PTurn 0 env1 ArmLine)].
Definition to_a : list net_action :=
  [NConnect 0 1000 open_socket "eof"; NInbound "A:7071" 0 1; NInbound "A:7071" 0 2; NInbound "A:7071" 0 3; NAck 0 4 "eof";
   NLocal "A:7071" (PTick no_shuffle); NTarget "A:7071" canonical_iter; NConnect 1 1000 open_socket "eof";
   NInbound "B:7071" 0 5].
Definition gossip_acts : list net_action :=
  NLocal "B:7071" (PTick no_shuffle) :: NTarget "B:7071" canonical_iter :: to_a.

Definition net_mid : Net := default net_start (net_run written_acts net_start).
Definition net_done : Net := default net_mid (net_run gossip_acts net_mid).

Lemma mid_ran : net_run written_acts net_start = Some net_mid.
Proof. apply net_default. by vm_compute. Qed.

Lemma done_ran : net_run gossip_acts net_mid = Some net_done.
Proof. apply net_default. by vm_compute. Qed.

Section net_served_check.
Context `{BroadcastLib StateEvent, DashMapLib PeerInfo}.
Context `{Codec GossipMessage, Codec GossipAck}.
Context `{RequestParser, ToJson RpcResponse, ToJson RpcError, ToJson RpcNotification}.

Definition has_mergedb (s : inbound_state) : bool :=
  match s with InMerged _ _ _ | InRegistered _ _ | InDone (Ok _) _ => true | _ => false end.

Definition net_servedb (acts1 : list net_action) (it : hash_iter LwwValue) (net net' : Net) (a b : string) : bool :=
  default false (
    net1 ← net_run acts1 net;
    p ← procs net1 !! a;
    match pr_sched p with
    | Serving gen ((pid, info) :: _) =>
        Some (bool_decide (gossip_addr info = b)
          && match round_target it (pr_store p) (pr_config p) gen (pid, info) with
             | Some _ => default false (
                 l ← links net' !! length (links net1); j ← lk_to l;
                 d ← procs net' !! lk_dst l; s ← pr_inbound d !! j; Some (has_mergedb s))
             | None => true
             end)
    | _ => None
    end).

Lemma net_servedb_sound acts1 it acts2 net net' a b :
  net_servedb acts1 it net net' a b = true -> net_served (acts1 ++ NTarget a it :: acts2) net net' a b.
Proof.
  unfold net_servedb, mbind, option_bind. destruct (net_run acts1 net) as [net1|] eqn:Hr; [|done].
  destruct (procs net1 !! a) as [p|] eqn:Hp; [|done].
  destruct (pr_sched p) as [| |gen [|[pid info] ts]| |] eqn:Hs; try done. cbn [default].
  intros [Ha%bool_decide_eq_true Hm]%andb_true_iff.
  exists acts1, it, acts2, net1, p, gen, pid, info, ts. do 5 (split; [done|]).
  destruct (round_target _ _ _ _ _); [|done].
  destruct (links net' !! _) as [l|]; [|done]. destruct (lk_to l) as [j|] eqn:Hj; [|done].
  destruct (procs net' !! _) as [d|] eqn:Hd; [|done]. destruct (pr_inbound d !! j) as [st|] eqn:Hin; [|done].
  exists l, j, d, st. do 4 (split; [done|]). by destruct st as [| | |[] ].
Qed.
End net_served_check.

Lemma served_b_to_a : net_served gossip_acts net_mid net_done "B:7071" "A:7071".
Proof. by apply (net_servedb_sound [NLocal "B:7071" (PTick no_shuffle)] canonical_iter to_a); vm_compute. Qed.

Lemma served_a_to_b : net_served gossip_acts net_mid net_done "A:7071" "B:7071".
Proof. by apply (net_servedb_sound (take 8 gossip_acts) canonical_iter (drop 9 gossip_acts)); vm_compute. Qed.

Lemma written_history : net_history written_acts net_start = [("a", x_value)].
Proof. by vm_compute. Qed.

Lemma gossip_quiet : net_history gossip_acts net_mid = [].
Proof. by vm_compute. Qed.

Lemma written_clock : net_one_clock 0 written_acts net_start.
Proof. by vm_compute. Qed.

Lemma two_procs x p : procs net_start !! x = Some p -> x = "A:7071" \/ x = "B:7071".
Proof.
  cbn [procs net_start]. intros [[<- _]|[_ [<- _]%lookup_singleton_Some]]%lookup_insert_Some; auto.
Qed.

(** All addresses that processes start with are those of "node-b"'s table. *)
Lemma star_of_b x p pid info :
  procs net_start !! x = Some p -> dm_get (pr_peers p) pid = Some info ->
  x = "B:7071" \/ gossip_addr info = "B:7071".
Proof.
  cbn [procs net_start]. intros [[<- <-]|[_ [<- _]%lookup_singleton_Some]]%lookup_insert_Some; [|by left].
  intros Hin. vm_compute in Hin. discriminate Hin.
Qed.

Lemma written_at_b : net_writes_at "B:7071" written_acts net_start.
Proof. vm_compute. repeat split; done. Qed.

Definition done_at (a : string) : Proc := default p_start (procs net_done !! a).

Lemma done_found a :
  match procs net_done !! a with Some _ => true | None => false end = true -> procs net_done !! a = Some (done_at a).
Proof. unfold done_at. by destruct (procs net_done !! a). Qed.

Lemma mid_procs x p : procs net_mid !! x = Some p -> x = "A:7071" \/ x = "B:7071".
Proof.
  intros Hp. assert (bool_decide (dom (procs net_mid) = {["A:7071"; "B:7071"]}) = true) as Hd by by vm_compute.
  apply bool_decide_eq_true in Hd. apply elem_of_dom_2 in Hp. rewrite Hd in Hp. set_solver.
Qed.

#[local] Opaque net_mid net_done.

Lemma two_processes_converge_witness :
  repr [("a", x_value)] (state (pr_store (done_at "A:7071")))
  /\ state (pr_store (done_at "A:7071")) = state (pr_store (done_at "B:7071")).
Proof.
  rewrite <-written_history.
  destruct (two_processes_converge "A:7071" "B:7071" written_acts gossip_acts [] net_start net_mid net_done net_done
    net_start_initial two_procs mid_ran written_clock done_ran gossip_quiet served_a_to_b served_b_to_a
    eq_refl eq_refl) as [Hr He].
  split; [apply (Hr "A:7071"); apply done_found; by vm_compute|].
  apply (He (done_at "A:7071") (done_at "B:7071")); apply done_found; by vm_compute.
Defined.

Lemma hub_processes_converge_witness :
  state (pr_store (done_at "A:7071")) = state (pr_store (done_at "B:7071")).
Proof.
  destruct (hub_processes_converge "B:7071" written_acts gossip_acts [] net_start net_mid net_done net_done
    net_start_initial star_of_b mid_ran written_clock written_at_b done_ran gossip_quiet) as [_ He].
  - intros x p Hp Hne. destruct (mid_procs _ _ Hp) as [-> | ->]; [apply served_b_to_a|by destruct Hne].
  - done.
  - done.
  - apply (He "A:7071"); apply done_found; by vm_compute.
Defined.

Definition mid_at (a : string) : Proc := default p_start (procs net_mid !! a).

Lemma mid_found a :
  match procs net_mid !! a with Some _ => true | None => false end = true -> procs net_mid !! a = Some (mid_at a).
Proof. unfold mid_at. by destruct (procs net_mid !! a). Qed.

(** What "node-b" has to push at that point fits. *)
Lemma mid_fits task :
  round_target canonical_iter (pr_store (mid_at "B:7071")) (pr_config (mid_at "B:7071"))
    (pr_generation (mid_at "B:7071")) ("A:7071", mk_peer "A:7071" 0 0 0) = Some task ->
  exists payload, encode (task_msg task) = Ok payload /\ (N.of_nat (length payload) <= MAX_MESSAGE_BYTES)%N.
Proof.
  intros (_ & _ & Hd & Hf & Ha & Hg & _)%round_target_Some.
  destruct (task_msg task) as [from addr delta gen']. cbn in Hd, Hf, Ha, Hg.
  assert (delta = [("a", x_value)]) as -> by (rewrite Hd; by vm_compute).
  assert (from = "node-b") as -> by (rewrite Hf; by vm_compute).
  assert (addr = "B:7071") as -> by (rewrite Ha; by vm_compute).
  assert (gen' = 0%N) as -> by (rewrite Hg; by vm_compute).
  eexists. split; [by vm_compute|]. vm_compute. discriminate.
Qed.

Lemma mid_ready :
  up (mid_at "B:7071") /\ up (mid_at "A:7071") /\ pr_sched (mid_at "B:7071") = Ticking
  /\ pr_listener (mid_at "A:7071") = Accepting
  /\ dm_get (pr_peers (mid_at "B:7071")) "A:7071" = Some (mk_peer "A:7071" 0 0 0)
  /\ gossip_fanout (pr_config (mid_at "B:7071")) = 3%N.
Proof. vm_compute. repeat split. Qed.

Lemma process_can_serve_witness :
  exists acts net', net_run acts net_mid = Some net' /\ net_history acts net_mid = []
    /\ net_served acts net_mid net' "B:7071" "A:7071".
Proof.
  destruct mid_ready as (Ub & Ua & Hs & Hl & Hp & Hf).
  assert (procs net_mid !! "B:7071" = Some (mid_at "B:7071")) as Fb by (apply mid_found; by vm_compute).
  assert (procs net_mid !! "A:7071" = Some (mid_at "A:7071")) as Fa by (apply mid_found; by vm_compute).
  apply (process_can_serve net_mid "B:7071" (mid_at "B:7071") "A:7071" (mk_peer "A:7071" 0 0 0) (mid_at "A:7071")
    Fb Ub (or_introl Hs) Hp); [by rewrite Hf|done|exact Fa|exact Ua|exact Hl|apply mid_fits].
Defined.
