(* ===== verification/InterleavingExamples.v ===== *)
(** Two tasks of a process at once: a client writes "a" while a gossip message
    brings "b".  The lock rules and the properties of the interleaving are
    applied to their instructions. *)
From stdpp Require Import relations.
From S2P Require Import Prelude Crdt Replica Broadcast Store StoreConc StoreExamples Config.
From S2P Require Import DashMap Peer Protocol Bincode Manager ProtocolExamples RpcTypes.
From S2P Require Import RpcHandler RpcServer RpcExamples Process ProcessLemmas ProcessExamples.
From S2P Require Import Programs LockRules Interleaving.

(** Both tasks are about to take their step. *)
Definition p_two : Proc :=
  run_from [PRpcAccept (Ok ("SET a x" +:+ lf, open_socket));
            PListenAccept (Ok (mk_reader (frame gossip1_bytes) "eof", open_socket))] p_sub.

Definition both_begun : list sched := [Begin (PTurn 1 env1 ArmLine) p_two; Begin (PInbound 0 5) p_two].

(** The write has the lock and has looked at the key. *)
Definition in_write : list sched := both_begun ++ [Move 0; Move 0].

(** The write releases the lock; the merge takes it; the event of the write is
    sent while the merge is inside its section; the merge ends. *)
Definition to_the_end : list sched :=
  in_write ++ [Move 0; Move 0; Move 0; Move 0; Move 1; Move 1; Move 0; Move 1; Move 1; Move 1;
               Move 1; Move 1; Move 1; Move 1].

Definition pool_after (l : list sched) : pool := default (shared_of p_two, []) (pool_run l (shared_of p_two, [])).

Lemma pool_ok l :
  match pool_run l (shared_of p_two, []) with Some _ => true | None => false end = true ->
  rtc moves (shared_of p_two, []) (pool_after l).
Proof.
  unfold pool_after. destruct (pool_run l _) as [c|] eqn:E; [|done]. intros _. by eapply pool_run_moves.
Qed.

(** The other writer waits, and is not at its await. *)
Definition can_move (i : nat) (c : pool) : bool :=
  match pool_exec (Move i) c with Some _ => true | None => false end.

Example merge_waits :
  can_move 1 (pool_after in_write) = false /\ can_move 0 (pool_after in_write) = true
  /\ (at_await <$> (pool_after in_write).2) = [false; false].
Proof. by split_and!; vm_compute. Qed.

Example both_done : (at_await <$> (pool_after to_the_end).2) = [true; true].
Proof. by vm_compute. Qed.

Lemma outside_ok (c : pool) :
  forallb (fun t => negb (in_section t)) c.2 = true -> forall i t, c.2 !! i = Some t -> in_section t = false.
Proof.
  intros Hf i t Hi. rewrite forallb_forall in Hf.
  apply negb_true_iff, Hf, list_elem_of_In. by eapply list_elem_of_lookup_2.
Qed.

(** ** The properties there *)

#[local] Opaque p_two.

Lemma locks_never_deadlock_witness :
  Acc (flip (istep admitted)) (pool_after in_write) /\ exists c, istep unhindered (pool_after in_write) c.
Proof.
  destruct (locks_never_deadlock (pool_after in_write)) as [Hacc Hlive].
  - exists (shared_of p_two). apply pool_ok. by vm_compute.
  - split; [exact Hacc|]. destruct (Hlive _ (rtc_refl _ _)) as [Hdone|Hstep]; [|exact Hstep].
    exfalso. assert (at_await <$> (pool_after in_write).2 !! 0 = Some false) as Ha by by vm_compute.
    destruct ((pool_after in_write).2 !! 0) as [t|] eqn:E; [|done].
    destruct (Hdone 0 t E) as [Ht _]. simpl in Ha. congruence.
Defined.

Lemma critical_sections_atomic_witness :
  rtc amoves (shared_of p_two, []) (pool_after to_the_end)
  /\ sh_map (pool_after to_the_end).1 = <["a" := mk_lww "x" 30 "node-p"]> {["b" := v2]}.
Proof.
  split; [|by vm_compute].
  apply (critical_sections_atomic (shared_of p_two) (pool_after to_the_end)).
  - apply pool_ok. by vm_compute.
  - apply outside_ok. by vm_compute.
Defined.
